(* ===== verification/_CoqProject ===== *)
-Q . S2P
Prelude.v
Fas1.v
Fas1Codec.v
Crc.v
Fragments.v
Utf8.v
Doubles.v
Settings.v
Handshake.v
Calibration.v
SessionState.v
Session.v
SessionReceive.v
SessionStep.v
SessionFrame.v
Bitmaps.v
SessionInv.v
SessionSafe.v
SessionRun.v
SessionDelivery.v
SessionStates.v
SessionGates.v
Fwav.v
Json.v
Control.v
Encodings.v
Image.v
ImageDelivery.v
Regex.v
SoundProof.v
ProofController.v
Owner.v
AcousticAdapter.v
AdapterProps.v
Sha256.v
Corpus.v
Qualification.v
QualificationProps.v
UiState.v
Texts.v
UiProof.v
Watchdog.v
UiQualification.v
JsonText.v
Report.v
Isolation.v
Selection.v
SelectionProps.v
IsolationProps.v
Coroutine.v
Command.v
CyrinxWorker.v
CyrinxWorkerProps.v
BridgeState.v
BridgePackets.v
BridgeReport.v
Bridge.v
BridgeInv.v
BridgeSafe.v
BridgeRun.v
BridgeProps.v
DemoConfig.v
Audio.v
AudioPlayback.v
AudioHeld.v
QuietProtocol.v
QuietReceiver.v
QuietClient.v
QuietClientProps.v
RunnerConfig.v
Runner.v
PageFrames.v
