(* ===== verification/Prelude.v ===== *)
(** * fipwave: a verification development

    fipwave carries FIPS network packets between two laptops as sound.  On each
    laptop a runner (Node) serves a page and holds a local bridge; the page
    (browser) plays and hears sound; the FIPS daemon gives its packets to the
    bridge and gets those of the peer back.  This library models that program in
    Rocq, file by file as it is written, and proves what it promises.  Names are
    those of the source; a comment at the head of each file says which lines of
    [src/] it models.

    ** How the parts interact

    - The daemon and the page reach the bridge ([server.ts]: [BridgeState],
      [BridgePackets], [BridgeReport], [Bridge]) over web sockets that carry FWAV
      frames ([protocol.ts]: [Fwav]).
    - In the page a packet goes through the packet and session adapters
      ([AcousticAdapter]) into the acoustic session ([acoustic-session.ts]:
      [Handshake], [Calibration], [SessionState], [Session], [SessionReceive],
      [SessionStep]), which cuts it into FAS1 units ([acoustic-protocol.ts]:
      [Fas1], [Settings]) that the Quiet modem plays ([quiet-client.ts]:
      [QuietProtocol], [QuietReceiver], [QuietClient]).
    - A qualification tries the Cyrinx modem first, in the bridge's worker
      ([CyrinxWorker], [Command]) with the page as microphone and loudspeaker
      ([audio.ts]: [Audio]; [cyrinx-case-watchdog.ts]: [Watchdog]), and falls back
      to Quiet: the runner's authoritative session is [Qualification], over the
      committed corpus ([Corpus], [Sha256]); the page's side is [UiQualification].
      Its results become reports, and two reports a selection ([Report],
      [Selection]).
    - The runner asks the daemon ([Control]), joins the answers into the proof of a
      sound peer ([SoundProof], [ProofController]), exchanges attestations
      ([Isolation]), sends the picture ([Image]), is configured by [DemoConfig] and
      closes what it opened ([Owner]).  What the page shows of it is [UiState] and
      [UiProof].

    ** How the code is modelled

    Integers are [Z], truncated where JavaScript truncates ([to_int32], [js_and],
    ...; [Prelude]); fractional numbers are binary64 ([Doubles]); strings are lists
    of UTF-16 code units ([Utf8]), values of unknown type are [value] ([Json]),
    regular expressions run on a backtracking matcher ([Regex]).  Code that may
    throw returns [result]; a method that assigns fields is a computation in [M]
    (state and exceptions: what was assigned before the throw stays), proved with
    [wp], [keeps] (an invariant) and [moves] (a relation between states).
    Objects whose identity matters - sockets, timers, streams, partial cases - are
    numbered, and shared by number.

    What runs when is made explicit.  A timer, a promise reaction or the rest of an
    [async] body is data in the state, and an event says which of them the
    environment runs next and with what answer; a property of every list of events
    is a property of every interleaving.  In [SessionStep], [Control], [Watchdog],
    [Audio], [QuietClient] the events are those of the object; in [Coroutine],
    [CyrinxWorker] and [Bridge] async functions are coroutines that stop at their
    awaits; in [ProofController] a routine is the script of the calls it makes.

    Recursion is structural throughout.  The only fuel is that of a repetition in
    the matcher of [Regex], the length of the text: a round that consumes nothing is
    cut off, so there are no more rounds than units.  [fit_rows] of [Image] counts
    down the rows of a band, and the loop around it is a state machine of which
    [ImageDelivery.image_delivered] shows that it comes to its end.

    ** What the theorems show

    - Acoustic protocol: [Fas1Codec], [Crc], [Fragments], [Settings] - the unit
      codec is a bijection on what it accepts, its checksum equals the bitwise
      definition and catches every burst within 32 consecutive bits, fragments
      reassemble in any order, the committed form of settings is injective.
    - Acoustic session: [Bitmaps], [SessionFrame], [SessionInv], [SessionSafe] are
      the invariant of every reachable session; [SessionDelivery] delivers a packet
      exactly once; [SessionStates], [SessionGates] say what must have happened
      before a session is past its handshake, commits, or is ready; [SessionRun] is
      a pair of sessions executed, from which the witnesses are taken.
    - Seam and modem: [AdapterProps] lets packets pass only while armed, over any
      session that implements the port (a class; the session is an instance);
      [QuietReceiver] reports a case whose fragments come over as committed;
      [QuietClientProps] makes units take turns.
    - Page: [AudioPlayback] plays in order, [AudioHeld] lets the microphone go,
      [Watchdog] reports a case once, [UiQualification] never returns from the
      fallback, [UiProof] claims no reply it has not got; [PageFrames]
      ([main.ts]) has the frames of the page, and the two ends read each other's.
    - Bridge: [BridgeInv] and [BridgeSafe] carry one invariant through every handler
      and every resumption; [BridgeProps] draws from it bounded queues, one proof
      per capability, reports written in their generation and earned passes;
      [BridgeRun] is two executions of it.
      [CyrinxWorkerProps] refines the worker to an abstract contract.
    - Runner: [QualificationProps], [SelectionProps], [IsolationProps],
      [ImageDelivery], and the theorems at the end of [Control], [SoundProof],
      [ProofController], [Owner], [DemoConfig]; [Runner] shows that the
      configuration the runner publishes ([RunnerConfig]: the page's checks of it)
      is admitted by the page and starts the acoustic session.

    ** Parameters and assumptions

    Code outside [src/] is an argument: SHA-256 as the session uses it (no theorem
    needs collision freedom: agreement is stated up to an exhibited collision),
    zlib (inverse on what it compressed, sizes as documented), [JSON.parse], URL
    parsing, the native executables, sockets, the browser's audio objects and the
    Quiet library (a destroyed transmitter does not call [onFinish]).  SHA-256 is
    defined ([Sha256]) where the committed digests are computed.  Date parsing and
    the printing of fractional numbers are parameters too.

    Three theorems hold under a condition on what surrounds the code, which they
    state.  [BridgeProps.armed_on_one_capability]: the random generator has not
    drawn one capability twice, of those drawn so far ([unrepeated]).
    [AudioHeld.microphone_released]: an arm begins only once the arms still in
    progress are of earlier epochs ([arms_anew]); [main.ts] arms at the start and
    after each RESET the bridge accepted, in the epoch that RESET gave, greater
    than those before.  The last clause of [AudioPlayback.playback_in_order]:
    that, and no arm begins while a reset awaits the close of the old context
    ([arms_in_turn]).  [AudioHeld.rearmed_keeps_stream] and
    [AudioPlayback.late_close_admits_replay] show what happens otherwise.

    ** Not modelled

    - [main.ts] but for its frames ([PageFrames]), the session's options
      ([RunnerConfig]) and the evidence predicate ([QuietReceiver.bytePerfect]):
      rendering, the wiring of DOM events, the handlers of the bridge link.
    - Of [runner.ts], the opening and closing of resources, files, git, child
      processes, signals; the HTTP routes and file serving of [server.ts].
    - [demo-image-raster.ts], a fixed picture; [scripts/], build and rehearsal
      tools; [native/] and [vendor/], C++ and Rust programs that run beside this
      one; containers and end-to-end tests.
    - Of the modelled files: freezing of objects (models are values), [reports] read
      from disk, the queue counts in error texts, the gain nodes and the patched
      browser functions of the Quiet runtime, [configureAudioEnvironmentForTests]. *)

From stdpp Require Import base list numbers option strings gmap.
From Stdlib Require Import ZArith Lia.

#[global] Open Scope Z_scope.

(** ** JavaScript numbers that are integers

    A [number] the source treats as an integer is a [Z]; the width is written
    out where the language truncates (bitwise operators work on 32 bits). *)

Definition MAX_SAFE_INTEGER : Z := 9007199254740991.

Definition is_safe_integer (z : Z) : bool :=
  (- MAX_SAFE_INTEGER <=? z) && (z <=? MAX_SAFE_INTEGER).

Definition UINT16_MAX : Z := 65535.
Definition UINT32_MAX : Z := 4294967295.
Definition UINT64_MAX : Z := 18446744073709551615.

Definition to_uint32 (z : Z) : Z := z mod 4294967296.

Definition to_int32 (z : Z) : Z :=
  let u := to_uint32 z in if u <? 2147483648 then u else u - 4294967296.

Definition js_and (a b : Z) : Z := Z.land (to_int32 a) (to_int32 b).
Definition js_or (a b : Z) : Z := Z.lor (to_int32 a) (to_int32 b).
Definition js_xor (a b : Z) : Z := Z.lxor (to_int32 a) (to_int32 b).
Definition js_not (a : Z) : Z := Z.lnot (to_int32 a).
Definition js_shl (a n : Z) : Z := to_int32 (Z.shiftl (to_int32 a) (n mod 32)).
Definition js_ushr (a n : Z) : Z := Z.shiftr (to_uint32 a) (n mod 32).

(** [Math.ceil(a / b)] for the small positive integers the source divides. *)
Definition ceil_div (a b : Z) : Z := (a + b - 1) / b.

(** ** Byte arrays

    A [Uint8Array] or [Buffer] is a list of integers in [0, 255]. *)

Definition byte_ok (b : Z) : Prop := 0 <= b < 256.

Abbreviation bytes := (list Z) (only parsing).

Definition bytes_ok (l : bytes) : Prop := Forall byte_ok l.

Definition zlen {A} (l : list A) : Z := Z.of_nat (length l).

(** Little-endian fields: [le_bytes n v] is what [setUintN(.., true)] stores
    (the value wraps), [le_value] what [getUintN(.., true)] reads back. *)
Fixpoint le_bytes (n : nat) (v : Z) : bytes :=
  match n with
  | O => []
  | S n' => v mod 256 :: le_bytes n' (v / 256)
  end.

Fixpoint le_value (l : bytes) : Z :=
  match l with
  | [] => 0
  | b :: l' => b + 256 * le_value l'
  end.

Definition slice {A} (l : list A) (start stop : nat) : list A :=
  take (stop - start) (drop start l).

Definition read_le (n off : nat) (l : bytes) : Z := le_value (slice l off (off + n)).

(** Writing a run of bytes into a buffer of fixed size, as [set]/[copy] do. *)
Definition write_at (off : nat) (src buf : bytes) : bytes :=
  take off buf ++ src ++ drop (off + length src) buf.

Definition all_zero (l : bytes) : bool := forallb (fun b => b =? 0) l.

(** ** Results and exceptions *)

Inductive result (A : Type) : Type :=
  | Ok (a : A)
  | Throw (message : string).
Arguments Ok {A} a.
Arguments Throw {A} message.

Definition rbind {A B} (m : result A) (f : A -> result B) : result B :=
  match m with Ok a => f a | Throw e => Throw e end.

Definition is_ok {A} (r : result A) : bool :=
  match r with Ok _ => true | Throw _ => false end.

(** [if (test) fail(message);] *)
Definition require_not (test : bool) (message : string) : result unit :=
  if test then Throw message else Ok tt.

Declare Scope js_scope.
Delimit Scope js_scope with js.
#[global] Open Scope js_scope.

Notation "'let?' x := m 'in' k" := (rbind m (fun x => k))
  (at level 10, x name, m at level 100, k at level 200) : js_scope.
Notation "'let?' ' p := m 'in' k" := (rbind m (fun x => match x with p => k end))
  (at level 10, p pattern, m at level 100, k at level 200) : js_scope.
Notation "'reject_if' b 'with' msg ; k" := (rbind (require_not b msg) (fun _ => k))
  (at level 10, b at level 100, msg at level 100, k at level 200) : js_scope.

(** ** Stateful code that may throw

    A method of a class is a computation over the object's state.  As in
    JavaScript, an exception does not undo the assignments made before it. *)

Definition M (S A : Type) : Type := S -> result A * S.

Definition mret {S A} (a : A) : M S A := fun s => (Ok a, s).
Definition mthrow {S A} (message : string) : M S A := fun s => (Throw message, s).
Definition mbind {S A B} (m : M S A) (f : A -> M S B) : M S B := fun s =>
  match m s with
  | (Ok a, s') => f a s'
  | (Throw e, s') => (Throw e, s')
  end.
Definition mget {S} : M S S := fun s => (Ok s, s).
Definition mmodify {S} (f : S -> S) : M S unit := fun s => (Ok tt, f s).
Definition mlift {S A} (r : result A) : M S A := fun s => (r, s).
(** [try { m } catch (error) { h(error) }] *)
Definition mtry {S A} (m : M S A) (h : string -> M S A) : M S A := fun s =>
  match m s with
  | (Throw e, s') => h e s'
  | r => r
  end.

Definition mskip {S} : M S unit := mret tt.

Definition final {S A} (m : M S A) (s : S) : S := snd (m s).
Definition outcome {S A} (m : M S A) (s : S) : result A := fst (m s).

Declare Scope monad_scope.
Delimit Scope monad_scope with monad.
#[global] Open Scope monad_scope.

Notation "'let!' x := m 'in' k" := (mbind m (fun x => k))
  (at level 10, x name, m at level 100, k at level 200) : monad_scope.
Notation "'let!' ' p := m 'in' k" := (mbind m (fun x => match x with p => k end))
  (at level 10, p pattern, m at level 100, k at level 200) : monad_scope.
Notation "m ;; k" := (mbind m (fun _ => k))
  (at level 100, k at level 200, right associativity) : monad_scope.
(** [if (test) return;] *)
Notation "'return_if' b ; k" := (if b then mskip else k)
  (at level 10, b at level 100, k at level 200) : monad_scope.

(** ** Field assignment

    [set p f r] is the record [r] with field [p] changed by [f]; the instance
    is computed from the record's eta expansion. *)

Class Eta (R : Type) := eta_expand : R -> R.
Class Setter {R E} (p : R -> E) := set : (E -> E) -> R -> R.
Arguments set {R E} p {_} f r : simpl never.

Ltac solve_setter :=
  match goal with
  | |- @Setter ?R ?E ?p =>
      let eta := constr:(_ : Eta R) in
      let e := (eval hnf in eta) in
      match (eval pattern p in e) with
      | ?f _ => let b := (eval cbv beta in (fun (upd : E -> E) (r : R) => f (fun r' => upd (p r')) r)) in
                exact b
      end
  end.
#[export] Hint Extern 0 (Setter _) => solve_setter : typeclass_instances.

Notation "p '<==' v" := (mmodify (set p (fun _ => v)))
  (at level 59, no associativity) : monad_scope.

(** ** A program logic for stateful code

    [wp m Q s]: run from [s], [m] ends with a result and a state related by
    [Q], whether it returns or throws. *)

Definition wp {S A} (m : M S A) (Q : result A -> S -> Prop) (s : S) : Prop :=
  Q (outcome m s) (final m s).

(** [keeps I m]: the invariant [I] survives [m], whether it returns or throws. *)
Definition keeps {S A} (I : S -> Prop) (m : M S A) : Prop :=
  forall s, I s -> wp m (fun _ s' => I s') s.

(** What a computation does to the state, as a relation. *)
Definition moves {S A} (R : S -> S -> Prop) (m : M S A) : Prop :=
  forall s, wp m (fun _ s' => R s s') s.

Section ProgramLogic.
Context {S : Type}.
Implicit Types (s : S).

Lemma wp_mono {A} (m : M S A) (Q Q' : result A -> S -> Prop) s :
  wp m Q s -> (forall r s', Q r s' -> Q' r s') -> wp m Q' s.
Proof. unfold wp. auto. Qed.

Lemma wp_and {A} (m : M S A) (Q Q' : result A -> S -> Prop) s :
  wp m Q s -> wp m Q' s -> wp m (fun r s' => Q r s' /\ Q' r s') s.
Proof. done. Qed.

Lemma wp_elim {A} (m : M S A) (Q : result A -> S -> Prop) s : wp m Q s -> Q (outcome m s) (final m s).
Proof. done. Qed.

(** For code that is a function of the state as it stands. *)
Lemma wp_run {A} (m : M S A) (Q : result A -> S -> Prop) s : Q (outcome m s) (final m s) -> wp m Q s.
Proof. done. Qed.

Lemma wp_ret {A} (a : A) Q s : Q (Ok a) s -> wp (mret a) Q s.
Proof. done. Qed.

Lemma wp_throw {A} e (Q : result A -> S -> Prop) s : Q (Throw e) s -> wp (mthrow e) Q s.
Proof. done. Qed.

Lemma wp_get Q s : Q (Ok s) s -> wp mget Q s.
Proof. done. Qed.

Lemma wp_modify f Q s : Q (Ok tt) (f s) -> wp (mmodify f) Q s.
Proof. done. Qed.

Lemma wp_lift {A} (r : result A) Q s : Q r s -> wp (mlift r) Q s.
Proof. done. Qed.

Lemma wp_bind {A B} (m : M S A) (f : A -> M S B) Q s :
  wp m (fun r s' => match r with Ok a => wp (f a) Q s' | Throw e => Q (Throw e) s' end) s ->
  wp (mbind m f) Q s.
Proof. unfold wp, mbind, outcome, final. destruct (m s) as [[a|e] s']; cbn; auto. Qed.

(** The first two steps of a sequence, as one. *)
Lemma wp_pair {A B C} (m : M S A) (f : A -> M S B) (g : B -> M S C) Q s :
  wp (mbind m f) (fun r s' => match r with Ok b => wp (g b) Q s' | Throw e => Q (Throw e) s' end) s ->
  wp (mbind m (fun a => mbind (f a) g)) Q s.
Proof. unfold wp, mbind, outcome, final. destruct (m s) as [[a|e] s']; cbn; [|done]. by destruct (f a s') as [[b|e] s'']. Qed.

Lemma wp_try {A} (m : M S A) (h : string -> M S A) Q s :
  wp m (fun r s' => match r with Ok a => Q (Ok a) s' | Throw e => wp (h e) Q s' end) s ->
  wp (mtry m h) Q s.
Proof. unfold wp, mtry, outcome, final. destruct (m s) as [[a|e] s']; cbn; auto. Qed.

Lemma wp_moves (R : S -> S -> Prop) {A} (m : M S A) (Q : result A -> S -> Prop) s :
  moves R m -> (forall r s', R s s' -> Q r s') -> wp m Q s.
Proof. intros Hm HQ. eapply wp_mono; [apply Hm|done]. Qed.

Lemma wp_keeps (I : S -> Prop) {A} (m : M S A) (Q : result A -> S -> Prop) s :
  keeps I m -> I s -> (forall r s', I s' -> Q r s') -> wp m Q s.
Proof. intros Hm HI HQ. eapply wp_mono; [by apply Hm|done]. Qed.

(** Relations that compose. *)
Section Moves.
Context (R : S -> S -> Prop) `{!Reflexive R, !Transitive R}.

Lemma moves_ret {A} (a : A) : moves R (mret a).
Proof. intros s. by apply wp_ret. Qed.

Lemma moves_throw {A} e : moves R (mthrow (A:=A) e).
Proof. intros s. by apply wp_throw. Qed.

Lemma moves_get : moves R mget.
Proof. intros s. by apply wp_get. Qed.

Lemma moves_lift {A} (r : result A) : moves R (mlift r).
Proof. intros s. by apply wp_lift. Qed.

Lemma moves_modify f : (forall s, R s (f s)) -> moves R (mmodify f).
Proof. intros H s. by apply wp_modify. Qed.

Lemma moves_bind {A B} (m : M S A) (f : A -> M S B) :
  moves R m -> (forall a, moves R (f a)) -> moves R (mbind m f).
Proof.
  intros Hm Hf s. apply wp_bind. eapply wp_mono; [apply Hm|]. intros [a|e] s' H; [|done].
  eapply wp_mono; [apply Hf|]. intros r s'' H'. by etransitivity.
Qed.

Lemma moves_try {A} (m : M S A) (h : string -> M S A) :
  moves R m -> (forall e, moves R (h e)) -> moves R (mtry m h).
Proof.
  intros Hm Hf s. apply wp_try. eapply wp_mono; [apply Hm|]. intros [a|e] s' H; [done|].
  eapply wp_mono; [apply Hf|]. intros r s'' H'. by etransitivity.
Qed.
End Moves.
End ProgramLogic.

#[global] Opaque wp.

(** ** JavaScript [Map] and [Set]: association lists in insertion order *)

Section OrderedMap.
Context {K V : Type} `{EqDecision K}.

Fixpoint map_get (k : K) (m : list (K * V)) : option V :=
  match m with
  | [] => None
  | (k', v) :: m' => if decide (k = k') then Some v else map_get k m'
  end.

Definition map_has (k : K) (m : list (K * V)) : bool :=
  match map_get k m with Some _ => true | None => false end.

(** An existing key keeps its place; a new key goes to the end. *)
Fixpoint map_set (k : K) (v : V) (m : list (K * V)) : list (K * V) :=
  match m with
  | [] => [(k, v)]
  | (k', v') :: m' => if decide (k = k') then (k', v) :: m' else (k', v') :: map_set k v m'
  end.

Definition map_delete (k : K) (m : list (K * V)) : list (K * V) :=
  List.filter (fun p => negb (bool_decide (p.1 = k))) m.

(** [while (m.size > n) m.delete(m.keys().next().value)]: the oldest keys go. *)
Definition map_evict (n : nat) (m : list (K * V)) : list (K * V) :=
  drop (length m - n) m.

End OrderedMap.

(** ** Hint databases and tactics

    - [bytes] proves that byte lists are in range and measures their length;
    - [js] rewrites field reads and little-endian round trips;
    - [keeps] carries the invariant-preservation lemmas of the components;
    - [moves] carries the lemmas that bound what an operation changes. *)

Create HintDb bytes.
Create Rewrite HintDb js.
Create HintDb keeps.
Create HintDb moves.

(** Split boolean tests found in hypotheses and the goal. *)
Ltac bool_split :=
  repeat match goal with
  | H : _ && _ = true |- _ => apply andb_prop in H; destruct H
  | H : _ || _ = false |- _ => apply orb_false_elim in H; destruct H
  | H : negb _ = true |- _ => apply negb_true_iff in H
  | H : negb _ = false |- _ => apply negb_false_iff in H
  | H : is_true _ |- _ => unfold is_true in H
  | H : bool_decide _ = true |- _ => apply bool_decide_eq_true_1 in H
  | H : bool_decide _ = false |- _ => apply bool_decide_eq_false_1 in H
  | H : (_ <? _) = true |- _ => apply Z.ltb_lt in H
  | H : (_ <? _) = false |- _ => apply Z.ltb_ge in H
  | H : (_ <=? _) = true |- _ => apply Z.leb_le in H
  | H : (_ <=? _) = false |- _ => apply Z.leb_gt in H
  | H : (_ =? _) = true |- _ => apply Z.eqb_eq in H
  | H : (_ =? _) = false |- _ => apply Z.eqb_neq in H
  end.

(** A chain of guarded [result]s that came out [Ok]: every guard was passed. *)
Ltac result_inv :=
  repeat match goal with
  | H : Ok _ = Ok _ |- _ => injection H; clear H; intros; subst
  | H : Throw _ = Ok _ |- _ => discriminate H
  | H : Ok _ = Throw _ |- _ => discriminate H
  | H : rbind (require_not ?b _) _ = Ok _ |- _ =>
      let E := fresh "G" in
      unfold require_not at 1 in H; destruct b eqn:E; cbn [rbind] in H; [discriminate H|]
  | H : rbind ?m _ = Ok _ |- _ =>
      let E := fresh "R" in
      destruct m eqn:E; cbn [rbind] in H; [|discriminate H]
  end.

(** ** Lemmas: integers *)

Lemma js_and_nonneg a b : 0 <= a < 2147483648 -> 0 <= b < 2147483648 -> js_and a b = Z.land a b.
Proof.
  intros Ha Hb. unfold js_and, to_int32, to_uint32.
  rewrite !Z.mod_small by lia.
  destruct (Z.ltb_spec a 2147483648), (Z.ltb_spec b 2147483648); try lia; done.
Qed.

Lemma to_uint32_small a : 0 <= a < 4294967296 -> to_uint32 a = a.
Proof. intros. unfold to_uint32. apply Z.mod_small. lia. Qed.

Lemma to_int32_small a : 0 <= a < 2147483648 -> to_int32 a = a.
Proof.
  intros. unfold to_int32. rewrite to_uint32_small by lia.
  destruct (Z.ltb_spec a 2147483648); lia.
Qed.

Lemma ceil_div_spec a b : 0 < b -> b * (ceil_div a b - 1) < a <= b * ceil_div a b.
Proof.
  intros Hb. unfold ceil_div.
  pose proof (Z.div_mod (a + b - 1) b ltac:(lia)).
  pose proof (Z.mod_pos_bound (a + b - 1) b Hb). nia.
Qed.

Lemma ceil_div_unique a b q : 0 < b -> b * (q - 1) < a <= b * q -> ceil_div a b = q.
Proof. intros Hb H. pose proof (ceil_div_spec a b Hb). nia. Qed.

(** ** Lemmas: byte lists *)

Lemma length_le_bytes n v : length (le_bytes n v) = n.
Proof. revert v. induction n; intros; cbn; [done|]. by rewrite IHn. Qed.

Lemma le_bytes_ok n v : bytes_ok (le_bytes n v).
Proof.
  revert v. induction n; intros; cbn; constructor; [|apply IHn].
  unfold byte_ok. apply Z.mod_pos_bound. lia.
Qed.

Lemma le_value_le_bytes n v : le_value (le_bytes n v) = v mod 256 ^ Z.of_nat n.
Proof.
  revert v. induction n as [|n IH]; intros.
  - cbn. by rewrite Z.mod_1_r.
  - cbn [le_bytes le_value]. rewrite IH, Nat2Z.inj_succ, Z.pow_succ_r by lia.
    rewrite Z.rem_mul_r by (try apply Z.pow_nonzero; lia). lia.
Qed.

Lemma le_bytes_le_value l : bytes_ok l -> le_bytes (length l) (le_value l) = l.
Proof.
  induction 1 as [|b l Hb Hl IH]; [done|]. unfold byte_ok in Hb. cbn [length le_value le_bytes].
  replace (b + 256 * le_value l) with (le_value l * 256 + b) by lia.
  rewrite Z.div_add_l, (Z.div_small b), Z.add_0_r, IH by lia. f_equal.
  rewrite Z.add_comm, Z.mod_add, Z.mod_small by lia. done.
Qed.

Lemma le_value_bound l : bytes_ok l -> 0 <= le_value l < 256 ^ zlen l.
Proof.
  unfold zlen.
  induction 1 as [|b l Hb Hl IH]; [cbn; lia|]. unfold byte_ok in Hb. cbn [length le_value].
  rewrite Nat2Z.inj_succ, Z.pow_succ_r by lia. lia.
Qed.

Lemma le_value_inj l1 l2 :
  bytes_ok l1 -> bytes_ok l2 -> length l1 = length l2 -> le_value l1 = le_value l2 -> l1 = l2.
Proof.
  intros H1 H2 Hlen Hv.
  rewrite <- (le_bytes_le_value l1), <- (le_bytes_le_value l2) by done. by rewrite Hlen, Hv.
Qed.

Lemma le_bytes_mod n v1 v2 :
  v1 mod 256 ^ Z.of_nat n = v2 mod 256 ^ Z.of_nat n -> le_bytes n v1 = le_bytes n v2.
Proof.
  intros H. apply le_value_inj; [apply le_bytes_ok..|by rewrite !length_le_bytes|].
  by rewrite !le_value_le_bytes.
Qed.

Lemma le_bytes_inj n v1 v2 :
  le_bytes n v1 = le_bytes n v2 -> v1 mod 256 ^ Z.of_nat n = v2 mod 256 ^ Z.of_nat n.
Proof. intros H. by rewrite <- !le_value_le_bytes, H. Qed.

Lemma bytes_ok_app l1 l2 : bytes_ok (l1 ++ l2) <-> bytes_ok l1 /\ bytes_ok l2.
Proof. apply Forall_app. Qed.

Lemma bytes_ok_slice l a b : bytes_ok l -> bytes_ok (slice l a b).
Proof. intros. unfold slice. by apply Forall_take, Forall_drop. Qed.

Lemma bytes_ok_take n l : bytes_ok l -> bytes_ok (take n l).
Proof. apply Forall_take. Qed.

Lemma bytes_ok_drop n l : bytes_ok l -> bytes_ok (drop n l).
Proof. apply Forall_drop. Qed.

Lemma read_le_bound n off l : bytes_ok l -> 0 <= read_le n off l < 256 ^ Z.of_nat n.
Proof.
  intros H. unfold read_le.
  pose proof (le_value_bound _ (bytes_ok_slice l off (off + n) H)) as Hb.
  unfold zlen, slice in Hb. rewrite length_take, length_drop in Hb.
  split; [apply Hb|]. eapply Z.lt_le_trans; [apply Hb|].
  apply Z.pow_le_mono_r; lia.
Qed.

(** Reading a field at the front of a buffer, and stepping over one. *)
Lemma read_le_here n v l : 0 <= v < 256 ^ Z.of_nat n -> read_le n 0 (le_bytes n v ++ l) = v.
Proof.
  intros. unfold read_le, slice. cbn [Nat.add]. rewrite drop_0, Nat.sub_0_r.
  rewrite take_app_length' by (by rewrite length_le_bytes).
  rewrite le_value_le_bytes. by apply Z.mod_small.
Qed.

Lemma read_le_here_end n v : 0 <= v < 256 ^ Z.of_nat n -> read_le n 0 (le_bytes n v) = v.
Proof. intros. rewrite <- (app_nil_r (le_bytes n v)). by apply read_le_here. Qed.

Lemma read_le_skip n off l1 l2 :
  (length l1 <= off)%nat -> read_le n off (l1 ++ l2) = read_le n (off - length l1) l2.
Proof.
  intros. unfold read_le, slice. rewrite drop_app_ge by done. f_equal. f_equal. lia.
Qed.

Lemma read_le_skip_field n off k v l :
  (k <= off)%nat -> read_le n off (le_bytes k v ++ l) = read_le n (off - k) l.
Proof. intros. rewrite read_le_skip; rewrite length_le_bytes; done. Qed.

Lemma read_le_skip_byte n off b l : read_le n (S off) (b :: l) = read_le n off l.
Proof. done. Qed.

Lemma slice_skip {A} off stop (l1 l2 : list A) :
  (length l1 <= off)%nat -> slice (l1 ++ l2) off stop = slice l2 (off - length l1) (stop - length l1).
Proof. intros. unfold slice. rewrite drop_app_ge by done. f_equal. lia. Qed.

Lemma slice_here {A} n (l1 l2 : list A) : length l1 = n -> slice (l1 ++ l2) 0 n = l1.
Proof. intros <-. unfold slice. rewrite drop_0, Nat.sub_0_r. by apply take_app_length. Qed.

Lemma drop_skip {A} off (l1 l2 : list A) :
  (length l1 <= off)%nat -> drop off (l1 ++ l2) = drop (off - length l1) l2.
Proof. intros. by apply drop_app_ge. Qed.

Lemma length_slice {A} (l : list A) a b : (b <= length l)%nat -> length (slice l a b) = (b - a)%nat.
Proof. intros. unfold slice. rewrite length_take, length_drop. lia. Qed.

Lemma le_bytes_read_le n off l :
  bytes_ok l -> (off + n <= length l)%nat -> le_bytes n (read_le n off l) = slice l off (off + n).
Proof.
  intros. unfold read_le.
  rewrite <- (le_bytes_le_value (slice l off (off + n))) at 2 by (by apply bytes_ok_slice).
  rewrite length_slice by done. f_equal. lia.
Qed.

Lemma all_zero_false l : all_zero l = false <-> exists b, b ∈ l /\ b <> 0.
Proof.
  unfold all_zero. split.
  - intros H. induction l as [|b l IH]; [done|]. cbn in H. apply andb_false_iff in H as [H|H].
    + exists b. bool_split. split; [by apply list_elem_of_here|done].
    + destruct (IH H) as (b' & ? & ?). exists b'. split; [by apply list_elem_of_further|done].
  - intros (b & Hb & Hz). apply not_true_is_false. intros H.
    rewrite forallb_forall in H. apply Hz, Z.eqb_eq, H, list_elem_of_In, Hb.
Qed.

Lemma slice_join {A} (l : list A) a b c :
  (a <= b <= c)%nat -> slice l a b ++ slice l b c = slice l a c.
Proof.
  intros. unfold slice.
  replace (drop b l) with (drop (b - a) (drop a l)) by (rewrite drop_drop; f_equal; lia).
  rewrite take_take_drop. f_equal. lia.
Qed.

Lemma slice_take {A} n (l : list A) : slice l 0 n = take n l.
Proof. unfold slice. by rewrite drop_0, Nat.sub_0_r. Qed.

Lemma byte_read off l b :
  bytes_ok l -> (off + 1 <= length l)%nat -> read_le 1 off l = b -> slice l off (off + 1) = [b].
Proof.
  intros Hl Hlen <-. rewrite <- le_bytes_read_le by done. cbn.
  pose proof (read_le_bound 1 off l Hl). rewrite Z.mod_small by (cbn in *; lia). done.
Qed.

Lemma map_fmap {A B} (f : A -> B) (l : list A) : map f l = f <$> l.
Proof. induction l; cbn; [done|]. by f_equal. Qed.

Lemma NoDup_map_of_nat n : NoDup (map Z.of_nat (seq 0 n)).
Proof. rewrite map_fmap. apply NoDup_fmap_2; [intros ???; lia|]. apply NoDup_seq. Qed.

(** ** Lemmas: ordered maps *)

Section OrderedMapLemmas.
Context {K V : Type} `{EqDecision K}.
Implicit Types (k : K) (v : V) (m : list (K * V)).

Lemma map_has_keys k m : map_has k m = true <-> k ∈ m.*1.
Proof.
  unfold map_has. induction m as [|[k' v'] m IH]; cbn; [by split; [|intros ?%elem_of_nil]|].
  rewrite elem_of_cons. destruct (decide (k = k')); [tauto|]. rewrite IH. tauto.
Qed.

Lemma map_set_new k v m : map_has k m = false -> map_set k v m = m ++ [(k, v)].
Proof.
  unfold map_has. induction m as [|[k' v'] m IH]; cbn; [done|].
  destruct (decide (k = k')); [done|]. intros. by rewrite IH.
Qed.

Lemma map_get_delete k k' m : map_get k (map_delete k' m) = if decide (k = k') then None else map_get k m.
Proof.
  unfold map_delete. induction m as [|[i v] m IH]; cbn; [by case_decide|].
  destruct (bool_decide_reflect (i = k')) as [->|Hi]; cbn; rewrite IH; repeat case_decide; congruence.
Qed.

Lemma map_get_snoc k k' v m :
  map_get k (m ++ [(k', v)]) = match map_get k m with Some x => Some x | None => if decide (k = k') then Some v else None end.
Proof. induction m as [|[i x] m IH]; cbn; [by repeat case_decide|]. by destruct (decide (k = i)). Qed.

Lemma map_delete_elem k k' v m : (k, v) ∈ map_delete k' m <-> (k, v) ∈ m /\ k <> k'.
Proof.
  unfold map_delete. rewrite !list_elem_of_In, filter_In. cbn. by destruct (bool_decide_reflect (k = k')); intuition.
Qed.

Lemma map_get_set k k' v m : map_get k (map_set k' v m) = if decide (k = k') then Some v else map_get k m.
Proof.
  induction m as [|[k1 v1] m IH]; cbn.
  - destruct (decide (k = k')), (decide (k = k')); done.
  - destruct (decide (k' = k1)) as [->|]; cbn.
    + destruct (decide (k = k1)); done.
    + rewrite IH. destruct (decide (k = k1)), (decide (k = k')); congruence.
Qed.

Lemma map_get_app_new k v m : k ∉ m.*1 -> map_get k (m ++ [(k, v)]) = Some v.
Proof.
  induction m as [|[k' v'] m IH]; cbn; [by rewrite decide_True|].
  intros Hk. apply not_elem_of_cons in Hk as [Hne Hk]. rewrite decide_False by done. by apply IH.
Qed.

Lemma map_set_old k v m : map_has k m = true -> (map_set k v m).*1 = m.*1.
Proof.
  unfold map_has. induction m as [|[k' v'] m IH]; cbn; [done|].
  destruct (decide (k = k')); cbn; [done|]. intros. by rewrite IH.
Qed.

Lemma NoDup_map_set k v m : NoDup m.*1 -> NoDup (map_set k v m).*1.
Proof.
  intros H. destruct (map_has k m) eqn:E; [by rewrite map_set_old|].
  rewrite map_set_new, fmap_app by done. apply NoDup_app. split; [done|]. split; [|apply NoDup_singleton].
  intros k' Hk Hs%list_elem_of_singleton. subst. apply map_has_keys in Hk. cbn in Hk. congruence.
Qed.

Lemma map_get_In k v m : NoDup m.*1 -> (k, v) ∈ m -> map_get k m = Some v.
Proof.
  induction m as [|[k' v'] m IH]; cbn; [by intros _ ?%elem_of_nil|].
  intros [Hni Hnd]%NoDup_cons [Heq|Hin]%elem_of_cons.
  - injection Heq as -> ->. by rewrite decide_True.
  - rewrite decide_False; [by apply IH|]. intros ->. apply Hni.
    apply list_elem_of_fmap. by exists (k', v).
Qed.

Lemma map_get_elem k v m : map_get k m = Some v -> (k, v) ∈ m.
Proof.
  induction m as [|[k' v'] m IH]; cbn; [done|].
  destruct (decide (k = k')) as [->|]; [intros [= ->]; apply list_elem_of_here|].
  intros. by apply list_elem_of_further, IH.
Qed.

Lemma map_has_get k m : map_has k m = true <-> exists v, map_get k m = Some v.
Proof.
  unfold map_has. destruct (map_get k m) as [v|]; split; [by exists v|done|done|by intros [? [=]]].
Qed.

Lemma length_map_evict n m : (length (map_evict n m) <= n)%nat.
Proof. unfold map_evict. rewrite length_drop. lia. Qed.

Lemma map_set_same k v m : map_get k m = Some v -> map_set k v m = m.
Proof.
  induction m as [|[k' v'] m IH]; [done|]. cbn [map_get map_set]. destruct (decide (k = k')) as [->|]; [by intros [= ->]|].
  intros H. by rewrite IH.
Qed.

Lemma length_map_delete k m : (length (map_delete k m) <= length m)%nat.
Proof. apply List.filter_length_le. Qed.

End OrderedMapLemmas.

#[export] Hint Resolve le_bytes_ok bytes_ok_slice bytes_ok_take bytes_ok_drop : bytes.
#[export] Hint Rewrite length_le_bytes @length_app @length_take @length_drop : js.

(** Bounds of the form [0 <= v < 256 ^ Z.of_nat n] with [n] a numeral. *)
Ltac field_bound :=
  lazymatch goal with
  | |- 0 <= ?v < 256 ^ Z.of_nat ?n =>
      let x := eval vm_compute in (256 ^ Z.of_nat n) in
      change (256 ^ Z.of_nat n) with x; lia
  end.

(** Evaluate the reads of a buffer that was built field by field. *)
Ltac read_fields :=
  repeat first
    [ rewrite read_le_here by field_bound
    | rewrite read_le_here_end by field_bound
    | rewrite read_le_skip_field by lia; cbn [Nat.sub]
    | rewrite read_le_skip_byte ].

(** ** Tactics for stateful code *)

(** One step of a [wp] goal; [sub] disposes of a call to another operation by
    its lemma from [keeps] or [moves]. *)
Ltac wp_destruct :=
  lazymatch goal with
  | |- wp (if ?b then _ else _) _ _ => let E := fresh "C" in destruct b eqn:E
  | |- wp (match ?x with _ => _ end) _ _ => let E := fresh "C" in destruct x eqn:E
  end.

Ltac wp_prim :=
  lazymatch goal with
  | |- wp (mbind _ _) _ _ => apply wp_bind
  | |- wp (mret _) _ _ => apply wp_ret
  | |- wp (mthrow _) _ _ => apply wp_throw
  | |- wp mget _ _ => apply wp_get
  | |- wp (mmodify _) _ _ => apply wp_modify
  | |- wp mskip _ _ => apply wp_ret
  | |- wp (mtry _ _) _ _ => apply wp_try
  | |- wp (mlift (Ok _)) _ _ => apply wp_lift
  | |- wp (mlift (Throw _)) _ _ => apply wp_lift
  | |- wp (mlift ?r) _ _ => let E := fresh "L" in apply wp_lift; destruct r eqn:E
  | |- wp (let x := _ in _) _ _ => cbv zeta
  | |- _ => wp_destruct
  end.

(** Decompose a [moves] goal down to the calls of other operations. *)
Ltac moves_step :=
  lazymatch goal with
  | |- moves _ (mbind _ _) => apply moves_bind; [exact _|idtac|intros ?]
  | |- moves _ (mtry _ _) => apply moves_try; [exact _|idtac|intros ?]
  | |- moves _ (mret _) => apply moves_ret; exact _
  | |- moves _ mskip => apply moves_ret; exact _
  | |- moves _ (mthrow _) => apply moves_throw; exact _
  | |- moves _ mget => apply moves_get; exact _
  | |- moves _ (mlift _) => apply moves_lift; exact _
  | |- moves _ (let x := _ in _) => cbv zeta
  | |- moves _ (if ?b then _ else _) => destruct b
  | |- moves _ (match ?x with _ => _ end) => destruct x
  end.
