(* ===== verification/Fas1.v ===== *)
(** * FAS1: the acoustic unit envelope ([apps/modem-ui/src/acoustic-protocol.ts])

    The unit record and its validation, the table-driven CRC-32C, the binary
    encoder and decoder, and the fragmentation and reassembly of packets.  The
    theorems are in [Fas1Codec.v], [Crc.v] and [Fragments.v]; the settings
    commitment of the same source file is in [Settings.v]. *)

From stdpp Require Import base list numbers option strings.
From Stdlib Require Import ZArith Lia.
From S2P Require Import Prelude.

(** ** Constants *)

Definition FAS1_MAGIC : bytes := [70; 65; 83; 49].
Definition FAS1_VERSION : Z := 1.
Definition FAS1_HEADER_BYTES : Z := 36.
Definition FAS1_MAX_BODY_BYTES : Z := 217.
Definition FAS1_MAX_UNIT_BYTES : Z := FAS1_HEADER_BYTES + FAS1_MAX_BODY_BYTES.
Definition FAS1_MAX_PACKET_BYTES : Z := 1357.
Definition FAS1_MAX_FRAGMENTS : Z := 16.

(** ** Data *)

Inductive Fas1UnitType :=
  | Hello | HelloAck | Caps | Probe | Report | Commit | CommitAck
  | Data | TurnEnd | Ack | Heartbeat | Reset.

#[export] Instance Fas1UnitType_eq_dec : EqDecision Fas1UnitType.
Proof. solve_decision. Defined.

Definition unit_type_code (t : Fas1UnitType) : Z :=
  match t with
  | Hello => 1 | HelloAck => 2 | Caps => 3 | Probe => 4 | Report => 5 | Commit => 6
  | CommitAck => 7 | Data => 8 | TurnEnd => 9 | Ack => 10 | Heartbeat => 11 | Reset => 12
  end.

(** [isUnitType]: the enum member with this number, if there is one. *)
Definition isUnitType (value : Z) : option Fas1UnitType :=
  match value with
  | 1 => Some Hello | 2 => Some HelloAck | 3 => Some Caps | 4 => Some Probe
  | 5 => Some Report | 6 => Some Commit | 7 => Some CommitAck | 8 => Some Data
  | 9 => Some TurnEnd | 10 => Some Ack | 11 => Some Heartbeat | 12 => Some Reset
  | _ => None
  end.

(** [Fas1Sender]: the CRC-bound sender identity carried in the flags. *)
Definition SENDER_A : Z := 1.
Definition SENDER_B : Z := 2.

Record Fas1Unit := mkUnit {
  u_type : Fas1UnitType;
  u_flags : Z;
  u_sessionId : Z;
  u_sequence : Z;
  u_packetId : Z;
  u_fragmentIndex : Z;
  u_fragmentCount : Z;
  u_packetLength : Z;
  u_body : bytes;
}.

#[export] Instance Fas1Unit_eq_dec : EqDecision Fas1Unit.
Proof. solve_decision. Defined.

Record FragmentPacketInput := mkFragmentInput {
  fp_packet : bytes;
  fp_sessionId : Z;
  fp_sequenceStart : Z;
  fp_packetId : Z;
  fp_sender : Z;
  fp_payloadBytes : option Z;
}.

(** ** Validation *)

Definition fas1 (message : string) : string := ("FAS1 " +:+ message)%string.

Definition assertInteger (value maximum : Z) (name : string) : result unit :=
  require_not (negb (is_safe_integer value) || (value <? 0) || (maximum <? value))
    (fas1 (name +:+ " is out of range")%string).

Definition assertSessionId (value : Z) : result unit :=
  require_not ((value <? 0) || (UINT64_MAX <? value)) (fas1 "session ID is out of range").

Definition assertBody (body : bytes) : result unit :=
  require_not (FAS1_MAX_BODY_BYTES <? zlen body) (fas1 "body exceeds the 217-byte limit").

Definition BODYLESS_TYPES : list Fas1UnitType := [TurnEnd; Ack; Heartbeat; Reset].

Definition bodyless (t : Fas1UnitType) : bool := bool_decide (t ∈ BODYLESS_TYPES).

Definition is_type (t t' : Fas1UnitType) : bool := bool_decide (t = t').

(** The DATA branch of [validateUnit]. *)
Definition validateData (u : Fas1Unit) : result unit :=
  reject_if u_sessionId u =? 0 with fas1 "DATA requires an active session";
  reject_if u_packetId u =? 0 with fas1 "DATA requires a packet ID";
  reject_if (u_fragmentCount u <? 1) || (FAS1_MAX_FRAGMENTS <? u_fragmentCount u)
    with fas1 "DATA fragment count is invalid";
  reject_if u_fragmentCount u <=? u_fragmentIndex u with fas1 "DATA fragment index is invalid";
  reject_if (u_packetLength u <? 1) || (FAS1_MAX_PACKET_BYTES <? u_packetLength u)
    with fas1 "DATA packet length is invalid";
  reject_if zlen (u_body u) <? 1 with fas1 "DATA body must not be empty";
  reject_if u_packetLength u <? zlen (u_body u) with fas1 "DATA body exceeds declared packet length";
  Ok tt.

(** The branch of [validateUnit] for every other type. *)
Definition validateControl (u : Fas1Unit) : result unit :=
  reject_if negb (is_type (u_type u) Hello) && (u_sessionId u =? 0)
    with fas1 "only bootstrap HELLO may use session zero";
  reject_if (negb (is_type (u_type u) Ack) && negb (u_packetId u =? 0))
         || negb (u_fragmentIndex u =? 0) || negb (u_fragmentCount u =? 0)
         || negb (u_packetLength u =? 0)
    with fas1 "control packet geometry must be zero";
  reject_if is_type (u_type u) Ack && (u_packetId u =? 0) with fas1 "ACK requires a packet ID";
  if bodyless (u_type u)
  then require_not (negb (zlen (u_body u) =? 0)) (fas1 "bodyless control unit has a body")
  else require_not (zlen (u_body u) =? 0) (fas1 "control unit body must not be empty").

Definition validateUnit (u : Fas1Unit) : result unit :=
  let? _ := assertInteger (u_flags u) SENDER_B "flags" in
  reject_if negb (u_flags u =? SENDER_A) && negb (u_flags u =? SENDER_B)
    with fas1 "sender flag is invalid";
  let? _ := assertSessionId (u_sessionId u) in
  let? _ := assertInteger (u_sequence u) UINT32_MAX "sequence" in
  let? _ := assertInteger (u_packetId u) UINT32_MAX "packet ID" in
  let? _ := assertInteger (u_fragmentIndex u) UINT16_MAX "fragment index" in
  let? _ := assertInteger (u_fragmentCount u) UINT16_MAX "fragment count" in
  let? _ := assertInteger (u_packetLength u) UINT16_MAX "packet length" in
  let? _ := assertBody (u_body u) in
  if is_type (u_type u) Data then validateData u else validateControl u.

(** ** CRC-32C *)

Definition CRC32C_POLY : Z := 0x82f63b78.

Definition crc_table_bit (value : Z) : Z :=
  if js_and value 1 =? 1 then js_xor (js_ushr value 1) CRC32C_POLY else js_ushr value 1.

Definition crc_table_entry (index : Z) : Z := to_uint32 (Nat.iter 8 crc_table_bit index).

Definition createCrc32cTable : list Z :=
  map (fun i => crc_table_entry (Z.of_nat i)) (seq 0 256).

Definition CRC32C_TABLE : list Z := Eval vm_compute in createCrc32cTable.

Definition crc_step (value byte : Z) : Z :=
  js_xor (nth (Z.to_nat (js_and (js_xor value byte) 255)) CRC32C_TABLE 0) (js_ushr value 8).

Definition crc32c (input : bytes) : Z :=
  to_uint32 (js_xor (foldl crc_step 4294967295 input) 4294967295).

(** ** Encoding and decoding *)

(** The 32 header bytes the CRC covers. *)
Definition fas1_header (u : Fas1Unit) : bytes :=
  FAS1_MAGIC ++ [FAS1_VERSION; unit_type_code (u_type u)] ++ le_bytes 2 (u_flags u)
  ++ le_bytes 8 (u_sessionId u) ++ le_bytes 4 (u_sequence u) ++ le_bytes 4 (u_packetId u)
  ++ le_bytes 2 (u_fragmentIndex u) ++ le_bytes 2 (u_fragmentCount u)
  ++ le_bytes 2 (u_packetLength u) ++ le_bytes 2 (zlen (u_body u)).

Definition crcProtectedBytes (header body : bytes) : bytes := take 32 header ++ body.

Definition encodeFas1 (u : Fas1Unit) : result bytes :=
  let? _ := validateUnit u in
  let header := fas1_header u in
  Ok (header ++ le_bytes 4 (crc32c (crcProtectedBytes header (u_body u))) ++ u_body u).

Definition decodeFas1 (input : bytes) : result Fas1Unit :=
  reject_if (zlen input <? FAS1_HEADER_BYTES) || (FAS1_MAX_UNIT_BYTES <? zlen input)
    with fas1 "unit length is invalid";
  reject_if negb (bool_decide (slice input 0 4 = FAS1_MAGIC)) with fas1 "magic is invalid";
  reject_if negb (read_le 1 4 input =? FAS1_VERSION) with fas1 "version is unsupported";
  match isUnitType (read_le 1 5 input) with
  | None => Throw (fas1 "type is unsupported")
  | Some typeValue =>
    let flags := read_le 2 6 input in
    reject_if negb (flags =? SENDER_A) && negb (flags =? SENDER_B)
      with fas1 "sender flag is invalid";
    let bodyLength := read_le 2 30 input in
    reject_if (FAS1_MAX_BODY_BYTES <? bodyLength)
           || negb (zlen input =? FAS1_HEADER_BYTES + bodyLength)
      with fas1 "declared body length is invalid";
    reject_if negb (crc32c (crcProtectedBytes input (drop 36 input)) =? read_le 4 32 input)
      with fas1 "CRC-32C is invalid";
    let unit := {|
      u_type := typeValue;
      u_flags := flags;
      u_sessionId := read_le 8 8 input;
      u_sequence := read_le 4 16 input;
      u_packetId := read_le 4 20 input;
      u_fragmentIndex := read_le 2 24 input;
      u_fragmentCount := read_le 2 26 input;
      u_packetLength := read_le 2 28 input;
      u_body := drop 36 input |} in
    let? _ := validateUnit unit in
    Ok unit
  end.

(** ** Fragmentation *)

(** The [index]-th fragment of a packet cut every [payloadBytes] bytes. *)
Definition fragment_at (input : FragmentPacketInput) (payloadBytes fragmentCount : Z) (index : nat)
    : Fas1Unit := {|
  u_type := Data;
  u_flags := fp_sender input;
  u_sessionId := fp_sessionId input;
  u_sequence := fp_sequenceStart input + Z.of_nat index;
  u_packetId := fp_packetId input;
  u_fragmentIndex := Z.of_nat index;
  u_fragmentCount := fragmentCount;
  u_packetLength := zlen (fp_packet input);
  u_body := slice (fp_packet input) (index * Z.to_nat payloadBytes) ((index + 1) * Z.to_nat payloadBytes) |}.

Definition fragmentPacket (input : FragmentPacketInput) : result (list Fas1Unit) :=
  reject_if (zlen (fp_packet input) <? 1) || (FAS1_MAX_PACKET_BYTES <? zlen (fp_packet input))
    with fas1 "packet length is invalid";
  let? _ := assertSessionId (fp_sessionId input) in
  reject_if fp_sessionId input =? 0 with fas1 "packet requires an active session";
  let? _ := assertInteger (fp_sequenceStart input) UINT32_MAX "sequence start" in
  let? _ := assertInteger (fp_packetId input) UINT32_MAX "packet ID" in
  reject_if fp_packetId input =? 0 with fas1 "packet requires a packet ID";
  let payloadBytes := default FAS1_MAX_BODY_BYTES (fp_payloadBytes input) in
  let? _ := assertInteger payloadBytes FAS1_MAX_BODY_BYTES "payload bytes" in
  reject_if payloadBytes <? 1 with fas1 "payload bytes are invalid";
  let fragmentCount := ceil_div (zlen (fp_packet input)) payloadBytes in
  reject_if negb (is_safe_integer fragmentCount) || (fragmentCount <? 1)
         || (FAS1_MAX_FRAGMENTS <? fragmentCount)
    with fas1 "fragment count is invalid";
  reject_if UINT32_MAX - (fragmentCount - 1) <? fp_sequenceStart input
    with fas1 "sequence range overflows";
  Ok (map (fragment_at input payloadBytes fragmentCount) (seq 0 (Z.to_nat fragmentCount))).

(** ** Reassembly *)

(** One iteration of the collection loop of [reassemblePacket]. *)
Definition collect_fragment (first : Fas1Unit) (payloadBytes expectedCount : Z)
    (byIndex : list (Z * Fas1Unit)) (fragment : Fas1Unit) : result (list (Z * Fas1Unit)) :=
  let? _ := validateUnit fragment in
  reject_if negb (is_type (u_type fragment) Data)
         || negb (u_sessionId fragment =? u_sessionId first)
         || negb (u_packetId fragment =? u_packetId first)
         || negb (u_packetLength fragment =? u_packetLength first)
         || negb (u_fragmentCount fragment =? u_fragmentCount first)
    with fas1 "fragment collection does not match";
  let expectedLength :=
    if u_fragmentIndex fragment =? expectedCount - 1
    then u_packetLength first - payloadBytes * (expectedCount - 1)
    else payloadBytes in
  reject_if negb (zlen (u_body fragment) =? expectedLength)
    with fas1 "fragment collection body geometry is invalid";
  reject_if map_has (u_fragmentIndex fragment) byIndex
    with fas1 "fragment collection has a duplicate index";
  Ok (map_set (u_fragmentIndex fragment) fragment byIndex).

Fixpoint collect_fragments (first : Fas1Unit) (payloadBytes expectedCount : Z)
    (byIndex : list (Z * Fas1Unit)) (fragments : list Fas1Unit) : result (list (Z * Fas1Unit)) :=
  match fragments with
  | [] => Ok byIndex
  | fragment :: rest =>
      let? byIndex' := collect_fragment first payloadBytes expectedCount byIndex fragment in
      collect_fragments first payloadBytes expectedCount byIndex' rest
  end.

(** The output loop: [output] holds the bytes written so far, its length is
    the source's [offset]. *)
Fixpoint join_fragments (byIndex : list (Z * Fas1Unit)) (packetLength : Z)
    (indexes : list nat) (output : bytes) : result bytes :=
  match indexes with
  | [] => Ok output
  | index :: rest =>
      match map_get (Z.of_nat index) byIndex with
      | None => Throw (fas1 "fragment collection is incomplete or overflows")
      | Some fragment =>
          reject_if packetLength - zlen output <? zlen (u_body fragment)
            with fas1 "fragment collection is incomplete or overflows";
          join_fragments byIndex packetLength rest (output ++ u_body fragment)
      end
  end.

(** The body of [reassemblePacket] once the collection has a first fragment. *)
Definition reassemble_from (first : Fas1Unit) (fragments : list Fas1Unit) (payloadBytes : Z)
    : result bytes :=
  let? _ := assertInteger payloadBytes FAS1_MAX_BODY_BYTES "payload bytes" in
  reject_if payloadBytes <? 1 with fas1 "payload bytes are invalid";
  let? _ := validateUnit first in
  let expectedCount := ceil_div (u_packetLength first) payloadBytes in
  reject_if negb (is_type (u_type first) Data)
         || negb (u_fragmentCount first =? zlen fragments)
         || negb (u_fragmentCount first =? expectedCount)
    with fas1 "fragment collection geometry is invalid";
  let? byIndex := collect_fragments first payloadBytes expectedCount [] fragments in
  let? output := join_fragments byIndex (u_packetLength first)
                   (seq 0 (Z.to_nat (u_fragmentCount first))) [] in
  reject_if negb (zlen output =? u_packetLength first)
    with fas1 "fragment collection declared length is invalid";
  Ok output.

Definition reassemblePacket (fragments : list Fas1Unit) (payloadBytes : Z) : result bytes :=
  reject_if (zlen fragments <? 1) || (FAS1_MAX_FRAGMENTS <? zlen fragments)
    with fas1 "fragment collection is invalid";
  match fragments with
  | [] => Throw (fas1 "fragment collection is invalid")
  | first :: _ => reassemble_from first fragments payloadBytes
  end.
