(* ===== verification/Fas1Codec.v ===== *)
(** * FAS1 codec theorems

    The encoder and decoder of [Fas1.v] are inverse to each other on the
    nose: what is encoded decodes to itself, and whatever decodes is the
    canonical encoding of the unit it decodes to. *)

From stdpp Require Import base list numbers option strings.
From Stdlib Require Import ZArith Lia.
From S2P Require Import Prelude Fas1.

(** ** What validation guarantees *)

Record unit_bounds (u : Fas1Unit) : Prop := {
  ub_flags : u_flags u = SENDER_A \/ u_flags u = SENDER_B;
  ub_session : 0 <= u_sessionId u <= UINT64_MAX;
  ub_sequence : 0 <= u_sequence u <= UINT32_MAX;
  ub_packetId : 0 <= u_packetId u <= UINT32_MAX;
  ub_index : 0 <= u_fragmentIndex u <= UINT16_MAX;
  ub_count : 0 <= u_fragmentCount u <= UINT16_MAX;
  ub_length : 0 <= u_packetLength u <= UINT16_MAX;
  ub_body : zlen (u_body u) <= FAS1_MAX_BODY_BYTES;
}.

Lemma assertInteger_ok value maximum name r :
  assertInteger value maximum name = Ok r -> 0 <= value <= maximum.
Proof. unfold assertInteger, require_not. destruct (_ || _) eqn:E; [done|]. intros _. bool_split. lia. Qed.

Lemma assertInteger_intro value maximum name :
  0 <= value <= maximum -> maximum <= MAX_SAFE_INTEGER -> assertInteger value maximum name = Ok tt.
Proof.
  intros. unfold assertInteger, is_safe_integer, require_not.
  destruct (_ || _) eqn:E; [|done]. exfalso.
  unfold MAX_SAFE_INTEGER in *. rewrite !orb_true_iff, negb_true_iff, andb_false_iff in E.
  rewrite !Z.leb_gt, !Z.ltb_lt in E. lia.
Qed.

Lemma assertSessionId_ok value r : assertSessionId value = Ok r -> 0 <= value <= UINT64_MAX.
Proof. unfold assertSessionId, require_not. destruct (_ || _) eqn:E; [done|]. intros _. bool_split. lia. Qed.

Lemma validateUnit_bounds u r : validateUnit u = Ok r -> unit_bounds u.
Proof.
  unfold validateUnit. intros H. result_inv. clear H.
  repeat match goal with
  | H : assertInteger _ _ _ = Ok _ |- _ => apply assertInteger_ok in H
  | H : assertSessionId _ = Ok _ |- _ => apply assertSessionId_ok in H
  | H : assertBody _ = Ok _ |- _ =>
      unfold assertBody, require_not in H;
      destruct (FAS1_MAX_BODY_BYTES <? _) eqn:?; [discriminate|]; clear H
  end.
  apply andb_false_iff in G. bool_split.
  constructor; try done. destruct G; bool_split; auto.
Qed.

Lemma isUnitType_code t : isUnitType (unit_type_code t) = Some t.
Proof. by destruct t. Qed.

Lemma isUnitType_inv v t : isUnitType v = Some t -> unit_type_code t = v.
Proof.
  unfold isUnitType. intros H.
  repeat match type of H with
  | match ?x with _ => _ end = _ => destruct x; try discriminate H
  end; by injection H as <-.
Qed.

Lemma unit_type_code_bound t : 0 <= unit_type_code t < 256.
Proof. destruct t; cbn; lia. Qed.

Lemma crc32c_bound l : 0 <= crc32c l < 4294967296.
Proof. unfold crc32c, to_uint32. apply Z.mod_pos_bound. lia. Qed.

Lemma length_fas1_header u : length (fas1_header u) = 32%nat.
Proof. unfold fas1_header. autorewrite with js. done. Qed.

Lemma fas1_header_ok u : bytes_ok (fas1_header u).
Proof.
  unfold fas1_header. repeat (apply bytes_ok_app; split); auto with bytes.
  - repeat constructor; cbn; lia.
  - repeat constructor; unfold byte_ok, FAS1_VERSION; try lia; apply unit_type_code_bound.
Qed.

Lemma crcProtected_header u rest body :
  crcProtectedBytes (fas1_header u ++ rest) body = fas1_header u ++ body.
Proof. unfold crcProtectedBytes. by rewrite take_app_length' by (by rewrite length_fas1_header). Qed.

Lemma crcProtected_header_only u body :
  crcProtectedBytes (fas1_header u) body = fas1_header u ++ body.
Proof. rewrite <- (app_nil_r (fas1_header u)) at 1. apply crcProtected_header. Qed.

Lemma encodeFas1_eq u raw :
  encodeFas1 u = Ok raw ->
  raw = fas1_header u ++ le_bytes 4 (crc32c (fas1_header u ++ u_body u)) ++ u_body u.
Proof. unfold encodeFas1. intros H. result_inv. by rewrite crcProtected_header_only. Qed.

Lemma encodeFas1_valid u raw : encodeFas1 u = Ok raw -> validateUnit u = Ok tt.
Proof. unfold encodeFas1. intros H. result_inv. by destruct a. Qed.

Lemma length_encodeFas1 u raw :
  encodeFas1 u = Ok raw -> zlen raw = FAS1_HEADER_BYTES + zlen (u_body u).
Proof.
  intros ->%encodeFas1_eq. unfold zlen. rewrite !length_app, length_fas1_header, length_le_bytes.
  unfold FAS1_HEADER_BYTES. lia.
Qed.

(** Every header field of an encoded unit reads back. *)
Lemma fas1_header_fields u rest :
  unit_bounds u ->
  let raw := fas1_header u ++ rest in
  slice raw 0 4 = FAS1_MAGIC /\ read_le 1 4 raw = FAS1_VERSION
  /\ read_le 1 5 raw = unit_type_code (u_type u) /\ read_le 2 6 raw = u_flags u
  /\ read_le 8 8 raw = u_sessionId u /\ read_le 4 16 raw = u_sequence u
  /\ read_le 4 20 raw = u_packetId u /\ read_le 2 24 raw = u_fragmentIndex u
  /\ read_le 2 26 raw = u_fragmentCount u /\ read_le 2 28 raw = u_packetLength u
  /\ read_le 2 30 raw = zlen (u_body u).
Proof.
  intros [Hf Hs Hq Hp Hi Hc Hl Hb]. cbv zeta. unfold fas1_header, FAS1_MAGIC.
  unfold UINT16_MAX, UINT32_MAX, UINT64_MAX, FAS1_MAX_BODY_BYTES in *.
  assert (0 <= zlen (u_body u)) by (unfold zlen; lia).
  assert (0 <= u_flags u < 3) by (unfold SENDER_A, SENDER_B in Hf; lia).
  rewrite <- !app_assoc. cbn [app].
  repeat split; rewrite ?read_le_skip_byte; read_fields; try done.
  unfold read_le. cbn. lia.
Qed.

(** ** Round trips *)

Lemma decode_encode u raw : encodeFas1 u = Ok raw -> decodeFas1 raw = Ok u.
Proof.
  intros He. pose proof (encodeFas1_valid _ _ He) as Hv.
  pose proof (validateUnit_bounds _ _ Hv) as Hb.
  pose proof (length_encodeFas1 _ _ He) as Hlen.
  apply encodeFas1_eq in He as Hraw.
  pose proof (fas1_header_fields u (le_bytes 4 (crc32c (fas1_header u ++ u_body u)) ++ u_body u) Hb) as F.
  cbv zeta in F. rewrite <- Hraw in F.
  destruct F as (F0 & F1 & F2 & F3 & F4 & F5 & F6 & F7 & F8 & F9 & F10).
  assert (Hdrop : drop 36 raw = u_body u).
  { rewrite Hraw, app_assoc, drop_app_length'; [done|]. by rewrite length_app, length_fas1_header, length_le_bytes. }
  assert (Hcrc : read_le 4 32 raw = crc32c (fas1_header u ++ u_body u)).
  { rewrite Hraw, read_le_skip by (by rewrite length_fas1_header).
    rewrite length_fas1_header. cbn [Nat.sub]. apply read_le_here, crc32c_bound. }
  assert (Hprot : crcProtectedBytes raw (u_body u) = fas1_header u ++ u_body u).
  { by rewrite Hraw, crcProtected_header. }
  unfold decodeFas1. rewrite F0, F1, F2, F3, F4, F5, F6, F7, F8, F9, F10, Hdrop, Hcrc, Hprot, Hlen.
  rewrite isUnitType_code, !Z.eqb_refl, bool_decide_eq_true_2 by done. cbn [negb].
  destruct Hb as [Hf _ _ _ _ _ _ Hbody].
  assert (0 <= zlen (u_body u)) by (unfold zlen; lia).
  unfold FAS1_HEADER_BYTES, FAS1_MAX_UNIT_BYTES, FAS1_HEADER_BYTES, FAS1_MAX_BODY_BYTES in *.
  replace (36 + zlen (u_body u) <? 36) with false by (symmetry; apply Z.ltb_ge; lia).
  replace (36 + 217 <? 36 + zlen (u_body u)) with false by (symmetry; apply Z.ltb_ge; lia).
  replace (217 <? zlen (u_body u)) with false by (symmetry; apply Z.ltb_ge; lia).
  assert (Hs : negb (u_flags u =? SENDER_A) && negb (u_flags u =? SENDER_B) = false)
    by (destruct Hf as [-> | ->]; done).
  rewrite Hs. cbn [orb require_not rbind]. destruct u. cbn in *. by rewrite Hv.
Qed.

(** A list split at every field boundary of the 36-byte header. *)
Lemma fas1_raw_fields raw u :
  bytes_ok raw -> (36 <= length raw)%nat ->
  slice raw 0 4 = FAS1_MAGIC -> read_le 1 4 raw = FAS1_VERSION ->
  read_le 1 5 raw = unit_type_code (u_type u) -> read_le 2 6 raw = u_flags u ->
  read_le 8 8 raw = u_sessionId u -> read_le 4 16 raw = u_sequence u ->
  read_le 4 20 raw = u_packetId u -> read_le 2 24 raw = u_fragmentIndex u ->
  read_le 2 26 raw = u_fragmentCount u -> read_le 2 28 raw = u_packetLength u ->
  read_le 2 30 raw = zlen (u_body u) ->
  fas1_header u = take 32 raw.
Proof.
  intros Hok Hlen F0 F1 F2 F3 F4 F5 F6 F7 F8 F9 F10.
  apply byte_read in F1; [|done|lia]. apply byte_read in F2; [|done|lia].
  unfold fas1_header. change [?a; ?b] with ([a] ++ [b]).
  rewrite <- F0, <- F1, <- F2, <- F3, <- F4, <- F5, <- F6, <- F7, <- F8, <- F9, <- F10.
  rewrite !le_bytes_read_le by (done || lia). cbn [Nat.add].
  rewrite <- !app_assoc, !slice_join by lia. apply slice_take.
Qed.

Lemma encode_decode raw u : bytes_ok raw -> decodeFas1 raw = Ok u -> encodeFas1 u = Ok raw.
Proof.
  intros Hok. unfold decodeFas1. intros H. result_inv.
  destruct (isUnitType _) as [t|] eqn:Ht; [|done]. result_inv. apply isUnitType_inv in Ht.
  set (u := {| u_type := t |}) in *. bool_split.
  unfold FAS1_HEADER_BYTES in *. rename G4 into Hcrc.
  assert (Hlen : (36 <= length raw)%nat) by (unfold zlen in *; lia).
  assert (Hbody : read_le 2 30 raw = zlen (u_body u)).
  { unfold u, zlen in *. cbn [u_body]. rewrite length_drop. lia. }
  assert (Hh : fas1_header u = take 32 raw) by (by apply fas1_raw_fields).
  unfold encodeFas1. rewrite R. cbn [rbind]. f_equal.
  rewrite crcProtected_header_only, Hh. cbn [u_body u].
  unfold crcProtectedBytes in Hcrc. rewrite Hcrc, le_bytes_read_le by (done || lia).
  rewrite <- slice_take. cbn [Nat.add]. rewrite app_assoc, slice_join by lia.
  rewrite slice_take. apply take_drop.
Qed.

(** Two distinct units never share an encoding. *)
Lemma encodeFas1_inj u1 u2 raw : encodeFas1 u1 = Ok raw -> encodeFas1 u2 = Ok raw -> u1 = u2.
Proof. intros H1%decode_encode H2%decode_encode. congruence. Qed.

Lemma encodeFas1_bytes_ok u raw : encodeFas1 u = Ok raw -> bytes_ok (u_body u) -> bytes_ok raw.
Proof.
  intros ->%encodeFas1_eq Hb.
  apply bytes_ok_app; split; [apply fas1_header_ok|].
  apply bytes_ok_app; auto with bytes.
Qed.

(** C7: every unit the encoder accepts is recovered exactly by the decoder,
    whatever its type, fields and body. *)
Theorem fas1_decode_encode u raw : encodeFas1 u = Ok raw -> decodeFas1 raw = Ok u.
Proof. apply decode_encode. Qed.

(** A DATA unit of three bytes and its encoding. *)
Definition sample_unit : Fas1Unit := {|
  u_type := Data; u_flags := SENDER_A; u_sessionId := 81985529216486895; u_sequence := 7; u_packetId := 9;
  u_fragmentIndex := 1; u_fragmentCount := 2; u_packetLength := 5; u_body := [1; 0; 255] |}.
Definition sample_raw : bytes :=
  Eval vm_compute in match encodeFas1 sample_unit with Ok raw => raw | Throw _ => [] end.

Lemma fas1_decode_encode_witness :
  encodeFas1 sample_unit = Ok sample_raw /\ decodeFas1 sample_raw = Ok sample_unit.
Proof.
  assert (H : encodeFas1 sample_unit = Ok sample_raw) by (vm_compute; reflexivity).
  exact (conj H (fas1_decode_encode sample_unit sample_raw H)).
Defined.

(** C6: the decoder accepts only canonical encodings: bytes that decode to a
    unit are exactly the bytes the encoder produces for that unit. *)
Theorem fas1_encode_decode raw u : bytes_ok raw -> decodeFas1 raw = Ok u -> encodeFas1 u = Ok raw.
Proof. apply encode_decode. Qed.

Lemma fas1_encode_decode_witness : encodeFas1 sample_unit = Ok sample_raw.
Proof.
  apply (fas1_encode_decode sample_raw sample_unit).
  - repeat constructor; unfold byte_ok; lia.
  - vm_compute. reflexivity.
Defined.
