(* ===== verification/Crc.v ===== *)
(** * CRC-32C: the table-driven routine against its bitwise definition

    [crc32c] of [Fas1.v] follows the source's 256-entry table and its signed
    32-bit operators.  Here it is shown equal to the bit-serial definition of
    the Castagnoli CRC, and to detect every corruption confined to four
    consecutive bytes, alone and as part of the FAS1 envelope. *)

From stdpp Require Import base list numbers option strings.
From Stdlib Require Import ZArith Lia.
From S2P Require Import Prelude Fas1 Fas1Codec.

(** ** The bit-serial reference *)

Definition crc_bit (x : Z) : Z :=
  if Z.odd x then Z.lxor (Z.shiftr x 1) CRC32C_POLY else Z.shiftr x 1.

Definition crc_byte (v b : Z) : Z := Nat.iter 8 crc_bit (Z.lxor v b).

Definition crc32c_reference (input : bytes) : Z :=
  Z.lxor (foldl crc_byte UINT32_MAX input) UINT32_MAX.

(** ** 32-bit words *)

Definition word (x : Z) : Prop := 0 <= x < 4294967296.

Lemma word_bits x : word x <-> 0 <= x /\ forall i, 32 <= i -> Z.testbit x i = false.
Proof.
  unfold word. change 4294967296 with (2 ^ 32). split.
  - intros [H0 H1]. split; [done|]. intros i Hi.
    destruct (Z.eq_dec x 0) as [->|]; [apply Z.bits_0|].
    apply Z.bits_above_log2; [done|].
    apply Z.lt_le_trans with 32; [|done]. apply Z.log2_lt_pow2; lia.
  - intros [H0 H1]. split; [done|].
    destruct (Z.eq_dec x 0) as [->|]; [lia|].
    apply Z.log2_lt_pow2; [lia|]. destruct (Z.lt_ge_cases (Z.log2 x) 32) as [|Hge]; [done|].
    specialize (H1 _ Hge). rewrite Z.bit_log2 in H1 by lia. done.
Qed.

Lemma word_lxor a b : word a -> word b -> word (Z.lxor a b).
Proof.
  rewrite !word_bits. intros [Ha Ha'] [Hb Hb']. split; [by apply Z.lxor_nonneg|].
  intros i Hi. by rewrite Z.lxor_spec, Ha', Hb'.
Qed.

Lemma word_shiftr a n : 0 <= n -> word a -> word (Z.shiftr a n).
Proof.
  rewrite !word_bits. intros Hn [Ha Ha']. split; [by apply Z.shiftr_nonneg|].
  intros i Hi. rewrite Z.shiftr_spec by lia. apply Ha'. lia.
Qed.

Lemma to_uint32_word z : word (to_uint32 z).
Proof. unfold word, to_uint32. apply Z.mod_pos_bound. lia. Qed.

Lemma to_uint32_bits z i : 0 <= i -> Z.testbit (to_uint32 z) i = (i <? 32) && Z.testbit z i.
Proof.
  intros Hi. unfold to_uint32. change 4294967296 with (2 ^ 32).
  rewrite Z.testbit_mod_pow2 by lia. done.
Qed.

Lemma to_int32_bits z i : 0 <= i < 32 -> Z.testbit (to_int32 z) i = Z.testbit z i.
Proof.
  intros Hi. unfold to_int32.
  assert (H : Z.testbit (to_uint32 z) i = Z.testbit z i).
  { rewrite to_uint32_bits by lia. by replace (i <? 32) with true by (symmetry; apply Z.ltb_lt; lia). }
  destruct (_ <? _); [done|]. rewrite <- H.
  rewrite <- (Z.mod_pow2_bits_low (to_uint32 z - 4294967296) 32 i) by lia.
  replace (to_uint32 z - 4294967296) with (to_uint32 z + (-1) * 2 ^ 32) by lia.
  rewrite Z.mod_add by lia. by rewrite Z.mod_pow2_bits_low by lia.
Qed.

Lemma to_uint32_xor a b : to_uint32 (js_xor a b) = Z.lxor (to_uint32 a) (to_uint32 b).
Proof.
  apply Z.bits_inj'. intros i Hi. unfold js_xor.
  rewrite Z.lxor_spec, !to_uint32_bits, Z.lxor_spec by done.
  destruct (Z.ltb_spec i 32); cbn; [|done]. by rewrite !to_int32_bits by lia.
Qed.

Lemma to_uint32_id x : word x -> to_uint32 x = x.
Proof. unfold word. apply to_uint32_small. Qed.

Lemma js_low_byte a b :
  0 <= b < 256 -> js_and (js_xor a b) 255 = Z.land (Z.lxor (to_uint32 a) b) 255.
Proof.
  intros Hb. apply Z.bits_inj'. intros i Hi. unfold js_and.
  rewrite !Z.land_spec, (to_int32_small 255) by lia.
  change 255 with (Z.ones 8). rewrite Z.testbit_ones by lia.
  destruct (Z.leb_spec 0 i); [|lia].
  destruct (Z.ltb_spec i 8); cbn [andb]; [|by rewrite !andb_false_r].
  rewrite !andb_true_r, Z.lxor_spec, to_uint32_bits by lia.
  replace (i <? 32) with true by (symmetry; apply Z.ltb_lt; lia).
  rewrite to_int32_bits by lia. unfold js_xor.
  rewrite Z.lxor_spec, to_int32_bits, (to_int32_small b) by lia. done.
Qed.

(** ** Linearity and injectivity of the bit step *)

Lemma crc_bit_word x : word x -> word (crc_bit x).
Proof.
  intros Hx. unfold crc_bit.
  destruct (Z.odd x); [apply word_lxor|]; try apply word_shiftr; done.
Qed.

Lemma iter_crc_bit_word n x : word x -> word (Nat.iter n crc_bit x).
Proof. intros Hx. induction n; cbn; [done|]. by apply crc_bit_word. Qed.

(** The parity of a word is the top bit of its image. *)
Lemma crc_bit_top x : word x -> Z.testbit (crc_bit x) 31 = Z.odd x.
Proof.
  intros Hx%word_bits. destruct Hx as [H0 Hx]. unfold crc_bit. destruct (Z.odd x) eqn:E.
  - rewrite Z.lxor_spec, Z.shiftr_spec, Hx by lia. done.
  - rewrite Z.shiftr_spec by lia. apply Hx. lia.
Qed.

Lemma crc_bit_inj x y : word x -> word y -> crc_bit x = crc_bit y -> x = y.
Proof.
  intros Hx Hy H.
  assert (Ho : Z.odd x = Z.odd y) by (rewrite <- !crc_bit_top by done; by rewrite H).
  assert (Hs : Z.shiftr x 1 = Z.shiftr y 1).
  { unfold crc_bit in H. rewrite Ho in H. destruct (Z.odd y); [|done].
    apply (f_equal (fun z => Z.lxor z CRC32C_POLY)) in H.
    by rewrite !Z.lxor_assoc, Z.lxor_nilpotent, !Z.lxor_0_r in H. }
  rewrite <- !Z.div2_spec in Hs.
  rewrite (Z.div2_odd x), (Z.div2_odd y), Ho, Hs. done.
Qed.

Lemma iter_crc_bit_inj n x y :
  word x -> word y -> Nat.iter n crc_bit x = Nat.iter n crc_bit y -> x = y.
Proof.
  intros Hx Hy. induction n as [|n IH]; cbn; [done|]. intros H.
  apply IH, crc_bit_inj; auto using iter_crc_bit_word.
Qed.

Lemma crc_bit_shift x y : crc_bit (Z.lxor x (Z.shiftl y 1)) = Z.lxor (crc_bit x) y.
Proof.
  assert (Ho : Z.odd (Z.lxor x (Z.shiftl y 1)) = Z.odd x).
  { rewrite <- !Z.bit0_odd, Z.lxor_spec, Z.shiftl_spec_low by lia. apply xorb_false_r. }
  assert (Hs : Z.shiftr (Z.lxor x (Z.shiftl y 1)) 1 = Z.lxor (Z.shiftr x 1) y).
  { rewrite Z.shiftr_lxor. f_equal. rewrite Z.shiftr_shiftl_l by lia. apply Z.shiftl_0_r. }
  unfold crc_bit. rewrite Ho, Hs. destruct (Z.odd x); [|done].
  rewrite !Z.lxor_assoc. f_equal. apply Z.lxor_comm.
Qed.

Lemma iter_crc_bit_shift n x y :
  Nat.iter n crc_bit (Z.lxor x (Z.shiftl y (Z.of_nat n))) = Z.lxor (Nat.iter n crc_bit x) y.
Proof.
  revert y. induction n as [|n IH]; intros y; [by rewrite Z.shiftl_0_r|].
  replace (Z.of_nat (S n)) with (1 + Z.of_nat n) by lia.
  rewrite <- Z.shiftl_shiftl by lia. change (Nat.iter (S n) crc_bit ?z) with (crc_bit (Nat.iter n crc_bit z)).
  rewrite IH. apply crc_bit_shift.
Qed.

(** ** The table *)

Lemma crc_table_correct i :
  0 <= i < 256 -> nth (Z.to_nat i) CRC32C_TABLE 0 = Nat.iter 8 crc_bit i.
Proof.
  intros Hi.
  assert (H : forallb (fun n => nth n CRC32C_TABLE 0 =? Nat.iter 8 crc_bit (Z.of_nat n)) (seq 0 256) = true)
    by (vm_compute; reflexivity).
  rewrite forallb_forall in H. specialize (H (Z.to_nat i)).
  rewrite Z.eqb_eq, Z2Nat.id in H by lia. apply H. apply in_seq. lia.
Qed.

(** The committed table is the one [createCrc32cTable] computes. *)
Lemma crc_table_created : CRC32C_TABLE = createCrc32cTable.
Proof. vm_compute. reflexivity. Qed.

Lemma split_low_byte x : x = Z.lxor (Z.land x 255) (Z.shiftl (Z.shiftr x 8) 8).
Proof.
  apply Z.bits_inj'. intros i Hi.
  change 255 with (Z.ones 8). rewrite Z.lxor_spec, Z.land_spec, Z.testbit_ones by lia.
  destruct (Z.leb_spec 0 i); [|lia]. destruct (Z.ltb_spec i 8); cbn [andb].
  - rewrite Z.shiftl_spec_low by lia. by rewrite andb_true_r, xorb_false_r.
  - rewrite Z.shiftl_spec, Z.shiftr_spec by lia. rewrite andb_false_r, xorb_false_l. f_equal. lia.
Qed.

Lemma crc_byte_table v b :
  crc_byte v b
  = Z.lxor (nth (Z.to_nat (Z.land (Z.lxor v b) 255)) CRC32C_TABLE 0) (Z.shiftr (Z.lxor v b) 8).
Proof.
  unfold crc_byte. rewrite (split_low_byte (Z.lxor v b)) at 1.
  change 8 with (Z.of_nat 8) at 2. rewrite iter_crc_bit_shift, crc_table_correct; [done|].
  change 255 with (Z.ones 8). rewrite Z.land_ones by lia. apply Z.mod_pos_bound. lia.
Qed.

Lemma shiftr_lxor_byte v b : byte_ok b -> Z.shiftr (Z.lxor v b) 8 = Z.shiftr v 8.
Proof.
  intros Hb. rewrite Z.shiftr_lxor.
  rewrite (Z.shiftr_div_pow2 b) by lia. rewrite (Z.div_small b) by apply Hb. apply Z.lxor_0_r.
Qed.

Lemma to_uint32_crc_step v b : byte_ok b -> to_uint32 (crc_step v b) = crc_byte (to_uint32 v) b.
Proof.
  intros Hb. unfold crc_step. rewrite to_uint32_xor, js_low_byte by apply Hb.
  rewrite crc_byte_table, shiftr_lxor_byte by done. f_equal.
  - apply to_uint32_id. rewrite crc_table_correct.
    + apply iter_crc_bit_word. unfold word. change 255 with (Z.ones 8). rewrite Z.land_ones by lia.
      pose proof (Z.mod_pos_bound (Z.lxor (to_uint32 v) b) (2 ^ 8)). lia.
    + change 255 with (Z.ones 8). rewrite Z.land_ones by lia. apply Z.mod_pos_bound. lia.
  - unfold js_ushr. apply to_uint32_id, word_shiftr; [cbn; lia|]. apply to_uint32_word.
Qed.

Lemma to_uint32_crc_fold l v :
  bytes_ok l -> to_uint32 (foldl crc_step v l) = foldl crc_byte (to_uint32 v) l.
Proof.
  intros Hl. revert v. induction Hl as [|b l Hb Hl IH]; intros v; cbn [foldl]; [done|].
  by rewrite IH, to_uint32_crc_step.
Qed.

Lemma crc32c_by_table l : bytes_ok l -> crc32c l = crc32c_reference l.
Proof.
  intros Hl. unfold crc32c, crc32c_reference.
  rewrite to_uint32_xor, to_uint32_crc_fold by done. done.
Qed.

(** C9: on every byte string the table-driven checksum of the source, with its
    signed 32-bit intermediate values, is the bit-serial CRC-32C. *)
Theorem crc32c_is_reference l : bytes_ok l -> crc32c l = crc32c_reference l.
Proof. apply crc32c_by_table. Qed.

(** ** Burst detection *)

Lemma lxor_byte_word b y : byte_ok b -> b + 256 * y = Z.lxor b (Z.shiftl y 8).
Proof.
  intros Hb. rewrite Z.shiftl_mul_pow2, (Z.mul_comm y) by lia. change (2 ^ 8) with 256.
  rewrite <- Z.add_nocarry_lxor; [done|].
  apply Z.bits_inj'. intros i Hi. rewrite Z.land_spec, Z.bits_0, (Z.mul_comm 256).
  change 256 with (2 ^ 8). rewrite <- Z.shiftl_mul_pow2 by lia.
  destruct (Z.lt_ge_cases i 8); [by rewrite Z.shiftl_spec_low, andb_false_r by lia|].
  destruct (Z.eq_dec b 0) as [->|]; [by rewrite Z.bits_0|].
  rewrite (Z.bits_above_log2 b); [done|apply Hb|].
  apply Z.lt_le_trans with 8; [|done]. apply Z.log2_lt_pow2; unfold byte_ok in Hb; lia.
Qed.

(** The checksum state after [l] is [8 * length l] bit steps of one wide word. *)
Lemma crc_fold_le l v :
  bytes_ok l -> foldl crc_byte v l = Nat.iter (8 * length l) crc_bit (Z.lxor v (le_value l)).
Proof.
  intros Hl. revert v. induction Hl as [|b l Hb Hl IH]; intros v; [by rewrite Z.lxor_0_r|].
  cbn [foldl le_value length]. rewrite IH.
  replace (8 * S (length l))%nat with (8 * length l + 8)%nat by lia.
  rewrite Nat.iter_add. f_equal. unfold crc_byte.
  rewrite <- iter_crc_bit_shift, Z.lxor_assoc. by rewrite <- lxor_byte_word.
Qed.

Lemma crc_fold_word l v : bytes_ok l -> word v -> word (foldl crc_byte v l).
Proof.
  intros Hl. revert v. induction Hl as [|b l Hb Hl IH]; intros v Hv; [done|]. cbn [foldl].
  apply IH. unfold crc_byte. apply iter_crc_bit_word, word_lxor; [done|].
  unfold word. unfold byte_ok in Hb. lia.
Qed.

Lemma lxor_cancel_l a b c : Z.lxor a b = Z.lxor a c -> b = c.
Proof.
  intros H. apply (f_equal (Z.lxor a)) in H.
  by rewrite <- !Z.lxor_assoc, Z.lxor_nilpotent, !Z.lxor_0_l in H.
Qed.

Lemma lxor_cancel_r a b c : Z.lxor b a = Z.lxor c a -> b = c.
Proof. rewrite !(Z.lxor_comm _ a). apply lxor_cancel_l. Qed.

Lemma short_word w : bytes_ok w -> (length w <= 4)%nat -> word (le_value w).
Proof.
  intros Hw Hlen. pose proof (le_value_bound w Hw) as [H0 H1]. split; [done|].
  eapply Z.lt_le_trans; [exact H1|]. change 4294967296 with (256 ^ 4).
  apply Z.pow_le_mono_r; [lia|]. unfold zlen. lia.
Qed.

(** The step is linear. *)
Lemma crc_bit_lxor x y : crc_bit (Z.lxor x y) = Z.lxor (crc_bit x) (crc_bit y).
Proof.
  unfold crc_bit. rewrite <- !Z.bit0_odd, Z.lxor_spec, Z.shiftr_lxor.
  destruct (Z.testbit x 0), (Z.testbit y 0); cbn [xorb]; apply Z.bits_inj'; intros i _;
    rewrite !Z.lxor_spec; by destruct (Z.testbit (Z.shiftr x 1) i), (Z.testbit (Z.shiftr y 1) i), (Z.testbit CRC32C_POLY i).
Qed.

Lemma iter_crc_bit_lxor n x y : Nat.iter n crc_bit (Z.lxor x y) = Z.lxor (Nat.iter n crc_bit x) (Nat.iter n crc_bit y).
Proof. induction n as [|n IH]; [done|]. change (Nat.iter (S n) crc_bit ?z) with (crc_bit (Nat.iter n crc_bit z)). by rewrite IH, crc_bit_lxor. Qed.

Lemma iter_crc_bit_0 n : Nat.iter n crc_bit 0 = 0.
Proof. induction n as [|n IH]; [done|]. change (crc_bit (Nat.iter n crc_bit 0) = 0). by rewrite IH. Qed.

Lemma lxor_below n x y : 0 <= n -> 0 <= x < 2 ^ n -> 0 <= y < 2 ^ n -> Z.lxor x y < 2 ^ n.
Proof.
  intros Hn Hx Hy. pose proof (proj2 (Z.lxor_nonneg x y)) as H0. specialize (H0 ltac:(lia)).
  destruct (Z.eq_dec (Z.lxor x y) 0) as [->|Hne]; [lia|]. apply Z.log2_lt_pow2; [lia|].
  assert (Hl : forall z, 0 <= z < 2 ^ n -> forall i, n <= i -> Z.testbit z i = false).
  { intros z Hz i Hi. destruct (Z.eq_dec z 0) as [->|]; [apply Z.bits_0|]. apply Z.bits_above_log2; [lia|].
    apply Z.lt_le_trans with n; [|done]. apply Z.log2_lt_pow2; lia. }
  destruct (Z.lt_ge_cases (Z.log2 (Z.lxor x y)) n) as [|Hge]; [done|].
  pose proof (Z.bit_log2 (Z.lxor x y)) as Hb. rewrite Z.lxor_spec, (Hl x Hx), (Hl y Hy) in Hb by done. by specialize (Hb ltac:(lia)).
Qed.

(** The bits in which two messages of one length differ lie within 32
    consecutive ones, in the order in which the checksum reads them: byte after
    byte, and each byte from its least significant bit.  Where the burst begins
    is any bit [k]; [d] is its pattern. *)
Definition bit_burst (a b : bytes) : Prop :=
  length a = length b /\ exists k d, 0 <= k /\ 0 < d < 2 ^ 32 /\ Z.lxor (le_value a) (le_value b) = Z.shiftl d k.

(** A burst that is over by the end of the message never leaves the checksum as
    it was. *)
Lemma burst_remainder n d k :
  0 <= k -> 0 < d < 2 ^ 32 -> Z.shiftl d k < 2 ^ Z.of_nat n -> Nat.iter n crc_bit (Z.shiftl d k) <> 0.
Proof.
  intros Hk Hd Hn H. assert (Hlt : k < Z.of_nat n).
  { apply (Z.pow_lt_mono_r_iff 2); [lia..|]. rewrite Z.shiftl_mul_pow2 in Hn by done. nia. }
  replace n with ((n - Z.to_nat k) + Z.to_nat k)%nat in H by lia. rewrite Nat.iter_add in H.
  replace (Z.shiftl d k) with (Z.lxor 0 (Z.shiftl d (Z.of_nat (Z.to_nat k)))) in H by (rewrite Z2Nat.id by done; apply Z.lxor_0_l).
  rewrite iter_crc_bit_shift, iter_crc_bit_0, Z.lxor_0_l, <- (iter_crc_bit_0 (n - Z.to_nat k)) in H.
  apply iter_crc_bit_inj in H; unfold word; lia.
Qed.

Lemma crc32c_separates a b :
  bytes_ok a -> bytes_ok b -> bit_burst a b -> crc32c a <> crc32c b.
Proof.
  intros Ha Hb (Hlen & k & d & Hk & Hd & Hx) Heq. rewrite !crc32c_by_table in Heq by done.
  unfold crc32c_reference in Heq. apply lxor_cancel_r in Heq. rewrite !crc_fold_le, <- Hlen in Heq by done.
  rewrite !iter_crc_bit_lxor in Heq. apply lxor_cancel_l in Heq.
  apply (burst_remainder (8 * length a) d k); [done..| |].
  - rewrite <- Hx. pose proof (le_value_bound a Ha) as [A0 A1]. pose proof (le_value_bound b Hb) as [B0 B1].
    unfold zlen in *. rewrite <- Hlen in B1. replace (Z.of_nat (8 * length a)) with (8 * Z.of_nat (length a)) by lia.
    rewrite Z.pow_mul_r by lia. change (2 ^ 8) with 256.
    assert (Hp : 256 ^ Z.of_nat (length a) = 2 ^ (8 * Z.of_nat (length a))) by (rewrite Z.pow_mul_r by lia; done).
    rewrite Hp in *. apply lxor_below; lia.
  - rewrite <- Hx, iter_crc_bit_lxor, Heq. apply Z.lxor_nilpotent.
Qed.

(** ** Corruption of a FAS1 unit *)

Definition protected_part (raw : bytes) : bytes := take 32 raw ++ drop 36 raw.

Lemma encodeFas1_parts u raw :
  encodeFas1 u = Ok raw -> slice raw 32 36 = le_bytes 4 (crc32c (protected_part raw)).
Proof.
  intros ->%encodeFas1_eq. unfold protected_part.
  rewrite slice_skip by (by rewrite length_fas1_header). rewrite length_fas1_header. cbn [Nat.sub].
  rewrite slice_here by (by rewrite length_le_bytes).
  rewrite take_app_length' by (by rewrite length_fas1_header).
  rewrite (app_assoc (fas1_header u)), drop_app_length'; [done|].
  by rewrite length_app, length_fas1_header, length_le_bytes.
Qed.

(** C8: a unit is never accepted with its protected part - the header and then
    the body, as the checksum reads them - damaged within any 32 consecutive
    bits, and its checksum as it was; nor with its checksum damaged in any way
    and the protected part as it was. *)
Theorem fas1_rejects_burst u raw raw' :
  encodeFas1 u = Ok raw -> bytes_ok (u_body u) -> bytes_ok raw' ->
  (bit_burst (protected_part raw) (protected_part raw') /\ slice raw' 32 36 = slice raw 32 36)
  \/ (protected_part raw' = protected_part raw /\ slice raw' 32 36 <> slice raw 32 36) ->
  is_ok (decodeFas1 raw') = false.
Proof.
  intros He Hbody Hok' Hdamage. destruct (decodeFas1 raw') as [u'|] eqn:Hd; [exfalso|done].
  pose proof (encodeFas1_bytes_ok _ _ He Hbody) as Hok.
  apply encode_decode in Hd; [|done]. apply encodeFas1_parts in He, Hd.
  destruct Hdamage as [[Hburst Hsum]|[Hpart Hsum]].
  - rewrite He, Hd in Hsum. apply (f_equal le_value) in Hsum.
    rewrite !le_value_le_bytes, !Z.mod_small in Hsum by apply crc32c_bound.
    revert Hsum. apply not_eq_sym, crc32c_separates; [| |done]; unfold protected_part; apply bytes_ok_app; split; auto with bytes.
  - apply Hsum. by rewrite Hd, He, Hpart.
Qed.

(** The sample unit with the last two bits of one byte of its session identifier
    and the whole of the next three flipped, and the six first of the byte
    after them: 32 bits, from the middle of a byte to the middle of another. *)
Definition burst_raw : bytes :=
  write_at 9 (map (fun p => Z.lxor p.1 p.2) (combine (slice sample_raw 9 14) [0xc0; 0xff; 0xff; 0xff; 0x3f])) sample_raw.

Lemma fas1_rejects_burst_witness : is_ok (decodeFas1 burst_raw) = false.
Proof.
  apply (fas1_rejects_burst sample_unit sample_raw burst_raw); [vm_compute; reflexivity|repeat constructor; lia| |left].
  - apply (bool_decide_unpack _). vm_compute. exact I.
  - split; [|vm_compute; reflexivity]. split; [vm_compute; reflexivity|].
    exists 78, (2 ^ 32 - 1). split; [lia|]. split; [lia|]. vm_compute. reflexivity.
Defined.

Lemma crc32c_is_reference_witness : crc32c [49; 50; 51] = crc32c_reference [49; 50; 51].
Proof. apply (crc32c_is_reference [49; 50; 51]). repeat constructor; lia. Defined.
