(* ===== verification/Fragments.v ===== *)
(** * Fragmentation and reassembly theorems

    [fragmentPacket] cuts a packet into valid DATA units that reassemble to
    the packet in any arrival order, and [reassemblePacket] returns bytes only
    when its input is, body for body, a fragmentation of those bytes. *)

From stdpp Require Import base list numbers option strings.
From Stdlib Require Import ZArith Lia.
From S2P Require Import Prelude Fas1 Fas1Codec.

(** ** What a successful fragmentation is *)

Record fragment_plan (input : FragmentPacketInput) (P N : nat) : Prop := {
  pl_packet : (1 <= length (fp_packet input) <= 1357)%nat;
  pl_session : 0 < fp_sessionId input <= UINT64_MAX;
  pl_packetId : 0 < fp_packetId input <= UINT32_MAX;
  pl_payload : Z.of_nat P = default FAS1_MAX_BODY_BYTES (fp_payloadBytes input);
  pl_P : (1 <= P <= 217)%nat;
  pl_N : (1 <= N <= 16)%nat;
  pl_cover : (P * (N - 1) < length (fp_packet input) <= P * N)%nat;
  pl_sequence : 0 <= fp_sequenceStart input /\ fp_sequenceStart input + Z.of_nat N - 1 <= UINT32_MAX;
}.

Definition plan_fragment (input : FragmentPacketInput) (P N index : nat) : Fas1Unit :=
  fragment_at input (Z.of_nat P) (Z.of_nat N) index.

Lemma fragmentPacket_plan input fragments :
  fragmentPacket input = Ok fragments ->
  exists P N, fragment_plan input P N /\ fragments = map (plan_fragment input P N) (seq 0 N).
Proof.
  unfold fragmentPacket. intros H. result_inv.
  repeat match goal with
  | H : assertInteger _ _ _ = Ok _ |- _ => apply assertInteger_ok in H
  | H : assertSessionId _ = Ok _ |- _ => apply assertSessionId_ok in H
  end.
  bool_split.
  set (pb := default FAS1_MAX_BODY_BYTES (fp_payloadBytes input)) in *.
  set (n := ceil_div (zlen (fp_packet input)) pb) in *.
  pose proof (ceil_div_spec (zlen (fp_packet input)) pb ltac:(lia)) as Hc. fold n in Hc.
  unfold zlen, FAS1_MAX_BODY_BYTES, FAS1_MAX_PACKET_BYTES, FAS1_MAX_FRAGMENTS in *.
  destruct (Z_of_nat_complete pb) as [P HP]; [lia|].
  destruct (Z_of_nat_complete n) as [N HN]; [lia|].
  exists P, N. unfold plan_fragment. rewrite <- HP, <- HN. split.
  - rewrite HP, HN in Hc.
    assert (1 <= N)%nat by lia.
    constructor; try fold pb; try lia.
    by rewrite <- HP.
  - by rewrite HP, HN, Nat2Z.id.
Qed.

Section Plan.
Context (input : FragmentPacketInput) (P N : nat) (Hplan : fragment_plan input P N).

Local Abbreviation packet := (fp_packet input).
Local Abbreviation frag := (plan_fragment input P N).

Lemma plan_body i : u_body (frag i) = slice packet (i * P) ((i + 1) * P).
Proof. unfold plan_fragment, fragment_at. cbn. by rewrite Nat2Z.id. Qed.

Lemma plan_last : packet = take (N * P) packet.
Proof. destruct Hplan. rewrite take_ge; [done|]. lia. Qed.

Lemma plan_ceil : ceil_div (zlen packet) (Z.of_nat P) = Z.of_nat N.
Proof. destruct Hplan. apply ceil_div_unique; unfold zlen; nia. Qed.

Lemma plan_body_length i :
  (i < N)%nat ->
  zlen (u_body (frag i))
  = if Z.of_nat i =? Z.of_nat N - 1 then zlen packet - Z.of_nat P * (Z.of_nat N - 1) else Z.of_nat P.
Proof.
  intros Hi. destruct Hplan. rewrite plan_body. unfold zlen, slice.
  rewrite length_take, length_drop.
  destruct (Z.eqb_spec (Z.of_nat i) (Z.of_nat N - 1)); [assert (i = N - 1)%nat as -> by lia|]; nia.
Qed.

Lemma plan_body_bounds i : (i < N)%nat -> 1 <= zlen (u_body (frag i)) <= Z.min 217 (zlen packet).
Proof.
  intros Hi. rewrite plan_body_length by done. destruct Hplan.
  destruct (Z.eqb_spec (Z.of_nat i) (Z.of_nat N - 1)); unfold zlen in *; nia.
Qed.

Lemma plan_valid i :
  fp_sender input = SENDER_A \/ fp_sender input = SENDER_B ->
  (i < N)%nat -> validateUnit (frag i) = Ok tt.
Proof.
  intros Hs Hi. pose proof (plan_body_bounds i Hi) as Hb. destruct Hplan.
  unfold SENDER_A, SENDER_B, UINT32_MAX, UINT64_MAX, zlen in *.
  unfold validateUnit. unfold plan_fragment at 1. cbn [u_flags fragment_at].
  rewrite !assertInteger_intro
    by (unfold plan_fragment, fragment_at, UINT16_MAX, UINT32_MAX, MAX_SAFE_INTEGER, SENDER_B, zlen; cbn; lia).
  unfold assertSessionId, assertBody, validateData, plan_fragment, fragment_at in *. cbn [u_flags
    u_sessionId u_body u_type u_packetId u_fragmentCount u_fragmentIndex u_packetLength] in *.
  unfold SENDER_A, SENDER_B, UINT64_MAX, FAS1_MAX_BODY_BYTES, FAS1_MAX_FRAGMENTS, FAS1_MAX_PACKET_BYTES, zlen in *.
  repeat match goal with
  | |- context [?a =? ?b] =>
      first [ replace (a =? b) with true by (symmetry; apply Z.eqb_eq; lia)
            | replace (a =? b) with false by (symmetry; apply Z.eqb_neq; lia)
            | destruct (Z.eqb_spec a b) ]
  | |- context [?a <? ?b] =>
      first [ replace (a <? b) with true by (symmetry; apply Z.ltb_lt; lia)
            | replace (a <? b) with false by (symmetry; apply Z.ltb_ge; lia) ]
  | |- context [?a <=? ?b] =>
      first [ replace (a <=? b) with true by (symmetry; apply Z.leb_le; lia)
            | replace (a <=? b) with false by (symmetry; apply Z.leb_gt; lia) ]
  end; try done; lia.
Qed.

End Plan.

(** ** Collection *)

(** The checks of one iteration of the collection loop, apart from the
    duplicate test. *)
Definition fits (first : Fas1Unit) (payloadBytes expectedCount : Z) (f : Fas1Unit) : Prop :=
  validateUnit f = Ok tt /\ u_type f = Data /\ u_sessionId f = u_sessionId first
  /\ u_packetId f = u_packetId first /\ u_packetLength f = u_packetLength first
  /\ u_fragmentCount f = u_fragmentCount first
  /\ zlen (u_body f) = (if u_fragmentIndex f =? expectedCount - 1
                        then u_packetLength first - payloadBytes * (expectedCount - 1)
                        else payloadBytes).

Definition keyed (f : Fas1Unit) : Z * Fas1Unit := (u_fragmentIndex f, f).

Lemma collect_fragment_spec first pb ec acc f acc' :
  collect_fragment first pb ec acc f = Ok acc'
  <-> fits first pb ec f /\ map_has (u_fragmentIndex f) acc = false /\ acc' = acc ++ [keyed f].
Proof.
  unfold collect_fragment, fits, is_type. split.
  - intros H. result_inv. bool_split. rewrite map_set_new by done.
    destruct a. repeat split; done.
  - intros ((-> & -> & -> & -> & -> & -> & ->) & Hh & ->).
    rewrite !Z.eqb_refl, bool_decide_eq_true_2 by done. cbn [negb orb rbind require_not].
    rewrite Hh. cbn [rbind require_not]. by rewrite map_set_new.
Qed.

Lemma collect_fragments_spec first pb ec fs acc m :
  NoDup acc.*1 ->
  collect_fragments first pb ec acc fs = Ok m
  <-> Forall (fits first pb ec) fs /\ NoDup (acc ++ map keyed fs).*1 /\ m = acc ++ map keyed fs.
Proof.
  revert acc. induction fs as [|f fs IH]; intros acc Hnd; cbn [collect_fragments map].
  - rewrite !app_nil_r. split; [intros [= ->]; auto|]. by intros (_ & _ & ->).
  - rewrite Forall_cons. split.
    + intros H. result_inv. apply collect_fragment_spec in R as (Hf & Hh & ->).
      assert (Hnd' : NoDup (acc ++ [keyed f]).*1).
      { rewrite fmap_app. cbn. apply NoDup_app. split; [done|]. split; [|apply NoDup_singleton].
        intros x Hx ->%list_elem_of_singleton. apply map_has_keys in Hx. congruence. }
      apply IH in H as (Hfs & Hn & ->); [|done]. by rewrite <- app_assoc in Hn |- *.
    + intros ((Hf & Hfs) & Hn & ->).
      assert (Hh : map_has (u_fragmentIndex f) acc = false).
      { apply not_true_is_false. rewrite map_has_keys. intros Hx.
        rewrite fmap_app in Hn. apply NoDup_app in Hn as (_ & Hn & _).
        apply (Hn _ Hx). apply list_elem_of_here. }
      assert (Hc : collect_fragment first pb ec acc f = Ok (acc ++ [keyed f]))
        by (by apply collect_fragment_spec).
      rewrite Hc. cbn [rbind]. apply IH.
      * rewrite fmap_app. cbn. apply NoDup_app. split; [done|]. split; [|apply NoDup_singleton].
        intros x Hx ->%list_elem_of_singleton. apply map_has_keys in Hx. congruence.
      * by rewrite <- app_assoc.
Qed.

(** ** Joining *)

(** When every fragment of a plan is present, the output loop rebuilds the
    packet from any point on. *)
Lemma join_fragments_plan (packet : bytes) (P : nat) (m : list (Z * Fas1Unit)) n i :
  (forall j, (i <= j < i + n)%nat ->
     exists f, map_get (Z.of_nat j) m = Some f /\ u_body f = slice packet (j * P) ((j + 1) * P)) ->
  join_fragments m (zlen packet) (seq i n) (take (i * P) packet) = Ok (take ((i + n) * P) packet).
Proof.
  revert i. induction n as [|n IH]; intros i H; cbn [seq join_fragments].
  - by rewrite Nat.add_0_r.
  - destruct (H i) as (f & -> & Hb); [lia|].
    assert (Hs : take (i * P) packet ++ u_body f = take (S i * P) packet).
    { rewrite Hb, <- !slice_take, slice_join by lia. f_equal. lia. }
    assert (Hl : (zlen packet - zlen (take (i * P) packet) <? zlen (u_body f)) = false).
    { apply Z.ltb_ge. unfold zlen. apply (f_equal length) in Hs.
      rewrite length_app, !length_take in Hs. rewrite length_take. lia. }
    rewrite Hl, Hs. cbn [require_not rbind]. rewrite IH; [do 2 f_equal; lia|].
    intros j Hj. apply H. lia.
Qed.

Lemma join_fragments_inv m len idx acc out :
  join_fragments m len idx acc = Ok out ->
  exists bodies, out = acc ++ concat bodies
    /\ Forall2 (fun i b => exists f, map_get (Z.of_nat i) m = Some f /\ u_body f = b) idx bodies.
Proof.
  revert acc. induction idx as [|i idx IH]; intros acc; cbn [join_fragments].
  - intros [= <-]. exists []. by rewrite app_nil_r.
  - destruct (map_get _ m) as [f|] eqn:Hf; [|done]. intros H. result_inv.
    apply IH in H as (bodies & -> & HF). exists (u_body f :: bodies).
    split; [by rewrite <- app_assoc|]. constructor; [by exists f|done].
Qed.

(** Blocks of size [P], the last one possibly shorter, are slices of their
    concatenation. *)
Lemma slice_concat (bodies : list bytes) (P i : nat) (b : bytes) :
  (forall j c, bodies !! j = Some c ->
     (length c <= P)%nat /\ (S j < length bodies -> length c = P)%nat) ->
  bodies !! i = Some b -> slice (concat bodies) (i * P) ((i + 1) * P) = b.
Proof.
  revert i. induction bodies as [|c bodies IH]; intros i Hlen Hi; [done|].
  destruct (Hlen 0%nat c eq_refl) as [Hle Heq]. cbn [concat length] in *.
  destruct i as [|i]; cbn in Hi.
  - injection Hi as ->. cbn [Nat.mul Nat.add]. rewrite Nat.add_0_r, slice_take.
    destruct bodies as [|d bodies].
    + cbn. rewrite app_nil_r. by apply take_ge.
    + apply take_app_length'. symmetry. apply Heq. cbn. lia.
  - apply lookup_lt_Some in Hi as Hlt. specialize (Heq ltac:(lia)).
    rewrite slice_skip by lia.
    replace (S i * P - length c)%nat with (i * P)%nat by lia.
    replace ((S i + 1) * P - length c)%nat with ((i + 1) * P)%nat by lia.
    apply IH; [|done]. intros j d Hj. destruct (Hlen (S j) d Hj) as [? Hd]. split; [done|].
    intros. apply Hd. lia.
Qed.

Lemma plan_indexes input P N :
  map u_fragmentIndex (map (plan_fragment input P N) (seq 0 N)) = map Z.of_nat (seq 0 N).
Proof. by rewrite map_map. Qed.

Lemma keys_keyed fs : (map keyed fs).*1 = map u_fragmentIndex fs.
Proof. induction fs; cbn; [done|]. by f_equal. Qed.

Section Arrived.
Context (input : FragmentPacketInput) (P N : nat) (Hplan : fragment_plan input P N).
Context (Hs : fp_sender input = SENDER_A \/ fp_sender input = SENDER_B).
Context (arrived : list Fas1Unit) (Hp : arrived ≡ₚ map (plan_fragment input P N) (seq 0 N)).

Lemma arrived_elem f : f ∈ arrived <-> exists i, (i < N)%nat /\ f = plan_fragment input P N i.
Proof.
  rewrite Hp, list_elem_of_In, in_map_iff. setoid_rewrite in_seq. split.
  - intros (i & <- & Hi). exists i. split; [lia|done].
  - intros (i & Hi & ->). exists i. split; [done|lia].
Qed.

Lemma arrived_keys : NoDup (map keyed arrived).*1.
Proof.
  rewrite keys_keyed, (Permutation_map u_fragmentIndex Hp), plan_indexes. apply NoDup_map_of_nat.
Qed.

Lemma arrived_collect first :
  first ∈ arrived ->
  collect_fragments first (Z.of_nat P) (Z.of_nat N) [] arrived = Ok (map keyed arrived).
Proof using Hplan Hs Hp.
  intros (i0 & Hi0 & ->)%arrived_elem.
  apply collect_fragments_spec; [constructor|]. split; [|split; [apply arrived_keys|done]].
  apply Forall_forall. intros f (i & Hi & ->)%arrived_elem.
  repeat split; [by apply plan_valid|]. by apply plan_body_length.
Qed.

Lemma arrived_lookup j :
  (j < N)%nat -> map_get (Z.of_nat j) (map keyed arrived) = Some (plan_fragment input P N j).
Proof using Hp.
  intros Hj. apply map_get_In; [apply arrived_keys|].
  apply list_elem_of_In, in_map_iff. exists (plan_fragment input P N j). split; [done|].
  apply list_elem_of_In, arrived_elem. by exists j.
Qed.

Lemma arrived_reassemble_from first :
  first ∈ arrived -> reassemble_from first arrived (Z.of_nat P) = Ok (fp_packet input).
Proof using Hplan Hs Hp.
  intros Hin. pose proof (arrived_collect first Hin) as Hcol.
  assert (Hlen : zlen arrived = Z.of_nat N) by (unfold zlen; by rewrite Hp, length_map, length_seq).
  apply arrived_elem in Hin as (i0 & Hi0 & ->).
  unfold reassemble_from. rewrite Hlen, assertInteger_intro
    by (destruct Hplan; unfold FAS1_MAX_BODY_BYTES, MAX_SAFE_INTEGER; lia).
  rewrite plan_valid by done. cbn [rbind].
  replace (Z.of_nat P <? 1) with false by (symmetry; apply Z.ltb_ge; destruct Hplan; lia).
  cbn [require_not rbind]. cbn [plan_fragment fragment_at u_packetLength u_type u_fragmentCount is_type].
  rewrite (plan_ceil input P N Hplan).
  unfold is_type. rewrite bool_decide_eq_true_2, !Z.eqb_refl by done. cbn [negb orb require_not rbind].
  fold (plan_fragment input P N i0). rewrite Hcol. cbn [rbind]. rewrite Nat2Z.id.
  change [] with (take (0 * P) (fp_packet input)).
  rewrite join_fragments_plan.
  - cbn [rbind Nat.add]. rewrite <- (plan_last input P N) by done.
    by rewrite Z.eqb_refl.
  - intros j Hj. exists (plan_fragment input P N j). split; [apply arrived_lookup; lia|].
    apply plan_body.
Qed.

End Arrived.

Lemma reassemble_plan input P N arrived :
  fragment_plan input P N ->
  fp_sender input = SENDER_A \/ fp_sender input = SENDER_B ->
  arrived ≡ₚ map (plan_fragment input P N) (seq 0 N) ->
  reassemblePacket arrived (Z.of_nat P) = Ok (fp_packet input).
Proof.
  intros Hplan Hs Hp.
  assert (Hlen : length arrived = N) by (by rewrite Hp, length_map, length_seq).
  unfold reassemblePacket.
  assert (Hb : (zlen arrived <? 1) || (FAS1_MAX_FRAGMENTS <? zlen arrived) = false).
  { apply orb_false_iff. rewrite !Z.ltb_ge. unfold FAS1_MAX_FRAGMENTS, zlen. destruct Hplan. lia. }
  rewrite Hb. cbn [require_not rbind].
  destruct arrived as [|first rest] eqn:E; [destruct Hplan; cbn in Hlen; lia|].
  apply (arrived_reassemble_from _ _ N); try done. apply list_elem_of_here.
Qed.

Lemma reassemble_fragments input fragments arrived :
  fragmentPacket input = Ok fragments ->
  fp_sender input = SENDER_A \/ fp_sender input = SENDER_B ->
  arrived ≡ₚ fragments ->
  reassemblePacket arrived (default FAS1_MAX_BODY_BYTES (fp_payloadBytes input)) = Ok (fp_packet input).
Proof.
  intros (P & N & Hplan & ->)%fragmentPacket_plan Hs Hp.
  rewrite <- (pl_payload _ _ _ Hplan). by apply (reassemble_plan _ _ N).
Qed.

(** C10: the fragments of a packet reassemble to it, in whatever order they
    arrive. *)
Theorem fragment_reassemble input fragments arrived :
  fragmentPacket input = Ok fragments ->
  fp_sender input = SENDER_A \/ fp_sender input = SENDER_B ->
  arrived ≡ₚ fragments ->
  reassemblePacket arrived (default FAS1_MAX_BODY_BYTES (fp_payloadBytes input)) = Ok (fp_packet input).
Proof. apply reassemble_fragments. Qed.

Lemma concat_slices (packet : bytes) P n :
  concat (map (fun i => slice packet (i * P) ((i + 1) * P)) (seq 0 n)) = take (n * P) packet.
Proof.
  induction n as [|n IH]; [done|].
  rewrite seq_S, map_app, concat_app, IH. cbn [map concat Nat.add].
  rewrite app_nil_r, <- !slice_take, slice_join by lia. f_equal. lia.
Qed.

(** Fragmentation loses nothing and every fragment it emits is
    transmittable: at most 16 units, whose bodies concatenate to the packet,
    each with a 32-bit sequence number and an encoding of at most 253 bytes. *)
Theorem fragmentPacket_transmittable input fragments :
  fragmentPacket input = Ok fragments ->
  fp_sender input = SENDER_A \/ fp_sender input = SENDER_B ->
  1 <= zlen fragments <= FAS1_MAX_FRAGMENTS
  /\ concat (map u_body fragments) = fp_packet input
  /\ Forall (fun u => u_sequence u <= UINT32_MAX
                      /\ exists raw, encodeFas1 u = Ok raw /\ zlen raw <= FAS1_MAX_UNIT_BYTES) fragments.
Proof.
  intros (P & N & Hplan & ->)%fragmentPacket_plan Hs. split; [|split].
  - unfold zlen, FAS1_MAX_FRAGMENTS. rewrite length_map, length_seq. destruct Hplan. lia.
  - rewrite map_map. erewrite map_ext; [|intros i; apply plan_body].
    rewrite concat_slices. symmetry. by apply plan_last.
  - apply Forall_forall. intros u (i & <- & Hi)%list_elem_of_In%in_map_iff. apply in_seq in Hi.
    pose proof (plan_body_bounds input P N Hplan i) as Hb. split.
    { unfold plan_fragment, fragment_at. cbn. destruct Hplan. lia. }
    eexists. assert (He := eq_refl (encodeFas1 (plan_fragment input P N i))).
    unfold encodeFas1 at 2 in He. rewrite plan_valid in He by (done || lia). cbn [rbind] in He.
    split; [exact He|]. rewrite (length_encodeFas1 _ _ He).
    unfold FAS1_MAX_UNIT_BYTES, FAS1_MAX_BODY_BYTES. lia.
Qed.

(** ** Soundness of reassembly *)

Lemma ceil_nat L P N :
  (1 <= P)%nat -> ceil_div (Z.of_nat L) (Z.of_nat P) = Z.of_nat N -> (1 <= N)%nat ->
  (P * (N - 1) < L <= P * N)%nat.
Proof.
  intros HP HN H1. pose proof (ceil_div_spec (Z.of_nat L) (Z.of_nat P) ltac:(lia)) as H.
  rewrite HN in H.
  split; [apply Nat2Z.inj_lt|apply Nat2Z.inj_le];
    rewrite ?Nat2Z.inj_mul, ?Nat2Z.inj_sub by lia; lia.
Qed.

(** Indexes below [n] that are pairwise distinct and [n] in number are all of them. *)
Lemma keys_cover (m : list (Z * Fas1Unit)) n :
  (forall i, (i < n)%nat -> exists f, map_get (Z.of_nat i) m = Some f) -> length m = n ->
  forall k f, (k, f) ∈ m -> NoDup m.*1 -> exists i, (i < n)%nat /\ k = Z.of_nat i.
Proof.
  intros Hget Hlen k f Hin Hnd.
  assert (Hsub : map Z.of_nat (seq 0 n) ⊆ m.*1).
  { intros x (i & <- & Hi)%list_elem_of_In%in_map_iff. apply in_seq in Hi.
    destruct (Hget i) as (g & Hg); [lia|]. apply map_get_elem in Hg.
    apply list_elem_of_fmap. by exists (Z.of_nat i, g). }
  assert (Hperm : m.*1 ≡ₚ map Z.of_nat (seq 0 n)).
  { symmetry. apply submseteq_length_Permutation.
    - apply NoDup_submseteq; [apply NoDup_map_of_nat|done].
    - rewrite length_fmap, length_map, length_seq. lia. }
  assert (Hk : k ∈ m.*1) by (apply list_elem_of_fmap; by exists (k, f)).
  rewrite Hperm in Hk. apply list_elem_of_In, in_map_iff in Hk as (i & <- & Hi).
  apply in_seq in Hi. exists i. split; [lia|done].
Qed.

(** The shape of the collected fragments once the join succeeded. *)
Lemma joined_bodies fragments N bodies :
  NoDup (map keyed fragments).*1 -> length fragments = N ->
  Forall2 (fun i b => exists f, map_get (Z.of_nat i) (map keyed fragments) = Some f /\ u_body f = b)
    (seq 0 N) bodies ->
  (forall i b, bodies !! i = Some b ->
     exists f, f ∈ fragments /\ u_fragmentIndex f = Z.of_nat i /\ u_body f = b)
  /\ (forall f, f ∈ fragments ->
     exists i, (i < N)%nat /\ u_fragmentIndex f = Z.of_nat i /\ bodies !! i = Some (u_body f)).
Proof.
  intros Hnd Hlen HF2.
  assert (Hget : forall i b, bodies !! i = Some b ->
    (i < N)%nat /\ exists f, map_get (Z.of_nat i) (map keyed fragments) = Some f /\ u_body f = b).
  { intros i b Hb. destruct (Forall2_lookup_r _ _ _ i b HF2 Hb) as (j & Hj & Hx).
    apply lookup_seq in Hj as [-> ?]. split; [lia|exact Hx]. }
  split.
  - intros i b Hb. apply Hget in Hb as (Hi & f & Hf & Hb). exists f.
    apply map_get_elem in Hf. apply list_elem_of_In, in_map_iff in Hf as (g & [= Hk ->] & Hg).
    split; [by apply list_elem_of_In|done].
  - intros f Hf.
    assert (Hin : (u_fragmentIndex f, f) ∈ map keyed fragments)
      by (apply list_elem_of_In, in_map_iff; exists f; split; [done|by apply list_elem_of_In]).
    destruct (keys_cover (map keyed fragments) N) with (k := u_fragmentIndex f) (f := f)
      as (i & Hi & Hk); try done.
    + intros i Hi. destruct (lookup_lt_is_Some_2 bodies i) as [b Hb].
      { apply Forall2_length in HF2. rewrite length_seq in HF2. lia. }
      apply Hget in Hb as (_ & g & Hg & _). by exists g.
    + by rewrite length_map.
    + exists i. split; [done|]. split; [done|].
      destruct (lookup_lt_is_Some_2 bodies i) as [b Hb].
      { apply Forall2_length in HF2. rewrite length_seq in HF2. lia. }
      destruct (Hget _ _ Hb) as (_ & g & Hg & <-). rewrite <- Hk in Hg.
      rewrite (map_get_In _ _ _ Hnd Hin) in Hg. by injection Hg as ->.
Qed.

Lemma reassemble_from_sound first fragments (P : nat) packet :
  first ∈ fragments ->
  reassemble_from first fragments (Z.of_nat P) = Ok packet ->
  zlen fragments = ceil_div (zlen packet) (Z.of_nat P)
  /\ NoDup (map u_fragmentIndex fragments)
  /\ Forall (fun f => u_packetLength f = zlen packet /\
       exists i, u_fragmentIndex f = Z.of_nat i /\ (i < length fragments)%nat
         /\ u_body f = slice packet (i * P) ((i + 1) * P)) fragments.
Proof.
  intros Hin. unfold reassemble_from. intros H. result_inv. bool_split.
  apply collect_fragments_spec in R1 as (Hfit & Hnd & ->); [|constructor]. cbn [app] in *.
  rename G1 into HL, H0 into Hec, H1 into Hcount, R2 into Hjoin.
  destruct (join_fragments_inv _ _ _ _ _ Hjoin) as (bodies & Heq & HF2). cbn [app] in Heq.
  set (N := length fragments).
  rewrite Hcount in HF2. unfold zlen in HF2. rewrite Nat2Z.id in HF2.
  destruct (joined_bodies fragments N _ Hnd eq_refl HF2) as [Hb Hf].
  assert (H1N : (1 <= N)%nat) by (subst N; destruct fragments; [by apply elem_of_nil in Hin|cbn; lia]).
  assert (HN : ceil_div (zlen packet) (Z.of_nat P) = Z.of_nat N) by (subst N; unfold zlen in *; congruence).
  assert (Hcover := ceil_nat (length packet) P N ltac:(lia) HN H1N).
  assert (Hlb : length bodies = N) by (apply Forall2_length in HF2; by rewrite length_seq in HF2).
  rewrite Forall_forall in Hfit.
  split; [subst N; unfold zlen in *; lia|]. split; [by rewrite <- keys_keyed|].
  apply Forall_forall. intros f Hff. destruct (Hfit f Hff) as (_ & _ & _ & _ & Hfl & _ & _).
  split; [by rewrite Hfl|]. destruct (Hf f Hff) as (i & Hi & Hk & Hbi). exists i.
  split; [done|]. split; [done|]. rewrite Heq. symmetry. apply slice_concat; [|done].
  intros j c Hj. destruct (Hb j c Hj) as (g & Hg & Hgk & <-).
  destruct (Hfit g Hg) as (_ & _ & _ & _ & _ & _ & Hgl). rewrite Hgk in Hgl.
  assert (Hec' : ceil_div (u_packetLength first) (Z.of_nat P) = Z.of_nat N) by congruence.
  rewrite Hec', <- HL in Hgl. apply lookup_lt_Some in Hj.
  unfold zlen in Hgl. destruct (Z.eqb_spec (Z.of_nat j) (Z.of_nat N - 1)); [|lia].
  split; [nia|]. lia.
Qed.

(** Reassembly never invents, reorders or drops bytes: when it returns a
    packet, every unit it was given carries exactly the slice of that packet
    its index names, and the declared geometry is that of the packet. *)
Theorem reassemble_sound fragments (P : nat) packet :
  reassemblePacket fragments (Z.of_nat P) = Ok packet ->
  zlen fragments = ceil_div (zlen packet) (Z.of_nat P)
  /\ NoDup (map u_fragmentIndex fragments)
  /\ Forall (fun f => u_packetLength f = zlen packet /\
       exists i, u_fragmentIndex f = Z.of_nat i /\ (i < length fragments)%nat
         /\ u_body f = slice packet (i * P) ((i + 1) * P)) fragments.
Proof.
  unfold reassemblePacket. intros H. result_inv.
  destruct fragments as [|first rest]; [done|].
  apply (reassemble_from_sound first); [apply list_elem_of_here|done].
Qed.

(** ** Witnesses *)

Definition sample_input : FragmentPacketInput := {|
  fp_packet := map Z.of_nat (seq 0 7); fp_sessionId := 5; fp_sequenceStart := 40; fp_packetId := 3;
  fp_sender := SENDER_B; fp_payloadBytes := Some 3 |}.
Definition sample_fragments : list Fas1Unit :=
  Eval vm_compute in match fragmentPacket sample_input with Ok l => l | Throw _ => [] end.

Lemma fragment_reassemble_witness :
  reassemblePacket (rev sample_fragments) 3 = Ok (map Z.of_nat (seq 0 7)).
Proof.
  apply (fragment_reassemble sample_input sample_fragments (rev sample_fragments));
    [vm_compute; reflexivity|right; reflexivity|].
  apply Permutation_sym, Permutation_rev.
Defined.

Lemma fragmentPacket_transmittable_witness : concat (map u_body sample_fragments) = map Z.of_nat (seq 0 7).
Proof.
  apply (fragmentPacket_transmittable sample_input sample_fragments);
    [vm_compute; reflexivity|right; reflexivity].
Defined.

Lemma reassemble_sound_witness : NoDup (map u_fragmentIndex (rev sample_fragments)).
Proof.
  apply (reassemble_sound (rev sample_fragments) 3 (map Z.of_nat (seq 0 7))). vm_compute. reflexivity.
Defined.
