(* ===== verification/Utf8.v ===== *)
(** * Text at the byte boundary

    A JavaScript string is a list of UTF-16 code units.  [utf8_encode] is
    [new TextEncoder().encode] and [utf8_decode] is
    [new TextDecoder('utf-8', { fatal: true }).decode], as the handshake and
    settings code of [apps/modem-ui/src] uses them. *)

From stdpp Require Import base list numbers option strings.
From Stdlib Require Import ZArith Lia.
From S2P Require Import Prelude.

Abbreviation jsstring := (list Z) (only parsing).

(** An ASCII literal. *)
Fixpoint js (s : string) : jsstring :=
  match s with
  | EmptyString => []
  | String c s' => Z.of_N (Ascii.N_of_ascii c) :: js s'
  end.

(** ** Scalar values and code units *)

Definition high_surrogate (u : Z) : bool := (0xD800 <=? u) && (u <=? 0xDBFF).
Definition low_surrogate (u : Z) : bool := (0xDC00 <=? u) && (u <=? 0xDFFF).
Definition surrogate (u : Z) : bool := (0xD800 <=? u) && (u <=? 0xDFFF).

(** The scalar values of a string; a lone surrogate becomes U+FFFD. *)
Fixpoint scalars (s : jsstring) : list Z :=
  match s with
  | [] => []
  | u :: s' =>
      if high_surrogate u then
        match s' with
        | v :: s'' =>
            if low_surrogate v
            then (0x10000 + (u - 0xD800) * 1024 + (v - 0xDC00)) :: scalars s''
            else 0xFFFD :: scalars s'
        | [] => [0xFFFD]
        end
      else if low_surrogate u then 0xFFFD :: scalars s'
      else u :: scalars s'
  end.

Definition units_of (c : Z) : jsstring :=
  if c <? 0x10000 then [c]
  else [0xD800 + (c - 0x10000) / 1024; 0xDC00 + (c - 0x10000) mod 1024].

Definition encode_scalar (c : Z) : bytes :=
  if c <? 0x80 then [c]
  else if c <? 0x800 then [0xC0 + c / 64; 0x80 + c mod 64]
  else if c <? 0x10000 then [0xE0 + c / 4096; 0x80 + c / 64 mod 64; 0x80 + c mod 64]
  else [0xF0 + c / 262144; 0x80 + c / 4096 mod 64; 0x80 + c / 64 mod 64; 0x80 + c mod 64].

Definition utf8_encode (s : jsstring) : bytes := concat (map encode_scalar (scalars s)).

(** ** Decoding *)

Definition in_range (b lo hi : Z) : bool := (lo <=? b) && (b <=? hi).
Definition continuation (b : Z) : bool := in_range b 0x80 0xBF.

(** The range of the second byte that keeps a three- or four-byte sequence
    shortest-form and outside the surrogates. *)
Definition second_of_three (b c : Z) : bool :=
  if b =? 0xE0 then in_range c 0xA0 0xBF else if b =? 0xED then in_range c 0x80 0x9F else continuation c.
Definition second_of_four (b c : Z) : bool :=
  if b =? 0xF0 then in_range c 0x90 0xBF else if b =? 0xF4 then in_range c 0x80 0x8F else continuation c.

Fixpoint decode_scalars (l : bytes) : option (list Z) :=
  match l with
  | [] => Some []
  | b :: l1 =>
      if in_range b 0 0x7F then cons b <$> decode_scalars l1
      else if in_range b 0xC2 0xDF then
        match l1 with
        | c :: l2 =>
            if continuation c
            then cons ((b - 0xC0) * 64 + (c - 0x80)) <$> decode_scalars l2 else None
        | [] => None
        end
      else if in_range b 0xE0 0xEF then
        match l1 with
        | c :: d :: l3 =>
            if second_of_three b c && continuation d
            then cons ((b - 0xE0) * 4096 + (c - 0x80) * 64 + (d - 0x80)) <$> decode_scalars l3
            else None
        | _ => None
        end
      else if in_range b 0xF0 0xF4 then
        match l1 with
        | c :: d :: e :: l4 =>
            if second_of_four b c && continuation d && continuation e
            then cons ((b - 0xF0) * 262144 + (c - 0x80) * 4096 + (d - 0x80) * 64 + (e - 0x80))
                   <$> decode_scalars l4
            else None
        | _ => None
        end
      else None
  end.

(** The decoder drops one leading byte-order mark. *)
Definition strip_bom (l : bytes) : bytes :=
  if bool_decide (take 3 l = [0xEF; 0xBB; 0xBF]) then drop 3 l else l.

Definition utf8_decode (l : bytes) : result jsstring :=
  match decode_scalars (strip_bom l) with
  | Some cs => Ok (concat (map units_of cs))
  | None => Throw "The encoded data was not valid utf-8"
  end.

(** ** Well-formed strings *)

Definition scalar (c : Z) : Prop := 0 <= c < 0x110000 /\ surrogate c = false.

(** The UTF-16 form of a list of scalar values that does not start with a
    byte-order mark: no lone surrogates. *)
Definition well_formed (s : jsstring) : Prop :=
  exists cs, Forall scalar cs /\ head cs <> Some 0xFEFF /\ s = concat (map units_of cs).

(** ** Round trip *)

Lemma in_range_true b lo hi : lo <= b <= hi -> in_range b lo hi = true.
Proof. intros. unfold in_range. apply andb_true_iff. rewrite !Z.leb_le. lia. Qed.

Lemma in_range_false b lo hi : b < lo \/ hi < b -> in_range b lo hi = false.
Proof. intros. unfold in_range. apply andb_false_iff. rewrite !Z.leb_gt. lia. Qed.

Ltac range_cases :=
  repeat match goal with
  | |- context [in_range ?b ?lo ?hi] =>
      first [ rewrite (in_range_true b lo hi) by lia | rewrite (in_range_false b lo hi) by lia ]
  | |- context [?a =? ?b] =>
      first [ replace (a =? b) with true by (symmetry; apply Z.eqb_eq; lia)
            | replace (a =? b) with false by (symmetry; apply Z.eqb_neq; lia) ]
  end.

Lemma scalar_gap c : scalar c -> 0 <= c < 0xD800 \/ 0xDFFF < c < 0x110000.
Proof. unfold scalar, surrogate. intros [H Hs]. apply andb_false_iff in Hs. rewrite !Z.leb_gt in Hs. lia. Qed.

(** Digits of a number in base 64. *)
Lemma base64_digits c :
  0 <= c -> exists q r, c = 64 * q + r /\ 0 <= r < 64 /\ c / 64 = q /\ c mod 64 = r /\ 0 <= q.
Proof.
  intros. exists (c / 64), (c mod 64).
  pose proof (Z.div_mod c 64 ltac:(lia)). pose proof (Z.mod_pos_bound c 64 ltac:(lia)). lia.
Qed.

Lemma decode_encode_scalar c rest :
  scalar c -> decode_scalars (encode_scalar c ++ rest) = cons c <$> decode_scalars rest.
Proof.
  intros Hs%scalar_gap. unfold encode_scalar.
  destruct (base64_digits c) as (q & r & Hc & Hr & Hq & Hm & Hq0); [lia|].
  destruct (base64_digits q) as (q2 & r2 & Hc2 & Hr2 & Hq2 & Hm2 & Hq20); [lia|].
  destruct (base64_digits q2) as (q3 & r3 & Hc3 & Hr3 & Hq3 & Hm3 & Hq30); [lia|].
  assert (H2 : c / 4096 = q2) by (change 4096 with (64 * 64); rewrite <- Z.div_div by lia; congruence).
  assert (H3 : c / 262144 = q3)
    by (change 262144 with (64 * 64 * 64); rewrite <- !Z.div_div by lia; congruence).
  rewrite H3, H2, Hq, Hm, Hm2, Hm3.
  destruct (Z.ltb_spec c 0x80); [cbn [app decode_scalars]; by range_cases|].
  destruct (Z.ltb_spec c 0x800).
  { cbn [app decode_scalars]. unfold continuation. range_cases. do 2 f_equal. lia. }
  destruct (Z.ltb_spec c 0x10000).
  - cbn [app decode_scalars]. unfold second_of_three, continuation.
    destruct (Z.eqb_spec (0xE0 + q2) 0xE0); [|destruct (Z.eqb_spec (0xE0 + q2) 0xED)];
      range_cases; cbn [andb]; do 2 f_equal; lia.
  - cbn [app decode_scalars]. unfold second_of_four, continuation.
    destruct (Z.eqb_spec (0xF0 + q3) 0xF0); [|destruct (Z.eqb_spec (0xF0 + q3) 0xF4)];
      range_cases; cbn [andb]; do 2 f_equal; lia.
Qed.

Lemma decode_encode_scalars cs :
  Forall scalar cs -> decode_scalars (concat (map encode_scalar cs)) = Some cs.
Proof.
  induction 1 as [|c cs Hc Hcs IH]; [done|]. cbn [map concat].
  by rewrite decode_encode_scalar, IH.
Qed.

Lemma in_surrogates_false c lo hi :
  scalar c -> 0xD800 <= lo -> hi <= 0xDFFF -> (lo <=? c) && (c <=? hi) = false.
Proof. intros Hs%scalar_gap Hlo Hhi. apply andb_false_iff. rewrite !Z.leb_gt. lia. Qed.

Lemma scalars_units_of c s : scalar c -> scalars (units_of c ++ s) = c :: scalars s.
Proof.
  intros Hs. unfold units_of. destruct (Z.ltb_spec c 0x10000).
  - cbn [app scalars]. unfold high_surrogate, low_surrogate.
    by rewrite !in_surrogates_false by (done || lia).
  - destruct Hs as [Hc _].
    pose proof (Z.div_mod (c - 0x10000) 1024 ltac:(lia)).
    pose proof (Z.mod_pos_bound (c - 0x10000) 1024 ltac:(lia)).
    assert (0 <= (c - 0x10000) / 1024 < 1024)
      by (split; [apply Z.div_pos|apply Z.div_lt_upper_bound]; lia).
    cbn [app scalars]. unfold high_surrogate, low_surrogate.
    change ((?a <=? ?b) && (?b <=? ?c)) with (in_range b a c).
    rewrite !in_range_true by lia. f_equal. lia.
Qed.

Lemma scalars_units cs : Forall scalar cs -> scalars (concat (map units_of cs)) = cs.
Proof.
  induction 1 as [|c cs Hc Hcs IH]; [done|]. cbn [map concat].
  by rewrite scalars_units_of, IH.
Qed.

Lemma strip_bom_other c rest :
  scalar c -> c <> 0xFEFF -> strip_bom (encode_scalar c ++ rest) = encode_scalar c ++ rest.
Proof.
  intros Hs%scalar_gap Hne. unfold strip_bom. rewrite bool_decide_eq_false_2; [done|].
  unfold encode_scalar.
  destruct (base64_digits c) as (q & r & Hc & Hr & Hq & Hm & Hq0); [lia|].
  destruct (base64_digits q) as (q2 & r2 & Hc2 & Hr2 & Hq2 & Hm2 & Hq20); [lia|].
  assert (H2 : c / 4096 = q2) by (change 4096 with (64 * 64); rewrite <- Z.div_div by lia; congruence).
  assert (H3 : 0 <= c / 262144) by (apply Z.div_pos; lia).
  rewrite H2, Hq, Hm, Hm2.
  destruct (Z.ltb_spec c 0x80); [intros [= ? _]; lia|].
  destruct (Z.ltb_spec c 0x800); [intros [= ? _]; lia|].
  destruct (Z.ltb_spec c 0x10000); cbn [app take]; intros [=]; lia.
Qed.

(** Text survives the byte boundary. *)
Lemma utf8_decode_encode s : well_formed s -> utf8_decode (utf8_encode s) = Ok s.
Proof.
  intros (cs & Hcs & Hh & ->). unfold utf8_decode, utf8_encode. rewrite scalars_units by done.
  assert (Hb : strip_bom (concat (map encode_scalar cs)) = concat (map encode_scalar cs)).
  { destruct Hcs as [|c cs Hc Hcs]; [done|]. cbn [map concat]. apply strip_bom_other; [done|].
    cbn in Hh. congruence. }
  by rewrite Hb, decode_encode_scalars.
Qed.

Lemma units_of_nonempty c : units_of c <> [].
Proof. unfold units_of. by destruct (_ <? _). Qed.

Lemma encode_scalar_ok c : scalar c -> bytes_ok (encode_scalar c) /\ encode_scalar c <> [].
Proof.
  intros Hs%scalar_gap. unfold encode_scalar.
  assert (Hmod : forall x, 0 <= x mod 64 < 64) by (intros; apply Z.mod_pos_bound; lia).
  assert (0 <= c / 64) by (apply Z.div_pos; lia).
  pose proof (Hmod c). pose proof (Hmod (c / 64)). pose proof (Hmod (c / 4096)).
  destruct (Z.ltb_spec c 0x80); [split; [repeat constructor; lia|done]|].
  destruct (Z.ltb_spec c 0x800).
  { assert (c / 64 < 32) by (apply Z.div_lt_upper_bound; lia). split; [repeat constructor; lia|done]. }
  destruct (Z.ltb_spec c 0x10000).
  - assert (0 <= c / 4096 < 16) by (split; [apply Z.div_pos|apply Z.div_lt_upper_bound]; lia).
    split; [repeat constructor; lia|done].
  - assert (0 <= c / 262144 < 5) by (split; [apply Z.div_pos|apply Z.div_lt_upper_bound]; lia).
    split; [repeat constructor; lia|done].
Qed.

Lemma utf8_encode_ok s : well_formed s -> bytes_ok (utf8_encode s).
Proof.
  intros (cs & Hcs & _ & ->). unfold utf8_encode. rewrite scalars_units by done.
  induction Hcs as [|c cs Hc Hcs IH]; [constructor|].
  cbn [map concat]. apply bytes_ok_app. split; [by apply encode_scalar_ok|done].
Qed.

Lemma utf8_encode_nonempty s : well_formed s -> s <> [] -> utf8_encode s <> [].
Proof.
  intros (cs & Hcs & _ & ->) Hne. unfold utf8_encode. rewrite scalars_units by done.
  destruct Hcs as [|c cs Hc Hcs]; [done|]. cbn [map concat].
  intros [H _]%app_eq_nil. by apply (proj2 (encode_scalar_ok c Hc)).
Qed.

(** ASCII literals are well formed. *)
Lemma ascii_well_formed s : Forall (fun u => 0 <= u < 0x80) s -> well_formed s.
Proof.
  intros H. exists s. split; [|split].
  - eapply Forall_impl; [exact H|]. intros u Hu. split; [cbn in Hu; lia|].
    unfold surrogate. apply andb_false_iff. left. apply Z.leb_gt. cbn in Hu. lia.
  - destruct H as [|u s Hu _]; [done|]. cbn. intros [= ->]. lia.
  - induction H as [|u s Hu _ IH]; [done|]. cbn [map concat]. rewrite <- IH.
    unfold units_of. replace (u <? 0x10000) with true by (symmetry; apply Z.ltb_lt; lia). done.
Qed.
