(* ===== verification/Doubles.v ===== *)
(** * Numbers with a fractional part

    Where the source computes with fractional numbers (playback gains,
    confidences, signal levels, mean latencies) a [number] is an IEEE 754
    binary64 value, in the Standard Library's executable specification. *)

From stdpp Require Import base list numbers option.
From Stdlib Require Import ZArith Lia SpecFloat.
From S2P Require Import Prelude.

Abbreviation double := spec_float (only parsing).

Definition d_of_Z (z : Z) : double := binary_normalize 53 1024 z 0 false.
Definition d_mul (x y : double) : double := SFmul 53 1024 x y.
Definition d_div (x y : double) : double := SFdiv 53 1024 x y.
Definition d_add (x y : double) : double := SFadd 53 1024 x y.
Definition d_sub (x y : double) : double := SFsub 53 1024 x y.
Definition d_ltb (x y : double) : bool := SFltb x y.
Definition d_leb (x y : double) : bool := SFleb x y.
Definition d_eqb (x y : double) : bool := SFeqb x y.

(** [Math.max(x, y)] *)
Definition d_max (x y : double) : double := if d_ltb x y then y else x.

Definition d_infinity : double := S754_infinity false.

(** [Number.isFinite(x)] *)
Definition d_is_finite (x : double) : bool :=
  match x with S754_zero _ | S754_finite _ _ _ => true | _ => false end.

(** The value of [x] when it is an integer. *)
Definition d_integer (x : double) : option Z :=
  match x with
  | S754_zero _ => Some 0
  | S754_finite s m e =>
      let v := if s then Z.neg m else Z.pos m in
      if 0 <=? e then Some (v * 2 ^ e)
      else if v mod 2 ^ (- e) =? 0 then Some (v / 2 ^ (- e)) else None
  | _ => None
  end.

(** [Number.isSafeInteger(x)], returning the integer. *)
Definition d_safe_integer (x : double) : option Z :=
  match d_integer x with
  | Some z => if is_safe_integer z then Some z else None
  | None => None
  end.

(** [Math.round(x)] for a finite [x]: the nearest integer, ties upwards. *)
Definition d_round (x : double) : Z :=
  match x with
  | S754_finite s m e =>
      let v := if s then Z.neg m else Z.pos m in
      if 0 <=? e then v * 2 ^ e else (2 * v + 2 ^ (- e)) / (2 * 2 ^ (- e))
  | _ => 0
  end.

(** What [left - right || next] tests: the sign of the difference, with zero
    and NaN falling through to [next]. *)
Definition d_sign (x : double) : comparison :=
  match x with
  | S754_finite true _ _ | S754_infinity true => Lt
  | S754_finite false _ _ | S754_infinity false => Gt
  | S754_zero _ | S754_nan => Eq
  end.

#[export] Instance double_eq_dec : EqDecision spec_float.
Proof. solve_decision. Defined.

Lemma d_round_integer x z : d_integer x = Some z -> d_round x = z.
Proof.
  destruct x as [s|s| |s m e]; cbn; try congruence; try (by intros [= <-]).
  set (v := if s then Z.neg m else Z.pos m). destruct (0 <=? e) eqn:He; [congruence|].
  destruct (v mod 2 ^ (- e) =? 0) eqn:Hm; [|done]. intros [= <-]. bool_split.
  assert (0 < 2 ^ (- e)) by (apply Z.pow_pos_nonneg; lia).
  pose proof (Z.div_mod v (2 ^ (- e)) ltac:(lia)) as Hv. rewrite Hm, Z.add_0_r in Hv.
  rewrite Hv at 1. symmetry. apply Z.div_unique with (r := 2 ^ (- e)); lia.
Qed.
