(* ===== verification/Settings.v ===== *)
(** * Directional settings and their commitment
    ([apps/modem-ui/src/acoustic-protocol.ts], lines 47-69, 82-90 and 186-247)

    The profile table, the canonical binary form of the two directions'
    settings that both peers hash, and the digest they exchange. *)

From stdpp Require Import base list numbers option strings.
From Stdlib Require Import ZArith Lia SpecFloat.
From S2P Require Import Prelude Utf8 Doubles Fas1.

(** ** Profiles *)

Record AcousticProfile := mkProfile {
  prof_id : jsstring;
  prof_codec : string;
  prof_modemProfile : string;
  prof_transmitImplementation : string;
  prof_receiveImplementation : string;
}.

Definition QUIET_AUDIBLE : jsstring := Eval vm_compute in js "quiet-audible-7k-v1".

Definition ACOUSTIC_PROFILES : list AcousticProfile :=
  [ {| prof_id := QUIET_AUDIBLE; prof_codec := "quiet"; prof_modemProfile := "audible-7k-channel-0";
       prof_transmitImplementation := "quiet-client"; prof_receiveImplementation := "quiet-client" |} ].

Definition resolveAcousticProfile (profileId : jsstring) : result AcousticProfile :=
  match List.find (fun entry => bool_decide (prof_id entry = profileId)) ACOUSTIC_PROFILES with
  | Some profile =>
      if bool_decide (prof_transmitImplementation profile = prof_receiveImplementation profile)
      then Ok profile else Throw (fas1 "profile ID is unsupported")
  | None => Throw (fas1 "profile ID is unsupported")
  end.

(** ** Settings *)

Record DirectionalSettings := mkDirection {
  profileId : jsstring;
  payloadBytes : Z;
  repetition : Z;
  guardMs : Z;
  playbackGain : double;
  ackTimeoutMs : Z;
}.

Record AcousticSettings := mkSettings {
  aToB : DirectionalSettings;
  bToA : DirectionalSettings;
}.

#[export] Instance DirectionalSettings_eq_dec : EqDecision DirectionalSettings.
Proof. solve_decision. Defined.
#[export] Instance AcousticSettings_eq_dec : EqDecision AcousticSettings.
Proof. solve_decision. Defined.

Definition SETTINGS_VERSION : Z := 1.

(** [assertInteger(x, max, name); if (x < min) fail(message);] *)
Definition assertBetween (value minimum maximum : Z) (name low : string) : result unit :=
  let? _ := assertInteger value maximum name in
  require_not (value <? minimum) (fas1 low).

(** [playbackGain * 1_000], when that product is a safe integer and the gain
    is in [1, 2]. *)
Definition milliGain (gain : double) : option Z :=
  match d_safe_integer (d_mul gain (d_of_Z 1000)) with
  | Some milli =>
      if d_ltb gain (d_of_Z 1) || d_ltb (d_of_Z 2) gain then None else Some milli
  | None => None
  end.

Definition canonicalizeDirection (direction : DirectionalSettings) : result bytes :=
  let? _ := resolveAcousticProfile (profileId direction) in
  let profileBytes := utf8_encode (profileId direction) in
  reject_if (zlen profileBytes <? 1) || (63 <? zlen profileBytes)
    with fas1 "profile ID length is invalid";
  let? _ := assertBetween (payloadBytes direction) 1 FAS1_MAX_BODY_BYTES
              "payload bytes" "payload bytes are invalid" in
  let? _ := assertBetween (repetition direction) 1 3 "repetition" "repetition is invalid" in
  let? _ := assertBetween (guardMs direction) 1 5000
              "guard milliseconds" "guard milliseconds are invalid" in
  match milliGain (playbackGain direction) with
  | None => Throw (fas1 "playback gain is invalid")
  | Some _ =>
    let? _ := assertBetween (ackTimeoutMs direction) 4000 15000 "ack timeout" "ack timeout is invalid" in
    Ok ([zlen profileBytes] ++ profileBytes
        ++ le_bytes 2 (payloadBytes direction) ++ [repetition direction]
        ++ le_bytes 2 (guardMs direction)
        ++ le_bytes 2 (d_round (d_mul (playbackGain direction) (d_of_Z 1000)))
        ++ le_bytes 2 (ackTimeoutMs direction))
  end.

(** Stable binary commitment: version, A to B record, then B to A record. *)
Definition canonicalizeSettings (settings : AcousticSettings) : result bytes :=
  let? a := canonicalizeDirection (aToB settings) in
  let? b := canonicalizeDirection (bToA settings) in
  Ok ([SETTINGS_VERSION] ++ a ++ b).

(** SHA-256 is Web Crypto's, a parameter of the model. *)
Definition digestSettings (sha256 : bytes -> bytes) (settings : AcousticSettings) : result bytes :=
  let? canonical := canonicalizeSettings settings in
  Ok (sha256 canonical).

(** ** Theorems *)

(** The two bytes that carry the playback gain, in thousandths. *)
Definition gainCode (gain : double) : Z := d_round (d_mul gain (d_of_Z 1000)) mod 65536.

(** What a receiver of the canonical form can tell about a direction. *)
Definition same_direction (d1 d2 : DirectionalSettings) : Prop :=
  profileId d1 = profileId d2 /\ payloadBytes d1 = payloadBytes d2
  /\ repetition d1 = repetition d2 /\ guardMs d1 = guardMs d2
  /\ gainCode (playbackGain d1) = gainCode (playbackGain d2)
  /\ ackTimeoutMs d1 = ackTimeoutMs d2.

Lemma assertBetween_ok v lo hi n1 n2 r : assertBetween v lo hi n1 n2 = Ok r -> Z.max 0 lo <= v <= hi.
Proof.
  unfold assertBetween, assertInteger, require_not. intros H.
  destruct (negb _ || _ || _) eqn:E; [done|]. cbn [rbind] in H.
  destruct (v <? lo) eqn:E2; [done|]. bool_split. lia.
Qed.

Lemma resolve_quiet p pr : resolveAcousticProfile p = Ok pr -> p = QUIET_AUDIBLE.
Proof.
  unfold resolveAcousticProfile, ACOUSTIC_PROFILES. cbn [List.find prof_id].
  destruct (bool_decide (QUIET_AUDIBLE = p)) eqn:E; [|done]. bool_split. done.
Qed.

(** The canonical record of a direction, and the bounds its fields satisfy. *)
Lemma canonicalizeDirection_inv d l :
  canonicalizeDirection d = Ok l ->
  profileId d = QUIET_AUDIBLE
  /\ 1 <= payloadBytes d <= 217 /\ 1 <= repetition d <= 3 /\ 1 <= guardMs d <= 5000
  /\ (exists m, milliGain (playbackGain d) = Some m) /\ 4000 <= ackTimeoutMs d <= 15000
  /\ l = ([19] ++ utf8_encode QUIET_AUDIBLE) ++ le_bytes 2 (payloadBytes d) ++ [repetition d]
         ++ le_bytes 2 (guardMs d) ++ le_bytes 2 (d_round (d_mul (playbackGain d) (d_of_Z 1000)))
         ++ le_bytes 2 (ackTimeoutMs d).
Proof.
  unfold canonicalizeDirection. intros H. result_inv.
  destruct (milliGain _) as [m|] eqn:Hm; [|done]. result_inv.
  repeat match goal with H : assertBetween _ _ _ _ _ = Ok _ |- _ => apply assertBetween_ok in H end.
  unfold FAS1_MAX_BODY_BYTES in *. apply resolve_quiet in R as Hp. rewrite Hp.
  repeat split; try lia; try done. by exists m.
Qed.

Lemma length_canonicalizeDirection d l : canonicalizeDirection d = Ok l -> length l = 29%nat.
Proof.
  intros (_ & _ & _ & _ & _ & _ & ->)%canonicalizeDirection_inv.
  rewrite !length_app, !length_le_bytes. done.
Qed.

Lemma canonicalizeDirection_inj d1 d2 l :
  canonicalizeDirection d1 = Ok l -> canonicalizeDirection d2 = Ok l -> same_direction d1 d2.
Proof.
  intros (Hp1 & Hb1 & Hr1 & Hg1 & _ & Ha1 & H1)%canonicalizeDirection_inv
         (Hp2 & Hb2 & Hr2 & Hg2 & _ & Ha2 & H2)%canonicalizeDirection_inv.
  rewrite H1 in H2. apply app_inv_head in H2.
  apply app_inj_1 in H2 as [Hb H2]; [|by rewrite !length_le_bytes].
  apply app_inj_1 in H2 as [Hr H2]; [|done]. injection Hr as Hr.
  apply app_inj_1 in H2 as [Hg H2]; [|by rewrite !length_le_bytes].
  apply app_inj_1 in H2 as [Hm Ha]; [|by rewrite !length_le_bytes].
  apply le_bytes_inj in Hb, Hg, Hm, Ha.
  change (256 ^ Z.of_nat 2) with 65536 in *.
  rewrite !Z.mod_small in Hb, Hg, Ha by lia.
  repeat split; try done. congruence.
Qed.

Lemma canonical_same s1 s2 l :
  canonicalizeSettings s1 = Ok l -> canonicalizeSettings s2 = Ok l ->
  same_direction (aToB s1) (aToB s2) /\ same_direction (bToA s1) (bToA s2).
Proof.
  unfold canonicalizeSettings. intros H1 H2. result_inv.
  apply app_inj_1 in H as [<- <-].
  - split; by eapply canonicalizeDirection_inj.
  - rewrite (length_canonicalizeDirection _ _ R), (length_canonicalizeDirection _ _ R1). done.
Qed.

(** C11: the committed bytes determine the settings: two settings with the same
    canonical form agree, in each direction, on the profile, fragment size,
    repetition, guard time, gain (to a thousandth) and acknowledgement timeout. *)
Theorem canonicalizeSettings_inj s1 s2 l :
  canonicalizeSettings s1 = Ok l -> canonicalizeSettings s2 = Ok l ->
  same_direction (aToB s1) (aToB s2) /\ same_direction (bToA s1) (bToA s2).
Proof. apply canonical_same. Qed.

Definition sample_direction : DirectionalSettings :=
  mkDirection QUIET_AUDIBLE 200 1 750 (d_of_Z 1) 4000.

Lemma canonicalizeSettings_inj_witness :
  same_direction sample_direction sample_direction.
Proof.
  eapply (canonicalizeSettings_inj (mkSettings sample_direction sample_direction)
            (mkSettings sample_direction sample_direction)); vm_compute; reflexivity.
Defined.
