(* ===== verification/Handshake.v ===== *)
(** * The handshake body of the acoustic session
    ([apps/modem-ui/src/acoustic-session.ts], lines 54-163)

    Roles, the helper predicates of the session, and the strict binary codec
    of the HELLO and HELLO_ACK bodies. *)

From stdpp Require Import base list numbers option strings.
From Stdlib Require Import ZArith Lia.
From S2P Require Import Prelude Utf8 Fas1.

(** ** Roles and helpers *)

Inductive AcousticRole := RoleA | RoleB.

#[export] Instance AcousticRole_eq_dec : EqDecision AcousticRole.
Proof. solve_decision. Defined.

Record AcousticCapabilityRange := mkRange { minPayloadBytes : Z; maxPayloadBytes : Z }.

#[export] Instance Range_eq_dec : EqDecision AcousticCapabilityRange.
Proof. solve_decision. Defined.

Record Handshake := mkHandshake {
  hs_role : AcousticRole;
  hs_identity : jsstring;
  hs_expectedPeer : jsstring;
  hs_nonce : bytes;
  hs_echoedNonce : option bytes;
  hs_profiles : list jsstring;
  hs_ranges : AcousticCapabilityRange;
  hs_epoch : Z;
  hs_sessionId : option Z;
}.

Definition MAX_IDENTITY_BYTES : Z := 96.
Definition MAX_PROFILES : Z := 3.
Definition MAX_PROFILE_BYTES : Z := 48.

Definition session_error (message : string) : string := ("acoustic session " +:+ message)%string.

Definition validInteger (value minimum maximum : Z) : bool :=
  is_safe_integer value && (minimum <=? value) && (value <=? maximum).

(** Constant-time comparison: the differences accumulate with [|=]. *)
Fixpoint mismatch (acc : Z) (left right : bytes) : Z :=
  match left, right with
  | l :: left', r :: right' => mismatch (Z.lor acc (Z.lxor l r)) left' right'
  | _, _ => acc
  end.

Definition equal (left right : option bytes) : bool :=
  match left, right with
  | Some l, Some r =>
      if negb (Nat.eqb (length l) (length r)) then false else mismatch 0 l r =? 0
  | _, _ => false
  end.

Definition nonZero (value : bytes) : bool := existsb (fun byte => negb (byte =? 0)) value.

Definition roleByte (role : AcousticRole) : Z := match role with RoleA => 1 | RoleB => 2 end.

Definition parseRole (value : Z) : result AcousticRole :=
  match value with
  | 1 => Ok RoleA
  | 2 => Ok RoleB
  | _ => Throw (session_error "role is invalid")
  end.

Definition complement (role : AcousticRole) : AcousticRole :=
  match role with RoleA => RoleB | RoleB => RoleA end.

Definition senderFlag (role : AcousticRole) : Z :=
  match role with RoleA => SENDER_A | RoleB => SENDER_B end.

Definition toSessionId (nonce : bytes) : result Z :=
  reject_if negb (zlen nonce =? 16) with session_error "nonce must be 128 bits";
  let id := Z.lxor (read_le 8 0 nonce) (read_le 8 8 nonce) in
  Ok (if id =? 0 then 1 else id).

Definition sameProfiles (left right : list jsstring) : bool :=
  Nat.eqb (length left) (length right) && bool_decide (left = right).

Definition validRange (value : AcousticCapabilityRange) : bool :=
  validInteger (minPayloadBytes value) 1 217
  && validInteger (maxPayloadBytes value) (minPayloadBytes value) 217.

(** ** Encoding *)

Definition is_empty (s : jsstring) : bool := match s with [] => true | _ => false end.

(** A length byte and the bytes themselves. *)
Definition counted (text : bytes) : bytes := (zlen text mod 256) :: text.

Definition encodeHandshake (value : Handshake) : result bytes :=
  reject_if is_empty (hs_identity value) || is_empty (hs_expectedPeer value)
         || bool_decide (hs_identity value = hs_expectedPeer value)
         || negb (zlen (hs_nonce value) =? 16) || negb (nonZero (hs_nonce value))
         || negb (validRange (hs_ranges value))
         || (zlen (hs_profiles value) <? 1) || (MAX_PROFILES <? zlen (hs_profiles value))
         || negb (validInteger (hs_epoch value) 0 UINT32_MAX)
    with session_error "handshake is invalid";
  let identity := utf8_encode (hs_identity value) in
  let expected := utf8_encode (hs_expectedPeer value) in
  reject_if (MAX_IDENTITY_BYTES <? zlen identity) || (MAX_IDENTITY_BYTES <? zlen expected)
    with session_error "identity is invalid";
  let profiles := map utf8_encode (hs_profiles value) in
  reject_if existsb (fun profile => (zlen profile <? 1) || (MAX_PROFILE_BYTES <? zlen profile)) profiles
    with session_error "profile set is invalid";
  let? echo := match hs_echoedNonce value with
               | None => Ok [0]
               | Some echoedNonce =>
                   reject_if negb (zlen echoedNonce =? 16) with session_error "echo nonce is invalid";
                   Ok (1 :: echoedNonce)
               end in
  Ok ([1; roleByte (hs_role value)] ++ counted identity ++ counted expected
      ++ hs_nonce value ++ [zlen profiles] ++ concat (map counted profiles)
      ++ le_bytes 2 (minPayloadBytes (hs_ranges value))
      ++ le_bytes 2 (maxPayloadBytes (hs_ranges value))
      ++ le_bytes 4 (hs_epoch value) ++ echo
      ++ match hs_sessionId value with None => [0] | Some id => 1 :: le_bytes 8 id end).

(** ** Decoding

    The cursor of the source is the list of bytes still to read. *)

Definition parser (A : Type) : Type := bytes -> result (A * bytes).

Definition read_byte : parser Z := fun input =>
  match input with
  | b :: rest => Ok (b, rest)
  | [] => Throw (session_error "handshake is truncated")
  end.

(** [n] bytes, when they are all there. *)
Definition read_bytes (n : Z) (message : string) : parser bytes := fun input =>
  if zlen input <? n then Throw (session_error message)
  else Ok (take (Z.to_nat n) input, drop (Z.to_nat n) input).

Definition read_text (maximum : Z) (message : string) : parser jsstring := fun input =>
  let? '(length, rest) := read_byte input in
  reject_if (length <? 1) || (maximum <? length) with session_error message;
  let? '(raw, rest) := read_bytes length message rest in
  let? value := utf8_decode raw in
  Ok (value, rest).

Fixpoint read_profiles (count : nat) : parser (list jsstring) := fun input =>
  match count with
  | O => Ok ([], input)
  | S count' =>
      let? '(profile, rest) := read_text MAX_PROFILE_BYTES "handshake profile is invalid" input in
      let? '(profiles, rest) := read_profiles count' rest in
      Ok (profile :: profiles, rest)
  end.

Definition read_echo : parser (option bytes) := fun input =>
  let? '(echo, rest) := read_byte input in
  if echo =? 1 then
    let? '(nonce, rest) := read_bytes 16 "handshake echo nonce is invalid" rest in
    Ok (Some nonce, rest)
  else if echo =? 0 then Ok (None, rest)
  else Throw (session_error "handshake echo flag is invalid").

(** The last field must end the input exactly. *)
Definition read_session_id : parser (option Z) := fun input =>
  let? '(hasSessionId, rest) := read_byte input in
  if hasSessionId =? 1 then
    reject_if negb (zlen rest =? 8) with session_error "handshake session ID is invalid";
    let sessionId := le_value rest in
    reject_if sessionId =? 0 with session_error "handshake session ID is invalid";
    Ok (Some sessionId, [])
  else
    reject_if negb (hasSessionId =? 0) || negb (zlen rest =? 0)
      with session_error "handshake trailing data is invalid";
    Ok (None, rest).

(** The body of the [try] block. *)
Definition parse_handshake (input : bytes) : result Handshake :=
  let? '(version, rest) := read_byte input in
  reject_if negb (version =? 1) with session_error "handshake version is invalid";
  let? '(roleValue, rest) := read_byte rest in
  let? role := parseRole roleValue in
  let? '(identity, rest) := read_text MAX_IDENTITY_BYTES "handshake identity is invalid" rest in
  let? '(expectedPeer, rest) := read_text MAX_IDENTITY_BYTES "handshake identity is invalid" rest in
  let? '(nonce, rest) := read_bytes 16 "handshake nonce is invalid" rest in
  let? '(profileCount, rest) := read_byte rest in
  reject_if (profileCount <? 1) || (MAX_PROFILES <? profileCount)
    with session_error "handshake profile count is invalid";
  let? '(profiles, rest) := read_profiles (Z.to_nat profileCount) rest in
  reject_if zlen rest <? 9 with session_error "handshake range is invalid";
  let ranges := {| minPayloadBytes := read_le 2 0 rest; maxPayloadBytes := read_le 2 2 rest |} in
  let epoch := read_le 4 4 rest in
  let? '(echoedNonce, rest) := read_echo (drop 8 rest) in
  let? '(sessionId, rest) := read_session_id rest in
  reject_if is_empty identity || is_empty expectedPeer || bool_decide (identity = expectedPeer)
         || negb (nonZero nonce) || negb (validRange ranges)
    with session_error "handshake binding is invalid";
  Ok {| hs_role := role; hs_identity := identity; hs_expectedPeer := expectedPeer;
        hs_nonce := nonce; hs_echoedNonce := echoedNonce; hs_profiles := profiles;
        hs_ranges := ranges; hs_epoch := epoch; hs_sessionId := sessionId |}.

(** Every failure inside, a malformed text included, surfaces as one error. *)
Definition decodeHandshake (input : bytes) : result Handshake :=
  match parse_handshake input with
  | Ok value => Ok value
  | Throw _ => Throw (session_error "handshake is invalid")
  end.

(** ** Comparison *)

Lemma mismatch_zero acc l r :
  0 <= acc -> bytes_ok l -> bytes_ok r -> length l = length r ->
  mismatch acc l r = 0 <-> acc = 0 /\ l = r.
Proof.
  intros Ha Hl. revert acc r Ha. induction Hl as [|x l Hx Hl IH]; intros acc [|y r] Ha Hr Hlen;
    try discriminate; cbn [mismatch]; [split; [done|by intros [? _]]|].
  apply Forall_cons in Hr as [Hy Hr]. injection Hlen as Hlen. unfold byte_ok in *.
  rewrite IH; [|apply Z.lor_nonneg; split; [done|]; apply Z.lxor_nonneg; lia|done|done].
  rewrite Z.lor_eq_0_iff, Z.lxor_eq_0_iff. split; [by intros [[-> ->] ->]|by intros [-> [= -> ->]]].
Qed.

Lemma equal_spec l r : bytes_ok l -> bytes_ok r -> equal (Some l) (Some r) = true <-> l = r.
Proof.
  intros Hl Hr. unfold equal. destruct (Nat.eqb_spec (length l) (length r)); cbn [negb].
  - rewrite Z.eqb_eq, mismatch_zero by (done || lia). tauto.
  - split; [done|]. intros ->. done.
Qed.

Lemma equal_refl l : bytes_ok l -> equal (Some l) (Some l) = true.
Proof. intros. by apply equal_spec. Qed.

Lemma sameProfiles_spec l r : sameProfiles l r = true <-> l = r.
Proof.
  unfold sameProfiles. rewrite andb_true_iff, bool_decide_eq_true, Nat.eqb_eq.
  split; [tauto|]. by intros ->.
Qed.

(** ** Round trip *)

Lemma read_bytes_app n msg l rest : zlen l = n -> read_bytes n msg (l ++ rest) = Ok (l, rest).
Proof.
  intros <-. unfold read_bytes.
  replace (zlen (l ++ rest) <? zlen l) with false
    by (symmetry; apply Z.ltb_ge; unfold zlen; rewrite length_app; lia).
  unfold zlen. rewrite Nat2Z.id, take_app_length, drop_app_length. done.
Qed.

Lemma read_text_counted s maximum msg rest :
  well_formed s -> 1 <= zlen (utf8_encode s) <= maximum -> maximum < 256 ->
  read_text maximum msg (counted (utf8_encode s) ++ rest) = Ok (s, rest).
Proof.
  intros Hs Hl Hm. unfold read_text, counted. cbn [app read_byte rbind].
  rewrite Z.mod_small by lia.
  replace ((zlen (utf8_encode s) <? 1) || (maximum <? zlen (utf8_encode s))) with false
    by (symmetry; apply orb_false_iff; rewrite !Z.ltb_ge; lia).
  cbn [require_not rbind]. rewrite read_bytes_app by done. cbn [rbind].
  by rewrite utf8_decode_encode.
Qed.

Lemma read_profiles_counted profiles rest :
  Forall (fun p => well_formed p /\ 1 <= zlen (utf8_encode p) <= MAX_PROFILE_BYTES) profiles ->
  read_profiles (length profiles) (concat (map counted (map utf8_encode profiles)) ++ rest)
  = Ok (profiles, rest).
Proof.
  intros H. revert rest. induction H as [|p ps [Hp Hl] _ IH]; intros rest; [done|].
  cbn [length read_profiles map concat]. rewrite <- app_assoc.
  rewrite read_text_counted by (done || unfold MAX_PROFILE_BYTES; lia). cbn [rbind]. by rewrite IH.
Qed.

Lemma read_session_id_encoded id :
  match id with Some v => 0 < v <= UINT64_MAX | None => True end ->
  read_session_id (match id with None => [0] | Some v => 1 :: le_bytes 8 v end) = Ok (id, []).
Proof.
  intros H. destruct id as [v|]; [|done]. unfold read_session_id. cbn [read_byte rbind].
  unfold zlen. rewrite length_le_bytes. cbn [require_not rbind negb Z.eqb].
  rewrite le_value_le_bytes. unfold UINT64_MAX in H.
  change (256 ^ Z.of_nat 8) with 18446744073709551616. rewrite Z.mod_small by lia.
  replace (v =? 0) with false by (symmetry; apply Z.eqb_neq; lia). done.
Qed.

(** The texts of a handshake survive UTF-8 and its optional identifier is a
    nonzero 64-bit value, as [toSessionId] produces. *)
Definition portable (h : Handshake) : Prop :=
  well_formed (hs_identity h) /\ well_formed (hs_expectedPeer h)
  /\ Forall well_formed (hs_profiles h)
  /\ match hs_sessionId h with Some v => 0 < v <= UINT64_MAX | None => True end.

Lemma encoded_text_length s :
  well_formed s -> is_empty s = false -> 1 <= zlen (utf8_encode s).
Proof.
  intros Hw He. assert (Hn : utf8_encode s <> []) by (apply utf8_encode_nonempty; [done|by destruct s]).
  unfold zlen. destruct (utf8_encode s); [done|]. cbn. lia.
Qed.

Lemma validRange_bounds r :
  validRange r = true -> 0 <= minPayloadBytes r < 65536 /\ 0 <= maxPayloadBytes r < 65536.
Proof. unfold validRange, validInteger. intros. bool_split. lia. Qed.

(** The ranges and the epoch, as the decoder reads them. *)
Lemma handshake_numbers r epoch rest :
  validRange r = true -> validInteger epoch 0 UINT32_MAX = true ->
  let l := le_bytes 2 (minPayloadBytes r) ++ le_bytes 2 (maxPayloadBytes r) ++ le_bytes 4 epoch ++ rest in
  mkRange (read_le 2 0 l) (read_le 2 2 l) = r /\ read_le 4 4 l = epoch /\ drop 8 l = rest.
Proof.
  intros Hr He. apply validRange_bounds in Hr as [H1 H2].
  unfold validInteger, UINT32_MAX in He. bool_split. cbv zeta. split; [|split].
  - destruct r. cbn [minPayloadBytes maxPayloadBytes] in *. f_equal; by read_fields.
  - by read_fields.
  - rewrite !app_assoc, drop_app_length'; [done|]. by rewrite !length_app, !length_le_bytes.
Qed.

Lemma read_echo_encoded echo rest :
  match echo with Some n => zlen n = 16 | None => True end ->
  read_echo (match echo with None => [0] | Some n => 1 :: n end ++ rest) = Ok (echo, rest).
Proof.
  intros H. destruct echo as [n|]; [|done]. unfold read_echo. cbn [app read_byte rbind Z.eqb Pos.eqb].
  by rewrite read_bytes_app.
Qed.

Definition echo_field (h : Handshake) : bytes :=
  match hs_echoedNonce h with None => [0] | Some n => 1 :: n end.
Definition session_field (h : Handshake) : bytes :=
  match hs_sessionId h with None => [0] | Some id => 1 :: le_bytes 8 id end.

(** What the encoder checked, and the bytes it produced. *)
Record encoded_handshake (h : Handshake) (raw : bytes) : Prop := {
  eh_identity : is_empty (hs_identity h) = false;
  eh_expected : is_empty (hs_expectedPeer h) = false;
  eh_differ : hs_identity h <> hs_expectedPeer h;
  eh_identity_length : 1 <= zlen (utf8_encode (hs_identity h)) <= MAX_IDENTITY_BYTES;
  eh_expected_length : 1 <= zlen (utf8_encode (hs_expectedPeer h)) <= MAX_IDENTITY_BYTES;
  eh_nonce : zlen (hs_nonce h) = 16 /\ nonZero (hs_nonce h) = true;
  eh_count : 1 <= zlen (hs_profiles h) <= MAX_PROFILES;
  eh_profiles : Forall (fun p => well_formed p /\ 1 <= zlen (utf8_encode p) <= MAX_PROFILE_BYTES) (hs_profiles h);
  eh_ranges : validRange (hs_ranges h) = true;
  eh_epoch : validInteger (hs_epoch h) 0 UINT32_MAX = true;
  eh_echo : match hs_echoedNonce h with Some n => zlen n = 16 | None => True end;
  eh_raw : raw = [1; roleByte (hs_role h)] ++ counted (utf8_encode (hs_identity h))
    ++ counted (utf8_encode (hs_expectedPeer h)) ++ hs_nonce h ++ [zlen (hs_profiles h)]
    ++ concat (map counted (map utf8_encode (hs_profiles h)))
    ++ le_bytes 2 (minPayloadBytes (hs_ranges h)) ++ le_bytes 2 (maxPayloadBytes (hs_ranges h))
    ++ le_bytes 4 (hs_epoch h) ++ echo_field h ++ session_field h;
}.

Lemma profile_lengths ps :
  Forall well_formed ps ->
  existsb (fun p => (zlen p <? 1) || (MAX_PROFILE_BYTES <? zlen p)) (map utf8_encode ps) = false ->
  Forall (fun p => well_formed p /\ 1 <= zlen (utf8_encode p) <= MAX_PROFILE_BYTES) ps.
Proof.
  induction 1 as [|p ps Hp _ IH]; [constructor|]. cbn [map existsb]. intros H. bool_split.
  constructor; [split; [done|lia]|by apply IH].
Qed.

Lemma zlen_map {A B} (f : A -> B) l : zlen (map f l) = zlen l.
Proof. unfold zlen. by rewrite length_map. Qed.

Lemma encodeHandshake_inv h raw :
  portable h -> encodeHandshake h = Ok raw -> encoded_handshake h raw.
Proof.
  intros (Hi & He & Hp & Hsid). unfold encodeHandshake. intros H. result_inv. bool_split.
  pose proof (encoded_text_length _ Hi). pose proof (encoded_text_length _ He).
  assert (He' : a = echo_field h
                /\ match hs_echoedNonce h with Some n => zlen n = 16 | None => True end).
  { unfold echo_field. destruct (hs_echoedNonce h) as [n|]; [|by injection R as <-].
    result_inv. by bool_split. }
  destruct He' as [-> Hn].
  constructor; auto using profile_lengths.
  rewrite zlen_map. done.
Qed.

(** A handshake the encoder accepts is read back exactly by the strict
    decoder of the peer: role, identities, nonce, echoed nonce, profiles,
    ranges, epoch and session identifier. *)
Theorem handshake_decode_encode h raw :
  portable h -> encodeHandshake h = Ok raw -> decodeHandshake raw = Ok h.
Proof.
  intros Hport Hraw. pose proof (encodeHandshake_inv _ _ Hport Hraw) as E. clear Hraw.
  destruct Hport as (Hi & He & _ & Hsid). destruct E.
  assert (Hrole : parseRole (roleByte (hs_role h)) = Ok (hs_role h)) by (by destruct (hs_role h)).
  unfold decodeHandshake, parse_handshake. rewrite eh_raw0.
  cbn [app read_byte rbind require_not negb Z.eqb Pos.eqb]. rewrite Hrole. cbn [rbind].
  rewrite read_text_counted by (done || unfold MAX_IDENTITY_BYTES in *; lia). cbn [rbind].
  rewrite read_text_counted by (done || unfold MAX_IDENTITY_BYTES in *; lia). cbn [rbind].
  rewrite read_bytes_app by apply eh_nonce0. cbn [rbind app read_byte].
  replace ((zlen (hs_profiles h) <? 1) || (MAX_PROFILES <? zlen (hs_profiles h))) with false
    by (symmetry; apply orb_false_iff; rewrite !Z.ltb_ge; lia).
  cbn [require_not rbind]. unfold zlen at 1. rewrite Nat2Z.id, read_profiles_counted by done.
  cbn [rbind].
  destruct (handshake_numbers (hs_ranges h) (hs_epoch h) (echo_field h ++ session_field h))
    as (Hn1 & Hn2 & Hn3); [done|done|]. rewrite Hn1, Hn2, Hn3.
  unfold echo_field, session_field. rewrite read_echo_encoded by done. cbn [rbind].
  rewrite read_session_id_encoded by done. cbn [rbind].
  replace (_ <? 9) with false
    by (symmetry; apply Z.ltb_ge; unfold zlen; rewrite !length_app, !length_le_bytes;
        destruct (hs_echoedNonce h), (hs_sessionId h); cbn; lia).
  rewrite eh_identity0, eh_expected0, bool_decide_eq_false_2 by done.
  destruct eh_nonce0 as [_ ->]. rewrite eh_ranges0. cbn [orb negb require_not rbind].
  by destruct h.
Qed.

Definition sample_hello : Handshake := {|
  hs_role := RoleA; hs_identity := js "npub-a"; hs_expectedPeer := js "npub-b";
  hs_nonce := map Z.of_nat (seq 1 16); hs_echoedNonce := Some (map Z.of_nat (seq 3 16));
  hs_profiles := [js "quiet-audible-7k-v1"]; hs_ranges := mkRange 64 200; hs_epoch := 17;
  hs_sessionId := Some 18446744073709551615 |}.

Lemma handshake_decode_encode_witness :
  match encodeHandshake sample_hello with
  | Ok raw => decodeHandshake raw = Ok sample_hello
  | Throw _ => False
  end.
Proof.
  destruct (encodeHandshake sample_hello) as [raw|] eqn:E; [|by vm_compute in E].
  apply (handshake_decode_encode sample_hello raw); [|exact E].
  assert (W : forall s, forallb (fun u => (0 <=? u) && (u <? 128)) s = true -> well_formed s).
  { intros s Hs. apply ascii_well_formed, Forall_forall. intros u Hu%list_elem_of_In.
    rewrite forallb_forall in Hs. specialize (Hs u Hu). bool_split. lia. }
  split; [|split; [|split]]; [by apply W; vm_compute..| |cbn; unfold UINT64_MAX; lia].
  constructor; [by apply W; vm_compute|constructor].
Defined.
