(* ===== verification/Calibration.v ===== *)
(** * Calibration: probes, reports and the selection of a candidate
    ([apps/modem-ui/src/acoustic-session.ts], lines 18-37, 65-73, 684-714 and 757-767)

    The configuration of a session, the ten-byte REPORT body, and the ranking
    that picks the settings of a direction from its ledger. *)

From stdpp Require Import base list numbers option strings.
From Stdlib Require Import ZArith Lia SpecFloat.
From S2P Require Import Prelude Utf8 Doubles Fas1 Settings Handshake.

(** ** Data *)

Inductive Direction := AtoB | BtoA.

#[export] Instance Direction_eq_dec : EqDecision Direction.
Proof. solve_decision. Defined.

(** [AcousticCandidate extends DirectionalSettings] *)
Record AcousticCandidate := mkCandidate { cand_id : jsstring; cand_settings : DirectionalSettings }.

#[export] Instance AcousticCandidate_eq_dec : EqDecision AcousticCandidate.
Proof. solve_decision. Defined.

Record AcousticProbe := mkProbe {
  pr_direction : Direction;
  pr_candidateIndex : Z;
  pr_probeIndex : Z;
  pr_candidate : AcousticCandidate;
}.

Record AcousticProbeObservation := mkObservation {
  ob_received : bool;
  ob_bytePerfect : bool;
  ob_corrupt : bool;
  ob_missing : bool;
  ob_duplicate : bool;
  ob_discontinuity : bool;
  ob_latencyMs : option Z;
  ob_signalDb : option double;
  ob_clipping : option bool;
  ob_confidence : double;
}.

#[export] Instance Probe_eq_dec : EqDecision AcousticProbe.
Proof. solve_decision. Defined.
#[export] Instance Observation_eq_dec : EqDecision AcousticProbeObservation.
Proof. solve_decision. Defined.

(** [{ ...probe, observation }] *)
Record AcousticProbeLedgerEntry := mkEntry { le_probe : AcousticProbe; le_observation : AcousticProbeObservation }.

(** What the modem's [send] does: return, return a promise, or throw. *)
Inductive Completion := Returned | Promised.

(** The options of a session.  The injected collaborators are functions of the
    number of calls made so far, so that they may answer differently each
    time; [sha256] and [localeCompare] are the platform's. *)
Record AcousticSessionOptions := mkOptions {
  o_role : AcousticRole;
  o_identity : jsstring;
  o_expectedPeer : jsstring;
  o_profiles : list jsstring;
  o_ranges : AcousticCapabilityRange;
  o_candidates : list AcousticCandidate;
  o_probesPerDirection : Z;
  o_maxCandidates : Z;
  o_deadlineMs : Z;
  o_nonce : nat -> bytes;
  o_measureProbe : nat -> AcousticProbe -> result AcousticProbeObservation;
  o_send : nat -> bytes -> result Completion;
  o_applyCandidate : nat -> AcousticCandidate -> result unit;
  o_sha256 : bytes -> bytes;
  o_localeCompare : jsstring -> jsstring -> comparison;
}.

(** ** Directions *)

Definition PROBE_DIRECTION_A_TO_B : Z := 1.
Definition PROBE_DIRECTION_B_TO_A : Z := 2.

Definition directionByte (direction : Direction) : Z :=
  match direction with AtoB => PROBE_DIRECTION_A_TO_B | BtoA => PROBE_DIRECTION_B_TO_A end.

Definition parseDirection (value : Z) : result Direction :=
  if value =? PROBE_DIRECTION_A_TO_B then Ok AtoB
  else if value =? PROBE_DIRECTION_B_TO_A then Ok BtoA
  else Throw (session_error "probe direction is invalid").

Definition expectedSender (direction : Direction) : AcousticRole :=
  match direction with AtoB => RoleA | BtoA => RoleB end.

(** ** Observations *)

Definition normalizeObservation (value : AcousticProbeObservation) : result AcousticProbeObservation :=
  reject_if match ob_latencyMs value with
            | Some latency => negb (validInteger latency 0 65534)
            | None => false
            end
         || match ob_signalDb value with
            | Some signal => negb (d_is_finite signal) || d_ltb signal (d_of_Z (-200))
                             || d_ltb (d_of_Z 0) signal
            | None => false
            end
         || negb (d_is_finite (ob_confidence value)) || d_ltb (ob_confidence value) (d_of_Z 0)
         || d_ltb (d_of_Z 1) (ob_confidence value)
    with session_error "probe observation is invalid";
  Ok value.

(** ** Reports *)

Definition OBS_RECEIVED : Z := 1.
Definition OBS_BYTE_PERFECT : Z := 2.
Definition OBS_CORRUPT : Z := 4.
Definition OBS_MISSING : Z := 8.
Definition OBS_DUPLICATE : Z := 16.
Definition OBS_DISCONTINUITY : Z := 32.
Definition OBS_CLIPPING : Z := 64.

Definition flag (value : bool) (bit : Z) : Z := if value then bit else 0.

Definition flag_bits (received bytePerfect corrupt missing duplicate discontinuity clipping : bool) : Z :=
  js_or (js_or (js_or (js_or (js_or (js_or
    (flag received OBS_RECEIVED)
    (flag bytePerfect OBS_BYTE_PERFECT))
    (flag corrupt OBS_CORRUPT))
    (flag missing OBS_MISSING))
    (flag duplicate OBS_DUPLICATE))
    (flag discontinuity OBS_DISCONTINUITY))
    (flag clipping OBS_CLIPPING).

Definition observation_flags (observation : AcousticProbeObservation) : Z :=
  flag_bits (ob_received observation) (ob_bytePerfect observation) (ob_corrupt observation)
    (ob_missing observation) (ob_duplicate observation) (ob_discontinuity observation)
    (default false (ob_clipping observation)).

Definition encodeReport (probe : AcousticProbe) (observation : AcousticProbeObservation) : bytes :=
  [directionByte (pr_direction probe); pr_candidateIndex probe mod 256;
   pr_probeIndex probe mod 256; observation_flags observation]
  ++ le_bytes 2 (default 65535 (ob_latencyMs observation))
  ++ le_bytes 2 (match ob_signalDb observation with
                 | None => -2000
                 | Some signal => d_round (d_mul signal (d_of_Z 10))
                 end)
  ++ le_bytes 2 (d_round (d_mul (ob_confidence observation) (d_of_Z 1000))).

(** [getInt16] *)
Definition to_int16 (u : Z) : Z := if u <? 32768 then u else u - 65536.

Definition has_flag (flags bit : Z) : bool := negb (js_and flags bit =? 0).

(** The observation a report's fields stand for, before it is normalized. *)
Definition report_observation (flags latency signal confidence : Z) : AcousticProbeObservation := {|
  ob_received := has_flag flags OBS_RECEIVED;
  ob_bytePerfect := has_flag flags OBS_BYTE_PERFECT;
  ob_corrupt := has_flag flags OBS_CORRUPT;
  ob_missing := has_flag flags OBS_MISSING;
  ob_duplicate := has_flag flags OBS_DUPLICATE;
  ob_discontinuity := has_flag flags OBS_DISCONTINUITY;
  ob_clipping := if has_flag flags OBS_CLIPPING then Some true else None;
  ob_latencyMs := if latency =? 65535 then None else Some latency;
  ob_signalDb := if signal =? -2000 then None else Some (d_div (d_of_Z signal) (d_of_Z 10));
  ob_confidence := d_div (d_of_Z confidence) (d_of_Z 1000) |}.

Section WithOptions.
Context (options : AcousticSessionOptions).

Definition candidate_count : Z := zlen (o_candidates options).

Definition candidate_at (index : Z) : option AcousticCandidate :=
  if index <? 0 then None else o_candidates options !! Z.to_nat index.

Definition probeFor (direction : Direction) (ordinal : Z) : result AcousticProbe :=
  let candidateIndex := ordinal / o_probesPerDirection options in
  let probeIndex := ordinal mod o_probesPerDirection options in
  match candidate_at candidateIndex with
  | None => Throw (session_error "probe candidate is invalid")
  | Some candidate => Ok {| pr_direction := direction; pr_candidateIndex := candidateIndex;
                            pr_probeIndex := probeIndex; pr_candidate := candidate |}
  end.

Definition decodeReport (body : bytes) : result (AcousticProbe * AcousticProbeObservation) :=
  reject_if negb (zlen body =? 10) with session_error "report body is invalid";
  let? direction := parseDirection (read_le 1 0 body) in
  let candidateIndex := read_le 1 1 body in
  let probeIndex := read_le 1 2 body in
  let flags := read_le 1 3 body in
  reject_if negb (js_and flags (js_not 127) =? 0) || (candidate_count <=? candidateIndex)
         || (o_probesPerDirection options <=? probeIndex)
    with session_error "report geometry is invalid";
  match candidate_at candidateIndex with
  | None => Throw (session_error "report geometry is invalid")
  | Some candidate =>
      let? observation := normalizeObservation
        (report_observation flags (read_le 2 4 body) (to_int16 (read_le 2 6 body)) (read_le 2 8 body)) in
      Ok ({| pr_direction := direction; pr_candidateIndex := candidateIndex;
             pr_probeIndex := probeIndex; pr_candidate := candidate |}, observation)
  end.

(** ** Selection *)

Definition safe_observation (entry : AcousticProbeObservation) : bool :=
  ob_received entry && ob_bytePerfect entry && negb (ob_corrupt entry) && negb (ob_missing entry)
  && negb (bool_decide (ob_clipping entry = Some true))
  && d_leb (d_div (d_of_Z 1) (d_of_Z 2)) (ob_confidence entry).

(** The mean of the latencies measured, or infinity when there is none. *)
Definition mean_latency (observations : list AcousticProbeObservation) : double :=
  let measured := omap ob_latencyMs observations in
  match measured with
  | [] => d_infinity
  | _ => d_div (d_of_Z (foldl Z.add 0 measured)) (d_of_Z (zlen measured))
  end.

Record Ranked := mkRanked { rk_candidate : AcousticCandidate; rk_safe : bool; rk_latency : double }.

Definition candidate_observations (entries : list AcousticProbeLedgerEntry) (candidateIndex : Z)
    : list AcousticProbeObservation :=
  map le_observation
    (List.filter (fun entry => pr_candidateIndex (le_probe entry) =? candidateIndex) entries).

Definition rank_candidate (entries : list AcousticProbeLedgerEntry)
    (candidateIndex : nat) (candidate : AcousticCandidate) : Ranked :=
  let observations := candidate_observations entries (Z.of_nat candidateIndex) in
  {| rk_candidate := candidate;
     rk_safe := (zlen observations =? o_probesPerDirection options)
                && forallb safe_observation observations;
     rk_latency := mean_latency observations |}.

(** [left || right] on the sign of a comparison. *)
Definition or_else (first next : comparison) : comparison :=
  match first with Eq => next | c => c end.

Definition compare_ranked (left right : Ranked) : comparison :=
  or_else (d_sign (d_sub (rk_latency left) (rk_latency right)))
  (or_else (d_sign (d_sub (playbackGain (cand_settings (rk_candidate left)))
                          (playbackGain (cand_settings (rk_candidate right)))))
  (or_else (Z.compare (payloadBytes (cand_settings (rk_candidate right)))
                      (payloadBytes (cand_settings (rk_candidate left))))
           (o_localeCompare options (cand_id (rk_candidate left)) (cand_id (rk_candidate right))))).

(** [ranked.sort(compare)]: a stable sort; the element is inserted before the
    first one it does not follow. *)
Fixpoint insert_ranked (entry : Ranked) (sorted : list Ranked) : list Ranked :=
  match sorted with
  | [] => [entry]
  | other :: rest =>
      match compare_ranked entry other with
      | Gt => other :: insert_ranked entry rest
      | _ => entry :: sorted
      end
  end.

Definition sort_ranked (entries : list Ranked) : list Ranked := foldr insert_ranked [] entries.

Definition select (entries : list AcousticProbeLedgerEntry) : option AcousticCandidate :=
  let ranked := List.filter rk_safe (imap (rank_candidate entries) (o_candidates options)) in
  rk_candidate <$> head (sort_ranked ranked).

End WithOptions.

(** ** A report is determined by what is decoded from it *)

Definition flags_ok (n : nat) : bool :=
  let f := Z.of_nat n in
  flag_bits (has_flag f OBS_RECEIVED) (has_flag f OBS_BYTE_PERFECT) (has_flag f OBS_CORRUPT)
    (has_flag f OBS_MISSING) (has_flag f OBS_DUPLICATE) (has_flag f OBS_DISCONTINUITY)
    (has_flag f OBS_CLIPPING) =? f.

Definition signal_ok (n : nat) : bool :=
  let s := Z.of_nat n - 1999 in
  d_round (d_mul (d_div (d_of_Z s) (d_of_Z 10)) (d_of_Z 10)) =? s.

Definition confidence_ok (n : nat) : bool :=
  let c := Z.of_nat n in
  d_round (d_mul (d_div (d_of_Z c) (d_of_Z 1000)) (d_of_Z 1000)) =? c.

Definition high_flag (n : nat) : bool :=
  (Z.of_nat n <? 128) || negb (js_and (Z.of_nat n) (js_not 127) =? 0).

(** Unfold the tests before what they test. *)
#[local] Strategy expand [flags_ok signal_ok confidence_ok high_flag].

(** A test of the first [len] numbers, by computation. *)
Lemma check_range (f : nat -> bool) len :
  forallb f (seq 0 len) = true -> forall n, (n < len)%nat -> f n = true.
Proof. rewrite forallb_forall. intros H n Hn. apply H, in_seq. lia. Qed.

Lemma bits_round_trip : forall n, (n < 128)%nat -> flags_ok n = true.
Proof. apply check_range. vm_cast_no_check (eq_refl true). Qed.

Lemma signals_round_trip : forall n, (n < 2000)%nat -> signal_ok n = true.
Proof. apply check_range. vm_cast_no_check (eq_refl true). Qed.

Lemma confidences_round_trip : forall n, (n < 1001)%nat -> confidence_ok n = true.
Proof. apply check_range. vm_cast_no_check (eq_refl true). Qed.

Lemma high_flags : forall n, (n < 256)%nat -> high_flag n = true.
Proof. apply check_range. vm_cast_no_check (eq_refl true). Qed.

Lemma report_flags f latency signal confidence :
  observation_flags (report_observation f latency signal confidence)
  = flag_bits (has_flag f OBS_RECEIVED) (has_flag f OBS_BYTE_PERFECT) (has_flag f OBS_CORRUPT)
      (has_flag f OBS_MISSING) (has_flag f OBS_DUPLICATE) (has_flag f OBS_DISCONTINUITY)
      (has_flag f OBS_CLIPPING).
Proof. unfold observation_flags. by destruct (has_flag f OBS_CLIPPING) eqn:E; cbn; rewrite E. Qed.

Lemma flags_round_trip f latency signal confidence :
  0 <= f < 128 -> observation_flags (report_observation f latency signal confidence) = f.
Proof.
  intros Hf. rewrite report_flags.
  pose proof (bits_round_trip (Z.to_nat f) ltac:(lia)) as H. unfold flags_ok in H. cbv zeta in H.
  rewrite Z2Nat.id in H by lia. by apply Z.eqb_eq in H.
Qed.

Lemma signal_round_trip s :
  -2000 < s <= 0 -> d_round (d_mul (d_div (d_of_Z s) (d_of_Z 10)) (d_of_Z 10)) = s.
Proof.
  intros Hs. pose proof (signals_round_trip (Z.to_nat (s + 1999)) ltac:(lia)) as H.
  unfold signal_ok in H. cbv zeta in H. rewrite Z2Nat.id, Z.add_simpl_r in H by lia. by apply Z.eqb_eq in H.
Qed.

Lemma confidence_round_trip c :
  0 <= c <= 1000 -> d_round (d_mul (d_div (d_of_Z c) (d_of_Z 1000)) (d_of_Z 1000)) = c.
Proof.
  intros Hc. pose proof (confidences_round_trip (Z.to_nat c) ltac:(lia)) as H.
  unfold confidence_ok in H. cbv zeta in H. rewrite Z2Nat.id in H by lia. by apply Z.eqb_eq in H.
Qed.

Lemma low_flags f : 0 <= f < 256 -> (js_and f (js_not 127) =? 0) = true -> 0 <= f < 128.
Proof.
  intros Hf H. pose proof (high_flags (Z.to_nat f) ltac:(lia)) as Hc. unfold high_flag in Hc.
  rewrite Z2Nat.id, H in Hc by lia. cbn [negb] in Hc. rewrite orb_false_r in Hc. bool_split. lia.
Qed.

Lemma normalizeObservation_same o o' : normalizeObservation o = Ok o' -> o' = o.
Proof. unfold normalizeObservation. intros H. by result_inv. Qed.

Lemma parseDirection_inv v d : parseDirection v = Ok d -> directionByte d = v.
Proof.
  unfold parseDirection. destruct (v =? PROBE_DIRECTION_A_TO_B) eqn:E1;
    [|destruct (v =? PROBE_DIRECTION_B_TO_A) eqn:E2; [|done]]; intros [= <-]; bool_split; done.
Qed.

(** Ten bytes, as the fields of a report. *)
Lemma report_fields body :
  bytes_ok body -> zlen body = 10 ->
  body = [read_le 1 0 body; read_le 1 1 body; read_le 1 2 body; read_le 1 3 body]
         ++ le_bytes 2 (read_le 2 4 body) ++ le_bytes 2 (read_le 2 6 body) ++ le_bytes 2 (read_le 2 8 body).
Proof.
  intros Hok Hlen. unfold zlen in Hlen.
  rewrite !le_bytes_read_le by (done || lia).
  do 10 (destruct body as [|? body]; [cbn in Hlen; lia|]). destruct body; [|cbn in Hlen; lia].
  unfold read_le, slice. cbn [take drop Nat.sub Nat.add le_value app]. by rewrite !Z.mul_0_r, !Z.add_0_r.
Qed.

Lemma int16_bytes u : 0 <= u < 65536 -> le_bytes 2 (to_int16 u) = le_bytes 2 u.
Proof.
  intros Hu. apply (le_bytes_mod 2). unfold to_int16. destruct (u <? 32768); [done|].
  change (256 ^ Z.of_nat 2) with 65536. by rewrite <- (Z.mod_add (u - 65536) 1), Z.mul_1_l, Z.sub_add by lia.
Qed.

Lemma report_encode_decode options body probe observation :
  bytes_ok body -> -2000 <= to_int16 (read_le 2 6 body) <= 0 -> read_le 2 8 body <= 1000 ->
  decodeReport options body = Ok (probe, observation) -> encodeReport probe observation = body.
Proof.
  intros Hok Hs Hc H. unfold decodeReport in H. result_inv. bool_split.
  destruct (candidate_at _ _); [|done]. result_inv. apply normalizeObservation_same in R0 as ->.
  etransitivity; [|symmetry; by apply report_fields].
  pose proof (read_le_bound 1 1 body Hok) as B1. pose proof (read_le_bound 1 2 body Hok) as B2.
  pose proof (read_le_bound 1 3 body Hok) as B3. pose proof (read_le_bound 2 8 body Hok) as B8.
  pose proof (read_le_bound 2 6 body Hok) as B6.
  change (256 ^ Z.of_nat 1) with 256 in *. change (256 ^ Z.of_nat 2) with 65536 in *.
  unfold encodeReport. cbn [pr_direction pr_candidateIndex pr_probeIndex].
  rewrite (parseDirection_inv _ _ R), flags_round_trip by (apply low_flags; [done|by apply Z.eqb_eq]).
  rewrite !Z.mod_small by done. cbn [report_observation ob_latencyMs ob_signalDb ob_confidence].
  rewrite confidence_round_trip by lia. f_equal. f_equal; [|f_equal].
  - by destruct (Z.eqb_spec (read_le 2 4 body) 65535) as [->|?].
  - rewrite <- (int16_bytes (read_le 2 6 body)) by done. destruct (Z.eqb_spec (to_int16 (read_le 2 6 body)) (-2000)) as [->|?]; [done|].
    by rewrite signal_round_trip by lia.
Qed.
