(* ===== verification/SessionState.v ===== *)
(** * The state of an acoustic session
    ([apps/modem-ui/src/acoustic-session.ts], lines 4-7, 55-84, 165-218 and 335-352)

    The private fields of [AcousticSession] and, beside them, the part of the
    JavaScript runtime a session depends on: the live timers, the promises
    whose reactions are pending, the asynchronous commit work, the clock, and
    the log of what was handed to the modem and to [onPacket].  A closure
    given to a timer or a promise is the datum it captured. *)

From stdpp Require Import base list numbers option strings.
From Stdlib Require Import ZArith Lia SpecFloat.
From S2P Require Import Prelude Utf8 Doubles Fas1 Settings Handshake Calibration.

(** ** Data *)

Inductive AcousticSessionState :=
  | Idle | Listening | HelloSent | HelloAckSent | CapsSent | CalibratingAToB | CalibratingBToA
  | Committing | AwaitingHeartbeat | Ready | Degraded | Recovering | Error.

Inductive AcousticTrafficClass := Control | HeartbeatClass | Ordinary.

#[export] Instance SessionState_eq_dec : EqDecision AcousticSessionState.
Proof. solve_decision. Defined.
#[export] Instance TrafficClass_eq_dec : EqDecision AcousticTrafficClass.
Proof. solve_decision. Defined.

Record PendingPacket := mkPending {
  pp_ref : nat;
  pp_packetId : Z;
  pp_packet : bytes;
  pp_fragments : list Fas1Unit;
  pp_trafficClass : AcousticTrafficClass;
  pp_expiresAt : Z;
  pp_attempts : Z;
  pp_acknowledged : Z;
}.

#[export] Instance eta_PendingPacket : Eta PendingPacket := fun r =>
  mkPending (pp_ref r) (pp_packetId r) (pp_packet r) (pp_fragments r) (pp_trafficClass r)
    (pp_expiresAt r) (pp_attempts r) (pp_acknowledged r).

Record InboundAssembly := mkInbound {
  ia_packetId : Z;
  ia_fragmentCount : Z;
  ia_packetLength : Z;
  ia_fragments : list (Z * Fas1Unit);
  ia_expiresAt : Z;
}.

Record ProbeRetry := mkRetry { rt_direction : Direction; rt_ordinal : Z; rt_attempts : Z }.

(** [Record<'AtoB' | 'BtoA', A>] *)
Record PerDirection (A : Type) := mkPer { per_AtoB : A; per_BtoA : A }.
Arguments mkPer {A} per_AtoB per_BtoA.
Arguments per_AtoB {A} p.
Arguments per_BtoA {A} p.

Definition per_get {A} (d : Direction) (p : PerDirection A) : A :=
  match d with AtoB => per_AtoB p | BtoA => per_BtoA p end.
Definition per_set {A} (d : Direction) (v : A) (p : PerDirection A) : PerDirection A :=
  match d with AtoB => mkPer v (per_BtoA p) | BtoA => mkPer (per_AtoB p) v end.

(** [Record<AcousticTrafficClass, PendingPacket[]>] *)
Record Queues := mkQueues {
  q_control : list PendingPacket;
  q_heartbeat : list PendingPacket;
  q_ordinary : list PendingPacket;
}.

Definition empty_queues : Queues := mkQueues [] [] [].

(** All queued packets, in the order the source concatenates the queues. *)
Definition queued (q : Queues) : list PendingPacket := q_control q ++ q_heartbeat q ++ q_ordinary q.

Definition queue_push (class : AcousticTrafficClass) (p : PendingPacket) (q : Queues) : Queues :=
  match class with
  | Control => mkQueues (q_control q ++ [p]) (q_heartbeat q) (q_ordinary q)
  | HeartbeatClass => mkQueues (q_control q) (q_heartbeat q ++ [p]) (q_ordinary q)
  | Ordinary => mkQueues (q_control q) (q_heartbeat q) (q_ordinary q ++ [p])
  end.

(** [control.shift() ?? heartbeat.shift() ?? ordinary.shift()] *)
Definition queue_shift (q : Queues) : option PendingPacket * Queues :=
  match q_control q, q_heartbeat q, q_ordinary q with
  | p :: l, h, o => (Some p, mkQueues l h o)
  | [], p :: l, o => (Some p, mkQueues [] l o)
  | [], [], p :: l => (Some p, mkQueues [] [] l)
  | [], [], [] => (None, q)
  end.

(** ** The runtime: timers, promise reactions and commit work *)

(** What [schedule] may be asked to run. *)
Inductive Action :=
  | DriveTurn
  | BeginRecovery
  | MarkHeartbeatMissed
  | OnAckTimeout (packetId attempt : Z)
  | RecoveryReply (sessionId : Z).

Inductive Callback :=
  | DeadlineCallback (epoch : Z)
  | HandshakeCallback (epoch : Z) (sessionId : option Z) (generation : Z)
  | ProbeCallback (direction : Direction) (ordinal : Z)
  | CommitCallback (epoch : Z) (sessionId : option Z) (generation : Z)
  | HeartbeatCallback (epoch : Z) (sessionId : option Z) (generation : Z)
  | HeartbeatDeadlineCallback (epoch : Z) (sessionId : option Z) (generation deadlineGeneration : Z)
  | DeliveryCallback (epoch : Z) (sessionId : option Z) (action : Action).

(** The pair of reactions of a [.then(onFulfilled, onRejected)]. *)
Inductive Continuation :=
  | HandshakePlayed (generation : Z) (expectedState : AcousticSessionState)
  | ProbePlayed (direction : Direction) (ordinal : Z)
  | ProbeRetried (direction : Direction) (ordinal : Z)
  | CommitRetried
  | TurnPlayed (generation : Z) (sessionId : option Z) (pending : nat) (packetId attempt : Z)
  | RecoveryPlayed (generation : Z) (sessionId : option Z)
  | RestartPlayed (epoch : Z) (sessionId : option Z).

(** The asynchronous bodies appended to [#work], and where each is suspended. *)
Inductive JobStage :=
  | CommitQueued
  | CommitDigesting (digest : result bytes)
  | CommitSending (completion : Completion)
  | VerifyQueued (received : bytes)
  | VerifyDigesting (received : bytes) (digest : result bytes).

Record Job := mkJob { job_after : nat; job_stage : JobStage }.

(** What the outside world sees. *)
Inductive Effect :=
  | Sent (unit : bytes)
  | Applied (candidate : AcousticCandidate)
  | Delivered (packet : bytes) (packetId : Z).

(** ** The session *)

Record Session := mkSession {
  s_state : AcousticSessionState;
  s_epoch : Z;
  s_sessionId : option Z;
  s_localNonce : option bytes;
  s_peerNonce : option bytes;
  s_sequence : Z;
  s_subscribed : bool;
  s_timer : option nat;
  s_handshakeTimer : option nat;
  s_handshakeAttempts : Z;
  s_probeTimer : option nat;
  s_probeRetry : option ProbeRetry;
  s_lastProbeReport : PerDirection (option (Z * bytes));
  s_commitTimer : option nat;
  s_commitAttempts : Z;
  s_reason : option string;
  s_ledger : list AcousticProbeLedgerEntry;
  s_sentProbes : PerDirection Z;
  s_receivedReports : PerDirection Z;
  s_receivedProbes : PerDirection Z;
  s_selected : PerDirection (option AcousticCandidate);
  s_settings : option AcousticSettings;
  s_settingsDigest : option bytes;
  s_lastHeartbeatAtMs : option Z;
  s_work : nat;
  s_turnOwner : option AcousticRole;
  s_packetId : Z;
  s_queues : Queues;
  s_active : option PendingPacket;
  s_inbound : option InboundAssembly;
  s_lastAck : option (Z * Z);
  s_delivered : list (Z * Z);
  s_deliveryTimer : option nat;
  s_heartbeatTimer : option nat;
  s_heartbeatDeadline : option nat;
  s_heartbeatTimerGeneration : Z;
  s_heartbeatDue : bool;
  s_generation : Z;
  s_awaitingAck : bool;
  s_recoveryAttempts : Z;
  s_retiredSessionIds : list (Z * unit);
  s_retries : Z;
  s_dropped : Z;
  s_duplicates : Z;
  s_deliveredPackets : Z;
  (* the runtime *)
  s_clock : Z;
  s_timers : list (nat * (Callback * Z));
  s_promises : list (nat * (Continuation * bool));
  s_jobs : list (nat * Job);
  s_fresh : nat;
  s_log : list Effect;
}.

#[export] Instance eta_Session : Eta Session := fun r =>
  mkSession (s_state r) (s_epoch r) (s_sessionId r) (s_localNonce r) (s_peerNonce r)
    (s_sequence r) (s_subscribed r) (s_timer r) (s_handshakeTimer r) (s_handshakeAttempts r)
    (s_probeTimer r) (s_probeRetry r) (s_lastProbeReport r) (s_commitTimer r) (s_commitAttempts r)
    (s_reason r) (s_ledger r) (s_sentProbes r) (s_receivedReports r) (s_receivedProbes r)
    (s_selected r) (s_settings r) (s_settingsDigest r) (s_lastHeartbeatAtMs r) (s_work r)
    (s_turnOwner r) (s_packetId r) (s_queues r) (s_active r) (s_inbound r) (s_lastAck r)
    (s_delivered r) (s_deliveryTimer r) (s_heartbeatTimer r) (s_heartbeatDeadline r)
    (s_heartbeatTimerGeneration r) (s_heartbeatDue r) (s_generation r) (s_awaitingAck r)
    (s_recoveryAttempts r) (s_retiredSessionIds r) (s_retries r) (s_dropped r) (s_duplicates r)
    (s_deliveredPackets r) (s_clock r) (s_timers r) (s_promises r) (s_jobs r) (s_fresh r) (s_log r).

Definition MAX_QUEUED_PACKETS : Z := 16.
Definition MAX_DELIVERED_IDS : nat := 32.
Definition MAX_PACKET_AGE_MS : Z := 600000.
Definition MAX_ATTEMPTS : Z := 3.
Definition WINDOW_SIZE : nat := 4.
Definition HANDSHAKE_RETRY_MS : Z := 2500.
Definition PROBE_RETRY_MS : Z := 1500.
Definition COMMIT_RETRY_MS : Z := 2000.

(** Truthiness of an optional 64-bit identifier: [undefined] and [0n] are not. *)
Definition truthy (id : option Z) : bool :=
  match id with Some n => negb (n =? 0) | None => false end.

Definition defined {A} (o : option A) : bool := match o with Some _ => true | None => false end.

Definition is_state (s : Session) (st : AcousticSessionState) : bool := bool_decide (s_state s = st).

Definition same_id (a : Z) (b : option Z) : bool := bool_decide (Some a = b).

Definition is_role (a b : AcousticRole) : bool := bool_decide (a = b).

Definition owns_turn (role : AcousticRole) (s : Session) : bool := bool_decide (s_turnOwner s = Some role).

(** [x += n] on a numeric field. *)
Definition increment (f : Session -> Z) `{!Setter f} : M Session unit := mmodify (set f (fun n => n + 1)).

(** ** Timers and the modem *)

Section WithOptions.
Context (options : AcousticSessionOptions).

Abbreviation role := (o_role options).

Definition fresh : M Session nat :=
  let! s := mget in
  mmodify (set s_fresh S) ;; mret (s_fresh s).

Definition setTimeout (callback : Callback) (delayMs : Z) : M Session nat :=
  let! handle := fresh in
  mmodify (set s_timers (fun timers => timers ++ [(handle, (callback, delayMs))])) ;;
  mret handle.

Definition clearTimeout (handle : option nat) : M Session unit :=
  match handle with
  | Some h => mmodify (set s_timers (map_delete h))
  | None => mskip
  end.

(** [promise.then(...)]: the reactions wait for the promise to settle; [bool]
    tells whether it can be rejected. *)
Definition react (completion : Completion) (continuation : Continuation) : M Session unit :=
  let! id := fresh in
  mmodify (set s_promises (fun l => l ++ [(id, (continuation,
    match completion with Promised => true | Returned => false end))])).

Definition emit (effect : Effect) : M Session unit := mmodify (set s_log (fun l => l ++ [effect])).

(** [this.options.modem.send(raw)] *)
Definition modem_send (raw : bytes) : M Session Completion :=
  let! call := fresh in
  emit (Sent raw) ;; mlift (o_send options call raw).

(** [this.options.modem.applyCandidate?.(candidate)] *)
Definition modem_applyCandidate (candidate : AcousticCandidate) : M Session unit :=
  let! call := fresh in
  emit (Applied candidate) ;; mlift (o_applyCandidate options call candidate).

(** [this.options.nonce().slice()], which must be 16 bytes. *)
Definition draw_nonce : M Session bytes :=
  let! call := fresh in
  let nonce := o_nonce options call in
  if negb (zlen nonce =? 16) then mthrow (session_error "nonce must be 128 bits") else mret nonce.

(** [sequence: this.#sequence++] is evaluated before the unit is encoded; an
    undefined session identifier is rejected there. *)
Definition send (type : Fas1UnitType) (sessionId : option Z) (body : bytes) : M Session Completion :=
  let! s := mget in
  increment s_sequence ;;
  match sessionId with
  | None => mthrow (fas1 "session ID is out of range")
  | Some id =>
      let! raw := mlift (encodeFas1 {|
        u_type := type; u_flags := senderFlag role; u_sessionId := id; u_sequence := s_sequence s;
        u_packetId := 0; u_fragmentIndex := 0; u_fragmentCount := 0; u_packetLength := 0;
        u_body := body |}) in
      modem_send raw
  end.

(** A [send] whose completion is not used. *)
Definition send_ (type : Fas1UnitType) (sessionId : option Z) (body : bytes) : M Session unit :=
  let! _ := send type sessionId body in mskip.

Definition sendUnit (unit : Fas1Unit) : M Session Completion :=
  let! raw := mlift (encodeFas1 unit) in modem_send raw.

Definition sendAck (packetId bitmap : Z) : M Session unit :=
  let! s := mget in
  return_if negb (truthy (s_sessionId s));
  let! raw := mlift (encodeFas1 {|
    u_type := Ack; u_flags := senderFlag role; u_sessionId := default 0 (s_sessionId s);
    u_sequence := to_uint32 bitmap; u_packetId := packetId; u_fragmentIndex := 0;
    u_fragmentCount := 0; u_packetLength := 0; u_body := [] |}) in
  let! _ := modem_send raw in mskip.

Definition queueLength (s : Session) : Z := zlen (queued (s_queues s)).

Definition queueBytes (s : Session) : Z :=
  foldl (fun total item => total + zlen (pp_packet item)) 0 (queued (s_queues s))
  + match s_active s with Some p => zlen (pp_packet p) | None => 0 end.

Definition nextPacketId : M Session Z :=
  let! s := mget in
  s_packetId <== (if s_packetId s =? UINT32_MAX then 1 else s_packetId s + 1) ;;
  mret (s_packetId s).

Definition clearDeliveryTimer : M Session unit :=
  let! s := mget in
  clearTimeout (s_deliveryTimer s) ;; s_deliveryTimer <== None.

Definition clearHandshakeRetry : M Session unit :=
  let! s := mget in
  clearTimeout (s_handshakeTimer s) ;; s_handshakeTimer <== None ;; s_handshakeAttempts <== 0.

Definition clearProbeRetry : M Session unit :=
  let! s := mget in
  clearTimeout (s_probeTimer s) ;; s_probeTimer <== None ;; s_probeRetry <== None.

Definition clearCommitRetry : M Session unit :=
  let! s := mget in
  clearTimeout (s_commitTimer s) ;; s_commitTimer <== None ;; s_commitAttempts <== 0.

Definition clearHeartbeatTimers : M Session unit :=
  let! s := mget in
  clearTimeout (s_heartbeatTimer s) ;; clearTimeout (s_heartbeatDeadline s) ;;
  s_heartbeatTimer <== None ;; s_heartbeatDeadline <== None ;;
  increment s_heartbeatTimerGeneration.

(** ** Construction *)

Definition initialState : AcousticSessionState := match role with RoleA => Idle | RoleB => Listening end.

Definition initial (clock : Z) : Session := {|
  s_state := initialState; s_epoch := 0; s_sessionId := None; s_localNonce := None;
  s_peerNonce := None; s_sequence := 1; s_subscribed := true; s_timer := None;
  s_handshakeTimer := None; s_handshakeAttempts := 0; s_probeTimer := None; s_probeRetry := None;
  s_lastProbeReport := mkPer None None; s_commitTimer := None; s_commitAttempts := 0;
  s_reason := None; s_ledger := []; s_sentProbes := mkPer 0 0; s_receivedReports := mkPer 0 0;
  s_receivedProbes := mkPer 0 0; s_selected := mkPer None None; s_settings := None;
  s_settingsDigest := None; s_lastHeartbeatAtMs := None; s_work := 0; s_turnOwner := None;
  s_packetId := 1; s_queues := empty_queues; s_active := None; s_inbound := None;
  s_lastAck := None; s_delivered := []; s_deliveryTimer := None; s_heartbeatTimer := None;
  s_heartbeatDeadline := None; s_heartbeatTimerGeneration := 0; s_heartbeatDue := false;
  s_generation := 0; s_awaitingAck := false; s_recoveryAttempts := 0; s_retiredSessionIds := [];
  s_retries := 0; s_dropped := 0; s_duplicates := 0; s_deliveredPackets := 0;
  s_clock := clock; s_timers := []; s_promises := []; s_jobs := []; s_fresh := 1; s_log := [] |}.

Definition valid_candidate (candidate : AcousticCandidate) : bool :=
  let c := cand_settings candidate in
  negb (is_empty (cand_id candidate))
  && negb (d_ltb (playbackGain c) (d_of_Z 1)) && negb (d_ltb (d_of_Z 2) (playbackGain c))
  && validInteger (payloadBytes c) (minPayloadBytes (o_ranges options)) (maxPayloadBytes (o_ranges options))
  && validInteger (repetition c) 1 3 && validInteger (guardMs c) 1 5000
  && validInteger (ackTimeoutMs c) 4000 15000.

Fixpoint check_profiles (profiles : list jsstring) : result unit :=
  match profiles with
  | [] => Ok tt
  | profile :: rest => let? _ := resolveAcousticProfile profile in check_profiles rest
  end.

Fixpoint check_candidates (candidates : list AcousticCandidate) : result unit :=
  match candidates with
  | [] => Ok tt
  | candidate :: rest =>
      reject_if negb (valid_candidate candidate) with session_error "candidate is invalid";
      let? _ := resolveAcousticProfile (profileId (cand_settings candidate)) in
      check_candidates rest
  end.

(** [new AcousticSession(options)], subscribed to the modem. *)
Definition create (clock : Z) : result Session :=
  reject_if is_empty (o_identity options) || is_empty (o_expectedPeer options)
         || bool_decide (o_identity options = o_expectedPeer options)
         || negb (validRange (o_ranges options))
         || (zlen (o_profiles options) <? 1) || (MAX_PROFILES <? zlen (o_profiles options))
         || (candidate_count options <? 1) || (o_maxCandidates options <? candidate_count options)
         || negb (validInteger (o_probesPerDirection options) 1 4)
         || negb (validInteger (o_deadlineMs options) 1 120000)
    with session_error "options are invalid";
  let? _ := check_profiles (o_profiles options) in
  let? _ := check_candidates (o_candidates options) in
  Ok (initial clock).

End WithOptions.
