(* ===== verification/Session.v ===== *)
(** * The acoustic session
    ([apps/modem-ui/src/acoustic-session.ts], lines 234-332, 353-682 and 715-851)

    Every method of [AcousticSession] that changes its state, in the monad of
    [Prelude]: an exception keeps the assignments made before it. *)

From stdpp Require Import base list numbers option strings.
From Stdlib Require Import ZArith Lia SpecFloat.
From S2P Require Import Prelude Utf8 Doubles Fas1 Settings Handshake Calibration SessionState.

Section WithOptions.
Context (options : AcousticSessionOptions).

Abbreviation role := (o_role options).
Abbreviation peer := (complement (o_role options)).
Abbreviation send := (SessionState.send options).
Abbreviation send_ := (SessionState.send_ options).

(** ** Settings in force *)

Definition own_settings (settings : AcousticSettings) : DirectionalSettings :=
  match role with RoleA => aToB settings | RoleB => bToA settings end.
Definition peer_settings (settings : AcousticSettings) : DirectionalSettings :=
  match role with RoleA => bToA settings | RoleB => aToB settings end.

Definition outboundSettings (s : Session) : result DirectionalSettings :=
  match s_settings s with
  | Some settings => Ok (own_settings settings)
  | None => Throw (session_error "settings are not committed")
  end.

Definition inboundPayloadBytes (s : Session) : result Z :=
  match s_settings s with
  | Some settings => Ok (payloadBytes (peer_settings settings))
  | None => Throw (session_error "settings are not committed")
  end.

Definition session_guardMs (s : Session) : Z :=
  match s_settings s with Some settings => Settings.guardMs (own_settings settings) | None => 750 end.

Definition session_ackTimeoutMs (s : Session) : Z :=
  match s_settings s with Some settings => Settings.ackTimeoutMs (own_settings settings) | None => 4000 end.

Definition toSettings (candidate : AcousticCandidate) : DirectionalSettings := cand_settings candidate.

Definition applyOutboundCandidate : M Session unit :=
  let! s := mget in
  match (match role with RoleA => per_AtoB (s_selected s) | RoleB => per_BtoA (s_selected s) end) with
  | Some candidate => modem_applyCandidate options candidate
  | None => mskip
  end.

Definition fail (reason : string) : M Session unit :=
  let! s := mget in
  clearTimeout (s_timer s) ;; s_timer <== None ;;
  clearHandshakeRetry ;; clearProbeRetry ;; clearCommitRetry ;; clearHeartbeatTimers ;;
  s_state <== Error ;; s_reason <== Some reason.

(** ** Scheduling *)

Definition schedule (action : Action) (delayMs : Z) : M Session unit :=
  clearDeliveryTimer ;;
  let! s := mget in
  let! handle := setTimeout (DeliveryCallback (s_epoch s) (s_sessionId s) action) delayMs in
  s_deliveryTimer <== Some handle.

Definition degrade (reason : string) : M Session unit :=
  let! s := mget in
  return_if is_state s Error || is_state s Degraded;
  clearDeliveryTimer ;; s_awaitingAck <== false ;; s_state <== Degraded ;;
  s_reason <== Some reason ;; schedule BeginRecovery (session_guardMs s).

Definition markHeartbeatMissed : M Session unit :=
  let! s := mget in
  return_if negb (is_state s Ready) && negb (is_state s Recovering);
  clearDeliveryTimer ;; clearHeartbeatTimers ;; s_awaitingAck <== false ;;
  s_state <== Degraded ;; s_reason <== Some "acoustic_heartbeat_missed"%string ;;
  schedule BeginRecovery (session_guardMs s).

(** ** Expiry *)

Definition fresh_packets (now : Z) (queue : list PendingPacket) : list PendingPacket :=
  List.filter (fun item => now <=? pp_expiresAt item) queue.

(** One pass of the loop over the priorities: [q] and [put] select the queue. *)
Definition expire_queue (q : Queues -> list PendingPacket)
    (put : list PendingPacket -> Queues -> Queues) : M Session unit :=
  let! s := mget in
  let retained := fresh_packets (s_clock s) (q (s_queues s)) in
  mmodify (set s_dropped (fun n => n + (zlen (q (s_queues s)) - zlen retained))) ;;
  mmodify (set s_queues (put retained)).

Definition expireWork : M Session unit :=
  let! s := mget in
  let now := s_clock s in
  expire_queue q_control (fun l q => mkQueues l (q_heartbeat q) (q_ordinary q)) ;;
  expire_queue q_heartbeat (fun l q => mkQueues (q_control q) l (q_ordinary q)) ;;
  expire_queue q_ordinary (fun l q => mkQueues (q_control q) (q_heartbeat q) l) ;;
  (if match s_active s with Some p => pp_expiresAt p <? now | None => false end
   then s_active <== None ;; s_awaitingAck <== false ;; increment s_dropped ;;
        degrade "acoustic_packet_expired"
   else mskip) ;;
  (if match s_inbound s with Some a => ia_expiresAt a <? now | None => false end
   then s_inbound <== None ;; increment s_dropped
   else mskip) ;;
  mmodify (set s_delivered (List.filter (fun entry => negb (entry.2 <? now)))).

(** ** The turn of the token's owner *)

Definition dequeue : M Session (option PendingPacket) :=
  let! s := mget in
  s_queues <== (queue_shift (s_queues s)).2 ;; mret (queue_shift (s_queues s)).1.

Definition missing_fragments (p : PendingPacket) : list Fas1Unit :=
  take WINDOW_SIZE
    (List.filter (fun unit => js_and (pp_acknowledged p) (js_shl 1 (u_fragmentIndex unit)) =? 0)
                 (pp_fragments p)).

Fixpoint send_units (units : list Fas1Unit) : M Session (list Completion) :=
  match units with
  | [] => mret []
  | unit :: rest =>
      let! c := sendUnit options unit in
      let! cs := send_units rest in
      mret (c :: cs)
  end.

Definition is_promise (c : Completion) : bool := match c with Promised => true | Returned => false end.

(** [pending] as a reference: the active packet is the same object. *)
Definition is_active (pending : nat) (attempt : Z) (s : Session) : bool :=
  match s_active s with
  | Some p => Nat.eqb (pp_ref p) pending && (pp_attempts p =? attempt)
  | None => false
  end.

Definition armTurnTimeout (generation : Z) (sessionId : option Z) (pending : nat)
    (packetId attempt : Z) : M Session unit :=
  let! s := mget in
  return_if negb (s_generation s =? generation) || negb (bool_decide (s_sessionId s = sessionId))
         || negb (is_state s Ready) || negb (owns_turn role s) || negb (s_awaitingAck s)
         || negb (is_active pending attempt s);
  schedule (OnAckTimeout packetId attempt) (session_ackTimeoutMs s).

(** The transmission of a window of fragments and the turn's end. *)
Definition transmit (pending : PendingPacket) (missing : list Fas1Unit) : M Session unit :=
  s_active <== Some (set pp_attempts (fun n => n + 1) pending) ;; s_awaitingAck <== true ;;
  let! s := mget in
  let attempt := pp_attempts pending + 1 in
  let! completions := send_units missing in
  let! last := send TurnEnd (s_sessionId s) [] in
  if existsb is_promise (completions ++ [last])
  then react Promised (TurnPlayed (s_generation s) (s_sessionId s) (pp_ref pending)
                         (pp_packetId pending) attempt)
  else armTurnTimeout (s_generation s) (s_sessionId s) (pp_ref pending) (pp_packetId pending) attempt.

(** [this.#active ??= this.dequeue()] *)
Definition take_active : M Session (option PendingPacket) :=
  let! s := mget in
  match s_active s with
  | Some p => mret (Some p)
  | None => let! p := dequeue in s_active <== p ;; mret p
  end.

Definition driveTurn : M Session unit :=
  expireWork ;;
  let! s := mget in
  return_if negb (is_state s Ready) || negb (truthy (s_sessionId s)) || negb (owns_turn role s)
         || s_awaitingAck s;
  applyOutboundCandidate ;;
  let! active := take_active in
  match active with
  | None =>
      (if s_heartbeatDue s
       then s_heartbeatDue <== false ;; send_ Heartbeat (s_sessionId s) []
       else mskip) ;;
      send_ TurnEnd (s_sessionId s) [] ;;
      s_turnOwner <== Some peer
  | Some pending =>
      if MAX_ATTEMPTS <=? pp_attempts pending
      then increment s_dropped ;; s_active <== None ;; degrade "acoustic_retry_exhausted"
      else
        let missing := missing_fragments pending in
        match missing with
        | [] => s_active <== None ;; s_turnOwner <== Some peer ;;
                schedule DriveTurn (session_guardMs s)
        | _ => transmit pending missing
        end
  end.

Definition onAckTimeout (packetId attempt : Z) : M Session unit :=
  let! s := mget in
  return_if negb match s_active s with
                 | Some p => s_awaitingAck s && (pp_packetId p =? packetId) && (pp_attempts p =? attempt)
                 | None => false
                 end;
  s_awaitingAck <== false ;; increment s_retries ;; driveTurn.

(** ** Liveness *)

Definition heartbeat : M Session bool :=
  let! s := mget in
  if negb (truthy (s_sessionId s)) || negb (is_state s Ready) then mret false
  else s_heartbeatDue <== true ;; driveTurn ;; mret true.

(** The captured predicate [current()]. *)
Definition current (epoch : Z) (sessionId : option Z) (generation : Z) (s : Session) : bool :=
  (epoch =? s_epoch s) && bool_decide (sessionId = s_sessionId s)
  && (generation =? s_generation s) && is_state s Ready.

Definition scheduleHeartbeat (epoch : Z) (sessionId : option Z) (generation : Z) : M Session unit :=
  let! s := mget in
  return_if defined (s_heartbeatTimer s) || negb (current epoch sessionId generation s);
  let! handle := setTimeout (HeartbeatCallback epoch sessionId generation) (session_ackTimeoutMs s) in
  s_heartbeatTimer <== Some handle.

Definition armHeartbeatTimers : M Session unit :=
  let! s := mget in
  return_if negb (truthy (s_sessionId s)) || negb (is_state s Ready);
  scheduleHeartbeat (s_epoch s) (s_sessionId s) (s_generation s) ;;
  clearTimeout (s_heartbeatDeadline s) ;;
  increment s_heartbeatTimerGeneration ;;
  let! s' := mget in
  let! handle := setTimeout
    (HeartbeatDeadlineCallback (s_epoch s) (s_sessionId s) (s_generation s)
       (s_heartbeatTimerGeneration s'))
    (Z.max 60000 (session_ackTimeoutMs s * 4)) in
  s_heartbeatDeadline <== Some handle.

(** ** Handshake *)

Definition hello_body (s : Session) (nonce : bytes) (sessionId : option Z) : result bytes :=
  encodeHandshake {|
    hs_role := RoleA; hs_identity := o_identity options; hs_expectedPeer := o_expectedPeer options;
    hs_nonce := nonce; hs_echoedNonce := None; hs_profiles := o_profiles options;
    hs_ranges := o_ranges options; hs_epoch := s_epoch s; hs_sessionId := sessionId |}.

Definition hello_ack_body (s : Session) (nonce echoedNonce : bytes) : result bytes :=
  encodeHandshake {|
    hs_role := RoleB; hs_identity := o_identity options; hs_expectedPeer := o_expectedPeer options;
    hs_nonce := nonce; hs_echoedNonce := Some echoedNonce; hs_profiles := o_profiles options;
    hs_ranges := o_ranges options; hs_epoch := s_epoch s; hs_sessionId := None |}.

(** [body.set(aNonce, 0); body.set(bNonce, 16)] on 32 zero bytes; [set] throws
    when the source does not fit or is undefined. *)
Definition capsBody (s : Session) : result bytes :=
  let aNonce := match role with RoleA => s_localNonce s | RoleB => s_peerNonce s end in
  let bNonce := match role with RoleB => s_localNonce s | RoleA => s_peerNonce s end in
  match aNonce, bNonce with
  | Some a, Some b =>
      reject_if (32 <? zlen a) || (16 <? zlen b) with "offset is out of bounds"%string;
      Ok (write_at 16 b (write_at 0 a (repeat 0 32)))
  | _, _ => Throw "invalid arguments"
  end.

Definition continueHandshakeAfterPlayback (completion : Completion)
    (expectedState : AcousticSessionState) : M Session unit :=
  let! s := mget in
  react completion (HandshakePlayed (s_generation s) expectedState).

Definition handshaking (s : Session) : bool :=
  is_state s HelloSent || is_state s HelloAckSent || is_state s CapsSent.

Definition armHandshakeRetry : M Session unit :=
  let! s := mget in
  return_if negb (handshaking s) || defined (s_handshakeTimer s);
  let! handle := setTimeout (HandshakeCallback (s_epoch s) (s_sessionId s) (s_generation s))
                   HANDSHAKE_RETRY_MS in
  s_handshakeTimer <== Some handle.

(** The branches of the retry callback, by state. *)
Definition resend_handshake (s : Session) : M Session unit :=
  match s_state s, s_localNonce s, s_peerNonce s with
  | HelloSent, Some localNonce, _ =>
      return_if negb (truthy (s_sessionId s));
      let! body := mlift (hello_body s localNonce (s_sessionId s)) in
      let! completion := send Hello (Some 0) body in
      continueHandshakeAfterPlayback completion HelloSent
  | HelloAckSent, Some localNonce, Some peerNonce =>
      return_if negb (truthy (s_sessionId s));
      let! body := mlift (hello_ack_body s localNonce peerNonce) in
      let! completion := send HelloAck (s_sessionId s) body in
      continueHandshakeAfterPlayback completion HelloAckSent
  | CapsSent, _, _ =>
      return_if negb (truthy (s_sessionId s));
      let! body := mlift (capsBody s) in
      let! completion := send Caps (s_sessionId s) body in
      continueHandshakeAfterPlayback completion CapsSent
  | _, _, _ => mskip
  end.

Definition start : M Session bool :=
  let! s := mget in
  if negb (is_role role RoleA) || negb (is_state s Idle) then mret false
  else
    let! nonce := draw_nonce options in
    s_localNonce <== Some nonce ;;
    let! id := mlift (toSessionId nonce) in
    s_sessionId <== Some id ;; s_state <== HelloSent ;;
    let! body := mlift (hello_body s nonce (Some id)) in
    let! completion := send Hello (Some 0) body in
    continueHandshakeAfterPlayback completion HelloSent ;;
    mret true.

(** ** Reset and restart *)

Definition retire_session (epoch : Z) : M Session unit :=
  let! s := mget in
  if negb (epoch =? s_epoch s) then s_retiredSessionIds <== []
  else match s_sessionId s with
       | Some id => mmodify (set s_retiredSessionIds (fun ids => map_evict 8 (map_set id tt ids)))
       | None => mskip
       end.

Definition reset (epoch : Z) : M Session unit :=
  if negb (validInteger epoch 0 UINT32_MAX) then mthrow (session_error "epoch is invalid")
  else
    retire_session epoch ;;
    let! s := mget in
    clearTimeout (s_timer s) ;;
    clearHandshakeRetry ;; clearProbeRetry ;; clearCommitRetry ;;
    clearTimeout (s_deliveryTimer s) ;;
    clearHeartbeatTimers ;; increment s_generation ;;
    s_timer <== None ;; s_deliveryTimer <== None ;; s_epoch <== epoch ;; s_sessionId <== None ;;
    s_localNonce <== None ;; s_peerNonce <== None ;; s_sequence <== 1 ;; s_reason <== None ;;
    s_ledger <== [] ;; s_sentProbes <== mkPer 0 0 ;; s_receivedReports <== mkPer 0 0 ;;
    s_receivedProbes <== mkPer 0 0 ;; s_lastProbeReport <== mkPer None None ;;
    s_selected <== mkPer None None ;; s_settings <== None ;; s_settingsDigest <== None ;;
    s_lastHeartbeatAtMs <== None ;; s_turnOwner <== None ;; s_heartbeatDue <== false ;;
    s_queues <== empty_queues ;; s_active <== None ;; s_inbound <== None ;; s_lastAck <== None ;;
    s_delivered <== [] ;; s_awaitingAck <== false ;; s_recoveryAttempts <== 0 ;; s_work <== 0%nat ;;
    s_state <== initialState options.

Definition dispose : M Session unit :=
  let! s := mget in reset (s_epoch s) ;; s_subscribed <== false.

(** [reset(epoch)], and A starts again. *)
Definition reset_and_start (epoch : Z) : M Session unit :=
  reset epoch ;;
  match role with RoleA => let! _ := start in mskip | RoleB => mskip end.

(** The closure [restart]. *)
Definition restart (epoch : Z) (sessionId : option Z) : M Session unit :=
  let! s := mget in
  return_if negb (epoch =? s_epoch s) || negb (bool_decide (sessionId = s_sessionId s));
  reset_and_start epoch.

Definition restartSession : M Session unit :=
  let! s := mget in
  if negb (is_role role RoleA) || negb (truthy (s_sessionId s))
  then restart (s_epoch s) (s_sessionId s)
  else
    let! completion := send Reset (s_sessionId s) [] in
    if is_promise completion then react completion (RestartPlayed (s_epoch s) (s_sessionId s))
    else restart (s_epoch s) (s_sessionId s).

Definition onReset (sessionId : Z) : M Session unit :=
  let! s := mget in
  return_if negb (same_id sessionId (s_sessionId s));
  reset_and_start (s_epoch s).

(** The closure [armTimeout] of [beginRecovery]. *)
Definition armRecoveryTimeout (generation : Z) (sessionId : option Z) : M Session unit :=
  let! s := mget in
  return_if negb (generation =? s_generation s) || negb (bool_decide (sessionId = s_sessionId s))
         || negb (is_state s Recovering);
  schedule MarkHeartbeatMissed (session_ackTimeoutMs s).

Definition beginRecovery : M Session unit :=
  let! s := mget in
  return_if negb (is_state s Degraded) || negb (truthy (s_sessionId s));
  if MAX_ATTEMPTS <=? s_recoveryAttempts s then restartSession
  else
    increment s_recoveryAttempts ;; increment s_retries ;;
    s_state <== Recovering ;; s_reason <== None ;;
    if is_role role RoleA then
      let! completion := send Heartbeat (s_sessionId s) [] in
      if is_promise completion then react completion (RecoveryPlayed (s_generation s) (s_sessionId s))
      else armRecoveryTimeout (s_generation s) (s_sessionId s)
    else armRecoveryTimeout (s_generation s) (s_sessionId s).

End WithOptions.
