(* ===== verification/SessionReceive.v ===== *)
(** * The acoustic session: packets, handlers of received units, calibration
    and commit ([apps/modem-ui/src/acoustic-session.ts], lines 234-261, 307-333,
    364-420, 549-663, 673-682 and 715-843) *)

From stdpp Require Import base list numbers option strings.
From Stdlib Require Import ZArith Lia SpecFloat.
From S2P Require Import Prelude Utf8 Doubles Fas1 Settings Handshake Calibration SessionState Session.

Section WithOptions.
Context (options : AcousticSessionOptions).

Abbreviation role := (o_role options).
Abbreviation peer := (complement (o_role options)).
Abbreviation send := (SessionState.send options).
Abbreviation send_ := (SessionState.send_ options).

(** ** Outbound packets *)

Record AcousticQueueResult := mkQueueResult {
  qr_accepted : bool; qr_reason : option string; qr_packetId : option Z }.

Definition refused (reason : string) : AcousticQueueResult := mkQueueResult false (Some reason) None.
Definition accepted (packetId : Z) : AcousticQueueResult := mkQueueResult true None (Some packetId).

(** The pending copy of a packet, if there is one: the active packet first. *)
Definition duplicate_pending (packet : bytes) (class : AcousticTrafficClass) (s : Session)
    : option PendingPacket :=
  List.find (fun entry => bool_decide (pp_trafficClass entry = class)
                          && equal (Some (pp_packet entry)) (Some packet))
    (match s_active s with Some p => [p] | None => [] end ++ queued (s_queues s)).

Definition pending_count (s : Session) : Z :=
  queueLength s + (if defined (s_active s) then 1 else 0).

(** A new pending packet, cut into fragments under the current sequence. *)
Definition queue_new (packet : bytes) (class : AcousticTrafficClass) : M Session Z :=
  let! packetId := nextPacketId in
  let! s := mget in
  let! settings := mlift (outboundSettings options s) in
  let! fragments := mlift (fragmentPacket {|
    fp_packet := packet; fp_sessionId := default 0 (s_sessionId s); fp_sequenceStart := s_sequence s;
    fp_packetId := packetId; fp_sender := senderFlag role;
    fp_payloadBytes := Some (payloadBytes settings) |}) in
  let! ref := fresh in
  let pending := {|
    pp_ref := ref; pp_packetId := packetId; pp_packet := packet; pp_fragments := fragments;
    pp_trafficClass := class; pp_expiresAt := s_clock s + MAX_PACKET_AGE_MS;
    pp_attempts := 0; pp_acknowledged := 0 |} in
  mmodify (set s_sequence (fun n => n + zlen fragments)) ;;
  mmodify (set s_queues (queue_push class pending)) ;;
  mret packetId.

Definition enqueuePacket (packet : bytes) (class : AcousticTrafficClass) : M Session AcousticQueueResult :=
  expireWork options ;;
  let! s := mget in
  if negb (is_state s Ready) || negb (truthy (s_sessionId s)) then mret (refused "acoustic_not_ready")
  else if (zlen packet <? 1) || (1357 <? zlen packet) then mret (refused "acoustic_packet_bounds")
  else match duplicate_pending packet class s with
  | Some entry => increment s_duplicates ;; mret (accepted (pp_packetId entry))
  | None =>
      if MAX_QUEUED_PACKETS <=? pending_count s then mret (refused "acoustic_queue_full")
      else let! packetId := queue_new packet class in driveTurn options ;; mret (accepted packetId)
  end.

(** ** DATA, TURN_END and ACK *)

(** [(1 << n) - 1], on 32 bits. *)
Definition fragment_mask (n : Z) : Z := js_shl 1 n - 1.

(** The geometry a DATA unit must have under the peer's committed settings. *)
Definition data_geometry (payload : Z) (u : Fas1Unit) : bool :=
  let expectedCount := ceil_div (u_packetLength u) payload in
  let expectedLength := if u_fragmentIndex u =? expectedCount - 1
                        then u_packetLength u - payload * (expectedCount - 1) else payload in
  (u_fragmentCount u =? expectedCount) && (zlen (u_body u) =? expectedLength).

Definition conflicts (existing : option InboundAssembly) (u : Fas1Unit) : bool :=
  match existing with
  | Some a => negb (ia_packetId a =? u_packetId u)
              || negb (ia_fragmentCount a =? u_fragmentCount u)
              || negb (ia_packetLength a =? u_packetLength u)
  | None => false
  end.

Definition new_assembly (now : Z) (u : Fas1Unit) : InboundAssembly := {|
  ia_packetId := u_packetId u; ia_fragmentCount := u_fragmentCount u;
  ia_packetLength := u_packetLength u; ia_fragments := [];
  ia_expiresAt := now + MAX_PACKET_AGE_MS |}.

Definition add_fragment (u : Fas1Unit) (a : InboundAssembly) : InboundAssembly := {|
  ia_packetId := ia_packetId a; ia_fragmentCount := ia_fragmentCount a;
  ia_packetLength := ia_packetLength a;
  ia_fragments := map_set (u_fragmentIndex u) u (ia_fragments a);
  ia_expiresAt := ia_expiresAt a |}.

Definition received_bitmap (a : InboundAssembly) : Z :=
  foldl (fun bitmap index => js_or bitmap (js_shl 1 index)) 0 (ia_fragments a).*1.

(** The delivery of a complete assembly. *)
Definition deliver (u : Fas1Unit) (payload : Z) (a : InboundAssembly) : M Session unit :=
  match reassemblePacket (ia_fragments a).*2 payload with
  | Throw _ => s_inbound <== None ;; increment s_dropped
  | Ok packet =>
      let! s := mget in
      return_if negb (zlen packet =? ia_packetLength a) || map_has (u_packetId u) (s_delivered s);
      mmodify (set s_delivered (fun d => map_evict MAX_DELIVERED_IDS
        (map_set (u_packetId u) (s_clock s + MAX_PACKET_AGE_MS) d))) ;;
      s_inbound <== None ;; increment s_deliveredPackets ;;
      emit (Delivered packet (u_packetId u))
  end.

Definition accept_fragment (u : Fas1Unit) (payload : Z) : M Session unit :=
  let! s := mget in
  (if defined (s_inbound s) then mskip else s_lastAck <== None) ;;
  let a := default (new_assembly (s_clock s) u) (s_inbound s) in
  let seen := map_has (u_fragmentIndex u) (ia_fragments a) in
  (if seen then increment s_duplicates else mskip) ;;
  let inbound := if seen then a else add_fragment u a in
  s_inbound <== Some inbound ;;
  s_lastAck <== Some (u_packetId u, received_bitmap inbound) ;;
  return_if negb (zlen (ia_fragments inbound) =? ia_fragmentCount inbound);
  deliver u payload inbound.

Definition onData (u : Fas1Unit) : M Session unit :=
  expireWork options ;;
  let! s := mget in
  return_if negb (is_state s Ready) || negb (same_id (u_sessionId u) (s_sessionId s))
         || negb (owns_turn peer s);
  if map_has (u_packetId u) (s_delivered s) then
    increment s_duplicates ;;
    s_lastAck <== Some (u_packetId u, fragment_mask (u_fragmentCount u))
  else if conflicts (s_inbound s) u then increment s_dropped
  else
    let! payload := mlift (inboundPayloadBytes options s) in
    if negb (data_geometry payload u) then increment s_dropped
    else accept_fragment u payload.

Definition onTurnEnd (sessionId : Z) : M Session unit :=
  let! s := mget in
  return_if negb (is_state s Ready) || negb (same_id sessionId (s_sessionId s))
         || negb (owns_turn peer s);
  match s_lastAck s with
  | Some (packetId, bitmap) =>
      s_lastAck <== None ;; s_turnOwner <== Some peer ;; sendAck options packetId bitmap
  | None => s_turnOwner <== Some role ;; schedule DriveTurn (session_guardMs options s)
  end.

(** An acknowledgement that names the active packet and only its fragments. *)
Definition acknowledge (pending : PendingPacket) (bitmap : Z) : M Session unit :=
  let! s := mget in
  let legalMask := fragment_mask (zlen (pp_fragments pending)) in
  let before := pp_acknowledged pending in
  let now := js_or before bitmap in
  s_active <== Some (set pp_acknowledged (fun _ => now) pending) ;;
  if (now =? before) && negb (now =? legalMask) then increment s_duplicates
  else
    (if negb (now =? before)
     then s_active <== Some (set pp_attempts (fun _ => 0) (set pp_acknowledged (fun _ => now) pending))
     else mskip) ;;
    s_awaitingAck <== false ;; clearDeliveryTimer ;;
    if now =? legalMask then
      s_active <== None ;; send_ TurnEnd (s_sessionId s) [] ;; s_turnOwner <== Some peer
    else
      increment s_retries ;; s_turnOwner <== Some role ;;
      schedule DriveTurn (session_guardMs options s).

Definition onAck (sessionId packetId bitmap : Z) : M Session unit :=
  let! s := mget in
  return_if negb (is_state s Ready) || negb (same_id sessionId (s_sessionId s));
  match s_active s with
  | None => mskip
  | Some pending =>
      return_if negb (s_awaitingAck s) || negb (packetId =? pp_packetId pending);
      return_if negb (js_and bitmap (js_not (fragment_mask (zlen (pp_fragments pending)))) =? 0);
      acknowledge pending bitmap
  end.

(** ** Handshake *)

Definition mutualRange (other : AcousticCapabilityRange) : bool :=
  (minPayloadBytes other <=? maxPayloadBytes (o_ranges options))
  && (minPayloadBytes (o_ranges options) <=? maxPayloadBytes other).

(** The binding both handlers check. *)
Definition bound_to_peer (h : Handshake) (s : Session) : bool :=
  bool_decide (hs_role h = peer) && bool_decide (hs_identity h = o_expectedPeer options)
  && bool_decide (hs_expectedPeer h = o_identity options) && (hs_epoch h =? s_epoch s)
  && sameProfiles (hs_profiles h) (o_profiles options) && mutualRange (hs_ranges h).

Definition onHello (headerSessionId : Z) (body : bytes) : M Session unit :=
  return_if negb (is_role role RoleB) || negb (headerSessionId =? 0);
  let! hello := mlift (decodeHandshake body) in
  let! s := mget in
  return_if negb (bound_to_peer hello s) || negb (truthy (hs_sessionId hello));
  let id := default 0 (hs_sessionId hello) in
  return_if map_has id (s_retiredSessionIds s);
  if negb (is_state s Listening) && same_id id (s_sessionId s) then mskip
  else
    (if is_state s Listening then mskip else reset options (s_epoch s)) ;;
    clearHandshakeRetry ;;
    let! localNonce := draw_nonce options in
    s_sessionId <== Some id ;; s_peerNonce <== Some (hs_nonce hello) ;;
    s_localNonce <== Some localNonce ;; s_state <== HelloAckSent ;;
    let! ackBody := mlift (hello_ack_body options s localNonce (hs_nonce hello)) in
    let! completion := send HelloAck (Some id) ackBody in
    continueHandshakeAfterPlayback completion HelloAckSent.

Definition onHelloAck (sessionId : Z) (body : bytes) : M Session unit :=
  let! s := mget in
  return_if negb (is_role role RoleA) || negb (is_state s HelloSent)
         || negb (same_id sessionId (s_sessionId s)) || negb (defined (s_localNonce s));
  let! ack := mlift (decodeHandshake body) in
  return_if negb (bound_to_peer ack s) || negb (equal (hs_echoedNonce ack) (s_localNonce s));
  clearHandshakeRetry ;;
  s_peerNonce <== Some (hs_nonce ack) ;; s_state <== CapsSent ;;
  let! s := mget in
  let! caps := mlift (capsBody options s) in
  let! completion := send Caps (Some sessionId) caps in
  continueHandshakeAfterPlayback completion CapsSent.

(** ** Calibration *)

Definition stateFor (direction : Direction) : AcousticSessionState :=
  match direction with AtoB => CalibratingAToB | BtoA => CalibratingBToA end.

Definition armDeadline : M Session unit :=
  let! s := mget in
  return_if defined (s_timer s);
  let! handle := setTimeout (DeadlineCallback (s_epoch s)) (o_deadlineMs options) in
  s_timer <== Some handle.

Definition probe_body (direction : Direction) (probe : AcousticProbe) : bytes :=
  [directionByte direction; pr_candidateIndex probe mod 256; pr_probeIndex probe mod 256].

(** The retry of [ordinal] is the one in progress, and ours to send. *)
Definition retry_current (direction : Direction) (ordinal : Z) (s : Session) : bool :=
  match s_probeRetry s with
  | Some pending =>
      bool_decide (rt_direction pending = direction) && (rt_ordinal pending =? ordinal)
      && is_state s (stateFor direction) && is_role role (expectedSender direction)
      && truthy (s_sessionId s)
  | None => false
  end.

(** The closure [scheduleRetry]. *)
Definition scheduleRetry (direction : Direction) (ordinal : Z) : M Session unit :=
  let! s := mget in
  return_if negb (retry_current direction ordinal s);
  let! handle := setTimeout (ProbeCallback direction ordinal) PROBE_RETRY_MS in
  s_probeTimer <== Some handle.

Definition armProbeRetry (direction : Direction) (ordinal : Z) : M Session unit :=
  clearProbeRetry ;;
  s_probeRetry <== Some (mkRetry direction ordinal 0) ;;
  scheduleRetry direction ordinal.

Definition total_probes : Z := candidate_count options * o_probesPerDirection options.

Definition driveProbe (direction : Direction) : M Session unit :=
  let! s := mget in
  return_if negb (is_role role (expectedSender direction)) || negb (is_state s (stateFor direction))
         || negb (truthy (s_sessionId s));
  let ordinal := per_get direction (s_sentProbes s) in
  return_if total_probes <=? ordinal;
  let! probe := mlift (probeFor options direction ordinal) in
  modem_applyCandidate options (pr_candidate probe) ;;
  mmodify (set s_sentProbes (per_set direction (ordinal + 1))) ;;
  let! completion := send Probe (s_sessionId s) (probe_body direction probe) in
  react completion (ProbePlayed direction ordinal).

(** [this.#work = this.#work.then(async ...)] *)
Definition queue_work (stage : JobStage) : M Session unit :=
  let! id := fresh in
  let! s := mget in
  mmodify (set s_jobs (fun jobs => jobs ++ [(id, mkJob (s_work s) stage)])) ;;
  s_work <== id.

Definition queueCommit : M Session unit := queue_work CommitQueued.

Definition direction_entries (direction : Direction) (ledger : list AcousticProbeLedgerEntry)
    : list AcousticProbeLedgerEntry :=
  List.filter (fun entry => bool_decide (pr_direction (le_probe entry) = direction)) ledger.

Definition completeDirection (direction : Direction) : M Session bool :=
  let! s := mget in
  let entries := direction_entries direction (s_ledger s) in
  if (zlen entries <? total_probes) || defined (per_get direction (s_selected s)) then mret false
  else match select options entries with
  | None => fail "acoustic_calibration_no_safe_candidate" ;; mret true
  | Some selected =>
      mmodify (set s_selected (per_set direction (Some selected))) ;;
      match direction with
      | AtoB =>
          s_state <== CalibratingBToA ;;
          (if is_role role RoleB then driveProbe BtoA else mskip)
      | BtoA =>
          s_state <== Committing ;;
          (if is_role role RoleB then queueCommit else mskip)
      end ;;
      mret true
  end.

Definition onCaps (sessionId : Z) (body : bytes) : M Session unit :=
  let! s := mget in
  let expectedA := match role with RoleA => s_localNonce s | RoleB => s_peerNonce s end in
  let expectedB := match role with RoleB => s_localNonce s | RoleA => s_peerNonce s end in
  return_if negb (same_id sessionId (s_sessionId s)) || negb (defined expectedA)
         || negb (defined expectedB) || negb (zlen body =? 32)
         || negb (equal (Some (slice body 0 16)) expectedA) || negb (equal (Some (drop 16 body)) expectedB);
  match role, s_state s with
  | RoleB, HelloAckSent =>
      clearHandshakeRetry ;;
      s_state <== CalibratingAToB ;; armDeadline ;;
      let! caps := mlift (capsBody options s) in send_ Caps (Some sessionId) caps
  | RoleB, CalibratingAToB =>
      increment s_duplicates ;;
      let! caps := mlift (capsBody options s) in send_ Caps (Some sessionId) caps
  | RoleA, CapsSent =>
      clearHandshakeRetry ;; s_state <== CalibratingAToB ;; armDeadline ;; driveProbe AtoB
  | _, _ => mskip
  end.

Definition onProbe (sessionId : Z) (body : bytes) : M Session unit :=
  let! s := mget in
  return_if negb (same_id sessionId (s_sessionId s)) || negb (zlen body =? 3);
  let! direction := mlift (parseDirection (read_le 1 0 body)) in
  let probes := o_probesPerDirection options in
  let receivedOrdinal := read_le 1 1 body * probes + read_le 1 2 body in
  let ordinal := per_get direction (s_receivedProbes s) in
  if receivedOrdinal =? ordinal - 1 then
    match per_get direction (s_lastProbeReport s) with
    | Some (cachedOrdinal, cachedBody) =>
        return_if negb (cachedOrdinal =? receivedOrdinal);
        increment s_duplicates ;; send_ Report (Some sessionId) cachedBody
    | None => mskip
    end
  else
    return_if negb (is_state s (stateFor direction)) || is_role role (expectedSender direction)
           || negb (receivedOrdinal =? ordinal) || negb (read_le 1 1 body =? ordinal / probes)
           || negb (read_le 1 2 body =? ordinal mod probes);
    let! probe := mlift (probeFor options direction ordinal) in
    let! call := fresh in
    let! measured := mlift (o_measureProbe options call probe) in
    let! observation := mlift (normalizeObservation measured) in
    let report := encodeReport probe observation in
    mmodify (set s_receivedProbes (per_set direction (ordinal + 1))) ;;
    mmodify (set s_ledger (fun l => l ++ [mkEntry probe observation])) ;;
    mmodify (set s_lastProbeReport (per_set direction (Some (ordinal, report)))) ;;
    send_ Report (Some sessionId) report ;;
    let! _ := completeDirection direction in mskip.

Definition onReport (sessionId : Z) (body : bytes) : M Session unit :=
  let! s := mget in
  return_if negb (same_id sessionId (s_sessionId s));
  let! '(probe, observation) := mlift (decodeReport options body) in
  let direction := pr_direction probe in
  let probes := o_probesPerDirection options in
  let ordinal := per_get direction (s_receivedReports s) in
  return_if negb (is_state s (stateFor direction)) || negb (is_role role (expectedSender direction))
         || negb (pr_candidateIndex probe =? ordinal / probes)
         || negb (pr_probeIndex probe =? ordinal mod probes);
  clearProbeRetry ;;
  mmodify (set s_receivedReports (per_set direction (ordinal + 1))) ;;
  mmodify (set s_ledger (fun l => l ++ [mkEntry probe observation])) ;;
  let! completed := completeDirection direction in
  if completed then mskip else driveProbe direction.

(** ** Commit and heartbeat *)

Definition armCommitRetry : M Session unit :=
  let! s := mget in
  return_if negb (is_role role RoleB) || (negb (is_state s Committing) && negb (is_state s AwaitingHeartbeat))
         || negb (truthy (s_sessionId s)) || negb (defined (s_settingsDigest s))
         || defined (s_commitTimer s);
  let! handle := setTimeout (CommitCallback (s_epoch s) (s_sessionId s) (s_generation s)) COMMIT_RETRY_MS in
  s_commitTimer <== Some handle.

Definition onCommit (sessionId : Z) (body : bytes) : M Session unit :=
  let! s := mget in
  return_if negb (is_role role RoleA) || negb (same_id sessionId (s_sessionId s)) || negb (zlen body =? 32);
  if (is_state s AwaitingHeartbeat || is_state s Ready) && equal (Some body) (s_settingsDigest s) then
    increment s_duplicates ;;
    send_ CommitAck (Some sessionId) body ;;
    if is_state s AwaitingHeartbeat then send_ Heartbeat (Some sessionId) [] else mskip
  else
    return_if negb (is_state s Committing) || negb (defined (per_AtoB (s_selected s)))
           || negb (defined (per_BtoA (s_selected s)));
    queue_work (VerifyQueued body).

Definition onCommitAck (sessionId : Z) (body : bytes) : M Session unit :=
  let! s := mget in
  return_if negb (is_role role RoleB) || negb (is_state s Committing)
         || negb (same_id sessionId (s_sessionId s)) || negb (equal (Some body) (s_settingsDigest s));
  s_state <== AwaitingHeartbeat ;; s_turnOwner <== Some RoleA ;; armCommitRetry.

Definition onHeartbeat (sessionId : Z) : M Session unit :=
  let! s := mget in
  let recovering := is_state s Degraded || is_state s Recovering in
  return_if negb (same_id sessionId (s_sessionId s))
         || (negb (is_state s AwaitingHeartbeat) && negb (is_state s Ready) && negb recovering);
  let reply := is_state s AwaitingHeartbeat || (recovering && is_role role RoleB) in
  (if is_role role RoleB then clearCommitRetry else mskip) ;;
  clearDeliveryTimer ;; s_state <== Ready ;; s_lastHeartbeatAtMs <== Some (s_clock s) ;;
  armHeartbeatTimers options ;;
  s_recoveryAttempts <== 0 ;;
  (if reply && is_role role RoleB then
     if recovering then schedule (RecoveryReply sessionId) (session_guardMs options s)
     else send_ Heartbeat (Some sessionId) []
   else mskip) ;;
  (if reply || recovering then s_turnOwner <== Some RoleA else mskip).

(** ** [receive] *)

Definition dispatch (u : Fas1Unit) : M Session unit :=
  match u_type u with
  | Hello => onHello (u_sessionId u) (u_body u)
  | HelloAck => onHelloAck (u_sessionId u) (u_body u)
  | Caps => onCaps (u_sessionId u) (u_body u)
  | Probe => onProbe (u_sessionId u) (u_body u)
  | Report => onReport (u_sessionId u) (u_body u)
  | Commit => onCommit (u_sessionId u) (u_body u)
  | CommitAck => onCommitAck (u_sessionId u) (u_body u)
  | Heartbeat => onHeartbeat (u_sessionId u)
  | Data => onData u
  | TurnEnd => onTurnEnd (u_sessionId u)
  | Ack => onAck (u_sessionId u) (u_packetId u) (u_sequence u)
  | Reset => onReset options (u_sessionId u)
  end.

Definition receive (raw : bytes) : M Session unit :=
  match decodeFas1 raw with
  | Throw _ => mskip
  | Ok u =>
      return_if negb (u_flags u =? senderFlag peer);
      mtry
        (dispatch u ;;
         let! s := mget in
         if is_state s Ready && same_id (u_sessionId u) (s_sessionId s)
         then armHeartbeatTimers options else mskip)
        (fun _ => mskip)
  end.

End WithOptions.
