(* ===== verification/SessionStep.v ===== *)
(** * The acoustic session in its environment
    ([apps/modem-ui/src/acoustic-session.ts], lines 353-447, 499-504, 523-541,
    676-682, 774-811)

    The bodies of the timer callbacks, of the promise reactions and of the
    asynchronous commit work, and the transition function over everything the
    environment may do next.  Which live timer fires, which pending promise
    settles and which suspended job resumes is the environment's choice: every
    interleaving the event loop can produce is a list of events. *)

From stdpp Require Import base list numbers option strings.
From Stdlib Require Import ZArith Lia SpecFloat.
From S2P Require Import Prelude Utf8 Doubles Fas1 Settings Handshake Calibration SessionState Session SessionReceive.

Section WithOptions.
Context (options : AcousticSessionOptions).

Abbreviation role := (o_role options).
Abbreviation send := (SessionState.send options).
Abbreviation send_ := (SessionState.send_ options).

(** ** Timer callbacks *)

(** The guard of the retry callbacks: same epoch, session and generation. *)
Definition same_session (epoch : Z) (sessionId : option Z) (generation : Z) (s : Session) : bool :=
  (epoch =? s_epoch s) && bool_decide (sessionId = s_sessionId s) && (generation =? s_generation s).

Definition onDeadline (epoch : Z) : M Session unit :=
  s_timer <== None ;;
  let! s := mget in
  if (epoch =? s_epoch s) && (is_state s CalibratingAToB || is_state s CalibratingBToA)
  then increment s_retries ;; armDeadline options else mskip.

Definition onHandshakeRetry (epoch : Z) (sessionId : option Z) (generation : Z) : M Session unit :=
  s_handshakeTimer <== None ;;
  let! s := mget in
  return_if negb (same_session epoch sessionId generation s) || negb (handshaking s);
  increment s_handshakeAttempts ;; increment s_retries ;;
  resend_handshake options s.

Definition onProbeRetry (direction : Direction) (ordinal : Z) : M Session unit :=
  s_probeTimer <== None ;;
  let! s := mget in
  return_if negb (retry_current options direction ordinal s);
  s_probeRetry <== option_map (fun r => mkRetry (rt_direction r) (rt_ordinal r) (rt_attempts r + 1))
                     (s_probeRetry s) ;;
  increment s_retries ;;
  let! probe := mlift (probeFor options direction ordinal) in
  modem_applyCandidate options (pr_candidate probe) ;;
  let! completion := send Probe (s_sessionId s) (probe_body direction probe) in
  react completion (ProbeRetried direction ordinal).

Definition onCommitRetry (epoch : Z) (sessionId : option Z) (generation : Z) : M Session unit :=
  s_commitTimer <== None ;;
  let! s := mget in
  return_if negb (same_session epoch sessionId generation s)
         || (negb (is_state s Committing) && negb (is_state s AwaitingHeartbeat))
         || negb (defined (s_settingsDigest s));
  increment s_commitAttempts ;; increment s_retries ;;
  let! completion := send Commit sessionId (default [] (s_settingsDigest s)) in
  react completion CommitRetried.

Definition onHeartbeatTimer (epoch : Z) (sessionId : option Z) (generation : Z) : M Session unit :=
  s_heartbeatTimer <== None ;;
  let! s := mget in
  return_if negb (current epoch sessionId generation s);
  let! _ := heartbeat options in
  scheduleHeartbeat options epoch sessionId generation.

Definition onHeartbeatDeadline (epoch : Z) (sessionId : option Z) (generation deadlineGeneration : Z)
    : M Session unit :=
  s_heartbeatDeadline <== None ;;
  let! s := mget in
  return_if negb (deadlineGeneration =? s_heartbeatTimerGeneration s)
         || negb (current epoch sessionId generation s);
  markHeartbeatMissed options.

Definition perform (action : Action) : M Session unit :=
  match action with
  | DriveTurn => driveTurn options
  | BeginRecovery => beginRecovery options
  | MarkHeartbeatMissed => markHeartbeatMissed options
  | OnAckTimeout packetId attempt => onAckTimeout options packetId attempt
  | RecoveryReply sessionId =>
      let! s := mget in
      if is_state s Ready && same_id sessionId (s_sessionId s)
      then send_ Heartbeat (Some sessionId) [] else mskip
  end.

Definition onDeliveryTimer (epoch : Z) (sessionId : option Z) (action : Action) : M Session unit :=
  s_deliveryTimer <== None ;;
  let! s := mget in
  return_if negb (epoch =? s_epoch s) || negb (bool_decide (sessionId = s_sessionId s));
  perform action.

Definition run_callback (callback : Callback) : M Session unit :=
  match callback with
  | DeadlineCallback epoch => onDeadline epoch
  | HandshakeCallback epoch sessionId generation => onHandshakeRetry epoch sessionId generation
  | ProbeCallback direction ordinal => onProbeRetry direction ordinal
  | CommitCallback epoch sessionId generation => onCommitRetry epoch sessionId generation
  | HeartbeatCallback epoch sessionId generation => onHeartbeatTimer epoch sessionId generation
  | HeartbeatDeadlineCallback epoch sessionId generation deadline =>
      onHeartbeatDeadline epoch sessionId generation deadline
  | DeliveryCallback epoch sessionId action => onDeliveryTimer epoch sessionId action
  end.

(** ** Promise reactions *)

Definition run_continuation (continuation : Continuation) (fulfilled : bool) : M Session unit :=
  match continuation with
  | HandshakePlayed generation expectedState =>
      let! s := mget in
      return_if negb (generation =? s_generation s) || negb (is_state s expectedState);
      if fulfilled then armHandshakeRetry else fail "acoustic_handshake_playback_failed"
  | ProbePlayed direction ordinal =>
      if fulfilled then armProbeRetry options direction ordinal else fail "acoustic_probe_playback_failed"
  | ProbeRetried direction ordinal =>
      if fulfilled then scheduleRetry options direction ordinal else fail "acoustic_probe_playback_failed"
  | CommitRetried =>
      if fulfilled then armCommitRetry options else fail "acoustic_commit_failed"
  | TurnPlayed generation sessionId pending packetId attempt =>
      if fulfilled then armTurnTimeout options generation sessionId pending packetId attempt
      else degrade options "acoustic_modem_playback_failed"
  | RecoveryPlayed generation sessionId =>
      if fulfilled then armRecoveryTimeout options generation sessionId else restartSession options
  | RestartPlayed epoch sessionId => restart options epoch sessionId
  end.

(** ** Commit work

    Each segment between two awaits yields the stage where the job suspends
    again, or [None] when it has run to its end. *)

Definition selected_settings (s : Session) : option AcousticSettings :=
  match per_AtoB (s_selected s), per_BtoA (s_selected s) with
  | Some a, Some b => Some (mkSettings (toSettings a) (toSettings b))
  | _, _ => None
  end.

Definition begin_commit : M Session (option JobStage) :=
  let! s := mget in
  match selected_settings s with
  | Some settings =>
      if negb (is_state s Committing) || negb (truthy (s_sessionId s)) then mret None
      else
        s_settings <== Some settings ;;
        applyOutboundCandidate options ;;
        mret (Some (CommitDigesting (digestSettings (o_sha256 options) settings)))
  | None => mret None
  end.

(** After [await digestSettings(...)]: neither the state nor the session is
    looked at again. *)
Definition send_commit (digest : bytes) : M Session (option JobStage) :=
  s_settingsDigest <== Some digest ;;
  let! s := mget in
  let! completion := send Commit (s_sessionId s) digest in
  mret (Some (CommitSending completion)).

Definition begin_verify (received : bytes) : M Session (option JobStage) :=
  let! s := mget in
  if negb (is_state s Committing) || negb (truthy (s_sessionId s)) then mret None
  else match selected_settings s with
       | None => mthrow "Cannot read properties of undefined"
       | Some settings =>
           s_settings <== Some settings ;;
           mret (Some (VerifyDigesting received (digestSettings (o_sha256 options) settings)))
       end.

Definition verify_commit (received digest : bytes) : M Session (option JobStage) :=
  if negb (equal (Some received) (Some digest))
  then fail "acoustic_commit_digest_mismatch" ;; mret None
  else
    s_settingsDigest <== Some digest ;; applyOutboundCandidate options ;;
    s_state <== AwaitingHeartbeat ;; s_turnOwner <== Some RoleA ;;
    let! s := mget in
    send_ CommitAck (s_sessionId s) digest ;;
    send_ Heartbeat (s_sessionId s) [] ;;
    mret None.

(** [await]: a rejected promise throws here. *)
Definition await (fulfilled : bool) (r : result bytes) : M Session bytes :=
  if fulfilled then mlift r else mthrow "rejected".

Definition run_stage (stage : JobStage) (fulfilled : bool) : M Session (option JobStage) :=
  match stage with
  | CommitQueued => begin_commit
  | CommitDigesting digest => let! d := await fulfilled digest in send_commit d
  | CommitSending _ => let! _ := await fulfilled (Ok []) in armCommitRetry options ;; mret None
  | VerifyQueued received => begin_verify received
  | VerifyDigesting received digest => let! d := await fulfilled digest in verify_commit received d
  end.

(** Resuming a job: it moves to its next stage, or leaves; the [.catch] turns
    every exception into a failure of the session. *)
Definition run_job (id : nat) (job : Job) (fulfilled : bool) : M Session unit :=
  let! next := mtry (run_stage (job_stage job) fulfilled)
                 (fun _ => fail "acoustic_commit_failed" ;; mret None) in
  match next with
  | Some stage => mmodify (set s_jobs (map_set id (mkJob (job_after job) stage)))
  | None => mmodify (set s_jobs (map_delete id))
  end.

(** ** Events *)

Inductive Event :=
  | Tick (now : Z)
  | Received (raw : bytes)
  | TimerFires (handle : nat)
  | Settles (promise : nat) (fulfilled : bool)
  | Resumes (job : nat) (fulfilled : bool)
  | CallStart
  | CallEnqueue (packet : bytes) (class : AcousticTrafficClass)
  | CallHeartbeat
  | CallMarkMissed
  | CallReset (epoch : Z)
  | CallDispose.

(** The session has no reaction to an event that cannot happen: a timer that
    was cleared, a rejection of a completed playback, a job whose predecessor
    is still running. *)
Definition handle (event : Event) : M Session unit :=
  let! s := mget in
  match event with
  | Tick now => return_if now <? s_clock s; s_clock <== now
  | Received raw => return_if negb (s_subscribed s); receive options raw
  | TimerFires h =>
      match map_get h (s_timers s) with
      | Some (callback, _) => mmodify (set s_timers (map_delete h)) ;; run_callback callback
      | None => mskip
      end
  | Settles id fulfilled =>
      match map_get id (s_promises s) with
      | Some (continuation, rejectable) =>
          return_if negb fulfilled && negb rejectable;
          mmodify (set s_promises (map_delete id)) ;; run_continuation continuation fulfilled
      | None => mskip
      end
  | Resumes id fulfilled =>
      match map_get id (s_jobs s) with
      | Some job =>
          return_if match job_stage job with
                    | CommitQueued | VerifyQueued _ => map_has (job_after job) (s_jobs s) || negb fulfilled
                    | CommitSending completion => negb fulfilled && negb (is_promise completion)
                    | _ => false
                    end;
          run_job id job fulfilled
      | None => mskip
      end
  | CallStart => let! _ := start options in mskip
  | CallEnqueue packet class => let! _ := enqueuePacket options packet class in mskip
  | CallHeartbeat => let! _ := heartbeat options in mskip
  | CallMarkMissed => markHeartbeatMissed options
  | CallReset epoch => reset options epoch
  | CallDispose => dispose options
  end.

(** An exception that escapes reaches the caller or the event loop. *)
Definition step (event : Event) (s : Session) : Session := final (handle event) s.

Definition run (events : list Event) (s : Session) : Session :=
  foldl (fun s event => step event s) s events.

(** The sessions that an accepted configuration can reach. *)
Inductive reachable : Session -> Prop :=
  | reach_create clock s : create options clock = Ok s -> reachable s
  | reach_step event s : reachable s -> reachable (step event s).

End WithOptions.
