(* ===== verification/SessionFrame.v ===== *)
(** * What the operations of a session leave alone

    Most operations only arm or clear timers, count, or transmit.  [quiet]
    says so: the protocol state ([core]) is the same and the log has grown by
    units of the session's own role.  The invariants are proved over [core]. *)

From stdpp Require Import base list numbers option strings.
From Stdlib Require Import ZArith Lia SpecFloat.
From S2P Require Import Prelude Utf8 Doubles Fas1 Fas1Codec Settings Handshake Calibration SessionState Session SessionReceive SessionStep.

(** ** The protocol state *)

Record Core := mkCore {
  c_state : AcousticSessionState;
  c_epoch : Z;
  c_sessionId : option Z;
  c_localNonce : option bytes;
  c_generation : Z;
  c_packetId : Z;
  c_queues : Queues;
  c_active : option PendingPacket;
  c_inbound : option InboundAssembly;
  c_lastAck : option (Z * Z);
  c_delivered : list (Z * Z);
  c_retired : list (Z * unit);
  c_recoveryAttempts : Z;
  c_turnOwner : option AcousticRole;
  c_awaitingAck : bool;
  c_settings : option AcousticSettings;
  c_settingsDigest : option bytes;
  c_subscribed : bool;
  c_clock : Z;
  c_deliveredPackets : Z;
}.

Definition core (s : Session) : Core := {|
  c_state := s_state s; c_epoch := s_epoch s; c_sessionId := s_sessionId s;
  c_localNonce := s_localNonce s; c_generation := s_generation s; c_packetId := s_packetId s;
  c_queues := s_queues s; c_active := s_active s; c_inbound := s_inbound s;
  c_lastAck := s_lastAck s; c_delivered := s_delivered s; c_retired := s_retiredSessionIds s;
  c_recoveryAttempts := s_recoveryAttempts s; c_turnOwner := s_turnOwner s;
  c_awaitingAck := s_awaitingAck s; c_settings := s_settings s;
  c_settingsDigest := s_settingsDigest s; c_subscribed := s_subscribed s; c_clock := s_clock s;
  c_deliveredPackets := s_deliveredPackets s |}.

#[export] Instance eta_Core : Eta Core := fun c =>
  mkCore (c_state c) (c_epoch c) (c_sessionId c) (c_localNonce c) (c_generation c) (c_packetId c)
    (c_queues c) (c_active c) (c_inbound c) (c_lastAck c) (c_delivered c) (c_retired c)
    (c_recoveryAttempts c) (c_turnOwner c) (c_awaitingAck c) (c_settings c) (c_settingsDigest c)
    (c_subscribed c) (c_clock c) (c_deliveredPackets c).

Section WithOptions.
Context (options : AcousticSessionOptions).

Abbreviation role := (o_role options).

(** A unit that carries the session's own role, so that its own microphone
    can tell it from the peer's. *)
Definition own_effect (e : Effect) : Prop :=
  match e with
  | Sent raw => exists u, decodeFas1 raw = Ok u /\ u_flags u = senderFlag role
  | _ => True
  end.

(** Only A verifies a COMMIT. *)
Definition verifying (stage : JobStage) : bool :=
  match stage with VerifyQueued _ | VerifyDigesting _ _ => true | _ => false end.

Definition job_ok (e : nat * Job) : Prop := verifying (job_stage e.2) = true -> role = RoleA.

Definition jobs_ok (s : Session) : Prop := Forall job_ok (s_jobs s).

Record quiet (s s' : Session) : Prop := {
  quiet_core : core s' = core s;
  quiet_jobs : jobs_ok s -> jobs_ok s';
  quiet_log : exists l, s_log s' = s_log s ++ l /\ Forall own_effect l
              /\ Forall (fun e => match e with Delivered _ _ => False | _ => True end) l;
}.

#[export] Instance quiet_refl : Reflexive quiet.
Proof. intros s. split; [done|done|]. exists []. rewrite app_nil_r. repeat split; constructor. Qed.

#[export] Instance quiet_trans : Transitive quiet.
Proof.
  intros s1 s2 s3 [H1 J1 (l1 & E1 & O1 & D1)] [H2 J2 (l2 & E2 & O2 & D2)]. split; [congruence|tauto|].
  exists (l1 ++ l2). rewrite E2, E1, app_assoc. repeat split; by apply Forall_app.
Qed.

Lemma quiet_own s s' :
  quiet s s' -> Forall own_effect (s_log s) -> Forall own_effect (s_log s').
Proof. intros [_ _ (l & -> & Ol & _)] H. by apply Forall_app. Qed.

Lemma quiet_same s s' :
  core s' = core s -> s_jobs s' = s_jobs s -> s_log s' = s_log s -> quiet s s'.
Proof.
  intros H J E. split; [done|unfold jobs_ok; by rewrite J|].
  exists []. rewrite app_nil_r. repeat split; [done|constructor..].
Qed.

Lemma quiet_field f :
  (forall s, core (f s) = core s) -> (forall s, s_jobs (f s) = s_jobs s) ->
  (forall s, s_log (f s) = s_log s) -> moves quiet (mmodify f).
Proof. intros Hc Hj Hl. apply moves_modify. intros s. by apply quiet_same. Qed.

Lemma quiet_emit e :
  own_effect e -> match e with Delivered _ _ => False | _ => True end -> moves quiet (emit e).
Proof.
  intros He Hd. apply moves_modify. intros s. split; [done|done|]. exists [e]. split; [done|].
  split; by apply Forall_singleton.
Qed.

End WithOptions.

#[export] Hint Extern 5 (moves (quiet _) (mmodify _)) =>
  apply quiet_field; intros; reflexivity : moves.
#[export] Hint Extern 5 (moves (quiet _) (increment _)) =>
  apply quiet_field; intros; reflexivity : moves.

(** Prove that an operation is quiet from the operations it calls. *)
Ltac quiet_op := repeat first [solve [auto with moves] | moves_step].

Section Quiet.
Context (options : AcousticSessionOptions).
Local Abbreviation quietly m := (moves (quiet options) m).

Lemma fresh_quiet : quietly fresh.
Proof. unfold fresh. quiet_op. Qed.
Hint Resolve fresh_quiet : moves.

Lemma setTimeout_quiet cb d : quietly (setTimeout cb d).
Proof. unfold setTimeout. quiet_op. Qed.

Lemma clearTimeout_quiet h : quietly (clearTimeout h).
Proof. unfold clearTimeout. quiet_op. Qed.

Lemma react_quiet c k : quietly (react c k).
Proof. unfold react. quiet_op. Qed.
Hint Resolve setTimeout_quiet clearTimeout_quiet react_quiet : moves.

Lemma modem_applyCandidate_quiet c : quietly (modem_applyCandidate options c).
Proof. unfold modem_applyCandidate. quiet_op. by apply quiet_emit. Qed.

(** What is handed to the modem is an encoding of a unit of our own role. *)
Lemma modem_send_quiet u raw :
  encodeFas1 u = Ok raw -> u_flags u = senderFlag (o_role options) -> quietly (modem_send options raw).
Proof.
  intros He Hf. unfold modem_send. quiet_op. apply quiet_emit; [|done].
  exists u. split; [by apply decode_encode|done].
Qed.

Lemma send_encoded_quiet {A} u (k : Completion -> M Session A) :
  u_flags u = senderFlag (o_role options) -> (forall c, quietly (k c)) ->
  quietly (let! raw := mlift (encodeFas1 u) in let! c := modem_send options raw in k c).
Proof.
  intros Hf Hk s. apply wp_bind, wp_lift. destruct (encodeFas1 u) as [raw|] eqn:E; [|reflexivity].
  revert s. change (quietly (let! c := modem_send options raw in k c)).
  apply moves_bind; [exact _|by eapply modem_send_quiet|done].
Qed.

Lemma send_quiet t sid body : quietly (SessionState.send options t sid body).
Proof.
  unfold send. moves_step; [quiet_op|]. moves_step; [quiet_op|]. moves_step; [|quiet_op].
  intros s. apply wp_bind, wp_lift. destruct (encodeFas1 _) as [raw|] eqn:E; [|reflexivity].
  by eapply modem_send_quiet.
Qed.
Hint Resolve modem_applyCandidate_quiet send_quiet : moves.

Lemma send__quiet t sid body : quietly (SessionState.send_ options t sid body).
Proof. unfold send_. quiet_op. Qed.

Lemma sendUnit_quiet u : u_flags u = senderFlag (o_role options) -> quietly (sendUnit options u).
Proof.
  intros Hf s. unfold sendUnit. apply wp_bind, wp_lift.
  destruct (encodeFas1 u) as [raw|] eqn:E; [|reflexivity]. by eapply modem_send_quiet.
Qed.

Lemma send_units_quiet us :
  Forall (fun u => u_flags u = senderFlag (o_role options)) us -> quietly (send_units options us).
Proof.
  induction 1 as [|u us Hu _ IH]; cbn [send_units]; quiet_op. by apply sendUnit_quiet.
Qed.

Lemma sendAck_quiet p b : quietly (sendAck options p b).
Proof.
  unfold sendAck. moves_step; [quiet_op|]. moves_step; [quiet_op|].
  apply send_encoded_quiet; [done|intros; quiet_op].
Qed.
Hint Resolve send__quiet sendAck_quiet : moves.

Lemma draw_nonce_quiet : quietly (draw_nonce options).
Proof. unfold draw_nonce. quiet_op. Qed.

Lemma clearDeliveryTimer_quiet : quietly clearDeliveryTimer.
Proof. unfold clearDeliveryTimer. quiet_op. Qed.

Lemma clearHandshakeRetry_quiet : quietly clearHandshakeRetry.
Proof. unfold clearHandshakeRetry. quiet_op. Qed.

Lemma clearProbeRetry_quiet : quietly clearProbeRetry.
Proof. unfold clearProbeRetry. quiet_op. Qed.

Lemma clearCommitRetry_quiet : quietly clearCommitRetry.
Proof. unfold clearCommitRetry. quiet_op. Qed.

Lemma clearHeartbeatTimers_quiet : quietly clearHeartbeatTimers.
Proof. unfold clearHeartbeatTimers. quiet_op. Qed.
Hint Resolve draw_nonce_quiet clearDeliveryTimer_quiet clearHandshakeRetry_quiet clearProbeRetry_quiet
  clearCommitRetry_quiet clearHeartbeatTimers_quiet : moves.

Lemma applyOutboundCandidate_quiet : quietly (applyOutboundCandidate options).
Proof. unfold applyOutboundCandidate. quiet_op. Qed.

Lemma schedule_quiet a d : quietly (schedule a d).
Proof. unfold schedule. quiet_op. Qed.
Hint Resolve applyOutboundCandidate_quiet schedule_quiet : moves.

Lemma armTurnTimeout_quiet g sid p pid a : quietly (armTurnTimeout options g sid p pid a).
Proof. unfold armTurnTimeout. quiet_op. Qed.

Lemma scheduleHeartbeat_quiet e sid g : quietly (scheduleHeartbeat options e sid g).
Proof. unfold scheduleHeartbeat. quiet_op. Qed.
Hint Resolve armTurnTimeout_quiet scheduleHeartbeat_quiet : moves.

Lemma armHeartbeatTimers_quiet : quietly (armHeartbeatTimers options).
Proof. unfold armHeartbeatTimers. quiet_op. Qed.

Lemma continueHandshake_quiet c st : quietly (continueHandshakeAfterPlayback c st).
Proof. unfold continueHandshakeAfterPlayback. quiet_op. Qed.

Lemma armHandshakeRetry_quiet : quietly armHandshakeRetry.
Proof. unfold armHandshakeRetry. quiet_op. Qed.
Hint Resolve armHeartbeatTimers_quiet continueHandshake_quiet armHandshakeRetry_quiet : moves.

Lemma resend_handshake_quiet s : quietly (resend_handshake options s).
Proof. unfold resend_handshake. quiet_op. Qed.

Lemma armRecoveryTimeout_quiet g sid : quietly (armRecoveryTimeout options g sid).
Proof. unfold armRecoveryTimeout. quiet_op. Qed.

Lemma armDeadline_quiet : quietly (armDeadline options).
Proof. unfold armDeadline. quiet_op. Qed.

Lemma scheduleRetry_quiet d n : quietly (scheduleRetry options d n).
Proof. unfold scheduleRetry. quiet_op. Qed.
Hint Resolve resend_handshake_quiet armRecoveryTimeout_quiet armDeadline_quiet scheduleRetry_quiet : moves.

Lemma armProbeRetry_quiet d n : quietly (armProbeRetry options d n).
Proof. unfold armProbeRetry. quiet_op. Qed.

Lemma driveProbe_quiet d : quietly (driveProbe options d).
Proof. unfold driveProbe. quiet_op. Qed.

Lemma queue_work_quiet stage :
  (verifying stage = true -> o_role options = RoleA) -> quietly (queue_work stage).
Proof.
  intros Hs. unfold queue_work. quiet_op. apply moves_modify. intros s. split; [done| |].
  - unfold jobs_ok. cbn. intros H. apply Forall_app; split; [done|]. by apply Forall_singleton.
  - exists []. rewrite app_nil_r. by repeat split.
Qed.

Lemma queueCommit_quiet : quietly queueCommit.
Proof. by apply queue_work_quiet. Qed.

Lemma armCommitRetry_quiet : quietly (armCommitRetry options).
Proof. unfold armCommitRetry. quiet_op. Qed.
Hint Resolve armProbeRetry_quiet driveProbe_quiet queueCommit_quiet armCommitRetry_quiet : moves.

Lemma onCommit_quiet sid body : quietly (onCommit options sid body).
Proof.
  unfold onCommit. moves_step; [quiet_op|]. cbv zeta.
  match goal with |- moves _ (if ?b then _ else _) => destruct b eqn:C end; [quiet_op|].
  quiet_op. apply queue_work_quiet. intros _. bool_split. by unfold is_role in *; bool_split.
Qed.

Lemma onDeadline_quiet e : quietly (onDeadline options e).
Proof. unfold onDeadline. quiet_op. Qed.

Lemma onHandshakeRetry_quiet e sid g : quietly (onHandshakeRetry options e sid g).
Proof. unfold onHandshakeRetry. quiet_op. Qed.

Lemma onProbeRetry_quiet d n : quietly (onProbeRetry options d n).
Proof. unfold onProbeRetry. quiet_op. Qed.

Lemma onCommitRetry_quiet e sid g : quietly (onCommitRetry options e sid g).
Proof. unfold onCommitRetry. quiet_op. Qed.

End Quiet.

#[export] Hint Resolve fresh_quiet setTimeout_quiet clearTimeout_quiet react_quiet
  modem_applyCandidate_quiet send_quiet send__quiet sendAck_quiet draw_nonce_quiet
  clearDeliveryTimer_quiet clearHandshakeRetry_quiet clearProbeRetry_quiet clearCommitRetry_quiet
  clearHeartbeatTimers_quiet applyOutboundCandidate_quiet schedule_quiet armTurnTimeout_quiet
  scheduleHeartbeat_quiet armHeartbeatTimers_quiet continueHandshake_quiet armHandshakeRetry_quiet
  resend_handshake_quiet armRecoveryTimeout_quiet armDeadline_quiet scheduleRetry_quiet
  armProbeRetry_quiet driveProbe_quiet queueCommit_quiet armCommitRetry_quiet onCommit_quiet
  onDeadline_quiet onHandshakeRetry_quiet onProbeRetry_quiet onCommitRetry_quiet : moves.

(** ** Operations that cannot throw *)

Definition calm {A} (m : M Session A) : Prop :=
  forall o s, wp m (fun r s' => is_ok r = true /\ quiet o s s') s.

Lemma calm_bind {A B} (m : M Session A) (f : A -> M Session B) :
  calm m -> (forall a, calm (f a)) -> calm (mbind m f).
Proof.
  intros Hm Hf o s. apply wp_bind. eapply wp_mono; [apply Hm|]. intros [a|e] s' [? HQ]; [|done].
  eapply wp_mono; [apply Hf|]. intros r s'' [? HQ']. split; [done|]. by etransitivity.
Qed.

Lemma calm_field f :
  (forall s, core (f s) = core s) -> (forall s, s_jobs (f s) = s_jobs s) ->
  (forall s, s_log (f s) = s_log s) -> calm (mmodify f).
Proof. intros Hc Hj Hl o s. apply wp_modify. split; [done|]. by apply quiet_same. Qed.

Lemma calm_get : calm mget.
Proof. intros o s. by apply wp_get. Qed.

Lemma calm_clearTimeout h : calm (clearTimeout h).
Proof. destruct h; [by apply calm_field|]. intros o s. by apply wp_ret. Qed.

Ltac calm_op :=
  repeat first
  [ apply calm_clearTimeout | apply calm_get
  | apply calm_bind; [|intros ?]
  | apply calm_field; intros; reflexivity ].

Lemma clearDeliveryTimer_calm : calm clearDeliveryTimer.
Proof. unfold clearDeliveryTimer. calm_op. Qed.

Lemma clearHandshakeRetry_calm : calm clearHandshakeRetry.
Proof. unfold clearHandshakeRetry. calm_op. Qed.

Lemma clearProbeRetry_calm : calm clearProbeRetry.
Proof. unfold clearProbeRetry. calm_op. Qed.

Lemma clearCommitRetry_calm : calm clearCommitRetry.
Proof. unfold clearCommitRetry. calm_op. Qed.

Lemma clearHeartbeatTimers_calm : calm clearHeartbeatTimers.
Proof. unfold clearHeartbeatTimers. calm_op. Qed.

Lemma wp_calm o {A} (m : M Session A) (Q : result A -> Session -> Prop) s :
  calm m -> (forall a s', quiet o s s' -> Q (Ok a) s') -> wp m Q s.
Proof. intros Hm HQ. eapply wp_mono; [apply (Hm o)|]. intros [a|e] s' [? ?]; [auto|done]. Qed.

(** [fail] always returns, and leaves nothing but the error and its reason. *)
Lemma fail_spec reason o s :
  wp (fail reason) (fun r s' => r = Ok tt /\ s_reason s' = Some reason
    /\ exists s1, quiet o s s1 /\ s' = set s_reason (fun _ => Some reason) (set s_state (fun _ => Error) s1)) s.
Proof.
  unfold fail. apply wp_bind, wp_get.
  apply wp_bind, (wp_calm o); [apply calm_clearTimeout|intros _ s1 Q1].
  apply wp_bind, wp_modify.
  do 4 (apply wp_bind; apply (wp_calm o);
    [auto using clearHandshakeRetry_calm, clearProbeRetry_calm, clearCommitRetry_calm, clearHeartbeatTimers_calm
    |intros _ ? ?]).
  apply wp_bind, wp_modify, wp_modify. split; [done|]. split; [done|]. eexists. split; [|reflexivity].
  transitivity s1; [exact Q1|]. transitivity (set s_timer (fun _ => None) s1); [by apply quiet_same|].
  repeat (etransitivity; [eassumption|]). reflexivity.
Qed.

(** The core after an assignment to one of its fields, to another field, or
    after a quiet operation. *)
Lemma core_state f s c : core s = c -> core (set s_state f s) = set c_state f c.
Proof. by intros <-. Qed.
Lemma core_epoch f s c : core s = c -> core (set s_epoch f s) = set c_epoch f c.
Proof. by intros <-. Qed.
Lemma core_sessionId f s c : core s = c -> core (set s_sessionId f s) = set c_sessionId f c.
Proof. by intros <-. Qed.
Lemma core_localNonce f s c : core s = c -> core (set s_localNonce f s) = set c_localNonce f c.
Proof. by intros <-. Qed.
Lemma core_generation f s c : core s = c -> core (set s_generation f s) = set c_generation f c.
Proof. by intros <-. Qed.
Lemma core_packetId f s c : core s = c -> core (set s_packetId f s) = set c_packetId f c.
Proof. by intros <-. Qed.
Lemma core_queues f s c : core s = c -> core (set s_queues f s) = set c_queues f c.
Proof. by intros <-. Qed.
Lemma core_active f s c : core s = c -> core (set s_active f s) = set c_active f c.
Proof. by intros <-. Qed.
Lemma core_inbound f s c : core s = c -> core (set s_inbound f s) = set c_inbound f c.
Proof. by intros <-. Qed.
Lemma core_lastAck f s c : core s = c -> core (set s_lastAck f s) = set c_lastAck f c.
Proof. by intros <-. Qed.
Lemma core_delivered f s c : core s = c -> core (set s_delivered f s) = set c_delivered f c.
Proof. by intros <-. Qed.
Lemma core_retired f s c : core s = c -> core (set s_retiredSessionIds f s) = set c_retired f c.
Proof. by intros <-. Qed.
Lemma core_recoveryAttempts f s c : core s = c -> core (set s_recoveryAttempts f s) = set c_recoveryAttempts f c.
Proof. by intros <-. Qed.
Lemma core_turnOwner f s c : core s = c -> core (set s_turnOwner f s) = set c_turnOwner f c.
Proof. by intros <-. Qed.
Lemma core_awaitingAck f s c : core s = c -> core (set s_awaitingAck f s) = set c_awaitingAck f c.
Proof. by intros <-. Qed.
Lemma core_settings f s c : core s = c -> core (set s_settings f s) = set c_settings f c.
Proof. by intros <-. Qed.
Lemma core_settingsDigest f s c : core s = c -> core (set s_settingsDigest f s) = set c_settingsDigest f c.
Proof. by intros <-. Qed.
Lemma core_subscribed f s c : core s = c -> core (set s_subscribed f s) = set c_subscribed f c.
Proof. by intros <-. Qed.
Lemma core_clock f s c : core s = c -> core (set s_clock f s) = set c_clock f c.
Proof. by intros <-. Qed.
Lemma core_deliveredPackets f s c : core s = c -> core (set s_deliveredPackets f s) = set c_deliveredPackets f c.
Proof. by intros <-. Qed.

Lemma core_skip (g : Session -> Session) s c :
  (forall s, core (g s) = core s) -> core s = c -> core (g s) = c.
Proof. intros H <-. apply H. Qed.

Lemma jobs_skip o (g : Session -> Session) s :
  (forall s, s_jobs (g s) = s_jobs s) -> jobs_ok o s -> jobs_ok o (g s).
Proof. intros H. unfold jobs_ok. by rewrite H. Qed.

Lemma log_skip (P : Effect -> Prop) (g : Session -> Session) s :
  (forall s, s_log (g s) = s_log s) -> Forall P (s_log s) -> Forall P (s_log (g s)).
Proof. intros H. by rewrite H. Qed.

(** Compute [core s] through assignments and quiet operations. *)
Ltac core_compute :=
  repeat lazymatch goal with
  | |- core (?g ?s) = _ =>
    lazymatch g with set ?p _ =>
    lazymatch p with
  | s_state => apply core_state | s_epoch => apply core_epoch | s_sessionId => apply core_sessionId
  | s_localNonce => apply core_localNonce | s_generation => apply core_generation
  | s_packetId => apply core_packetId | s_queues => apply core_queues | s_active => apply core_active
  | s_inbound => apply core_inbound | s_lastAck => apply core_lastAck | s_delivered => apply core_delivered
  | s_retiredSessionIds => apply core_retired | s_recoveryAttempts => apply core_recoveryAttempts
  | s_turnOwner => apply core_turnOwner | s_awaitingAck => apply core_awaitingAck
  | s_settings => apply core_settings | s_settingsDigest => apply core_settingsDigest
  | s_subscribed => apply core_subscribed | s_clock => apply core_clock
  | s_deliveredPackets => apply core_deliveredPackets
    | _ => apply (core_skip g); [intros; reflexivity|]
    end end
  | HQ : quiet ?o ?s ?s' |- core ?s' = _ => rewrite (quiet_core o s s' HQ)
  end.
Ltac core_push :=
  lazymatch goal with |- ?P (core ?s) =>
    eapply (eq_ind_r P); [|core_compute; reflexivity]; cbv beta
  end.

Ltac core_simpl :=
  unfold set;
  cbn [c_state c_epoch c_sessionId c_localNonce c_generation c_packetId c_queues c_active c_inbound
       c_lastAck c_delivered c_retired c_recoveryAttempts c_turnOwner c_awaitingAck c_settings
       c_settingsDigest c_subscribed c_clock c_deliveredPackets eta_Core eta_PendingPacket].

(** The fields of the core of a session, as the session's own. *)
Ltac core_fields :=
  lazy beta iota delta [set c_state c_epoch c_sessionId c_localNonce c_generation c_packetId c_queues
       c_active c_inbound c_lastAck c_delivered c_retired c_recoveryAttempts c_turnOwner c_awaitingAck
       c_settings c_settingsDigest c_subscribed c_clock c_deliveredPackets core eta_Core].

(** The same in the whole context. *)
Ltac core_cbn :=
  repeat match goal with HQ : quiet _ _ _ |- _ => clear HQ end;
  cbn [c_state c_epoch c_sessionId c_localNonce c_generation c_packetId c_queues c_active c_inbound
       c_lastAck c_delivered c_retired c_recoveryAttempts c_turnOwner c_awaitingAck c_settings
       c_settingsDigest c_subscribed c_clock c_deliveredPackets core eta_Core] in *.

(** The fields of a state a quiet operation reached are those it started from. *)
Ltac core_eqs :=
  repeat match goal with
  | HQ : quiet ?o ?s ?s' |- _ =>
      let Hc := fresh "Hc" in pose proof (quiet_core o s s' HQ) as Hc; clear HQ;
      unfold core, set in Hc;
      cbn [s_state s_epoch s_sessionId s_localNonce s_generation s_packetId s_queues s_active s_inbound
       s_lastAck s_delivered s_retiredSessionIds s_recoveryAttempts s_turnOwner s_awaitingAck s_settings
       s_settingsDigest s_subscribed s_clock s_deliveredPackets] in Hc;
      injection Hc; clear Hc; intros
  end.

(** A field of a state, by the equations above. *)
Ltac core_congruence :=
  core_eqs; unfold set;
  cbn [s_state s_epoch s_sessionId s_localNonce s_generation s_packetId s_queues s_active s_inbound
       s_lastAck s_delivered s_retiredSessionIds s_recoveryAttempts s_turnOwner s_awaitingAck s_settings
       s_settingsDigest s_subscribed s_clock s_deliveredPackets];
  congruence.
