(* ===== verification/Bitmaps.v ===== *)
(** * Acknowledgement bitmaps

    The session names fragments by bits of a 32-bit number; at most sixteen
    are used, so JavaScript's bitwise operators agree with those on [Z]. *)

From stdpp Require Import base list numbers option.
From Stdlib Require Import ZArith Lia.
From S2P Require Import Prelude Fas1 SessionState SessionReceive.

(** A bitmap over at most sixteen fragments. *)
Definition bitmap (z : Z) : Prop := 0 <= z < 65536.

Lemma bitmap_bits z : bitmap z <-> 0 <= z /\ forall i, 16 <= i -> Z.testbit z i = false.
Proof.
  unfold bitmap. split.
  - intros [H1 H2]. split; [done|]. intros i Hi.
    destruct (Z.eq_dec z 0) as [->|Hz]; [apply Z.bits_0|].
    apply Z.bits_above_log2; [done|]. apply Z.log2_lt_pow2; [lia|].
    eapply Z.lt_le_trans; [exact H2|]. change 65536 with (2 ^ 16). apply Z.pow_le_mono_r; lia.
  - intros [H1 H2]. split; [done|].
    destruct (Z.le_gt_cases 65536 z) as [Hz|]; [|done]. exfalso.
    assert (16 <= Z.log2 z) by (apply Z.log2_le_pow2; lia).
    pose proof (Z.bit_log2 z ltac:(lia)) as Hb. rewrite H2 in Hb by lia. done.
Qed.

Lemma bitmap_lor a b : bitmap a -> bitmap b -> bitmap (Z.lor a b).
Proof.
  rewrite !bitmap_bits. intros [? Ha] [? Hb]. split; [by apply Z.lor_nonneg|].
  intros i Hi. by rewrite Z.lor_spec, Ha, Hb.
Qed.

Lemma js_or_bitmap a b : bitmap a -> bitmap b -> js_or a b = Z.lor a b.
Proof. intros Ha Hb. unfold bitmap in *. unfold js_or. by rewrite !to_int32_small by lia. Qed.

Lemma js_and_bitmap a b : bitmap a -> bitmap b -> js_and a b = Z.land a b.
Proof. intros Ha Hb. unfold bitmap in *. unfold js_and. by rewrite !to_int32_small by lia. Qed.

Lemma pow2_range i : 0 <= i <= 16 -> 1 <= 2 ^ i <= 65536.
Proof.
  intros Hi. pose proof (Z.pow_pos_nonneg 2 i ltac:(lia) ltac:(lia)).
  pose proof (Z.pow_le_mono_r 2 i 16 ltac:(lia) ltac:(lia)) as H16. change (2 ^ 16) with 65536 in H16. lia.
Qed.

Lemma js_shl_one i : 0 <= i <= 16 -> js_shl 1 i = 2 ^ i.
Proof.
  intros Hi. unfold js_shl. rewrite (to_int32_small 1), Z.mod_small, Z.shiftl_1_l by lia.
  apply to_int32_small. pose proof (pow2_range i Hi). lia.
Qed.

Lemma bitmap_pow i : 0 <= i < 16 -> bitmap (2 ^ i).
Proof.
  intros Hi. unfold bitmap. pose proof (Z.pow_pos_nonneg 2 i ltac:(lia) ltac:(lia)).
  pose proof (Z.pow_lt_mono_r 2 i 16 ltac:(lia) ltac:(lia) ltac:(lia)) as H16. change (2 ^ 16) with 65536 in H16. lia.
Qed.

Lemma fragment_mask_ones n : 0 <= n <= 16 -> fragment_mask n = Z.ones n.
Proof. intros Hn. unfold fragment_mask. rewrite js_shl_one by done. rewrite Z.ones_equiv. lia. Qed.

Lemma bitmap_mask n : 0 <= n <= 16 -> bitmap (fragment_mask n).
Proof.
  intros Hn. rewrite fragment_mask_ones, Z.ones_equiv by done.
  pose proof (pow2_range n Hn). unfold bitmap. lia.
Qed.

(** The bit the sender tests for a fragment. *)
Lemma fragment_acked a i :
  bitmap a -> 0 <= i < 16 -> (js_and a (js_shl 1 i) =? 0) = negb (Z.testbit a i).
Proof.
  intros Ha Hi. rewrite js_shl_one by lia. rewrite js_and_bitmap by (done || by apply bitmap_pow).
  destruct (Z.testbit a i) eqn:E; cbn [negb].
  - apply Z.eqb_neq. intros H. apply (f_equal (fun z => Z.testbit z i)) in H.
    by rewrite Z.land_spec, E, Z.pow2_bits_true, Z.bits_0 in H by lia.
  - apply Z.eqb_eq, Z.bits_inj'. intros j Hj. rewrite Z.land_spec, Z.bits_0.
    destruct (Z.eq_dec j i) as [->|]; [by rewrite E|]. by rewrite Z.pow2_bits_false, andb_false_r by lia.
Qed.

(** The receiver's bitmap names exactly the indexes it holds. *)
Lemma bitmap_fold indexes acc :
  bitmap acc -> Forall (fun i => 0 <= i < 16) indexes ->
  let b := foldl (fun b i => js_or b (js_shl 1 i)) acc indexes in
  bitmap b /\ forall j, 0 <= j ->
    Z.testbit b j = Z.testbit acc j || bool_decide (j ∈ indexes).
Proof.
  intros Hacc H. revert acc Hacc. induction H as [|i l Hi _ IH]; intros acc Hacc; cbn [foldl].
  - split; [done|]. intros j Hj. rewrite bool_decide_eq_false_2 by apply not_elem_of_nil. by rewrite orb_false_r.
  - rewrite js_shl_one, js_or_bitmap by (done || lia || by apply bitmap_pow).
    destruct (IH (Z.lor acc (2 ^ i))) as [Hb Ht]; [apply bitmap_lor; [done|by apply bitmap_pow]|].
    split; [done|]. intros j Hj. rewrite Ht, Z.lor_spec by done. rewrite <- orb_assoc. f_equal.
    destruct (Z.eq_dec j i) as [->|Hne].
    + rewrite Z.pow2_bits_true by lia. by rewrite (bool_decide_eq_true_2 (i ∈ i :: l)) by apply list_elem_of_here.
    + rewrite Z.pow2_bits_false by lia. cbn. apply bool_decide_ext. rewrite elem_of_cons. tauto.
Qed.

Lemma received_bitmap_spec a :
  Forall (fun i => 0 <= i < 16) (ia_fragments a).*1 ->
  bitmap (received_bitmap a) /\
  forall j, 0 <= j -> Z.testbit (received_bitmap a) j = bool_decide (j ∈ (ia_fragments a).*1).
Proof.
  intros H. destruct (bitmap_fold _ 0 ltac:(done) H) as [Hb Ht]. split; [exact Hb|].
  intros j Hj. unfold received_bitmap. by rewrite Ht, Z.bits_0 by done.
Qed.

(** All the fragments held: the full mask. *)
Lemma received_bitmap_full a n :
  (n <= 16)%nat -> (forall j, j ∈ (ia_fragments a).*1 <-> 0 <= j < Z.of_nat n) ->
  received_bitmap a = fragment_mask (Z.of_nat n).
Proof.
  intros Hn Hk.
  destruct (received_bitmap_spec a) as [_ Ht]; [apply Forall_forall; intros j Hj%list_elem_of_In%Hk; lia|].
  rewrite fragment_mask_ones by lia. apply Z.bits_inj'. intros j Hj.
  rewrite Ht by done. destruct (Z.lt_ge_cases j (Z.of_nat n)).
  - rewrite Z.ones_spec_low by lia. by apply bool_decide_eq_true_2, Hk.
  - rewrite Z.ones_spec_high by lia. apply bool_decide_eq_false_2. rewrite Hk. lia.
Qed.

(** ** Acknowledged fragments *)

(** Only bits of the first [n] fragments are set. *)
Definition bitmap_below (n z : Z) : Prop := 0 <= z /\ forall i, n <= i -> Z.testbit z i = false.

Lemma bitmap_below_zero n : bitmap_below n 0.
Proof. split; [lia|]. intros. apply Z.bits_0. Qed.

Lemma bitmap_below_bitmap n z : n <= 16 -> bitmap_below n z -> bitmap z.
Proof. intros Hn [H1 H2]. apply bitmap_bits. split; [done|]. intros i Hi. apply H2. lia. Qed.

Lemma bitmap_below_lor n a b : bitmap_below n a -> bitmap_below n b -> bitmap_below n (Z.lor a b).
Proof.
  intros [Ha Ta] [Hb Tb]. split; [by apply Z.lor_nonneg|]. intros i Hi.
  by rewrite Z.lor_spec, Ta, Tb.
Qed.

(** [(bitmap & ~legalMask) !== 0] rejects exactly the other bitmaps. *)
Lemma legal_bitmap n z :
  0 <= n <= 16 -> 0 <= z <= UINT32_MAX -> (js_and z (js_not (fragment_mask n)) =? 0) = true ->
  bitmap_below n z.
Proof.
  intros Hn Hz H. apply Z.eqb_eq in H. unfold js_and, js_not in H.
  pose proof (bitmap_mask n Hn) as Hm. unfold bitmap in Hm.
  rewrite (to_int32_small (fragment_mask n)) in H by lia.
  rewrite fragment_mask_ones in * by done.
  assert (Hlow : -2147483648 <= Z.lnot (Z.ones n) < 0) by (unfold Z.lnot; lia).
  assert (E : to_int32 (Z.lnot (Z.ones n)) = Z.lnot (Z.ones n)).
  { unfold to_int32, to_uint32.
    replace (Z.lnot (Z.ones n) mod 4294967296) with (Z.lnot (Z.ones n) + 4294967296)
      by (apply Z.mod_unique with (-1); lia).
    destruct (Z.ltb_spec (Z.lnot (Z.ones n) + 4294967296) 2147483648); unfold bitmap in *; lia. }
  rewrite E in H.
  assert (Hz31 : z < 2147483648).
  { destruct (Z.lt_ge_cases z 2147483648); [done|]. exfalso.
    assert (Hneg : to_int32 z < 0).
    { unfold to_int32. rewrite to_uint32_small by (unfold UINT32_MAX in *; lia).
      destruct (Z.ltb_spec z 2147483648); unfold UINT32_MAX in *; lia. }
    assert (Z.land (to_int32 z) (Z.lnot (Z.ones n)) < 0); [|lia].
    apply Z.land_neg. lia. }
  rewrite to_int32_small in H by lia. split; [lia|]. intros i Hi.
  apply (f_equal (fun x => Z.testbit x i)) in H.
  rewrite Z.land_spec, Z.lnot_spec, Z.ones_spec_high, Z.bits_0 in H by lia. by rewrite andb_true_r in H.
Qed.

Lemma full_mask n a :
  0 <= n <= 16 -> a = fragment_mask n -> forall i, 0 <= i < n -> Z.testbit a i = true.
Proof. intros Hn -> i Hi. rewrite fragment_mask_ones by done. apply Z.ones_spec_low. lia. Qed.
