(* ===== verification/SessionInv.v ===== *)
(** * Invariants of the acoustic session

    [session_inv] holds of every reachable session: queues, tables and
    attempt counters stay inside their bounds, the states that need a session
    identifier have one, only the owner of the turn awaits an
    acknowledgement, and every unit handed to the modem decodes and carries
    the session's own role.  One [keeps] lemma per operation. *)

From stdpp Require Import base list numbers option strings.
From Stdlib Require Import ZArith Lia SpecFloat.
From S2P Require Import Prelude Utf8 Doubles Fas1 Fas1Codec Fragments Settings Handshake Calibration SessionState Session SessionReceive SessionStep SessionFrame Bitmaps.

Section WithOptions.
Context (options : AcousticSessionOptions).

Abbreviation role := (o_role options).

(** The states in which the session has an identifier.  [Degraded] is not one
    of them: the rejection of a playback started before a reset degrades the
    session that followed it. *)
Definition needs_session (st : AcousticSessionState) : bool :=
  match st with Idle | Listening | Error | Degraded => false | _ => true end.

(** The active packet and the queued ones. *)
Definition pending_packets (active : option PendingPacket) (q : Queues) : list PendingPacket :=
  match active with Some p => [p] | None => [] end ++ queued q.

Record pending_ok (sessionId : option Z) (p : PendingPacket) : Prop := {
  po_sender : Forall (fun u => u_flags u = senderFlag role) (pp_fragments p);
  po_session : Forall (fun u => Some (u_sessionId u) = sessionId) (pp_fragments p);
  po_fragments : 1 <= zlen (pp_fragments p) <= FAS1_MAX_FRAGMENTS;
  po_attempts : 0 <= pp_attempts p <= MAX_ATTEMPTS;
  po_acknowledged : bitmap_below (zlen (pp_fragments p)) (pp_acknowledged p);
}.

Record inbound_ok (a : InboundAssembly) : Prop := {
  io_count : 1 <= ia_fragmentCount a <= FAS1_MAX_FRAGMENTS;
  io_keys : NoDup (ia_fragments a).*1;
  io_fragments : Forall (fun e => 0 <= e.1 < ia_fragmentCount a /\ u_fragmentIndex e.2 = e.1)
                   (ia_fragments a);
}.

Record core_inv (c : Core) : Prop := {
  inv_packetId : 1 <= c_packetId c <= UINT32_MAX;
  inv_pending : zlen (pending_packets (c_active c) (c_queues c)) <= MAX_QUEUED_PACKETS;
  inv_delivered : (length (c_delivered c) <= MAX_DELIVERED_IDS)%nat;
  inv_retired : (length (c_retired c) <= 8)%nat;
  inv_recovery : 0 <= c_recoveryAttempts c <= MAX_ATTEMPTS;
  inv_packets : Forall (pending_ok (c_sessionId c)) (pending_packets (c_active c) (c_queues c));
  inv_inbound : match c_inbound c with Some a => inbound_ok a | None => True end;
  inv_nonzero : c_sessionId c <> Some 0;
  inv_session : needs_session (c_state c) = true -> defined (c_sessionId c) = true;
  inv_idle : c_state c = Idle \/ c_state c = Listening -> c_sessionId c = None;
  inv_awaiting : c_awaitingAck c = true ->
    defined (c_active c) = true /\ c_turnOwner c = Some role
    /\ (role = RoleB -> c_state c = Ready \/ c_state c = Error);
}.

Definition session_inv (s : Session) : Prop :=
  core_inv (core s) /\ jobs_ok options s /\ Forall (own_effect options) (s_log s).

(** ** Automation *)

Lemma quiet_inv s s' : quiet options s s' -> session_inv s -> session_inv s'.
Proof.
  intros [Hc Hj (l & El & Ol & _)] (HI & HJ & HL). split; [by rewrite Hc|]. split; [by apply Hj|].
  rewrite El. by apply Forall_app.
Qed.

Lemma quiet_keeps {A} (m : M Session A) : moves (quiet options) m -> keeps session_inv m.
Proof. intros Hm s HI. eapply wp_moves; [exact Hm|]. intros r s' HQ. by eapply quiet_inv. Qed.

End WithOptions.

(** Walk a [keeps] goal down to its leaves. *)
Ltac inv_quiet opts :=
  eapply (wp_moves (quiet opts)); [solve [quiet_op]|];
  let r := fresh "r" in let s := fresh "s" in let HQ := fresh "HQ" in
  intros r s HQ; try destruct r; cbn beta iota.

Ltac inv_keeps opts :=
  eapply (wp_keeps (session_inv opts)); [solve [eauto with keeps]| |
  let r := fresh "r" in let s := fresh "s" in let HI := fresh "HI" in
  intros r s HI; try destruct r; cbn beta iota].

Ltac inv_step opts :=
  lazymatch goal with
  | |- wp (increment _) _ _ => unfold increment
  | |- wp (if _ then _ else _) _ _ => first [inv_quiet opts | wp_prim; cbn beta iota]
  | |- wp (match _ with _ => _ end) _ _ => first [inv_quiet opts | wp_prim; cbn beta iota]
  | |- wp _ _ _ => first [wp_prim; cbn beta iota | inv_quiet opts | inv_keeps opts]
  end.

(** A leaf: the assignments made since a state where the invariant held. *)
Ltac inv_open :=
  match goal with HI : session_inv _ _ |- _ =>
    let HL := fresh "HL" in
    destruct HI as [[] HL]
  end;
  cbn [c_state c_epoch c_sessionId c_localNonce c_generation c_packetId c_queues c_active c_inbound
       c_lastAck c_delivered c_retired c_recoveryAttempts c_turnOwner c_awaitingAck c_settings
       c_settingsDigest c_subscribed c_clock c_deliveredPackets
       s_state s_epoch s_sessionId s_localNonce s_generation s_packetId s_queues s_active s_inbound
       s_lastAck s_delivered s_retiredSessionIds s_recoveryAttempts s_turnOwner s_awaitingAck s_settings
       s_settingsDigest s_subscribed s_clock s_deliveredPackets] in *.

(** The parts of the invariant at a leaf, from the last state it held in. *)
Ltac inv_jobs :=
  repeat match goal with
  | |- jobs_ok ?o (?g ?s) => apply (jobs_skip o g); [intros; reflexivity|]
  | HQ : quiet _ ?s ?s' |- jobs_ok _ ?s' => apply (quiet_jobs _ _ _ HQ)
  | HI : session_inv _ ?s |- jobs_ok _ ?s => apply HI
  end.

Ltac inv_log :=
  repeat match goal with
  | |- Forall _ (s_log (?g ?s)) => apply (log_skip _ g); [intros; reflexivity|]
  | HQ : quiet _ ?s ?s' |- Forall _ (s_log ?s') => apply (quiet_own _ _ _ HQ)
  | HI : session_inv _ ?s |- Forall _ (s_log ?s) => apply HI
  end.

Lemma pending_none_count a q n :
  zlen (pending_packets a q) <= n -> zlen (pending_packets None q) <= n.
Proof. unfold pending_packets, zlen. rewrite !length_app. cbn. lia. Qed.

Lemma pending_none_all P a q :
  Forall P (pending_packets a q) -> Forall P (pending_packets None q).
Proof. unfold pending_packets. rewrite !Forall_app. by intros [_ ?]. Qed.

Ltac inv_clause :=
  first
  [ assumption
  | discriminate
  | exact Logic.I
  | eapply Nat.le_trans; [apply List.filter_length_le|assumption]
  | apply length_map_evict
  | cbn; lia
  | eapply pending_none_count; eassumption
  | eapply pending_none_all; eassumption
  | intros [? | ?]; discriminate
  | let H := fresh in intros H; discriminate H
  | match goal with Ha : ?b = true -> _ |- ?b = true -> _ =>
      let H := fresh in intros H; specialize (Ha H); destruct Ha as (? & ? & ?); repeat split; auto end ].

(** The three parts of the invariant at a leaf. *)
Ltac inv_parts := split; [core_push|split; [inv_jobs|inv_log]].

(** Close a leaf, or leave the clauses its assignments concern. *)
Ltac inv_leaf :=
  lazymatch goal with
  | HI : session_inv ?o ?s |- session_inv ?o ?s => exact HI
  | |- session_inv _ _ =>
      inv_parts;
      lazymatch goal with
      | HI : session_inv ?o ?s |- core_inv ?o (core ?s) => exact (proj1 HI)
      | |- core_inv _ ?c =>
          match goal with HI : session_inv _ ?s |- _ =>
            lazymatch c with context [core s] =>
              let HC := fresh "HC" in
              pose proof (proj1 HI) as HC; destruct HC; constructor; core_fields; try solve [inv_clause]
            end
          end
      | |- _ => idtac
      end
  | |- _ => idtac
  end.

(** An assignment the invariant does not look at. *)
Ltac irrelevant :=
  match goal with HC : core_inv _ _ |- _ => destruct HC; constructor; core_simpl; assumption end.

Section Keeps.
Context (options : AcousticSessionOptions).
Local Abbreviation I := (session_inv options).

Lemma fail_keeps reason : keeps I (fail reason).
Proof. intros s HI. unfold fail. repeat inv_step options; inv_leaf. Qed.
Hint Resolve fail_keeps : keeps.

Lemma degrade_keeps reason : keeps I (degrade options reason).
Proof. intros s HI. unfold degrade. repeat inv_step options; inv_leaf. Qed.

Lemma markHeartbeatMissed_keeps : keeps I (markHeartbeatMissed options).
Proof. intros s HI. unfold markHeartbeatMissed. repeat inv_step options; inv_leaf. Qed.
Hint Resolve degrade_keeps markHeartbeatMissed_keeps : keeps.

(** ** Work on the queues *)

Lemma fresh_packets_incl now q p : p ∈ fresh_packets now q -> p ∈ q.
Proof. unfold fresh_packets. rewrite !list_elem_of_In, filter_In. tauto. Qed.

Lemma length_fresh_packets now q : (length (fresh_packets now q) <= length q)%nat.
Proof. apply List.filter_length_le. Qed.

(** Replacing the pending packets by some of them. *)
Lemma pending_shrink sid l l' :
  (forall p, p ∈ l' -> p ∈ l) -> (length l' <= length l)%nat ->
  zlen l <= MAX_QUEUED_PACKETS -> Forall (pending_ok options sid) l ->
  zlen l' <= MAX_QUEUED_PACKETS /\ Forall (pending_ok options sid) l'.
Proof.
  intros Hi Hl Hz HF. split; [unfold zlen in *; lia|].
  rewrite Forall_forall in *. auto.
Qed.

Lemma queue_shrink_inv c f :
  core_inv options c ->
  (forall p, p ∈ queued (f (c_queues c)) -> p ∈ queued (c_queues c)) ->
  (length (queued (f (c_queues c))) <= length (queued (c_queues c)))%nat ->
  core_inv options (set c_queues f c).
Proof.
  intros HC Hi Hl.
  destruct (pending_shrink (c_sessionId c) (pending_packets (c_active c) (c_queues c))
              (pending_packets (c_active c) (f (c_queues c)))) as [H1 H2];
    [intros p; unfold pending_packets; rewrite !elem_of_app; intros [?|?]; auto
    |unfold pending_packets; rewrite !length_app; lia|apply HC|apply HC|].
  destruct HC; constructor; core_simpl; assumption.
Qed.

Lemma expire_queue_keeps q put :
  (forall l (qs : Queues) p, (forall p', p' ∈ l -> p' ∈ q qs) -> p ∈ queued (put l qs) -> p ∈ queued qs) ->
  (forall l (qs : Queues), (length l <= length (q qs))%nat ->
     (length (queued (put l qs)) <= length (queued qs))%nat) ->
  keeps I (expire_queue q put).
Proof.
  intros Hi Hl s HI. unfold expire_queue. repeat inv_step options.
  split; [core_push|split; [inv_jobs|inv_log]]. apply queue_shrink_inv; [apply HI|..].
  - intros p. apply Hi. intros p'. apply fresh_packets_incl.
  - apply Hl, length_fresh_packets.
Qed.

Ltac expire_tac :=
  apply expire_queue_keeps; unfold queued; cbn [q_control q_heartbeat q_ordinary];
  [intros l qs p Hl; rewrite !elem_of_app; intuition auto|intros l qs Hl; rewrite !length_app; lia].

Lemma expire_control_keeps :
  keeps I (expire_queue q_control (fun l q => mkQueues l (q_heartbeat q) (q_ordinary q))).
Proof. expire_tac. Qed.

Lemma expire_heartbeat_keeps :
  keeps I (expire_queue q_heartbeat (fun l q => mkQueues (q_control q) l (q_ordinary q))).
Proof. expire_tac. Qed.

Lemma expire_ordinary_keeps :
  keeps I (expire_queue q_ordinary (fun l q => mkQueues (q_control q) (q_heartbeat q) l)).
Proof. expire_tac. Qed.
Hint Resolve expire_control_keeps expire_heartbeat_keeps expire_ordinary_keeps : keeps.

Lemma expireWork_keeps : keeps I (expireWork options).
Proof.
  intros s HI. unfold expireWork.
  repeat inv_step options; inv_leaf.
Qed.
Hint Resolve expireWork_keeps : keeps.

(** ** The turn *)

Lemma queue_shift_queued q p q' :
  queue_shift q = (Some p, q') -> queued q = p :: queued q'.
Proof.
  unfold queue_shift, queued. destruct (q_control q), (q_heartbeat q), (q_ordinary q);
    intros [= <- <-]; done.
Qed.

Lemma queue_shift_none q q' : queue_shift q = (None, q') -> q' = q.
Proof.
  unfold queue_shift. destruct (q_control q), (q_heartbeat q), (q_ordinary q); by intros [= <-].
Qed.

(** Taking the first queued packet as the active one loses nothing. *)
Lemma take_active_inv c :
  core_inv options c -> c_active c = None ->
  core_inv options (set c_active (fun _ => (queue_shift (c_queues c)).1)
                      (set c_queues (fun _ => (queue_shift (c_queues c)).2) c)).
Proof.
  intros HC Ha. destruct (queue_shift (c_queues c)) as [[p|] q'] eqn:E; cbn [fst snd].
  - apply queue_shift_queued in E.
    assert (Hp : pending_packets (Some p) q' = pending_packets (c_active c) (c_queues c))
      by (rewrite Ha; unfold pending_packets; by rewrite E).
    destruct HC; constructor; core_simpl; rewrite ?Hp; try assumption.
    intros Hw. destruct (inv_awaiting0 Hw) as [? _]. by rewrite Ha in *.
  - apply queue_shift_none in E as ->. destruct HC; constructor; core_simpl; rewrite <- ?Ha; assumption.
Qed.

(** What [take_active] leaves: the invariant, and the active packet it
    returns; everything else the turn looks at is the same. *)
Lemma take_active_spec s :
  session_inv options s ->
  wp take_active (fun r s' => session_inv options s' /\ r = Ok (s_active s')
    /\ s_awaitingAck s' = s_awaitingAck s /\ s_turnOwner s' = s_turnOwner s
    /\ s_state s' = s_state s /\ s_sessionId s' = s_sessionId s) s.
Proof.
  intros (HC & HJ & HL). unfold take_active, dequeue.
  repeat wp_prim; cbn beta iota; [by rewrite C|].
  split; [|done]. split; [core_push; by apply take_active_inv|]. by split.
Qed.

Lemma missing_own p sid :
  pending_ok options sid p -> Forall (fun u => u_flags u = senderFlag (o_role options)) (missing_fragments p).
Proof.
  intros [Hs _ _ _ _]. unfold missing_fragments. apply Forall_take. rewrite Forall_forall in *.
  intros u [Hu _]%list_elem_of_In%filter_In. by apply Hs, list_elem_of_In.
Qed.

Lemma active_pending_ok s p :
  session_inv options s -> s_active s = Some p -> pending_ok options (s_sessionId s) p.
Proof.
  intros [HC _] Ha. pose proof (inv_packets _ _ HC) as H. cbn [core c_active c_queues c_sessionId] in H.
  unfold pending_packets in H. rewrite Ha in H. by inversion H.
Qed.

(** Replacing the active packet by another version of it. *)
Lemma set_active_inv c p p' :
  core_inv options c -> c_active c = Some p -> pending_ok options (c_sessionId c) p' ->
  core_inv options (set c_active (fun _ => Some p') c).
Proof.
  intros HC Ha Hp. pose proof (inv_pending _ _ HC) as H1. pose proof (inv_packets _ _ HC) as H2.
  unfold pending_packets in H1, H2. rewrite Ha in H1, H2. inversion H2; subst.
  destruct HC; constructor; core_simpl; try assumption.
  - by constructor.
  - intros Hw. destruct (inv_awaiting0 Hw) as (_ & ? & ?). by repeat split.
Qed.

Lemma await_inv c :
  core_inv options c -> defined (c_active c) = true -> c_turnOwner c = Some (o_role options) ->
  c_state c = Ready -> core_inv options (set c_awaitingAck (fun _ => true) c).
Proof.
  intros HC Ha Ho Hs. destruct HC; constructor; core_simpl; try assumption.
  intros _. repeat split; auto.
Qed.

Lemma transmit_spec s p :
  session_inv options s -> s_active s = Some p -> pp_attempts p < MAX_ATTEMPTS ->
  s_turnOwner s = Some (o_role options) -> s_state s = Ready ->
  wp (transmit options p (missing_fragments p)) (fun _ s' => session_inv options s') s.
Proof.
  intros HI Ha Hlt Ho Hs. pose proof (active_pending_ok _ _ HI Ha) as Hp.
  unfold transmit. do 3 (wp_prim; wp_prim; cbn beta iota).
  eapply (wp_keeps (session_inv options)).
  - apply quiet_keeps.
    apply moves_bind; [exact _|by eapply send_units_quiet, missing_own|intros cs]. quiet_op.
  - destruct HI as (HC & HJ & HL). split; [core_push|by split].
    apply await_inv; [|done..]. eapply set_active_inv; [done|exact Ha|].
    destruct Hp as [H1 H2 H3 H4 H5]. constructor; unfold set; cbn; try done. lia.
  - done.
Qed.

(** A turn given up: no active packet, nothing awaited. *)
Lemma driveTurn_keeps : keeps I (driveTurn options).
Proof.
  intros s HI. unfold driveTurn. wp_prim. inv_keeps options; [assumption| |assumption].
  do 2 (wp_prim; cbn beta iota). unfold owns_turn, is_state. wp_prim; [by wp_prim|]. bool_split.
  wp_prim. inv_quiet options; [|by eapply quiet_inv].
  pose proof (quiet_inv _ _ _ HQ HI0) as HI1.
  core_eqs. apply wp_bind. eapply wp_mono; [by apply take_active_spec|]. intros r0 s2 (HI2 & -> & Hw & Ho & Hs & Hid). cbn beta iota.
  destruct (s_active s2) as [p|] eqn:Ha.
  - destruct (MAX_ATTEMPTS <=? pp_attempts p) eqn:Hm.
    + repeat inv_step options; inv_leaf. core_cbn. congruence.
    + bool_split. destruct (missing_fragments p) eqn:Hf.
      * repeat inv_step options; inv_leaf; core_cbn; congruence.
      * rewrite <- Hf. apply transmit_spec; congruence || done.
  - repeat inv_step options; inv_leaf. core_cbn. intros ?. congruence.
Qed.
Hint Resolve driveTurn_keeps : keeps.

Lemma onAckTimeout_keeps p a : keeps I (onAckTimeout options p a).
Proof. intros s HI. unfold onAckTimeout. repeat inv_step options; inv_leaf. Qed.

Lemma heartbeat_keeps : keeps I (heartbeat options).
Proof. intros s HI. unfold heartbeat. repeat inv_step options; inv_leaf. Qed.
Hint Resolve onAckTimeout_keeps heartbeat_keeps : keeps.

Lemma onHeartbeatTimer_keeps e sid g : keeps I (onHeartbeatTimer options e sid g).
Proof. intros s HI. unfold onHeartbeatTimer. repeat inv_step options; inv_leaf. Qed.

Lemma onHeartbeatDeadline_keeps e sid g d : keeps I (onHeartbeatDeadline options e sid g d).
Proof. intros s HI. unfold onHeartbeatDeadline. repeat inv_step options; inv_leaf. Qed.

(** ** Reset, start and recovery *)

Lemma toSessionId_nonzero n id : toSessionId n = Ok id -> id <> 0.
Proof.
  unfold toSessionId. intros H. result_inv.
  by destruct (Z.eqb_spec (Z.lxor (read_le 8 0 n) (read_le 8 8 n)) 0).
Qed.

(** With no session identifier there is nothing pending. *)
Lemma no_session_no_packets sid l :
  sid = None -> Forall (pending_ok options sid) l -> l = [].
Proof.
  intros -> H. destruct l as [|p l]; [done|]. exfalso. inversion H as [|? ? Hp]; subst.
  destruct Hp as [_ Hs Hn _ _]. destruct (pp_fragments p) as [|u us]; [unfold zlen in Hn; cbn in Hn; lia|].
  by inversion Hs.
Qed.

(** Opening a session: an identifier where there was none. *)
Lemma open_session_inv c st id :
  core_inv options c -> c_state c = Idle \/ c_state c = Listening -> id <> 0 ->
  st = HelloSent \/ st = HelloAckSent ->
  core_inv options (set c_state (fun _ => st) (set c_sessionId (fun _ => Some id) c)).
Proof.
  intros HC Hs Hid Hst. pose proof (inv_idle _ _ HC Hs) as Hn.
  pose proof (no_session_no_packets _ _ Hn (inv_packets _ _ HC)) as Hp.
  destruct HC; constructor; core_simpl; try assumption.
  - rewrite Hp. constructor.
  - congruence.
  - done.
  - destruct Hst as [-> | ->]; by intros [? | ?].
  - intros Hw. destruct (inv_awaiting0 Hw) as (Ha & _). exfalso.
    unfold pending_packets in Hp. by destruct (c_active c).
Qed.


Lemma start_keeps : keeps I (start options).
Proof.
  intros s HI. unfold start. do 2 (wp_prim; cbn beta iota). wp_prim; [by wp_prim|].
  unfold is_state in C. bool_split.
  wp_prim. inv_quiet options; [|by eapply quiet_inv].
  pose proof (quiet_inv _ _ _ HQ HI) as HI0.
  assert (Hs : s_state s0 = Idle) by (core_eqs; congruence). clear HQ HI.
  pose proof (proj1 HI0) as HC. repeat inv_step options; inv_parts; try irrelevant.
  all: apply open_session_inv; [irrelevant|by left|by eapply toSessionId_nonzero|by left].
Qed.

Lemma retire_session_keeps e : keeps I (retire_session e).
Proof. intros s HI. unfold retire_session. repeat inv_step options; inv_leaf. Qed.
Hint Resolve start_keeps retire_session_keeps : keeps.

(** A core with no session and nothing pending. *)
Lemma cleared_inv c :
  1 <= c_packetId c <= UINT32_MAX -> (length (c_retired c) <= 8)%nat ->
  c_state c = initialState options -> c_sessionId c = None -> c_queues c = empty_queues ->
  c_active c = None -> c_inbound c = None -> c_delivered c = [] -> c_recoveryAttempts c = 0 ->
  c_awaitingAck c = false -> core_inv options c.
Proof.
  intros Hp Hr Hs Hid Hq Ha Hi Hd Hn Hw.
  constructor; rewrite ?Hs, ?Hid, ?Hq, ?Ha, ?Hi, ?Hd, ?Hn, ?Hw; try done;
    unfold initialState; try (by destruct (o_role options)).
  cbn. lia.
Qed.

Lemma reset_keeps e : keeps I (reset options e).
Proof.
  intros s HI. unfold reset. repeat inv_step options.
  3: { inv_parts. match goal with HI : session_inv _ ?s |- core_inv _ ?c =>
         match c with context [core s] => destruct HI as [[Hp _ _ Hr _ _ _ _ _ _ _] _] end end.
       revert Hp Hr. match goal with |- context [core ?s] => generalize (core s) end.
       intros [] ? ?. by apply cleared_inv. }
  all: inv_leaf.
Qed.
Hint Resolve reset_keeps : keeps.

Lemma dispose_keeps : keeps I (dispose options).
Proof. intros s HI. unfold dispose. repeat inv_step options; inv_leaf. Qed.

Lemma reset_and_start_keeps e : keeps I (reset_and_start options e).
Proof. intros s HI. unfold reset_and_start. repeat inv_step options; inv_leaf. Qed.
Hint Resolve dispose_keeps reset_and_start_keeps : keeps.

Lemma restart_keeps e sid : keeps I (restart options e sid).
Proof. intros s HI. unfold restart. repeat inv_step options; inv_leaf. Qed.

Lemma onReset_keeps sid : keeps I (onReset options sid).
Proof. intros s HI. unfold onReset. repeat inv_step options; inv_leaf. Qed.
Hint Resolve restart_keeps onReset_keeps : keeps.

Lemma restartSession_keeps : keeps I (restartSession options).
Proof. intros s HI. unfold restartSession. repeat inv_step options; inv_leaf. Qed.
Hint Resolve restartSession_keeps : keeps.

Lemma begin_recovery_inv c :
  core_inv options c -> c_state c = Degraded -> truthy (c_sessionId c) = true ->
  c_recoveryAttempts c < MAX_ATTEMPTS ->
  core_inv options (set c_state (fun _ => Recovering) (set c_recoveryAttempts (fun n => n + 1) c)).
Proof.
  intros HC Hs Ht Hr. destruct HC; constructor; core_simpl; try assumption.
  - lia.
  - intros _. by destruct (c_sessionId c).
  - by intros [? | ?].
  - intros Hw. destruct (inv_awaiting0 Hw) as (? & ? & Hb). repeat split; [done..|].
    intros Hrole. destruct (Hb Hrole) as [? | ?]; congruence.
Qed.

Lemma beginRecovery_keeps : keeps I (beginRecovery options).
Proof.
  intros s HI. unfold beginRecovery. wp_prim. wp_prim. cbn beta iota. wp_prim; [by wp_prim|].
  unfold is_state in C. bool_split.
  repeat inv_step options; try assumption.
  all: inv_parts; bool_split; apply begin_recovery_inv; first [apply HI | assumption].
Qed.
Hint Resolve beginRecovery_keeps : keeps.

(** ** Packets *)

Lemma queued_push class p q : queued (queue_push class p q) ≡ₚ p :: queued q.
Proof.
  unfold queued. destruct class; cbn [queue_push q_control q_heartbeat q_ordinary]; solve_Permutation.
Qed.

Lemma push_inv class p c :
  core_inv options c -> zlen (pending_packets (c_active c) (c_queues c)) < MAX_QUEUED_PACKETS ->
  pending_ok options (c_sessionId c) p ->
  core_inv options (set c_queues (queue_push class p) c).
Proof.
  intros HC Hn Hp.
  assert (E : pending_packets (c_active c) (queue_push class p (c_queues c))
              ≡ₚ p :: pending_packets (c_active c) (c_queues c)).
  { unfold pending_packets. by rewrite queued_push, Permutation_middle. }
  destruct HC; constructor; core_simpl; try assumption.
  - unfold zlen in *. rewrite E. cbn. lia.
  - rewrite E. by constructor.
Qed.

(** The fragments of a packet carry its sender and session. *)
Lemma fragments_pending input sid p :
  fragmentPacket input = Ok (pp_fragments p) -> fp_sender input = senderFlag (o_role options) ->
  0 <= pp_attempts p <= MAX_ATTEMPTS -> pp_acknowledged p = 0 -> sid = Some (fp_sessionId input) ->
  pending_ok options sid p.
Proof.
  intros (P & N & Hplan & Hf)%fragmentPacket_plan Hs Ha Hz ->.
  assert (HF : Forall (fun u => u_flags u = fp_sender input /\ u_sessionId u = fp_sessionId input)
                 (pp_fragments p)).
  { rewrite Hf. apply Forall_forall. intros u (i & <- & _)%list_elem_of_In%in_map_iff. done. }
  constructor; try done.
  - eapply Forall_impl; [exact HF|]. cbn. intros u [-> _]. done.
  - eapply Forall_impl; [exact HF|]. cbn. intros u [_ ->]. done.
  - rewrite Hf. unfold zlen, FAS1_MAX_FRAGMENTS. rewrite length_map, length_seq. destruct Hplan. lia.
  - rewrite Hz. apply bitmap_below_zero.
Qed.

Lemma pending_count_core s :
  pending_count s = zlen (pending_packets (c_active (core s)) (c_queues (core s))).
Proof.
  unfold pending_count, queueLength, pending_packets, zlen. cbn. rewrite length_app.
  destruct (s_active s); cbn; lia.
Qed.

Lemma queue_new_spec packet class s :
  session_inv options s -> truthy (s_sessionId s) = true -> pending_count s < MAX_QUEUED_PACKETS ->
  wp (queue_new options packet class) (fun _ s' => session_inv options s') s.
Proof.
  intros HI Ht Hn. unfold queue_new, nextPacketId. rewrite pending_count_core in Hn.
  assert (HI1 : session_inv options
    (set s_packetId (fun _ => if s_packetId s =? UINT32_MAX then 1 else s_packetId s + 1) s)).
  { inv_leaf. core_cbn. unfold UINT32_MAX in *. destruct (Z.eqb_spec (s_packetId s) 4294967295); lia. }
  repeat (wp_prim; cbn beta iota); try exact HI1.
  inv_quiet options; [|by eapply quiet_inv].
  repeat (wp_prim; cbn beta iota). destruct HI1 as (HC & HJ & HL).
  inv_parts; [|done..].
  apply push_inv; [done..|]. eapply fragments_pending; [exact L0|done|cbn; unfold MAX_ATTEMPTS; lia|done|].
  change (s_sessionId s = Some (default 0 (s_sessionId s))). by destruct (s_sessionId s).
Qed.

Lemma enqueuePacket_keeps packet class : keeps I (enqueuePacket options packet class).
Proof.
  intros s HI. unfold enqueuePacket. wp_prim. inv_keeps options; [assumption| |assumption].
  do 2 (wp_prim; cbn beta iota). do 3 (wp_prim; [repeat inv_step options; inv_leaf|]).
  wp_prim; [by repeat inv_step options|]. bool_split.
  wp_prim. eapply wp_mono; [apply queue_new_spec; first [assumption|lia]|].
  intros [id|e] s1 HI1; [|done]. repeat inv_step options; inv_leaf.
Qed.
Hint Resolve enqueuePacket_keeps : keeps.
End Keeps.

#[export] Hint Resolve fail_keeps degrade_keeps markHeartbeatMissed_keeps expireWork_keeps driveTurn_keeps
  onAckTimeout_keeps heartbeat_keeps onHeartbeatTimer_keeps onHeartbeatDeadline_keeps start_keeps
  reset_keeps dispose_keeps reset_and_start_keeps restart_keeps onReset_keeps restartSession_keeps
  beginRecovery_keeps enqueuePacket_keeps : keeps.
