(* ===== verification/SessionSafe.v ===== *)
(** * The invariant of the acoustic session: handlers, callbacks and steps

    The [keeps] lemmas of the handlers of received units, of the timer
    callbacks, promise reactions and commit work, and what holds of every
    reachable session. *)

From stdpp Require Import base list numbers option strings.
From Stdlib Require Import ZArith Lia SpecFloat.
From S2P Require Import Prelude Utf8 Doubles Fas1 Fas1Codec Fragments Settings Handshake Calibration SessionState Session SessionReceive SessionStep SessionFrame SessionInv Bitmaps.

(** ** Units of packets *)

Lemma data_unit_geometry u :
  validateUnit u = Ok tt -> u_type u = Data ->
  1 <= u_fragmentCount u <= FAS1_MAX_FRAGMENTS /\ 0 <= u_fragmentIndex u < u_fragmentCount u.
Proof.
  intros Hv Ht. destruct (validateUnit_bounds _ _ Hv).
  unfold validateUnit in Hv. rewrite Ht in Hv. result_inv. unfold is_type in Hv.
  rewrite bool_decide_eq_true_2 in Hv by done. unfold validateData in Hv. result_inv. bool_split. lia.
Qed.

Lemma add_fragment_ok u a :
  inbound_ok a -> u_fragmentCount u = ia_fragmentCount a ->
  0 <= u_fragmentIndex u < u_fragmentCount u -> map_has (u_fragmentIndex u) (ia_fragments a) = false ->
  inbound_ok (add_fragment u a).
Proof.
  intros [Hc Hk Hf] Hn Hi Hh. constructor; cbn [add_fragment ia_fragmentCount ia_fragments]; [done|..].
  - by apply NoDup_map_set.
  - rewrite map_set_new by done. apply Forall_app; split; [done|]. constructor; [|constructor].
    cbn. rewrite <- Hn. done.
Qed.

Section Keeps.
Context (options : AcousticSessionOptions).
Local Abbreviation I := (session_inv options).

Lemma deliver_keeps u payload a : keeps I (deliver u payload a).
Proof.
  intros s HI. unfold deliver, emit. repeat inv_step options; inv_leaf.
  apply Forall_app; split; [apply HI|by apply Forall_singleton].
Qed.
Hint Resolve deliver_keeps : keeps.

Lemma new_assembly_ok now u : 1 <= u_fragmentCount u <= FAS1_MAX_FRAGMENTS -> inbound_ok (new_assembly now u).
Proof. intros. constructor; cbn; [done|constructor|constructor]. Qed.

(** The assembly a fragment joins. *)
Lemma assembly_ok s u :
  session_inv options s -> conflicts (s_inbound s) u = false ->
  1 <= u_fragmentCount u <= FAS1_MAX_FRAGMENTS ->
  let a := default (new_assembly (s_clock s) u) (s_inbound s) in
  inbound_ok a /\ u_fragmentCount u = ia_fragmentCount a.
Proof.
  intros [HC _] Hn Hc. pose proof (inv_inbound _ _ HC) as Hi. cbn [core c_inbound] in Hi.
  destruct (s_inbound s) as [a|]; cbn; [|split; [by apply new_assembly_ok|done]].
  split; [done|]. cbn in Hn. bool_split. lia.
Qed.

Lemma accept_fragment_spec u payload s :
  session_inv options s -> conflicts (s_inbound s) u = false ->
  validateUnit u = Ok tt -> u_type u = Data ->
  wp (accept_fragment u payload) (fun _ s' => session_inv options s') s.
Proof.
  intros HI Hn Hv Ht. destruct (data_unit_geometry u Hv Ht) as [Hc Hidx].
  destruct (assembly_ok s u HI Hn Hc) as [Ha Hcount].
  unfold accept_fragment. cbv zeta in *. set (a := default _ _) in *.
  assert (Hin : inbound_ok (if map_has (u_fragmentIndex u) (ia_fragments a) then a else add_fragment u a)).
  { destruct (map_has _ _) eqn:E; [done|]. by apply add_fragment_ok. }
  subst a. repeat inv_step options; inv_leaf; exact Hin.
Qed.

Lemma onData_keeps u :
  validateUnit u = Ok tt -> u_type u = Data -> keeps I (onData options u).
Proof.
  intros Hv Ht s HI. unfold onData. wp_prim. inv_keeps options; [assumption| |assumption].
  do 2 (wp_prim; cbn beta iota). wp_prim; [by wp_prim|].
  wp_prim; [repeat inv_step options; inv_leaf|].
  wp_prim; [repeat inv_step options; inv_leaf|].
  wp_prim. wp_prim; cbn beta iota; [|assumption]. wp_prim; [repeat inv_step options; inv_leaf|].
  by apply accept_fragment_spec.
Qed.

Lemma complement_ne r : Some (complement r) <> Some r.
Proof. by destruct r. Qed.

(** While the peer owns the turn, nothing of ours awaits an acknowledgement. *)
Lemma peer_turn_idle s :
  session_inv options s -> owns_turn (complement (o_role options)) s = true -> s_awaitingAck s = false.
Proof.
  intros [HC _] Ho. unfold owns_turn in Ho. bool_split.
  destruct (s_awaitingAck s) eqn:Hw; [|done].
  destruct (inv_awaiting _ _ HC Hw) as (_ & E & _). cbn in E. rewrite Ho in E.
  by apply complement_ne in E.
Qed.

Lemma onTurnEnd_keeps sid : keeps I (onTurnEnd options sid).
Proof.
  intros s HI. unfold onTurnEnd. do 2 (wp_prim; cbn beta iota). wp_prim; [by wp_prim|]. bool_split.
  pose proof (peer_turn_idle s HI ltac:(done)) as Hw.
  repeat inv_step options; inv_leaf; core_cbn; congruence.
Qed.

Lemma pending_some_count p p' q n :
  zlen (pending_packets (Some p) q) <= n -> zlen (pending_packets (Some p') q) <= n.
Proof. done. Qed.

Lemma pending_some_all P p p' q :
  Forall P (pending_packets (Some p) q) -> P p' -> Forall P (pending_packets (Some p') q).
Proof. intros H Hp. inversion H; subst. by constructor. Qed.

Lemma acknowledge_spec p bitmap s :
  session_inv options s -> s_active s = Some p -> s_awaitingAck s = true ->
  bitmap_below (zlen (pp_fragments p)) bitmap ->
  wp (acknowledge options p bitmap) (fun _ s' => session_inv options s') s.
Proof.
  intros HI Ha Hw Hb. pose proof (active_pending_ok _ _ _ HI Ha) as [H1 H2 H3 H4 H5].
  pose proof (proj1 HI) as HC. destruct (inv_awaiting _ _ HC Hw) as (_ & Ho & Hr).
  assert (Hor : bitmap_below (zlen (pp_fragments p)) (js_or (pp_acknowledged p) bitmap)).
  { unfold FAS1_MAX_FRAGMENTS in H3.
    rewrite js_or_bitmap by (eapply bitmap_below_bitmap; [|eassumption]; lia). by apply bitmap_below_lor. }
  unfold acknowledge. cbv zeta. repeat inv_step options; inv_leaf.
  all: core_cbn; rewrite Ha in *.
  all: try done.
  all: try (eapply pending_some_all; [eassumption|by constructor]).
Qed.

Lemma onAck_keeps sid pid bitmap : 0 <= bitmap <= UINT32_MAX -> keeps I (onAck options sid pid bitmap).
Proof.
  intros Hb s HI. unfold onAck. do 2 (wp_prim; cbn beta iota). wp_prim; [by wp_prim|].
  destruct (s_active s) as [p|] eqn:Ha; [|by wp_prim].
  pose proof (po_fragments _ _ _ (active_pending_ok _ _ _ HI Ha)) as Hn. unfold FAS1_MAX_FRAGMENTS in Hn.
  wp_prim; [by wp_prim|]. apply orb_false_elim in C0 as [Hw _].
  wp_prim; [by wp_prim|]. apply negb_false_iff in Hw, C0.
  apply acknowledge_spec; try done. apply legal_bitmap; [lia|done|done].
Qed.
Hint Resolve onTurnEnd_keeps : keeps.

(** ** Handshake *)

(** A reset that returns leaves the initial state of the role. *)
Lemma reset_state e s :
  wp (reset options e) (fun r s' => match r with Ok _ => s_state s' = initialState options | _ => True end) s.
Proof.
  unfold reset. wp_prim; [by wp_prim|].
  wp_prim. eapply (wp_moves (fun _ _ => True)); [by intros ? |intros r s1 _; destruct r; [|done]].
  repeat (repeat wp_prim; cbn beta iota;
    try (eapply (wp_moves (quiet options)); [solve [quiet_op]|intros [] ? _; cbn beta iota; [|done]])).
  done.
Qed.

Lemma nonce_inv f c : core_inv options c -> core_inv options (set c_localNonce f c).
Proof. intros HC. irrelevant. Qed.

Lemma answer_hello_inv c id nonce :
  core_inv options c -> c_state c = Listening -> id <> 0 ->
  core_inv options (set c_state (fun _ => HelloAckSent)
    (set c_localNonce (fun _ => nonce) (set c_sessionId (fun _ => Some id) c))).
Proof.
  intros HC Hs Hid.
  assert (H : core_inv options (set c_localNonce (fun _ => nonce)
    (set c_state (fun _ => HelloAckSent) (set c_sessionId (fun _ => Some id) c))))
    by (apply nonce_inv, open_session_inv; auto).
  exact H.
Qed.

Lemma onHello_keeps sid body : keeps I (onHello options sid body).
Proof.
  intros s HI. unfold onHello. wp_prim; [by wp_prim|]. bool_split. unfold is_role in *. bool_split.
  wp_prim. wp_prim; cbn beta iota; [|done]. do 2 (wp_prim; cbn beta iota).
  wp_prim; [by wp_prim|]. cbv zeta. do 2 (wp_prim; [by wp_prim|]). bool_split.
  wp_prim. eapply (wp_mono _ (fun r s' => session_inv options s'
    /\ match r with Ok _ => s_state s' = Listening | _ => True end)).
  { wp_prim; unfold is_state in *; bool_split; [by wp_prim|].
    apply wp_and; [by apply reset_keeps|]. eapply wp_mono; [apply reset_state|].
    intros [] s1; [|done]. unfold initialState. by rewrite H. }
  intros [[]|e] s1 [HI1 Hs1]; [|done]. clear HI.
  wp_prim. inv_quiet options; [|by eapply quiet_inv].
  wp_prim. inv_quiet options; [|by do 2 (eapply quiet_inv; [eassumption|])].
  assert (HI2 : session_inv options s2) by (by do 2 (eapply quiet_inv; [eassumption|])).
  assert (Hs2 : s_state s2 = Listening) by (core_eqs; congruence). clear HQ HQ0 HI1.
  pose proof (proj1 HI2) as HC.
  assert (Hid : default 0 (hs_sessionId a) <> 0)
    by (destruct (hs_sessionId a); cbn in *; [by bool_split|done]).
  repeat inv_step options; inv_parts; first [irrelevant | by apply answer_hello_inv].
Qed.

(** A step of the handshake, the calibration or the commit. *)
Lemma advance_inv c st :
  core_inv options c -> defined (c_sessionId c) = true ->
  c_state c <> Ready -> c_state c <> Error -> st <> Idle -> st <> Listening ->
  core_inv options (set c_state (fun _ => st) c).
Proof.
  intros HC Hid H1 H2 H3 H4. destruct HC; constructor; core_simpl; try assumption.
  - done.
  - by intros [? | ?].
  - intros Hw. destruct (inv_awaiting Hw) as (? & ? & Hb). repeat split; [done..|].
    intros Hr. by destruct (Hb Hr).
Qed.

Lemma same_id_defined id o : same_id id o = true -> defined o = true.
Proof. unfold same_id. intros H. bool_split. by subst. Qed.

Ltac state_facts :=
  unfold is_state, is_role in *; bool_split;
  repeat match goal with H : same_id _ _ = true |- _ => apply same_id_defined in H end.

Lemma onHelloAck_keeps sid body : keeps I (onHelloAck options sid body).
Proof.
  intros s HI. unfold onHelloAck. do 2 (wp_prim; cbn beta iota). wp_prim; [by wp_prim|]. state_facts.
  repeat inv_step options; try (by inv_leaf); inv_parts; try exact (proj1 HI).
  all: apply advance_inv; [apply HI|done|cbn; congruence..].
Qed.
Hint Resolve onHello_keeps onHelloAck_keeps : keeps.

(** ** Calibration *)

Lemma completeDirection_spec d s :
  session_inv options s -> s_state s = stateFor d -> defined (s_sessionId s) = true ->
  wp (completeDirection options d) (fun _ s' => session_inv options s') s.
Proof.
  intros HI Hs Hid. unfold completeDirection.
  repeat inv_step options; try (by inv_leaf); inv_parts.
  all: apply advance_inv; [apply HI|done|destruct d; cbn in *; congruence..].
Qed.


Lemma onCaps_keeps sid body : keeps I (onCaps options sid body).
Proof.
  intros s HI. unfold onCaps. do 2 (wp_prim; cbn beta iota). cbv zeta. wp_prim; [by wp_prim|]. state_facts.
  repeat inv_step options; try (by inv_leaf); inv_parts; try exact (proj1 HI).
  all: apply advance_inv; [apply HI|done|cbn; congruence..].
Qed.

(** The rest of a handler, once a direction may be complete. *)
Lemma completeDirection_then d s (Q : result bool -> Session -> Prop) :
  session_inv options s -> s_state s = stateFor d -> defined (s_sessionId s) = true ->
  (forall r s', session_inv options s' -> Q r s') -> wp (completeDirection options d) Q s.
Proof. intros. eapply wp_mono; [by apply completeDirection_spec|]. auto. Qed.

Lemma onProbe_keeps sid body : keeps I (onProbe options sid body).
Proof.
  intros s HI. unfold onProbe. do 2 (wp_prim; cbn beta iota). wp_prim; [by wp_prim|]. state_facts.
  wp_prim. wp_prim; cbn beta iota; [|done]. cbv zeta.
  wp_prim; [repeat inv_step options; inv_leaf|]. wp_prim; [by wp_prim|]. state_facts.
  repeat inv_step options; try (by inv_leaf).
  apply completeDirection_then; [by inv_leaf|core_congruence..|by intros [] ?].
Qed.

Lemma onReport_keeps sid body : keeps I (onReport options sid body).
Proof.
  intros s HI. unfold onReport. do 2 (wp_prim; cbn beta iota). wp_prim; [by wp_prim|]. state_facts.
  wp_prim. wp_prim; cbn beta iota; [|done]. destruct a as [probe observation]. cbv zeta.
  wp_prim; [by wp_prim|]. state_facts.
  repeat inv_step options; try (by inv_leaf).
  apply completeDirection_then; [by inv_leaf|core_congruence..|].
  intros [] s1 HI1; cbn beta iota; repeat inv_step options; by inv_leaf.
Qed.

(** ** Commit and heartbeat *)

(** Only in [Ready] (or after an error) may B await an acknowledgement. *)
Lemma b_not_awaiting s :
  session_inv options s -> o_role options = RoleB -> s_state s <> Ready -> s_state s <> Error ->
  s_awaitingAck s = false.
Proof.
  intros [HC _] Hr H1 H2. destruct (s_awaitingAck s) eqn:Hw; [|done].
  destruct (inv_awaiting _ _ HC Hw) as (_ & _ & Hb). by destruct (Hb Hr).
Qed.

Lemma onCommitAck_keeps sid body : keeps I (onCommitAck options sid body).
Proof.
  intros s HI. unfold onCommitAck. do 2 (wp_prim; cbn beta iota). wp_prim; [by wp_prim|]. state_facts.
  assert (Hw : s_awaitingAck s = false) by (apply b_not_awaiting; [done|done|congruence..]).
  repeat inv_step options; inv_leaf; [done|congruence|done|congruence].
Qed.

Lemma onHeartbeat_keeps sid : keeps I (onHeartbeat options sid).
Proof.
  intros s HI. unfold onHeartbeat. do 2 (wp_prim; cbn beta iota). cbv zeta.
  set (recovering := is_state s Degraded || is_state s Recovering).
  set (reply := is_state s AwaitingHeartbeat || (recovering && is_role (o_role options) RoleB)).
  wp_prim; [by wp_prim|]. apply orb_false_elim in C as [Hid _]. state_facts.
  assert (Hrec : recovering = true -> s_state s <> Ready /\ s_state s <> Error).
  { subst recovering. unfold is_state. rewrite orb_true_iff, !bool_decide_eq_true.
    intros [-> | ->]; done. }
  assert (Hrep : reply = true -> s_state s <> Ready /\ s_state s <> Error).
  { subst reply. rewrite orb_true_iff, andb_true_iff. unfold is_state.
    rewrite !bool_decide_eq_true. intros [-> | [? _]]; [done|by apply Hrec]. }
  assert (Hw : reply || recovering = true -> o_role options = RoleB -> s_awaitingAck s = false).
  { rewrite orb_true_iff. intros [Hx|Hx] Hr; [destruct (Hrep Hx)|destruct (Hrec Hx)];
      by apply b_not_awaiting. }
  clearbody reply recovering.
  repeat inv_step options; inv_leaf.
  all: first [done | intros Hq; match goal with Ha : ?b = true -> _, Hb : ?b = true |- _ => specialize (Ha Hb) end].
  destruct (o_role options) eqn:Er; [tauto|]. rewrite Hw in Hq; done.
Qed.
Hint Resolve onCaps_keeps onProbe_keeps onReport_keeps onCommitAck_keeps onHeartbeat_keeps : keeps.

(** ** [receive] *)

Lemma dispatch_keeps u : validateUnit u = Ok tt -> keeps I (dispatch options u).
Proof.
  intros Hv. unfold dispatch. destruct (u_type u) eqn:Ht; auto with keeps.
  - apply quiet_keeps. auto with moves.
  - by apply onData_keeps.
  - apply onAck_keeps. exact (ub_sequence _ (validateUnit_bounds _ _ Hv)).
Qed.

Lemma decodeFas1_valid raw u : decodeFas1 raw = Ok u -> validateUnit u = Ok tt.
Proof.
  unfold decodeFas1. intros H. result_inv. destruct (isUnitType _); [|done]. result_inv.
  by match goal with H : validateUnit _ = Ok ?a |- _ => destruct a end.
Qed.

Lemma receive_keeps raw : keeps I (receive options raw).
Proof.
  intros s HI. unfold receive. wp_prim; [|by wp_prim]. wp_prim; [by wp_prim|].
  apply wp_try, wp_bind. eapply wp_keeps; [apply dispatch_keeps; by eapply decodeFas1_valid|done|].
  intros [[]|e] s1 HI1; cbn beta iota; repeat inv_step options; inv_leaf.
Qed.
Hint Resolve receive_keeps : keeps.

(** ** Callbacks and reactions *)

Lemma perform_keeps a : keeps I (perform options a).
Proof. intros s HI. unfold perform. repeat inv_step options; inv_leaf. Qed.
Hint Resolve perform_keeps : keeps.

Lemma onDeliveryTimer_keeps e sid a : keeps I (onDeliveryTimer options e sid a).
Proof. intros s HI. unfold onDeliveryTimer. repeat inv_step options; inv_leaf. Qed.
Hint Resolve onDeliveryTimer_keeps : keeps.

Lemma run_callback_keeps c : keeps I (run_callback options c).
Proof. intros s HI. unfold run_callback. repeat inv_step options; inv_leaf. Qed.

Lemma run_continuation_keeps k ok : keeps I (run_continuation options k ok).
Proof. intros s HI. unfold run_continuation. repeat inv_step options; inv_leaf. Qed.
Hint Resolve run_callback_keeps run_continuation_keeps : keeps.

(** ** Commit work *)

(** A failure puts right whatever state the failing step left. *)
Definition recoverable (s : Session) : Prop := session_inv options (set s_state (fun _ => Error) s).

Lemma inv_recoverable s : session_inv options s -> recoverable s.
Proof. intros HI. unfold recoverable. inv_leaf. Qed.

Lemma quiet_recoverable s s' : quiet options s s' -> recoverable s -> recoverable s'.
Proof.
  intros HQ (HC & HJ & HL). unfold recoverable.
  assert (E : core (set s_state (fun _ => Error) s) = set c_state (fun _ => Error) (core s)) by done.
  split; [core_push; by rewrite <- E|split].
  - apply (jobs_skip options (set s_state (fun _ => Error))); [done|]. by apply (quiet_jobs _ _ _ HQ).
  - apply (log_skip _ (set s_state (fun _ => Error))); [done|]. by apply (quiet_own _ _ _ HQ).
Qed.

Lemma fail_recovers reason s :
  recoverable s -> wp (fail reason) (fun _ s' => session_inv options s') s.
Proof.
  intros HR. eapply wp_mono; [apply (fail_spec _ options)|]. intros r s' (_ & _ & s1 & HQ & ->).
  by apply (quiet_recoverable _ _ HQ).
Qed.

(** What a stage leaves: the invariant, or a state a failure puts right. *)
Definition stage_post (r : result (option JobStage)) (s : Session) : Prop :=
  match r with
  | Ok next => session_inv options s
      /\ forall stage, next = Some stage -> verifying stage = true -> o_role options = RoleA
  | Throw _ => recoverable s
  end.

Lemma begin_commit_post s : session_inv options s -> wp (begin_commit options) stage_post s.
Proof.
  intros HI. unfold begin_commit. repeat inv_step options; try by apply inv_recoverable; inv_leaf.
  all: split; [inv_leaf|by intros ? [= <-]].
Qed.

Lemma send_commit_post d s : session_inv options s -> wp (send_commit options d) stage_post s.
Proof.
  intros HI. unfold send_commit. repeat inv_step options; try by apply inv_recoverable; inv_leaf.
  all: split; [inv_leaf|by intros ? [= <-]].
Qed.

Lemma begin_verify_post received s :
  session_inv options s -> o_role options = RoleA -> wp (begin_verify options received) stage_post s.
Proof.
  intros HI Hr. unfold begin_verify. repeat inv_step options; try by apply inv_recoverable; inv_leaf.
  all: split; [inv_leaf|by intros ? [= <-]].
Qed.

(** Without a session identifier nothing is sent. *)
Lemma send__unbound t body s :
  wp (SessionState.send_ options t None body) (fun r s' => is_ok r = false /\ quiet options s s') s.
Proof.
  unfold SessionState.send_, SessionState.send. repeat (wp_prim; cbn beta iota).
  split; [done|]. by apply quiet_same.
Qed.

Lemma verify_commit_post received d s :
  session_inv options s -> o_role options = RoleA -> wp (verify_commit options received d) stage_post s.
Proof.
  intros HI Hr. unfold verify_commit. wp_prim.
  { repeat inv_step options; try (by inv_leaf).
    all: first [by apply inv_recoverable | by split; [inv_leaf|intros ? [=]]]. }
  do 2 (wp_prim; cbn beta iota). wp_prim. inv_quiet options; [|by apply inv_recoverable; inv_leaf].
  assert (HI0 : session_inv options s0) by inv_leaf. clear HI HQ.
  do 3 (wp_prim; wp_prim; cbn beta iota). set (s1 := set s_turnOwner _ _).
  assert (HR : recoverable s1).
  { subst s1. unfold recoverable. inv_leaf. intros Hw. destruct (inv_awaiting Hw) as (? & ? & ?).
    rewrite Hr. by repeat split. }
  destruct (s_sessionId s1) as [id|] eqn:Hid.
  - assert (HI1 : session_inv options s1).
    { subst s1. change (s_sessionId s0 = Some id) in Hid. inv_leaf; [intros _; by rewrite Hid|]. intros Hw.
      destruct (inv_awaiting Hw) as (? & ? & ?). rewrite Hr. by repeat split. }
    clearbody s1. repeat inv_step options; try by apply inv_recoverable; inv_leaf.
    split; [inv_leaf|by intros ? [=]].
  - wp_prim. eapply wp_mono; [apply send__unbound|]. intros [a0|e] s2 [? HQ]; [done|].
    by eapply quiet_recoverable.
Qed.

Lemma await_post ok r (k : bytes -> M Session (option JobStage)) s :
  recoverable s -> (forall d, wp (k d) stage_post s) ->
  wp (let! d := await ok r in k d) stage_post s.
Proof.
  intros HR Hk. apply wp_bind. unfold await. destruct ok; [apply wp_lift; by destruct r|by apply wp_throw].
Qed.

Lemma run_stage_post stage ok s :
  session_inv options s -> (verifying stage = true -> o_role options = RoleA) ->
  wp (run_stage options stage ok) stage_post s.
Proof.
  intros HI Hr. pose proof (inv_recoverable s HI) as HR. unfold run_stage.
  destruct stage; cbn [verifying] in Hr.
  - by apply begin_commit_post.
  - apply await_post; [done|]. intros d. by apply send_commit_post.
  - apply await_post; [done|]. intros _.
    repeat inv_step options; try (by inv_leaf).
    all: first [by apply inv_recoverable; inv_leaf | by split; [inv_leaf|intros ? [=]]].
  - apply begin_verify_post; auto.
  - apply await_post; [done|]. intros d. apply verify_commit_post; auto.
Qed.

Lemma jobs_set id stage after s :
  jobs_ok options s -> (verifying stage = true -> o_role options = RoleA) ->
  jobs_ok options (set s_jobs (map_set id (mkJob after stage)) s).
Proof.
  unfold jobs_ok. change (s_jobs (set s_jobs ?f s)) with (f (s_jobs s)). intros H Hs.
  induction (s_jobs s) as [|[k j] l IH]; cbn; [by apply Forall_singleton|].
  apply Forall_cons in H as [Hj Hl]. destruct (decide (id = k)); constructor; auto.
Qed.

Lemma jobs_drop id s : jobs_ok options s -> jobs_ok options (set s_jobs (map_delete id) s).
Proof.
  unfold jobs_ok. change (s_jobs (set s_jobs ?f s)) with (f (s_jobs s)). rewrite !Forall_forall.
  intros H e [He _]%list_elem_of_In%filter_In. by apply H, list_elem_of_In.
Qed.

Lemma run_job_spec id job ok s :
  session_inv options s -> (verifying (job_stage job) = true -> o_role options = RoleA) ->
  wp (run_job options id job ok) (fun _ s' => session_inv options s') s.
Proof.
  intros HI Hr. unfold run_job. apply wp_bind, wp_try.
  eapply wp_mono; [by apply run_stage_post|]. intros [next|e] s1.
  - intros [HI1 Hn]. cbn beta iota. destruct next as [stage|]; wp_prim; (split; [apply HI1|split; [|apply HI1]]).
    + apply jobs_set; [apply HI1|]. by apply Hn.
    + apply jobs_drop, HI1.
  - intros HR. cbn beta iota. apply wp_bind. eapply wp_mono; [by apply fail_recovers|].
    intros [a|e'] s2 HI2; cbn beta iota; [|done]. do 2 (wp_prim; cbn beta iota).
    split; [apply HI2|split; [|apply HI2]]. apply jobs_drop, HI2.
Qed.

(** ** Every reachable session *)

Lemma handle_keeps e : keeps I (handle options e).
Proof.
  intros s HI. unfold handle. do 2 (wp_prim; cbn beta iota). destruct e.
  5: { wp_prim; [|by wp_prim]. wp_prim; [by wp_prim|]. apply run_job_spec; [done|].
       intros Hv. destruct HI as (_ & HJ & _). unfold jobs_ok in HJ. rewrite Forall_forall in HJ.
       apply map_get_elem in C. by apply (HJ _ C). }
  all: repeat inv_step options; inv_leaf.
Qed.

Lemma create_inv clock s : create options clock = Ok s -> session_inv options s.
Proof.
  unfold create. intros H. result_inv. split; [|split; constructor].
  apply cleared_inv; cbn; try done; lia.
Qed.

Lemma reachable_inv s : reachable options s -> session_inv options s.
Proof.
  induction 1 as [clock s Hc|e s _ IH]; [by eapply create_inv|].
  unfold step. exact (handle_keeps e s IH).
Qed.

End Keeps.
