(* ===== verification/SessionRun.v ===== *)
(** * A pair of sessions, executed

    Concrete configurations of the two roles and a loss-free exchange of the
    units they send: the witnesses of the session theorems are states of this
    run. *)

From stdpp Require Import base list numbers option strings.
From Stdlib Require Import ZArith Lia SpecFloat.
From S2P Require Import Prelude Utf8 Doubles Fas1 Settings Handshake Calibration SessionState Session SessionReceive SessionStep.

(** A stand-in for SHA-256 with 32-byte digests: the byte sum, repeated. *)
Definition sum_digest (l : bytes) : bytes := repeat (foldl Z.add 0 l mod 256) 32.

Definition no_compare (a b : jsstring) : comparison := Eq.

Definition perfect_probe (n : nat) (p : AcousticProbe) : result AcousticProbeObservation :=
  Ok {| ob_received := true; ob_bytePerfect := true; ob_corrupt := false; ob_missing := false;
        ob_duplicate := false; ob_discontinuity := false; ob_latencyMs := Some 40; ob_signalDb := None;
        ob_clipping := None; ob_confidence := d_of_Z 1 |}.

Definition sample_candidate : AcousticCandidate :=
  mkCandidate (js "first") (mkDirection QUIET_AUDIBLE 100 1 750 (d_of_Z 1) 4000).

(** Role, names, first byte of the nonces, and what [send] answers. *)
Definition sample_options (role : AcousticRole) (me peer : string) (seed : Z)
    (answer : nat -> bytes -> result Completion) : AcousticSessionOptions := {|
  o_role := role; o_identity := js me; o_expectedPeer := js peer; o_profiles := [QUIET_AUDIBLE];
  o_ranges := mkRange 64 200; o_candidates := [sample_candidate]; o_probesPerDirection := 2;
  o_maxCandidates := 3; o_deadlineMs := 60000; o_nonce := fun n => (seed + Z.of_nat n) :: repeat 7 15;
  o_measureProbe := perfect_probe; o_send := answer; o_applyCandidate := fun _ _ => Ok tt;
  o_sha256 := sum_digest; o_localeCompare := no_compare |}.

Definition immediate (n : nat) (raw : bytes) : result Completion := Ok Returned.
Definition later (n : nat) (raw : bytes) : result Completion := Ok Promised.

Definition optionsA := sample_options RoleA "npub-a" "npub-b" 1 immediate.
Definition optionsB := sample_options RoleB "npub-b" "npub-a" 100 immediate.

Definition created (options : AcousticSessionOptions) : Session :=
  match create options 0 with Ok s => s | Throw _ => initial options 0 end.

(** All pending promises fulfilled and all jobs resumed, once. *)
Definition settle (options : AcousticSessionOptions) (s : Session) : Session :=
  let s := run options (map (fun p => Settles p.1 true) (s_promises s)) s in
  run options (map (fun p => Resumes p.1 true) (s_jobs s)) s.

Definition sent_units (l : list Effect) : list bytes :=
  omap (fun e => match e with Sent raw => Some raw | _ => None end) l.

(** One exchange: what each side has sent since [na], [nb] effects reaches the
    other, then both settle. *)
Record Pair := mkPair { pair_a : Session; pair_b : Session; pair_na : nat; pair_nb : nat }.

Definition exchange (p : Pair) : Pair :=
  let b := run optionsB (map Received (sent_units (drop (pair_na p) (s_log (pair_a p))))) (pair_b p) in
  let a := run optionsA (map Received (sent_units (drop (pair_nb p) (s_log (pair_b p))))) (pair_a p) in
  mkPair (settle optionsA a) (settle optionsB b) (length (s_log (pair_a p))) (length (s_log (pair_b p))).

Definition started : Pair :=
  mkPair (step optionsA CallStart (created optionsA)) (created optionsB) 0 0.

Definition exchanged (n : nat) : Pair := Nat.iter n exchange started.

(** The [n]-th unit a session has handed to its modem. *)
Definition sent_unit (n : nat) (s : Session) : bytes := nth n (sent_units (s_log s)) [].

(** Sessions of the run: A and B after [n] exchanges. *)
Definition a_after (n : nat) : Session := pair_a (exchanged n).
Definition b_after (n : nat) : Session := pair_b (exchanged n).

Lemma reachable_run options events s : reachable options s -> reachable options (run options events s).
Proof.
  revert s. induction events as [|e events IH]; intros s H; [done|]. cbn. apply IH. by apply reach_step.
Qed.

Lemma reachable_created options s : create options 0 = Ok s -> reachable options (created options).
Proof. intros H. unfold created. rewrite H. by eapply reach_create. Qed.

Lemma reachable_settle options s : reachable options s -> reachable options (settle options s).
Proof. intros H. by apply reachable_run, reachable_run. Qed.

Lemma reachable_exchanged n : reachable optionsA (a_after n) /\ reachable optionsB (b_after n).
Proof.
  unfold a_after, b_after. induction n as [|n [IHa IHb]].
  - split; [apply reach_step|]; by eapply reachable_created.
  - unfold exchanged. cbn [Nat.iter]. fold (exchanged n). unfold exchange. cbn [pair_a pair_b].
    split; by apply reachable_settle, reachable_run.
Qed.

Lemma bytes_ok_check (l : bytes) : forallb (fun b => (0 <=? b) && (b <? 256)) l = true -> bytes_ok l.
Proof.
  intros E. apply Forall_forall. intros b Hb. rewrite ?list_elem_of_In in Hb.
  rewrite forallb_forall in E. specialize (E b Hb). bool_split. by split.
Qed.
