(* ===== verification/SessionDelivery.v ===== *)
(** * Delivery of packets by the acoustic session

    A receiver that holds the peer's turn accepts the fragments of a packet
    in any order, hands the packet to [onPacket] exactly once, and owes the
    sender an acknowledgement of every fragment. *)

From stdpp Require Import base list numbers option strings.
From Stdlib Require Import ZArith Lia SpecFloat.
From S2P Require Import Prelude Utf8 Doubles Fas1 Fas1Codec Fragments Settings Handshake Calibration SessionState Session SessionReceive SessionStep SessionFrame SessionInv SessionSafe Bitmaps SessionRun.

(** The packets handed to [onPacket], in order. *)
Definition deliveries (l : list Effect) : list (bytes * Z) :=
  omap (fun e => match e with Delivered packet id => Some (packet, id) | _ => None end) l.

Lemma deliveries_app l1 l2 : deliveries (l1 ++ l2) = deliveries l1 ++ deliveries l2.
Proof. apply omap_app. Qed.

Lemma quiet_deliveries o s s' : quiet o s s' -> deliveries (s_log s') = deliveries (s_log s).
Proof.
  intros [_ _ (l & -> & _ & Hd)]. rewrite deliveries_app.
  assert (H : deliveries l = []) by (induction Hd as [|e l He _ IH]; [done|]; by destruct e).
  by rewrite H, app_nil_r.
Qed.

Lemma map_has_filter {V} (k : Z) (f : Z * V -> bool) m :
  map_has k m = false -> map_has k (List.filter f m) = false.
Proof.
  intros H. apply not_true_is_false. rewrite <- not_true_iff_false in H. contradict H.
  apply map_has_keys in H. apply map_has_keys. apply list_elem_of_fmap in H as ([k' v] & -> & H).
  apply list_elem_of_fmap. exists (k', v). split; [done|].
  by apply list_elem_of_In, filter_In in H as [H%list_elem_of_In _].
Qed.

Section Receiving.
Context (options : AcousticSessionOptions).
Context (input : FragmentPacketInput) (P N : nat) (Hplan : fragment_plan input P N).
Context (Hsender : fp_sender input = senderFlag (complement (o_role options))).

Local Abbreviation packet := (fp_packet input).
Local Abbreviation pid := (fp_packetId input).
Local Abbreviation frag := (plan_fragment input P N).

(** The assembly that holds the fragments [done]. *)
Definition assembly_of (held : list Fas1Unit) (expires : Z) : InboundAssembly := {|
  ia_packetId := pid; ia_fragmentCount := Z.of_nat N; ia_packetLength := zlen packet;
  ia_fragments := map keyed held; ia_expiresAt := expires |}.

Record receiving (held : list Fas1Unit) (c : Core) : Prop := {
  rc_state : c_state c = Ready;
  rc_session : c_sessionId c = Some (fp_sessionId input);
  rc_turn : c_turnOwner c = Some (complement (o_role options));
  rc_settings : exists st, c_settings c = Some st
                /\ payloadBytes (peer_settings options st) = Z.of_nat P;
  rc_active : forall p, c_active c = Some p -> c_clock c <= pp_expiresAt p;
  rc_inbound : match held with
               | [] => c_inbound c = None
               | _ => exists e, c_clock c <= e /\ c_inbound c = Some (assembly_of held e)
               end;
  rc_fresh : map_has pid (c_delivered c) = false;
  rc_subscribed : c_subscribed c = true;
}.

Lemma receiving_queue held q put s :
  receiving held (core s) ->
  wp (expire_queue q put) (fun r s' => r = Ok tt /\ receiving held (core s')
        /\ s_log s' = s_log s /\ s_clock s' = s_clock s) s.
Proof.
  intros H. unfold expire_queue. repeat (wp_prim; cbn beta iota).
  split; [done|]. split; [|done]. core_push. destruct H. by constructor.
Qed.

Lemma receiving_expire held s :
  receiving held (core s) ->
  wp (expireWork options) (fun r s' => r = Ok tt /\ receiving held (core s') /\ s_log s' = s_log s) s.
Proof.
  intros H0. unfold expireWork. do 2 (wp_prim; cbn beta iota).
  wp_prim. eapply wp_mono; [by apply receiving_queue|]. intros r1 s1 (-> & H1 & L1 & K1). cbn beta iota.
  wp_prim. eapply wp_mono; [by apply receiving_queue|]. intros r2 s2 (-> & H2 & L2 & K2). cbn beta iota.
  wp_prim. eapply wp_mono; [by apply receiving_queue|]. intros r3 s3 (-> & H3 & L3 & K3). cbn beta iota.
  pose proof (rc_active _ _ H0) as R5. pose proof (rc_inbound _ _ H0) as R6. cbn in R5, R6.
  do 2 (wp_prim; cbn beta iota).
  { exfalso. destruct (s_active s); [|done]. bool_split. specialize (R5 _ eq_refl). lia. }
  wp_prim. cbn beta iota. do 2 (wp_prim; cbn beta iota).
  { exfalso. destruct held; [by rewrite R6 in *|]. destruct R6 as (e & ? & R6). rewrite R6 in *.
    cbn in *. bool_split. lia. }
  repeat (wp_prim; cbn beta iota). split; [done|]. split; [|by rewrite <- L1, <- L2, <- L3].
  core_push. destruct H3. constructor; core_simpl; try done. by apply map_has_filter.
Qed.

(** ** One fragment *)

Lemma frag_index i : u_fragmentIndex (frag i) = Z.of_nat i.
Proof. done. Qed.

Definition frags (indexes : list nat) : list Fas1Unit := map (plan_fragment input P N) indexes.

Lemma held_keys indexes : (map keyed (frags indexes)).*1 = map Z.of_nat indexes.
Proof. unfold frags. rewrite keys_keyed, map_map. done. Qed.

Lemma held_has indexes i : map_has (Z.of_nat i) (map keyed (frags indexes)) = true <-> i ∈ indexes.
Proof.
  rewrite map_has_keys, held_keys, map_fmap, list_elem_of_fmap. split.
  - intros (j & Hj & ?). by apply Nat2Z.inj in Hj as ->.
  - intros. by exists i.
Qed.

Lemma frag_geometry i : (i < N)%nat -> data_geometry (Z.of_nat P) (frag i) = true.
Proof.
  intros Hi. unfold data_geometry. cbn [plan_fragment fragment_at u_packetLength u_fragmentCount u_fragmentIndex].
  rewrite (plan_ceil input P N Hplan). change (fragment_at input (Z.of_nat P) (Z.of_nat N) i) with (frag i).
  rewrite (plan_body_length input P N Hplan i Hi), !Z.eqb_refl. done.
Qed.

(** What a complete packet leaves. *)
Record delivered_packet (c : Core) : Prop := {
  dp_state : c_state c = Ready;
  dp_turn : c_turnOwner c = Some (complement (o_role options));
  dp_inbound : c_inbound c = None;
  dp_ack : c_lastAck c = Some (pid, fragment_mask (Z.of_nat N));
  dp_known : map_has pid (c_delivered c) = true;
}.

(** The assembly after a new fragment. *)
Lemma joined_assembly s indexes i :
  receiving (frags indexes) (core s) -> i ∉ indexes ->
  let a := default (new_assembly (s_clock s) (frag i)) (s_inbound s) in
  map_has (u_fragmentIndex (frag i)) (ia_fragments a) = false
  /\ exists e, s_clock s <= e /\ add_fragment (frag i) a = assembly_of (frags (indexes ++ [i])) e.
Proof.
  intros H Hi. pose proof (rc_inbound _ _ H) as Hin. cbn [core c_inbound c_clock] in Hin.
  destruct indexes as [|j l].
  - cbn in Hin. rewrite Hin. cbv zeta. split; [reflexivity|]. exists (s_clock s + MAX_PACKET_AGE_MS).
    split; [unfold MAX_PACKET_AGE_MS; lia|reflexivity].
  - destruct Hin as (e & He & Hin). rewrite Hin. cbv zeta. cbn [default from_option id assembly_of ia_fragments].
    assert (Hh : map_has (u_fragmentIndex (frag i)) (map keyed (frags (j :: l))) = false)
      by (apply not_true_is_false; rewrite frag_index; by rewrite held_has).
    split; [exact Hh|]. exists e. split; [done|].
    unfold add_fragment, assembly_of. cbn [ia_packetId ia_fragmentCount ia_packetLength ia_fragments ia_expiresAt].
    rewrite map_set_new by done. unfold frags. rewrite !map_app. done.
Qed.

Lemma all_fragments indexes :
  NoDup indexes -> Forall (fun i => (i < N)%nat) indexes -> length indexes = N ->
  frags indexes ≡ₚ map (plan_fragment input P N) (seq 0 N).
Proof.
  intros Hn Hf Hl. apply Permutation_map.
  apply submseteq_length_Permutation; [|rewrite length_seq; lia].
  apply NoDup_submseteq; [done|]. intros i Hi. rewrite Forall_forall in Hf.
  apply elem_of_seq. specialize (Hf i). rewrite ?list_elem_of_In in *. specialize (Hf Hi). lia.
Qed.

Lemma complete_keys indexes e :
  NoDup indexes -> Forall (fun i => (i < N)%nat) indexes -> length indexes = N ->
  forall j, j ∈ (ia_fragments (assembly_of (frags indexes) e)).*1 <-> 0 <= j < Z.of_nat N.
Proof.
  intros Hn Hf Hl j. cbn [assembly_of ia_fragments].
  rewrite keys_keyed, (all_fragments indexes Hn Hf Hl), plan_indexes, map_fmap, list_elem_of_fmap.
  setoid_rewrite elem_of_seq. split.
  - intros (k & -> & ?). lia.
  - intros ?. exists (Z.to_nat j). lia.
Qed.

(** Every fragment there: the packet comes out. *)
Lemma complete_reassembly indexes :
  NoDup indexes -> Forall (fun i => (i < N)%nat) indexes -> length indexes = N ->
  reassemblePacket (map keyed (frags indexes)).*2 (Z.of_nat P) = Ok packet.
Proof.
  intros Hn Hf Hl.
  assert (E : (map keyed (frags indexes)).*2 = frags indexes).
  { unfold frags. induction indexes as [|i l IH]; [done|]. cbn. f_equal.
    rewrite map_map in *. clear. induction l; cbn; [done|]. by f_equal. }
  rewrite E. apply (reassemble_plan input P N); [done|..|by apply all_fragments].
  rewrite Hsender. by destruct (o_role options); [right|left].
Qed.

(** What one more fragment makes of the session. *)
Definition progress_post (indexes : list nat) (log : list Effect) (s : Session) : Prop :=
  if (length indexes <? N)%nat
  then receiving (frags indexes) (core s) /\ deliveries (s_log s) = deliveries log
  else delivered_packet (core s) /\ deliveries (s_log s) = deliveries log ++ [(packet, pid)].

Lemma map_has_evict (k : Z) (v : Z) d :
  map_has k d = false -> map_has k (map_evict MAX_DELIVERED_IDS (map_set k v d)) = true.
Proof.
  intros H. rewrite map_set_new by done. apply map_has_keys. unfold map_evict.
  rewrite length_app, drop_app_le by (cbn; unfold MAX_DELIVERED_IDS; lia).
  rewrite fmap_app. apply elem_of_app. right. apply list_elem_of_here.
Qed.

Lemma accept_fragment_step indexes i s :
  receiving (frags indexes) (core s) -> NoDup (indexes ++ [i]) ->
  Forall (fun j => (j < N)%nat) (indexes ++ [i]) -> (length indexes < N)%nat ->
  wp (accept_fragment (frag i) (Z.of_nat P))
     (fun r s' => r = Ok tt /\ progress_post (indexes ++ [i]) (s_log s) s') s.
Proof.
  intros H Hnd Hlt Hlen.
  assert (Hi : i ∉ indexes).
  { apply NoDup_app in Hnd as (_ & Hd & _). intros Hin. apply (Hd i Hin). apply list_elem_of_here. }
  destruct (joined_assembly s indexes i H Hi) as (Hseen & e & He & Hadd).
  unfold accept_fragment. do 2 (wp_prim; cbn beta iota). cbv zeta.
  rewrite Hseen, Hadd. clear Hseen Hadd.
  set (a := assembly_of (frags (indexes ++ [i])) e).
  eapply (wp_mono _ (fun r s' => r = Ok tt /\ progress_post (indexes ++ [i]) (s_log s) s')); [|auto].
  apply wp_bind.
  eapply (wp_mono _ (fun r s' => r = Ok tt /\ s_log s' = s_log s /\ exists la,
    core s' = set c_lastAck la (core s))).
  { destruct (defined (s_inbound s)); [wp_prim|wp_prim]; (split; [done|split; [done|]]).
    - by exists (fun x => x).
    - by eexists (fun _ => None). }
  intros r s1 (-> & Hl1 & la & Hc1). cbn beta iota.
  do 2 (wp_prim; cbn beta iota). do 2 (wp_prim; cbn beta iota). do 2 (wp_prim; cbn beta iota).
  unfold progress_post. cbn [ia_fragments ia_fragmentCount a assembly_of].
  assert (Hz : zlen (map keyed (frags (indexes ++ [i]))) = Z.of_nat (S (length indexes))).
  { unfold zlen, frags. rewrite !length_map, length_app. cbn. lia. }
  rewrite Hz, length_app. cbn [length]. set (s2 := set s_lastAck _ _).
  assert (Hc2 : core s2 = set c_lastAck (fun _ => Some (pid, received_bitmap a))
                            (set c_inbound (fun _ => Some a) (set c_lastAck la (core s))))
    by (subst s2; core_compute; exact Hc1).
  assert (Hl2 : s_log s2 = s_log s) by (rewrite <- Hl1; done).
  clearbody s2. wp_prim; bool_split.
  - wp_prim. split; [done|]. rewrite (proj2 (Nat.ltb_lt _ _)) by lia. rewrite Hl2. split; [|done].
    rewrite Hc2. destruct H. constructor; core_fields; try assumption.
    destruct (indexes ++ [i]) eqn:E; [by destruct indexes|]. by exists e.
  - assert (Hall : length (indexes ++ [i]) = N) by (rewrite length_app; cbn; lia).
    rewrite (proj2 (Nat.ltb_ge _ _)) by lia.
    unfold deliver. cbn [a assembly_of ia_fragments ia_packetLength].
    rewrite complete_reassembly by done. do 2 (wp_prim; cbn beta iota).
    pose proof (f_equal c_delivered Hc2) as Hd2. cbn [core c_delivered] in Hd2.
    change (s_delivered s2 = s_delivered s) in Hd2.
    pose proof (rc_fresh _ _ H) as Hf. cbn [core c_delivered] in Hf.
    change (u_packetId (frag i)) with pid. rewrite Hd2, Hf, Z.eqb_refl. cbn [negb orb].
    unfold increment, emit. repeat (wp_prim; cbn beta iota). split; [done|].
    split.
    + core_push. rewrite Hc2. destruct H.
      constructor; core_fields; [exact rc_state0|exact rc_turn0|done| |by apply map_has_evict].
      do 2 f_equal. apply received_bitmap_full; [destruct Hplan; lia|].
      intros j. apply complete_keys; done.
    + change (deliveries (s_log s2 ++ [Delivered packet pid]) = deliveries (s_log s) ++ [(packet, pid)]).
      by rewrite deliveries_app, Hl2.
Qed.

Lemma progress_quiet indexes log s s' :
  quiet options s s' -> progress_post indexes log s -> progress_post indexes log s'.
Proof.
  intros HQ. unfold progress_post. by rewrite (quiet_core _ _ _ HQ), (quiet_deliveries _ _ _ HQ).
Qed.

Lemma no_conflict s indexes i :
  receiving (frags indexes) (core s) -> conflicts (s_inbound s) (frag i) = false.
Proof.
  intros H. pose proof (rc_inbound _ _ H) as Hin. cbn [core c_inbound c_clock] in Hin.
  destruct (frags indexes) as [|f l]; [by rewrite Hin|]. destruct Hin as (e & _ & ->).
  unfold conflicts. cbn [assembly_of ia_packetId ia_fragmentCount ia_packetLength].
  change (u_packetId (frag i)) with pid. change (u_fragmentCount (frag i)) with (Z.of_nat N).
  change (u_packetLength (frag i)) with (zlen packet). by rewrite !Z.eqb_refl.
Qed.

(** One unit of the packet, as the modem hands it over. *)
Lemma receive_step indexes i raw s :
  receiving (frags indexes) (core s) -> NoDup (indexes ++ [i]) ->
  Forall (fun j => (j < N)%nat) (indexes ++ [i]) -> (length indexes < N)%nat ->
  encodeFas1 (frag i) = Ok raw ->
  wp (receive options raw) (fun _ s' => progress_post (indexes ++ [i]) (s_log s) s') s.
Proof.
  intros H Hnd Hlt Hlen Henc.
  unfold receive. rewrite (decode_encode _ _ Henc).
  change (u_flags (frag i)) with (fp_sender input). rewrite Hsender, Z.eqb_refl. cbn [negb].
  apply wp_try, wp_bind. unfold dispatch. change (u_type (frag i)) with Data. cbn iota.
  unfold onData. apply wp_bind. eapply wp_mono; [by apply receiving_expire|].
  intros r s1 (-> & H1 & L1). cbn beta iota. do 2 (wp_prim; cbn beta iota).
  assert (Hs1 := H1). destruct Hs1 as [R1 R2 R3 (st & R4 & R4') R5 R6 R7 R8].
  cbn [core c_state c_sessionId c_turnOwner c_settings c_active c_clock c_inbound c_delivered c_subscribed] in *.
  unfold is_state, same_id, owns_turn. change (u_sessionId (frag i)) with (fp_sessionId input).
  change (u_packetId (frag i)) with pid.
  rewrite R1, R2, R3, R7, !bool_decide_eq_true_2 by done. cbn [negb orb].
  rewrite (no_conflict _ _ _ H1). unfold inboundPayloadBytes. rewrite R4, R4'.
  wp_prim. apply wp_lift. rewrite frag_geometry by (apply Forall_app in Hlt as [_ Hi]; by inversion Hi).
  cbn [negb]. eapply wp_mono; [by apply accept_fragment_step|]. rewrite L1.
  intros r s2 (-> & H2). cbn beta iota. do 2 (wp_prim; cbn beta iota).
  inv_quiet options; [by eapply progress_quiet|wp_prim; by eapply progress_quiet].
Qed.

Lemma step_received raw s :
  s_subscribed s = true -> step options (Received raw) s = final (receive options raw) s.
Proof. intros H. unfold step, handle, final, mbind, mget. by rewrite H. Qed.

(** All of them, in any order. *)
Lemma receive_all rest raws : forall indexes s,
  receiving (frags indexes) (core s) -> NoDup (indexes ++ rest) ->
  Forall (fun j => (j < N)%nat) (indexes ++ rest) -> (length indexes < N)%nat ->
  length (indexes ++ rest) = N ->
  Forall2 (fun i raw => encodeFas1 (frag i) = Ok raw) rest raws ->
  let s' := run options (map Received raws) s in
  delivered_packet (core s') /\ deliveries (s_log s') = deliveries (s_log s) ++ [(packet, pid)].
Proof.
  intros indexes s H Hnd Hlt Hlen Hall Henc. revert indexes s H Hnd Hlt Hlen Hall.
  induction Henc as [|i raw rest raws Hraw Henc IH]; intros indexes s H Hnd Hlt Hlen Hall.
  { rewrite app_nil_r in Hall. lia. }
  change (i :: rest) with ([i] ++ rest) in Hnd, Hlt, Hall.
  rewrite (app_assoc indexes [i] rest) in Hnd, Hlt, Hall.
  assert (Hstep : progress_post (indexes ++ [i]) (s_log s) (step options (Received raw) s)).
  { rewrite step_received by apply (rc_subscribed _ _ H).
    exact (receive_step indexes i raw s H (proj1 (proj1 (NoDup_app _ _) Hnd))
             (proj1 (proj1 (Forall_app _ _ _) Hlt)) Hlen Hraw). }
  cbn [map run foldl]. unfold progress_post in Hstep.
  destruct (Nat.ltb_spec (length (indexes ++ [i])) N) as [Hl|Hl].
  - destruct Hstep as [Hr Hd]. rewrite <- Hd. by apply (IH (indexes ++ [i])).
  - assert (rest = []) as -> by (destruct rest; [done|rewrite !length_app in *; cbn in *; lia]).
    inversion Henc; subst. exact Hstep.
Qed.
End Receiving.

(** ** Delivery, exactly once *)

(** A session that listens to the peer's turn: nothing of the packet has
    arrived, and its own work has not expired. *)
Record awaits_packet (options : AcousticSessionOptions) (input : FragmentPacketInput) (s : Session) : Prop := {
  ap_state : s_state s = Ready;
  ap_session : s_sessionId s = Some (fp_sessionId input);
  ap_turn : s_turnOwner s = Some (complement (o_role options));
  ap_payload : inboundPayloadBytes options s = Ok (default FAS1_MAX_BODY_BYTES (fp_payloadBytes input));
  ap_active : match s_active s with Some p => s_clock s <= pp_expiresAt p | None => True end;
  ap_inbound : s_inbound s = None;
  ap_fresh : map_has (fp_packetId input) (s_delivered s) = false;
  ap_subscribed : s_subscribed s = true;
}.

Lemma awaits_receiving options input P N s :
  fragment_plan input P N -> awaits_packet options input s -> receiving options input P N [] (core s).
Proof.
  intros Hplan [H1 H2 H3 H4 H5 H6 H7 H8].
  rewrite <- (pl_payload _ _ _ Hplan) in H4. unfold inboundPayloadBytes in H4.
  destruct (s_settings s) as [st|] eqn:Hst; [|done]. injection H4 as H4.
  constructor; cbn; try done; [by exists st|]. intros p Hp. by rewrite Hp in H5.
Qed.

(** C1: whatever the order in which the units of a packet arrive, the
    receiver hands exactly that packet to [onPacket], once, and owes the
    sender an acknowledgement that names every fragment. *)
Theorem packet_delivered_once options input fragments arrived raws s :
  fragmentPacket input = Ok fragments ->
  fp_sender input = senderFlag (complement (o_role options)) ->
  arrived ≡ₚ fragments ->
  Forall2 (fun u raw => encodeFas1 u = Ok raw) arrived raws ->
  awaits_packet options input s ->
  let s' := run options (map Received raws) s in
  deliveries (s_log s') = deliveries (s_log s) ++ [(fp_packet input, fp_packetId input)]
  /\ s_state s' = Ready /\ s_inbound s' = None
  /\ s_lastAck s' = Some (fp_packetId input, fragment_mask (zlen fragments))
  /\ map_has (fp_packetId input) (s_delivered s') = true.
Proof.
  intros Hf Hs Hp Henc Hw. apply fragmentPacket_plan in Hf as (P & N & Hplan & ->).
  apply Permutation_map_inv in Hp as (rest & -> & Hrest).
  assert (Hlen : length rest = N) by (by rewrite <- Hrest, length_seq).
  assert (H1N : (0 < N)%nat) by (destruct Hplan; lia).
  destruct (receive_all options input P N Hplan Hs rest raws [] s) as [[D1 D2 D3 D4 D5] Hd].
  - by apply awaits_receiving.
  - cbn. rewrite <- Hrest. apply NoDup_seq.
  - cbn. rewrite <- Hrest. apply Forall_forall. intros i Hi. rewrite ?list_elem_of_In in Hi. apply in_seq in Hi. lia.
  - done.
  - done.
  - by apply Forall2_fmap_l in Henc.
  - unfold zlen. rewrite length_map, length_seq. done.
Qed.

(** A packet of three fragments for the session B is in. *)
Definition delivery_input : FragmentPacketInput := {|
  fp_packet := repeat 5 250; fp_sessionId := default 0 (s_sessionId (b_after 17)); fp_sequenceStart := 9;
  fp_packetId := 1; fp_sender := senderFlag RoleA; fp_payloadBytes := Some 100 |}.

Definition delivery_fragments : list Fas1Unit :=
  match fragmentPacket delivery_input with Ok l => l | Throw _ => [] end.

(** The last fragment arrives first. *)
Definition delivery_arrived : list Fas1Unit := rev delivery_fragments.

Definition encoded (u : Fas1Unit) : bytes := match encodeFas1 u with Ok raw => raw | Throw _ => [] end.

Lemma encoded_units us :
  forallb (fun u => is_ok (encodeFas1 u)) us = true ->
  Forall2 (fun u raw => encodeFas1 u = Ok raw) us (map encoded us).
Proof.
  induction us as [|u us IH]; [constructor|]. cbn. intros [Hu Hus]%andb_prop. constructor; [|auto].
  unfold encoded. by destruct (encodeFas1 u).
Qed.

Lemma packet_delivered_once_witness :
  let s' := run optionsB (map Received (map encoded delivery_arrived)) (b_after 17) in
  deliveries (s_log s') = deliveries (s_log (b_after 17)) ++ [(repeat 5 250, 1)]
  /\ s_state s' = Ready /\ s_inbound s' = None
  /\ s_lastAck s' = Some (1, fragment_mask (zlen delivery_fragments))
  /\ map_has 1 (s_delivered s') = true.
Proof.
  apply (packet_delivered_once optionsB delivery_input delivery_fragments delivery_arrived).
  - vm_compute; reflexivity.
  - reflexivity.
  - symmetry. apply Permutation_rev.
  - apply encoded_units. vm_compute; reflexivity.
  - constructor; vm_compute; try reflexivity; exact I.
Defined.

(** ** Duplicates *)

(** What an operation that delivers nothing keeps. *)
Record no_delivery (pid expires : Z) (s s' : Session) : Prop := {
  nd_deliveries : deliveries (s_log s') = deliveries (s_log s);
  nd_clock : s_clock s' = s_clock s;
  nd_entry : s_clock s <= expires -> map_get pid (s_delivered s) = Some expires ->
             map_get pid (s_delivered s') = Some expires;
}.

#[export] Instance no_delivery_refl pid e : Reflexive (no_delivery pid e).
Proof. done. Qed.

#[export] Instance no_delivery_trans pid e : Transitive (no_delivery pid e).
Proof.
  intros s1 s2 s3 [D1 C1 E1] [D2 C2 E2]. split; [congruence|congruence|].
  rewrite C1 in E2. auto.
Qed.

Lemma no_delivery_field pid e f :
  (forall s, s_log (f s) = s_log s) -> (forall s, s_clock (f s) = s_clock s) ->
  (forall s, s_delivered (f s) = s_delivered s) -> moves (no_delivery pid e) (mmodify f).
Proof. intros Hl Hc Hd. apply moves_modify. intros s. split; by rewrite ?Hl, ?Hc, ?Hd. Qed.

Lemma quiet_no_delivery {A} o (m : M Session A) pid e :
  moves (quiet o) m -> moves (no_delivery pid e) m.
Proof.
  intros Hm s. eapply wp_mono; [apply Hm|]. intros r s' HQ. split.
  - exact (quiet_deliveries _ _ _ HQ).
  - exact (f_equal c_clock (quiet_core _ _ _ HQ)).
  - intros _ H. rewrite <- H. exact (f_equal (fun c => map_get pid (c_delivered c)) (quiet_core _ _ _ HQ)).
Qed.

Lemma map_get_filter (k v : Z) f (m : list (Z * Z)) :
  map_get k m = Some v -> f (k, v) = true -> map_get k (List.filter f m) = Some v.
Proof.
  intros H Hf. induction m as [|[k' v'] m IH]; [done|]. cbn in H.
  destruct (decide (k = k')) as [<-|Hne].
  - injection H as ->. cbn. rewrite Hf. cbn. by rewrite decide_True.
  - cbn. destruct (f (k', v')); cbn; [rewrite decide_False by done|]; auto.
Qed.

#[export] Hint Extern 5 (moves (no_delivery _ _) (mmodify _)) =>
  apply no_delivery_field; intros; reflexivity : moves.
#[export] Hint Extern 5 (moves (no_delivery _ _) (increment _)) =>
  apply no_delivery_field; intros; reflexivity : moves.

Lemma degrade_no_delivery o reason pid e : moves (no_delivery pid e) (degrade o reason).
Proof.
  unfold degrade. repeat first [solve [auto with moves] | eapply (quiet_no_delivery o); solve [auto with moves] | moves_step].
Qed.

Lemma expire_queue_no_delivery q put pid e : moves (no_delivery pid e) (expire_queue q put).
Proof. unfold expire_queue. repeat first [solve [auto with moves] | moves_step]. Qed.

Ltac nd_step pid e :=
  apply wp_bind; eapply (wp_moves (no_delivery pid e));
    [first [apply expire_queue_no_delivery
           | repeat first [apply degrade_no_delivery | solve [auto with moves] | moves_step]]
    |let ND := fresh "ND" in intros [] ? ND; cbn beta iota].

(** Expiry forgets no identifier before its time. *)
Lemma expireWork_no_delivery o pid e : moves (no_delivery pid e) (expireWork o).
Proof.
  intros s. unfold expireWork. do 2 (wp_prim; cbn beta iota).
  assert (ND0 : no_delivery pid e s s) by reflexivity.
  do 5 (nd_step pid e; [|etransitivity; [exact ND0|exact ND]];
        apply (no_delivery_trans _ _ _ _ _ ND0) in ND; clear ND0; rename ND into ND0).
  wp_prim. destruct ND0 as [Hd Hc He]. split; [done|done|]. intros Hle Hg.
  apply (map_get_filter _ _ _ _ (He Hle Hg)). cbn. apply negb_true_iff, Z.ltb_ge. done.
Qed.

(** C2: a DATA unit of a packet already delivered, and not yet forgotten, is
    never delivered again, whatever state the session is in. *)
Theorem delivered_not_repeated options s raw u expires :
  decodeFas1 raw = Ok u -> u_type u = Data ->
  map_get (u_packetId u) (s_delivered s) = Some expires -> s_clock s <= expires ->
  let s' := step options (Received raw) s in
  deliveries (s_log s') = deliveries (s_log s)
  /\ map_get (u_packetId u) (s_delivered s') = Some expires.
Proof.
  intros Hdec Ht Hg Hle. cbv zeta.
  assert (HR : no_delivery (u_packetId u) expires s (step options (Received raw) s));
    [|by destruct HR; auto].
  destruct (s_subscribed s) eqn:Hs;
    [|unfold step, handle, final, mbind, mget; rewrite Hs; reflexivity].
  rewrite step_received by done. set (R := no_delivery (u_packetId u) expires).
  assert (Hwp : wp (receive options raw) (fun _ s' => R s s') s); [|exact Hwp].
  unfold receive. rewrite Hdec. wp_prim; [by wp_prim|]. apply wp_try, wp_bind.
  unfold dispatch. rewrite Ht. unfold onData. apply wp_bind.
  eapply (wp_moves R); [apply expireWork_no_delivery|]. intros r s1 H1.
  destruct r; cbn beta iota; [|by wp_prim].
  assert (Hg1 : map_has (u_packetId u) (s_delivered s1) = true)
    by (apply map_has_get; exists expires; by apply H1).
  do 2 (wp_prim; cbn beta iota). rewrite Hg1.
  eapply (wp_moves R).
  { subst R. destruct (_ || _); repeat first [solve [auto with moves] | moves_step]. }
  intros r s2 H2. assert (H12 : R s s2) by (etransitivity; [exact H1|exact H2]).
  destruct r; cbn beta iota; [|by wp_prim]. do 2 (wp_prim; cbn beta iota).
  eapply (wp_moves R); [subst R; destruct (_ && _); [eapply (quiet_no_delivery options); auto with moves|apply moves_ret; exact _]|].
  intros r s3 H3. assert (R s s3) by (etransitivity; [exact H12|exact H3]).
  destruct r; cbn beta iota; [done|by wp_prim].
Qed.

Definition duplicate_raw : bytes := encoded (hd (mkUnit Data 0 1 1 1 0 1 1 []) delivery_fragments).
Definition duplicate_unit : Fas1Unit := hd (mkUnit Data 0 1 1 1 0 1 1 []) delivery_fragments.
Definition delivered_b : Session := run optionsB (map Received (map encoded delivery_arrived)) (b_after 17).

Lemma delivered_not_repeated_witness :
  let s' := step optionsB (Received duplicate_raw) delivered_b in
  deliveries (s_log s') = deliveries (s_log delivered_b)
  /\ map_get 1 (s_delivered s') = Some 600000.
Proof.
  apply (delivered_not_repeated optionsB delivered_b duplicate_raw duplicate_unit 600000);
    [vm_compute; reflexivity|vm_compute; reflexivity|vm_compute; reflexivity|vm_compute; discriminate].
Defined.
