(* ===== verification/SessionStates.v ===== *)
(** * The states of the acoustic session, and what leads into them

    [stays_out st] bounds what an operation does: it never brings a session
    into [st].  Only the handler of HEARTBEAT enters [Ready], only the handler
    of HELLO_ACK enters [CapsSent], and only the comparison of the settings'
    digests enters [AwaitingHeartbeat]. *)

From stdpp Require Import base list numbers option strings.
From Stdlib Require Import ZArith Lia SpecFloat.
From S2P Require Import Prelude Utf8 Doubles Fas1 Fas1Codec Settings Handshake Calibration SessionState Session SessionReceive SessionStep SessionFrame.

Definition stays_out (st : AcousticSessionState) (s s' : Session) : Prop :=
  s_state s' = st -> s_state s = st.

#[export] Instance stays_out_refl st : Reflexive (stays_out st).
Proof. intros s H. exact H. Qed.

#[export] Instance stays_out_trans st : Transitive (stays_out st).
Proof. intros s1 s2 s3 H1 H2 H. auto. Qed.

Lemma quiet_stays o st s s' : quiet o s s' -> stays_out st s s'.
Proof. intros HQ H. rewrite <- H. symmetry. exact (f_equal c_state (quiet_core _ _ _ HQ)). Qed.

Lemma moves_quiet_stays {A} o st (m : M Session A) : moves (quiet o) m -> moves (stays_out st) m.
Proof. intros Hm s. eapply wp_moves; [exact Hm|]. intros r s'. apply quiet_stays. Qed.

(** The states that are guarded by an authenticated unit. *)
Definition guarded (st : AcousticSessionState) : Prop :=
  st = Ready \/ st = CapsSent \/ st = AwaitingHeartbeat.

Lemma stays_assign st x :
  x <> st -> moves (stays_out st) (mmodify (set s_state (fun _ => x))).
Proof. intros Hx. apply moves_modify. intros s H. by destruct (Hx H). Qed.

Lemma stays_field st f : (forall s, s_state (f s) = s_state s) -> moves (stays_out st) (mmodify f).
Proof. intros Hf. apply moves_modify. intros s H. by rewrite <- Hf. Qed.

Ltac stays_leaf :=
  first
  [ solve [apply stays_field; intros; reflexivity]
  | solve [apply stays_assign; first [assumption | intros <-; unfold guarded in *; intuition discriminate]] ].

#[export] Hint Extern 5 (moves (stays_out _) (mmodify _)) => stays_leaf : moves.
#[export] Hint Extern 5 (moves (stays_out _) (increment _)) => unfold increment; stays_leaf : moves.

(** Operations built from quiet ones, assignments and each other. *)
Ltac stays_op o :=
  repeat first [ solve [auto with moves] | solve [eapply (moves_quiet_stays o); auto with moves] | moves_step ].

Section StaysOut.
Context (options : AcousticSessionOptions) (st : AcousticSessionState) (Hst : guarded st).
Local Abbreviation out m := (moves (stays_out st) m).

Lemma fail_stays reason : out (fail reason).
Proof. unfold fail. stays_op options. Qed.

Lemma degrade_stays reason : out (degrade options reason).
Proof. unfold degrade. stays_op options. Qed.

Lemma markHeartbeatMissed_stays : out (markHeartbeatMissed options).
Proof. unfold markHeartbeatMissed. stays_op options. Qed.
Hint Resolve fail_stays degrade_stays markHeartbeatMissed_stays : moves.

Lemma expire_queue_stays q put : out (expire_queue q put).
Proof. unfold expire_queue. stays_op options. Qed.
Hint Resolve expire_queue_stays : moves.

Lemma expireWork_stays : out (expireWork options).
Proof. unfold expireWork. stays_op options. Qed.
Hint Resolve expireWork_stays : moves.

Lemma send_units_stays us : out (send_units options us).
Proof.
  assert (Hs : forall u, out (sendUnit options u)).
  { intros u. unfold sendUnit, modem_send, emit. stays_op options. }
  induction us; cbn [send_units]; stays_op options.
Qed.
Hint Resolve send_units_stays : moves.

Lemma transmit_stays p missing : out (transmit options p missing).
Proof. unfold transmit. stays_op options. Qed.

Lemma take_active_stays : out take_active.
Proof. unfold take_active, dequeue. stays_op options. Qed.
Hint Resolve transmit_stays take_active_stays : moves.

Lemma driveTurn_stays : out (driveTurn options).
Proof. unfold driveTurn. stays_op options. Qed.
Hint Resolve driveTurn_stays : moves.

Lemma onAckTimeout_stays p a : out (onAckTimeout options p a).
Proof. unfold onAckTimeout. stays_op options. Qed.

Lemma heartbeat_stays : out (heartbeat options).
Proof. unfold heartbeat. stays_op options. Qed.

Lemma start_stays : out (start options).
Proof. unfold start. stays_op options. Qed.

Lemma retire_session_stays e : out (retire_session e).
Proof. unfold retire_session. stays_op options. Qed.
Hint Resolve onAckTimeout_stays heartbeat_stays start_stays retire_session_stays : moves.

Lemma initialState_out : initialState options <> st.
Proof. unfold initialState. destruct (o_role options); intros <-; unfold guarded in *; intuition discriminate. Qed.
Hint Resolve initialState_out : core.

Lemma reset_stays e : out (reset options e).
Proof. unfold reset. stays_op options. by apply stays_assign. Qed.
Hint Resolve reset_stays : moves.

Lemma dispose_stays : out (dispose options).
Proof. unfold dispose. stays_op options. Qed.

Lemma reset_and_start_stays e : out (reset_and_start options e).
Proof. unfold reset_and_start. stays_op options. Qed.
Hint Resolve reset_and_start_stays : moves.

Lemma restart_stays e sid : out (restart options e sid).
Proof. unfold restart. stays_op options. Qed.
Hint Resolve restart_stays : moves.

Lemma restartSession_stays : out (restartSession options).
Proof. unfold restartSession. stays_op options. Qed.
Hint Resolve restartSession_stays : moves.

Lemma onReset_stays sid : out (onReset options sid).
Proof. unfold onReset. stays_op options. Qed.

Lemma beginRecovery_stays : out (beginRecovery options).
Proof. unfold beginRecovery. stays_op options. Qed.
Hint Resolve beginRecovery_stays : moves.

(** ** Packets and handlers *)

Lemma queue_new_stays packet class : out (queue_new options packet class).
Proof. unfold queue_new, nextPacketId. stays_op options. Qed.
Hint Resolve queue_new_stays : moves.

Lemma enqueuePacket_stays packet class : out (enqueuePacket options packet class).
Proof. unfold enqueuePacket. stays_op options. Qed.

Lemma deliver_stays u p a : out (deliver u p a).
Proof. unfold deliver, emit. stays_op options. Qed.
Hint Resolve deliver_stays : moves.

Lemma accept_fragment_stays u p : out (accept_fragment u p).
Proof. unfold accept_fragment. stays_op options. Qed.
Hint Resolve accept_fragment_stays : moves.

Lemma onData_stays u : out (onData options u).
Proof. unfold onData. stays_op options. Qed.

Lemma onTurnEnd_stays sid : out (onTurnEnd options sid).
Proof. unfold onTurnEnd. stays_op options. Qed.

Lemma acknowledge_stays p b : out (acknowledge options p b).
Proof. unfold acknowledge. stays_op options. Qed.
Hint Resolve acknowledge_stays : moves.

Lemma onAck_stays sid p b : out (onAck options sid p b).
Proof. unfold onAck. stays_op options. Qed.

Lemma onHello_stays sid body : out (onHello options sid body).
Proof. unfold onHello. stays_op options. Qed.

Lemma onHelloAck_stays sid body : st <> CapsSent -> out (onHelloAck options sid body).
Proof. intros H. unfold onHelloAck. stays_op options. Qed.

Lemma completeDirection_stays d : out (completeDirection options d).
Proof. unfold completeDirection. stays_op options. Qed.
Hint Resolve completeDirection_stays : moves.

Lemma onCaps_stays sid body : out (onCaps options sid body).
Proof. unfold onCaps. stays_op options. Qed.

Lemma onProbe_stays sid body : out (onProbe options sid body).
Proof. unfold onProbe. stays_op options. Qed.

Lemma onReport_stays sid body : out (onReport options sid body).
Proof. unfold onReport. stays_op options. Qed.

Lemma onCommitAck_stays sid body : st <> AwaitingHeartbeat -> out (onCommitAck options sid body).
Proof. intros H. unfold onCommitAck. stays_op options. Qed.

Lemma onHeartbeat_stays sid : st <> Ready -> out (onHeartbeat options sid).
Proof. intros H. unfold onHeartbeat. stays_op options. Qed.

(** ** Callbacks, reactions and jobs *)

Lemma perform_stays a : out (perform options a).
Proof. unfold perform. stays_op options. Qed.
Hint Resolve perform_stays : moves.

Lemma run_callback_stays cb : out (run_callback options cb).
Proof.
  unfold run_callback, onDeliveryTimer, onHeartbeatDeadline, onHeartbeatTimer. stays_op options.
Qed.

Lemma run_continuation_stays k ok : out (run_continuation options k ok).
Proof. unfold run_continuation. stays_op options. Qed.

(** The stage compares a digest that was computed. *)
Definition compares (stage : JobStage) (ok : bool) (received digest : bytes) : Prop :=
  ok = true /\ stage = VerifyDigesting received (Ok digest).

Lemma await_throws_stays ok r (k : bytes -> M Session (option JobStage)) :
  (forall d, ok = true -> r = Ok d -> out (k d)) -> out (let! d := await ok r in k d).
Proof.
  intros H s. apply wp_bind. unfold await. destruct ok; [apply wp_lift|apply wp_throw; reflexivity].
  destruct r as [d|e]; [by apply H|reflexivity].
Qed.

Lemma run_stage_stays stage ok :
  st <> AwaitingHeartbeat \/ (forall received digest, ~ compares stage ok received digest) ->
  out (run_stage options stage ok).
Proof.
  intros H. unfold run_stage, begin_commit, send_commit, begin_verify.
  destruct stage; try (apply await_throws_stays; intros d Hok Hd); [stays_op options..|].
  destruct H as [H|H]; [|by destruct (H received d); split; [|by rewrite Hd]].
  unfold verify_commit. stays_op options.
Qed.

Lemma run_job_stays id job ok :
  st <> AwaitingHeartbeat \/ (forall received digest, ~ compares (job_stage job) ok received digest) ->
  out (run_job options id job ok).
Proof. intros H. pose proof (run_stage_stays _ ok H). unfold run_job. stays_op options. Qed.

End StaysOut.
