(* ===== verification/SessionGates.v ===== *)
(** * The gates of the acoustic session

    Which event can bring a session into [CapsSent], [AwaitingHeartbeat] and
    [Ready], and what that event proves about the peer: the handshake is
    bound to the configured peer and echoes the nonce of this session, the
    commit is an agreement on the settings of both directions, and readiness
    is a heartbeat of the session's identifier. *)

From stdpp Require Import base list numbers option strings.
From Stdlib Require Import ZArith Lia SpecFloat.
From S2P Require Import Prelude Utf8 Doubles Fas1 Fas1Codec Settings Handshake Calibration SessionState Session SessionReceive SessionStep SessionFrame SessionStates SessionSafe SessionRun.

Section Gates.
Context (options : AcousticSessionOptions).

(** A unit of the peer reached the dispatcher. *)
Definition peer_unit (e : Event) (u : Fas1Unit) : Prop :=
  exists raw, e = Received raw /\ decodeFas1 raw = Ok u
    /\ u_flags u = senderFlag (complement (o_role options)).

(** The job that compares the received digest with the local one. *)
Definition verifies (e : Event) (s : Session) (received digest : bytes) : Prop :=
  exists id after, e = Resumes id true
    /\ map_get id (s_jobs s) = Some (mkJob after (VerifyDigesting received (Ok digest))).

Lemma dispatch_stays st u :
  guarded st ->
  ~ (u_type u = Heartbeat /\ st = Ready) -> ~ (u_type u = HelloAck /\ st = CapsSent) ->
  ~ (u_type u = CommitAck /\ st = AwaitingHeartbeat) ->
  moves (stays_out st) (dispatch options u).
Proof.
  intros Hst H1 H2 H3. unfold dispatch. destruct (u_type u) eqn:E.
  all: first [ solve [eapply (moves_quiet_stays options); auto with moves] | idtac ].
  all: first
    [ by apply onHello_stays | by apply onCaps_stays | by apply onProbe_stays | by apply onReport_stays
    | by apply onData_stays | by apply onTurnEnd_stays | by apply onAck_stays | by apply onReset_stays
    | apply onHelloAck_stays; [done|]; intros ->; by apply H2
    | apply onCommitAck_stays; [done|]; intros ->; by apply H3
    | apply onHeartbeat_stays; [done|]; intros ->; by apply H1 ].
Qed.

(** After the handler of a unit, [receive] only arms timers. *)
Lemma receive_stays st raw u s :
  decodeFas1 raw = Ok u -> guarded st ->
  (u_flags u = senderFlag (complement (o_role options)) ->
   wp (dispatch options u) (fun _ s' => stays_out st s s') s) ->
  wp (receive options raw) (fun _ s' => stays_out st s s') s.
Proof.
  intros Hd Hst H. unfold receive. rewrite Hd. wp_prim; [by wp_prim|]. bool_split. specialize (H C).
  apply wp_try, wp_bind. eapply wp_mono; [exact H|]. intros [a|e] s1 H1; cbn beta iota; [|by wp_prim].
  do 2 (wp_prim; cbn beta iota). eapply (wp_moves (stays_out st)); [stays_op options|].
  intros r s2 H2. destruct r; [|wp_prim]; by etransitivity.
Qed.

Lemma step_wp (P : Session -> Prop) e s : wp (handle options e) (fun _ s' => P s') s -> P (step options e s).
Proof. intros H. exact H. Qed.

Lemma plain_event_stays st e :
  guarded st -> match e with Received _ | Resumes _ _ => False | _ => True end ->
  moves (stays_out st) (handle options e).
Proof.
  intros Hst He.
  pose proof (run_callback_stays options st Hst). pose proof (run_continuation_stays options st Hst).
  pose proof (start_stays options st Hst). pose proof (enqueuePacket_stays options st Hst).
  pose proof (heartbeat_stays options st Hst). pose proof (markHeartbeatMissed_stays options st Hst).
  pose proof (reset_stays options st Hst). pose proof (dispose_stays options st Hst).
  unfold handle. destruct e; try done; stays_op options.
Qed.

(** Entering a guarded state takes a unit of the peer, or a verified commit. *)
Lemma gate st e s :
  guarded st -> s_state s <> st -> s_state (step options e s) = st ->
  (exists u, peer_unit e u /\ ((u_type u = Heartbeat /\ st = Ready) \/ (u_type u = HelloAck /\ st = CapsSent)
     \/ (u_type u = CommitAck /\ st = AwaitingHeartbeat)))
  \/ (st = AwaitingHeartbeat /\ exists received digest, verifies e s received digest).
Proof.
  intros Hst Hs Hs'.
  assert (Hno : ~ stays_out st s (step options e s)) by auto.
  destruct (match e with Received _ | Resumes _ _ => false | _ => true end) eqn:He.
  { destruct Hno. apply step_wp, (plain_event_stays st e Hst). by destruct e. }
  destruct e as [|raw| | |id ok| | | | | |]; try done; clear He.
  - left. destruct (decodeFas1 raw) as [u|] eqn:Hd.
    2:{ destruct Hno. unfold step, handle, receive. rewrite Hd. unfold final, mbind, mget.
        by destruct (s_subscribed s). }
    destruct (decide (u_flags u = senderFlag (complement (o_role options)))) as [Hf|Hf].
    2:{ destruct Hno. unfold step, handle, receive. rewrite Hd, (proj2 (Z.eqb_neq _ _) Hf).
        unfold final, mbind, mget. by destruct (s_subscribed s). }
    destruct (decide ((u_type u = Heartbeat /\ st = Ready) \/ (u_type u = HelloAck /\ st = CapsSent)
      \/ (u_type u = CommitAck /\ st = AwaitingHeartbeat))) as [Ht|Ht].
    { exists u. split; [by exists raw|done]. }
    destruct Hno. apply step_wp.
    unfold handle. do 2 (wp_prim; cbn beta iota). wp_prim; [by wp_prim|].
    apply (receive_stays st raw u s Hd Hst). intros _. apply dispatch_stays; tauto.
  - right. destruct (map_get id (s_jobs s)) as [job|] eqn:Hj.
    2:{ destruct Hno. unfold step, handle, final, mbind, mget. by rewrite Hj. }
    assert (Hrun : ~ moves (stays_out st) (run_job options id job ok)).
    { intros Hrun. apply Hno, step_wp.
      unfold handle. do 2 (wp_prim; cbn beta iota). rewrite Hj. wp_prim; [by wp_prim|]. apply Hrun. }
    destruct (decide (st = AwaitingHeartbeat)) as [->|Hne];
      [split; [done|]|destruct Hrun; apply run_job_stays; auto].
    destruct job as [after [| | | |received [digest|m]]], ok; cbn [job_stage] in *.
    all: try (destruct Hrun; apply run_job_stays; [done|]; right; by intros ? ? [? [=]]).
    exists received, digest, id, after. done.
Qed.

(** A unit whose handler stays out of [st] in this state does not enter it. *)
Lemma unit_stays st raw u s :
  decodeFas1 raw = Ok u -> guarded st ->
  wp (dispatch options u) (fun _ s' => stays_out st s s') s ->
  stays_out st s (step options (Received raw) s).
Proof.
  intros Hd Hst H. apply step_wp. unfold handle. do 2 (wp_prim; cbn beta iota).
  wp_prim; [by wp_prim|]. by apply (receive_stays st raw u s).
Qed.

Lemma ready_by_heartbeat e s :
  s_state s <> Ready -> s_state (step options e s) = Ready ->
  exists u, peer_unit e u /\ u_type u = Heartbeat /\ Some (u_sessionId u) = s_sessionId s
    /\ (s_state s = AwaitingHeartbeat \/ s_state s = Degraded \/ s_state s = Recovering).
Proof.
  intros Hs Hs'. assert (Hst : guarded Ready) by (by left).
  destruct (gate Ready e s Hst Hs Hs') as [(u & Hp & [[Ht _]|[[_ ?]|[_ ?]]])|[? _]]; [|done..].
  destruct Hp as (raw & -> & Hd & Hf). exists u.
  split; [by exists raw|]. split; [done|].
  destruct (decide (Some (u_sessionId u) = s_sessionId s /\ (s_state s = AwaitingHeartbeat
    \/ s_state s = Degraded \/ s_state s = Recovering))) as [?|Hno]; [done|].
  exfalso. apply Hs, (unit_stays Ready raw u s Hd Hst); [|done].
  unfold dispatch. rewrite Ht. unfold onHeartbeat. do 2 (wp_prim; cbn beta iota). cbv zeta.
  wp_prim; [by wp_prim|]. exfalso. apply Hno. unfold same_id, is_state in *. bool_split. split; [done|].
  repeat match goal with H : _ && _ = false |- _ => apply andb_false_iff in H as [H|H] end;
    bool_split; try tauto.
  match goal with H : _ || _ = true |- _ => apply orb_true_iff in H as [?|?] end; bool_split; tauto.
Qed.

(** What A knows of the HELLO_ACK it accepts. *)
Record accepted_hello_ack (h : Handshake) (s : Session) : Prop := {
  ha_role : hs_role h = complement (o_role options);
  ha_from : hs_identity h = o_expectedPeer options;
  ha_to : hs_expectedPeer h = o_identity options;
  ha_epoch : hs_epoch h = s_epoch s;
  ha_profiles : hs_profiles h = o_profiles options;
  ha_ranges : mutualRange options (hs_ranges h) = true;
  ha_echo : equal (hs_echoedNonce h) (s_localNonce s) = true;
}.

Lemma bound_to_peer_spec h s :
  bound_to_peer options h s = true -> equal (hs_echoedNonce h) (s_localNonce s) = true ->
  accepted_hello_ack h s.
Proof.
  unfold bound_to_peer. intros H He. bool_split. constructor; try done. by apply sameProfiles_spec.
Qed.

Lemma caps_by_echo e s :
  s_state s <> CapsSent -> s_state (step options e s) = CapsSent ->
  o_role options = RoleA /\ s_state s = HelloSent
  /\ exists u h, peer_unit e u /\ u_type u = HelloAck /\ Some (u_sessionId u) = s_sessionId s
       /\ decodeHandshake (u_body u) = Ok h /\ accepted_hello_ack h s.
Proof.
  intros Hs Hs'. assert (Hst : guarded CapsSent) by (by right; left).
  destruct (gate CapsSent e s Hst Hs Hs') as [(u & Hp & [[_ ?]|[[Ht _]|[_ ?]]])|[? _]]; [done| |done..].
  destruct Hp as (raw & -> & Hd & Hf).
  assert (Hin : stays_out CapsSent s (step options (Received raw) s) -> False) by auto.
  destruct (negb (is_role (o_role options) RoleA) || negb (is_state s HelloSent)
    || negb (same_id (u_sessionId u) (s_sessionId s)) || negb (defined (s_localNonce s))) eqn:G.
  { destruct Hin. apply (unit_stays _ raw u s Hd Hst). unfold dispatch. rewrite Ht. unfold onHelloAck.
    do 2 (wp_prim; cbn beta iota). rewrite G. by wp_prim. }
  destruct (decodeHandshake (u_body u)) as [h|m] eqn:Hh.
  2:{ destruct Hin. apply (unit_stays _ raw u s Hd Hst). unfold dispatch. rewrite Ht. unfold onHelloAck.
      do 2 (wp_prim; cbn beta iota). rewrite G, Hh. wp_prim. by apply wp_lift. }
  destruct (negb (bound_to_peer options h s) || negb (equal (hs_echoedNonce h) (s_localNonce s))) eqn:G2.
  { destruct Hin. apply (unit_stays _ raw u s Hd Hst). unfold dispatch. rewrite Ht. unfold onHelloAck.
    do 2 (wp_prim; cbn beta iota). rewrite G, Hh. wp_prim. apply wp_lift. rewrite G2. by wp_prim. }
  unfold is_role, is_state, same_id in G. bool_split. do 2 (split; [done|]). exists u, h.
  split; [by exists raw|]. do 3 (split; [done|]). by apply bound_to_peer_spec.
Qed.

Lemma awaiting_by_agreement e s :
  s_state s <> AwaitingHeartbeat -> s_state (step options e s) = AwaitingHeartbeat ->
  (exists received digest, verifies e s received digest /\ equal (Some received) (Some digest) = true)
  \/ (o_role options = RoleB /\ s_state s = Committing /\ exists u, peer_unit e u /\ u_type u = CommitAck
      /\ Some (u_sessionId u) = s_sessionId s /\ equal (Some (u_body u)) (s_settingsDigest s) = true).
Proof.
  intros Hs Hs'. assert (Hst : guarded AwaitingHeartbeat) by (by right; right).
  destruct (gate _ e s Hst Hs Hs') as [(u & Hp & [[_ ?]|[[_ ?]|[Ht _]]])|(_ & received & digest & Hv)];
    [done|done|right|left].
  - destruct Hp as (raw & -> & Hd & Hf).
    assert (Hin : stays_out AwaitingHeartbeat s (step options (Received raw) s) -> False) by auto.
    destruct (negb (is_role (o_role options) RoleB) || negb (is_state s Committing)
         || negb (same_id (u_sessionId u) (s_sessionId s))
         || negb (equal (Some (u_body u)) (s_settingsDigest s))) eqn:G.
    { destruct Hin. apply (unit_stays _ raw u s Hd Hst). unfold dispatch. rewrite Ht. unfold onCommitAck.
      do 2 (wp_prim; cbn beta iota). rewrite G. by wp_prim. }
    unfold is_role, is_state, same_id in G. bool_split. do 2 (split; [done|]). exists u.
    split; [by exists raw|]. by repeat split.
  - exists received, digest. split; [done|]. destruct Hv as (id & after & -> & Hj).
    destruct (equal (Some received) (Some digest)) eqn:E; [done|]. exfalso. apply Hs.
    revert Hs'. apply (step_wp (stays_out AwaitingHeartbeat s)).
    unfold handle. do 2 (wp_prim; cbn beta iota). rewrite Hj. cbn [job_stage]. unfold run_job. cbn [job_stage run_stage].
    eapply (wp_moves (stays_out AwaitingHeartbeat)); [|by intros].
    pose proof (fail_stays options _ Hst).
    apply moves_bind; [exact _| |intros [?|]; stays_op options].
    apply moves_try; [exact _| |intros; stays_op options].
    intros s0. unfold await. apply wp_bind, wp_lift. unfold verify_commit. rewrite E. cbn [negb]. revert s0.
    match goal with |- forall s0, wp ?m _ s0 => change (moves (stays_out AwaitingHeartbeat) m) end.
    stays_op options.
Qed.

End Gates.

(** ** The gates, as properties of a step *)

(** C4: a session becomes [Ready] only by a HEARTBEAT of the peer's role that
    carries the session's own identifier, and only from [AwaitingHeartbeat],
    [Degraded] or [Recovering]: neither a timer, nor a completed playback, nor
    any other unit or call can make it ready. *)
Theorem ready_only_by_heartbeat options e s :
  s_state s <> Ready -> s_state (step options e s) = Ready ->
  exists u, peer_unit options e u /\ u_type u = Heartbeat /\ Some (u_sessionId u) = s_sessionId s
    /\ (s_state s = AwaitingHeartbeat \/ s_state s = Degraded \/ s_state s = Recovering).
Proof. apply ready_by_heartbeat. Qed.

Lemma ready_only_by_heartbeat_witness :
  exists u, peer_unit optionsA (Received (sent_unit 7 (b_after 15))) u /\ u_type u = Heartbeat
    /\ Some (u_sessionId u) = s_sessionId (a_after 15)
    /\ (s_state (a_after 15) = AwaitingHeartbeat \/ s_state (a_after 15) = Degraded
        \/ s_state (a_after 15) = Recovering).
Proof. apply ready_only_by_heartbeat; vm_compute; [discriminate|reflexivity]. Defined.

(** C5: A leaves the handshake only with a HELLO_ACK that decodes, comes from
    the configured peer and is addressed to this side, in the current epoch,
    offers the same profiles and a compatible range, and echoes the nonce A
    drew for this session. *)
Theorem caps_only_by_echo options e s :
  s_state s <> CapsSent -> s_state (step options e s) = CapsSent ->
  o_role options = RoleA /\ s_state s = HelloSent
  /\ exists u h, peer_unit options e u /\ u_type u = HelloAck /\ Some (u_sessionId u) = s_sessionId s
       /\ decodeHandshake (u_body u) = Ok h /\ accepted_hello_ack options h s.
Proof. apply caps_by_echo. Qed.

Lemma caps_only_by_echo_witness :
  let e := Received (sent_unit 0 (b_after 1)) in
  o_role optionsA = RoleA /\ s_state (a_after 1) = HelloSent
  /\ exists u h, peer_unit optionsA e u /\ u_type u = HelloAck /\ Some (u_sessionId u) = s_sessionId (a_after 1)
       /\ decodeHandshake (u_body u) = Ok h /\ accepted_hello_ack optionsA h (a_after 1).
Proof. apply caps_only_by_echo; vm_compute; [discriminate|reflexivity]. Defined.

(** A session awaits its first heartbeat only after the digests were
    compared: A when the digest it received equals the one it computed of its
    own selection, B when the acknowledgement repeats the digest it sent. *)
Theorem awaiting_only_by_digest options e s :
  s_state s <> AwaitingHeartbeat -> s_state (step options e s) = AwaitingHeartbeat ->
  (exists received digest, verifies e s received digest /\ equal (Some received) (Some digest) = true)
  \/ (o_role options = RoleB /\ s_state s = Committing /\ exists u, peer_unit options e u /\ u_type u = CommitAck
      /\ Some (u_sessionId u) = s_sessionId s /\ equal (Some (u_body u)) (s_settingsDigest s) = true).
Proof. apply awaiting_by_agreement. Qed.

(** The job A has suspended at its digest. *)
Definition verifying_job : nat := match s_jobs (a_after 13) with (id, _) :: _ => id | [] => 0%nat end.

Lemma awaiting_only_by_digest_witness :
  let e := Resumes verifying_job true in let s := a_after 13 in
  (exists received digest, verifies e s received digest /\ equal (Some received) (Some digest) = true)
  \/ (o_role optionsA = RoleB /\ s_state s = Committing /\ exists u, peer_unit optionsA e u /\ u_type u = CommitAck
      /\ Some (u_sessionId u) = s_sessionId s /\ equal (Some (u_body u)) (s_settingsDigest s) = true).
Proof. apply awaiting_only_by_digest; vm_compute; [discriminate|reflexivity]. Defined.

(** ** The commit is an agreement *)

Lemma begin_verify_digest options received s d :
  outcome (begin_verify options received) s = Ok (Some (VerifyDigesting received (Ok d))) ->
  exists settings, s_settings (final (begin_verify options received) s) = Some settings
    /\ digestSettings (o_sha256 options) settings = Ok d.
Proof.
  unfold begin_verify, outcome, final, mbind, mget. destruct (negb _ || negb _); [done|].
  destruct (selected_settings s) as [settings|]; [|done]. cbn. intros [= H]. by exists settings.
Qed.

Lemma verify_commit_equal options received d s :
  s_state s <> AwaitingHeartbeat -> s_state (final (verify_commit options received d) s) = AwaitingHeartbeat ->
  equal (Some received) (Some d) = true.
Proof.
  intros Hs Hs'. destruct (equal (Some received) (Some d)) eqn:E; [done|]. exfalso.
  assert (Hst : guarded AwaitingHeartbeat) by (by right; right).
  apply Hs. revert Hs'. change (wp (verify_commit options received d) (fun _ s' => stays_out AwaitingHeartbeat s s') s).
  unfold verify_commit. rewrite E. cbn [negb].
  eapply (wp_moves (stays_out AwaitingHeartbeat)); [|done].
  pose proof (fail_stays options _ Hst). stays_op options.
Qed.

(** C3: when A accepts B's COMMIT, the settings A puts in force and the ones
    B hashed agree in both directions, or the two canonical forms are a
    collision of the hash. *)
Theorem commit_agreement options received d theirs s s1 :
  bytes_ok received -> bytes_ok d ->
  outcome (begin_verify options received) s = Ok (Some (VerifyDigesting received (Ok d))) ->
  digestSettings (o_sha256 options) theirs = Ok received ->
  s_state s1 <> AwaitingHeartbeat ->
  s_state (final (verify_commit options received d) s1) = AwaitingHeartbeat ->
  exists ours, s_settings (final (begin_verify options received) s) = Some ours
    /\ ((same_direction (aToB ours) (aToB theirs) /\ same_direction (bToA ours) (bToA theirs))
        \/ exists c1 c2, canonicalizeSettings ours = Ok c1 /\ canonicalizeSettings theirs = Ok c2
            /\ c1 <> c2 /\ o_sha256 options c1 = o_sha256 options c2).
Proof.
  intros Hr Hd Hb Ht Hs Hs'. apply begin_verify_digest in Hb as (ours & Hours & Hdig).
  apply verify_commit_equal, equal_spec in Hs'; [subst d|done..].
  exists ours. split; [done|]. unfold digestSettings in *. result_inv.
  destruct (decide (a0 = a)) as [->|Hne]; [left; by eapply canonical_same|].
  right. exists a0, a. repeat split; congruence.
Qed.

Definition committing_a : Session := run optionsA [Received (sent_unit 6 (b_after 12))] (a_after 12).
Definition committed_b : AcousticSettings :=
  match s_settings (b_after 12) with Some st => st | None => mkSettings sample_direction sample_direction end.
Definition committed_digest : bytes := default [] (s_settingsDigest (b_after 12)).

Lemma commit_agreement_witness :
  exists ours, s_settings (final (begin_verify optionsA committed_digest) committing_a) = Some ours
    /\ ((same_direction (aToB ours) (aToB committed_b) /\ same_direction (bToA ours) (bToA committed_b))
        \/ exists c1 c2, canonicalizeSettings ours = Ok c1 /\ canonicalizeSettings committed_b = Ok c2
            /\ c1 <> c2 /\ o_sha256 optionsA c1 = o_sha256 optionsA c2).
Proof.
  assert (Hok : bytes_ok committed_digest) by (apply bytes_ok_check; vm_compute; reflexivity).
  apply (commit_agreement optionsA committed_digest committed_digest committed_b committing_a committing_a);
    [exact Hok|exact Hok|vm_compute; reflexivity|vm_compute; reflexivity|vm_compute; discriminate|vm_compute; reflexivity].
Defined.
