(* ===== verification/Fwav.v ===== *)
(** * The FWAV envelope ([packages/bridge/src/protocol.ts])

    The fixed 32-byte envelope between the browser and the local bridge: the
    validation of a frame, its encoder and decoder, the sub-formats of its
    payloads, and the tracker of a stream's epoch and sequence numbers. *)

From stdpp Require Import base list numbers option strings.
From Stdlib Require Import ZArith Lia Sorted.
From S2P Require Import Prelude.

Definition FWAV_MAGIC : bytes := [70; 87; 65; 86].
Definition FWAV_VERSION : Z := 1.
Definition FWAV_HEADER_BYTES : Z := 32.
Definition MAX_MESSAGE_BYTES : Z := 256 * 1024.
Definition MAX_PAYLOAD_BYTES : Z := MAX_MESSAGE_BYTES - FWAV_HEADER_BYTES.
Definition PCM_SAMPLE_INDEX_BYTES : Z := 8.
Definition CYRINX_PCM_PLAYBACK_FLAG : Z := 1.
Definition RESET_ACK_FLAG : Z := 1.
Definition ACOUSTIC_READINESS_PROOF_BYTES : Z := 64.
Definition ACOUSTIC_DISARM_CAPABILITY_BYTES : Z := 16.
Definition ACOUSTIC_READINESS_FRESHNESS_MS : Z := 15000.

(** ** Enumerations *)

Inductive FipsTrafficClass := ClassControl | ClassHeartbeat | ClassOrdinary.

#[export] Instance FipsTrafficClass_eq_dec : EqDecision FipsTrafficClass.
Proof. solve_decision. Defined.

Definition traffic_class_code (class : FipsTrafficClass) : Z :=
  match class with ClassControl => 1 | ClassHeartbeat => 2 | ClassOrdinary => 3 end.

Inductive MessageType :=
  | HELLO | AUDIO_SETTINGS | PCM_CAPTURE | PCM_PLAYBACK | QUALIFICATION_CASE | QUALIFICATION_RESULT
  | ERROR | RESET | FIPS_PACKET | BROWSER_ARM | BROWSER_DISARM | ACOUSTIC_READY | ACOUSTIC_DISARM
  | FIPS_PACKET_ADMISSION.

#[export] Instance MessageType_eq_dec : EqDecision MessageType.
Proof. solve_decision. Defined.

Definition message_type_code (type : MessageType) : Z :=
  match type with
  | HELLO => 1 | AUDIO_SETTINGS => 2 | PCM_CAPTURE => 3 | PCM_PLAYBACK => 4 | QUALIFICATION_CASE => 5
  | QUALIFICATION_RESULT => 6 | ERROR => 7 | RESET => 8 | FIPS_PACKET => 9 | BROWSER_ARM => 10
  | BROWSER_DISARM => 11 | ACOUSTIC_READY => 12 | ACOUSTIC_DISARM => 13 | FIPS_PACKET_ADMISSION => 14
  end.

Definition isMessageType (value : Z) : option MessageType :=
  match value with
  | 1 => Some HELLO | 2 => Some AUDIO_SETTINGS | 3 => Some PCM_CAPTURE | 4 => Some PCM_PLAYBACK
  | 5 => Some QUALIFICATION_CASE | 6 => Some QUALIFICATION_RESULT | 7 => Some ERROR | 8 => Some RESET
  | 9 => Some FIPS_PACKET | 10 => Some BROWSER_ARM | 11 => Some BROWSER_DISARM
  | 12 => Some ACOUSTIC_READY | 13 => Some ACOUSTIC_DISARM | 14 => Some FIPS_PACKET_ADMISSION
  | _ => None
  end.

Definition FIPS_PACKET_ADMISSION_ACCEPTED : Z := 1.
Definition FIPS_PACKET_ADMISSION_QUEUE_FULL : Z := 2.

Definition PCM_NONE : Z := 0.
Definition FLOAT32_LE : Z := 1.

(** A frame, with the optional fields of the source; the traffic class and
    the encoding are the numbers read from the wire. *)
Record FwavFrame := mkFrame {
  f_type : MessageType;
  f_flags : option Z;
  f_trafficClass : option Z;
  f_epoch : Z;
  f_sequence : Z;
  f_sampleRate : option Z;
  f_channels : option Z;
  f_encoding : option Z;
  f_payload : bytes;
}.

#[export] Instance FwavFrame_eq_dec : EqDecision FwavFrame.
Proof. solve_decision. Defined.

Definition fwav (message : string) : string := ("FWAV " +:+ message)%string.

(** ** Payloads *)

Record AcousticReadinessProof := mkReadiness {
  rp_sessionId : Z; rp_settingsDigest : bytes; rp_heartbeatAtMs : Z; rp_capability : bytes }.

Definition decodeAcousticReadinessProof (payload : bytes) : result AcousticReadinessProof :=
  reject_if negb (zlen payload =? ACOUSTIC_READINESS_PROOF_BYTES)
    with fwav "acoustic readiness proof size is invalid";
  let sessionId := read_le 8 0 payload in
  let settingsDigest := slice payload 8 40 in
  let capability := slice payload 48 64 in
  reject_if (sessionId =? 0) || all_zero settingsDigest || all_zero capability
    with fwav "acoustic readiness proof is invalid";
  Ok {| rp_sessionId := sessionId; rp_settingsDigest := settingsDigest;
        rp_heartbeatAtMs := read_le 8 40 payload; rp_capability := capability |}.

Definition encodePcmPayload (firstSampleIndex : Z) (samples : bytes) : result bytes :=
  reject_if (firstSampleIndex <? 0) || (UINT64_MAX <? firstSampleIndex)
    with fwav "PCM first sample index is out of range";
  Ok (le_bytes 8 firstSampleIndex ++ samples).

Definition decodePcmPayload (payload : bytes) (channels : Z) : result (Z * bytes) :=
  reject_if (channels <=? 0) || (65535 <? channels) with fwav "PCM channel count is out of range";
  reject_if (zlen payload <=? PCM_SAMPLE_INDEX_BYTES)
         || negb ((zlen payload - PCM_SAMPLE_INDEX_BYTES) mod (4 * channels) =? 0)
    with fwav "PCM payload is not sample-index aligned";
  Ok (read_le 8 0 payload, drop 8 payload).

Definition decodeFipsPacketAdmission (payload : bytes) : result Z :=
  match payload with
  | [code] =>
      reject_if negb (code =? FIPS_PACKET_ADMISSION_ACCEPTED)
             && negb (code =? FIPS_PACKET_ADMISSION_QUEUE_FULL)
        with fwav "FIPS packet admission result is unsupported";
      Ok code
  | _ => Throw (fwav "FIPS packet admission must contain exactly one result byte")
  end.

Definition isFipsTrafficClass (value : Z) : bool :=
  (value =? 1) || (value =? 2) || (value =? 3).

(** ** Validation *)

Definition validateInteger (value : Z) (name : string) (maximum : Z) : result unit :=
  require_not ((value <? 0) || (maximum <? value)) (fwav (name +:+ " is out of range")).

Definition is_message (type : MessageType) (frame : FwavFrame) : bool :=
  bool_decide (f_type frame = type).

Definition is_some {A} (o : option A) : bool := match o with Some _ => true | None => false end.

(** The traffic class and the flags of FIPS packets. *)
Definition validate_class (frame : FwavFrame) (trafficClass : Z) : result unit :=
  if is_message FIPS_PACKET frame then
    reject_if negb (default 0 (f_flags frame) =? 0) with fwav "FIPS packet must not declare flags";
    require_not (negb (isFipsTrafficClass trafficClass)) (fwav "traffic class is unsupported")
  else require_not (is_some (f_trafficClass frame)) (fwav "traffic class is only valid for FIPS packets").

(** The control messages of the acoustic session. *)
Definition validate_controls (frame : FwavFrame) : result unit :=
  let flags := default 0 (f_flags frame) in
  reject_if (is_message ACOUSTIC_READY frame || is_message ACOUSTIC_DISARM frame)
         && (negb (flags =? 0) || negb (f_sequence frame =? 0))
    with fwav "acoustic readiness control must have zero flags and sequence";
  let? _ := (if is_message ACOUSTIC_READY frame
             then let? _ := decodeAcousticReadinessProof (f_payload frame) in Ok tt else Ok tt) in
  reject_if is_message ACOUSTIC_DISARM frame
         && negb (zlen (f_payload frame) =? ACOUSTIC_DISARM_CAPABILITY_BYTES)
    with fwav "acoustic disarm capability size is invalid";
  if is_message FIPS_PACKET_ADMISSION frame then
    reject_if negb (flags =? 0) with fwav "FIPS packet admission must not declare flags";
    let? _ := decodeFipsPacketAdmission (f_payload frame) in Ok tt
  else Ok tt.

(** The PCM format, which only PCM messages declare. *)
Definition validate_pcm (frame : FwavFrame) (sampleRate channels encoding : Z) : result unit :=
  let? _ := validateInteger sampleRate "sample rate" UINT32_MAX in
  let? _ := validateInteger channels "channel count" UINT16_MAX in
  let? _ := validateInteger encoding "encoding" UINT16_MAX in
  if is_message PCM_CAPTURE frame || is_message PCM_PLAYBACK frame then
    reject_if sampleRate =? 0 with fwav "sample rate must be declared for PCM";
    reject_if channels =? 0 with fwav "channel count must be declared for PCM";
    reject_if negb (encoding =? FLOAT32_LE) with fwav "PCM encoding is unsupported";
    let? _ := decodePcmPayload (f_payload frame) channels in Ok tt
  else require_not (negb (sampleRate =? 0) || negb (channels =? 0) || negb (encoding =? PCM_NONE))
         (fwav "non-PCM messages must not declare PCM format").

(** [frame.trafficClass ?? FipsTrafficClass.Ordinary] *)
Definition class_of (frame : FwavFrame) : Z :=
  default (traffic_class_code ClassOrdinary) (f_trafficClass frame).

(** The frame [validateFrame] returns: the defaults spelled out. *)
Definition with_defaults (frame : FwavFrame) : FwavFrame := {|
  f_type := f_type frame; f_flags := Some (default 0 (f_flags frame));
  f_trafficClass := if is_message FIPS_PACKET frame then Some (class_of frame) else f_trafficClass frame;
  f_epoch := f_epoch frame; f_sequence := f_sequence frame;
  f_sampleRate := Some (default 0 (f_sampleRate frame));
  f_channels := Some (default 0 (f_channels frame));
  f_encoding := Some (default PCM_NONE (f_encoding frame));
  f_payload := f_payload frame |}.

Definition validateFrame (frame : FwavFrame) : result FwavFrame :=
  let? _ := validateInteger (default 0 (f_flags frame)) "flags" UINT16_MAX in
  let? _ := validateInteger (f_epoch frame) "epoch" UINT32_MAX in
  reject_if (f_sequence frame <? 0) || (UINT64_MAX <? f_sequence frame)
    with fwav "sequence is out of range";
  reject_if MAX_PAYLOAD_BYTES <? zlen (f_payload frame) with fwav "message exceeds the 256 KiB cap";
  let? _ := validate_class frame (class_of frame) in
  let? _ := validate_controls frame in
  let? _ := validate_pcm frame (default 0 (f_sampleRate frame)) (default 0 (f_channels frame))
              (default PCM_NONE (f_encoding frame)) in
  Ok (with_defaults frame).

(** ** Encoding *)

(** Bytes 6 and 7: the traffic class of a packet, else the flags. *)
Definition class_or_flags (frame : FwavFrame) : bytes :=
  if is_message FIPS_PACKET frame
  then le_bytes 1 (default 0 (f_trafficClass frame)) ++ [0]
  else le_bytes 2 (default 0 (f_flags frame)).

Definition fwav_header (frame : FwavFrame) : bytes :=
  FWAV_MAGIC ++ [FWAV_VERSION; message_type_code (f_type frame)] ++ class_or_flags frame
  ++ le_bytes 4 (zlen (f_payload frame)) ++ le_bytes 4 (f_epoch frame) ++ le_bytes 8 (f_sequence frame)
  ++ le_bytes 4 (default 0 (f_sampleRate frame)) ++ le_bytes 2 (default 0 (f_channels frame))
  ++ le_bytes 2 (default 0 (f_encoding frame)).

Definition encodeFrame (frame : FwavFrame) : result bytes :=
  let? valid := validateFrame frame in
  Ok (fwav_header valid ++ f_payload valid).

(** [toString('ascii')] drops the high bit of every byte. *)
Definition ascii_string (l : bytes) : bytes := map (fun b => b mod 128) l.

Definition decodeFrame (input : bytes) : result FwavFrame :=
  reject_if zlen input <? FWAV_HEADER_BYTES with fwav "message is shorter than the 32-byte header";
  reject_if MAX_MESSAGE_BYTES <? zlen input with fwav "message exceeds the 256 KiB cap";
  reject_if negb (bool_decide (ascii_string (slice input 0 4) = FWAV_MAGIC)) with fwav "magic is invalid";
  reject_if negb (read_le 1 4 input =? FWAV_VERSION) with fwav "version is unsupported";
  match isMessageType (read_le 1 5 input) with
  | None => Throw (fwav "message type is unsupported")
  | Some type =>
      let payloadLength := read_le 4 8 input in
      reject_if (MAX_PAYLOAD_BYTES <? payloadLength)
             || negb (zlen input =? FWAV_HEADER_BYTES + payloadLength)
        with fwav "declared payload length does not match message";
      let packet := bool_decide (type = FIPS_PACKET) in
      validateFrame {|
        f_type := type;
        f_flags := Some (if packet then js_shl (read_le 1 7 input) 8 else read_le 2 6 input);
        f_trafficClass := if packet then Some (read_le 1 6 input) else None;
        f_epoch := read_le 4 12 input; f_sequence := read_le 8 16 input;
        f_sampleRate := Some (read_le 4 24 input); f_channels := Some (read_le 2 28 input);
        f_encoding := Some (read_le 2 30 input); f_payload := drop 32 input |}
  end.

(** ** Epochs *)

(** [EpochTracker] *)
Record EpochTracker := mkTracker { et_epoch : Z; et_lastSequence : Z }.

Definition new_tracker : EpochTracker := mkTracker 0 (-1).

Definition tracker_reset (t : EpochTracker) : result EpochTracker :=
  reject_if et_epoch t =? UINT32_MAX with fwav "epoch cannot be incremented";
  Ok (mkTracker (et_epoch t + 1) (-1)).

Definition tracker_accept (frame : FwavFrame) (t : EpochTracker) : result EpochTracker :=
  reject_if negb (f_epoch frame =? et_epoch t) with fwav "frame belongs to a stale epoch";
  reject_if f_sequence frame <=? et_lastSequence t with fwav "sequence is duplicate or stale";
  Ok (mkTracker (et_epoch t) (f_sequence frame)).

(** ** Round trips *)

Lemma isMessageType_code t : isMessageType (message_type_code t) = Some t.
Proof. by destruct t. Qed.

Lemma isMessageType_inv v t : isMessageType v = Some t -> message_type_code t = v.
Proof.
  unfold isMessageType. intros H.
  repeat match type of H with
  | match ?x with _ => _ end = _ => destruct x; try discriminate H
  end; by injection H as <-.
Qed.

Lemma validateInteger_ok v name m r : validateInteger v name m = Ok r -> 0 <= v <= m.
Proof. unfold validateInteger, require_not. intros H. destruct (_ || _) eqn:E; [done|]. bool_split. lia. Qed.

Lemma validateInteger_intro v name m : 0 <= v <= m -> validateInteger v name m = Ok tt.
Proof.
  intros [H1 H2]. unfold validateInteger.
  by rewrite (proj2 (Z.ltb_ge v 0)), (proj2 (Z.ltb_ge m v)) by done.
Qed.

(** A frame as validation leaves it. *)
Record normal_frame (f : FwavFrame) : Prop := {
  nf_flags : exists flags, f_flags f = Some flags /\ 0 <= flags <= UINT16_MAX
             /\ (f_type f = FIPS_PACKET -> flags = 0);
  nf_class : if bool_decide (f_type f = FIPS_PACKET)
             then exists c, f_trafficClass f = Some c /\ 1 <= c <= 3
             else f_trafficClass f = None;
  nf_epoch : 0 <= f_epoch f <= UINT32_MAX;
  nf_sequence : 0 <= f_sequence f <= UINT64_MAX;
  nf_sampleRate : exists r, f_sampleRate f = Some r /\ 0 <= r <= UINT32_MAX;
  nf_channels : exists c, f_channels f = Some c /\ 0 <= c <= UINT16_MAX;
  nf_encoding : exists e, f_encoding f = Some e /\ 0 <= e <= UINT16_MAX;
  nf_payload : zlen (f_payload f) <= MAX_PAYLOAD_BYTES;
}.

Lemma validate_pcm_ok f r c e v :
  validate_pcm f r c e = Ok v -> 0 <= r <= UINT32_MAX /\ 0 <= c <= UINT16_MAX /\ 0 <= e <= UINT16_MAX.
Proof.
  unfold validate_pcm. intros H.
  destruct (validateInteger r _ _) eqn:H1; [|done]. destruct (validateInteger c _ _) eqn:H2; [|done].
  destruct (validateInteger e _ _) eqn:H3; [|done].
  apply validateInteger_ok in H1, H2, H3. done.
Qed.

Lemma isFipsTrafficClass_range c : isFipsTrafficClass c = true -> 1 <= c <= 3.
Proof. unfold isFipsTrafficClass. intros [[?|?]%orb_true_iff|?]%orb_true_iff; bool_split; lia. Qed.

Lemma validateFrame_normal f v : validateFrame f = Ok v -> normal_frame v.
Proof.
  unfold validateFrame. intros H. result_inv. bool_split.
  apply validateInteger_ok in R, R0. apply validate_pcm_ok in R3 as (? & ? & ?).
  unfold validate_class, is_message in *. constructor; cbn [with_defaults f_type f_flags f_trafficClass f_epoch
    f_sequence f_sampleRate f_channels f_encoding f_payload]; try lia; eauto.
  - exists (default 0 (f_flags f)). repeat split; try lia. intros Ht.
    rewrite bool_decide_eq_true_2 in R1 by done. result_inv. bool_split. done.
  - unfold is_message. destruct (bool_decide (f_type f = FIPS_PACKET)) eqn:Ht.
    + result_inv. eexists. split; [done|]. unfold require_not in R1.
      destruct (negb _) eqn:E in R1; [done|]. bool_split. by apply isFipsTrafficClass_range.
    + unfold require_not in R1. by destruct (f_trafficClass f).
Qed.

Lemma validate_class_defaults f :
  validate_class (with_defaults f) (class_of (with_defaults f)) = validate_class f (class_of f).
Proof.
  unfold validate_class, class_of, is_message. cbn [with_defaults f_type f_flags f_trafficClass].
  unfold is_message. by destruct (bool_decide (f_type f = FIPS_PACKET)).
Qed.

(** Validation reads only the values [with_defaults] spells out. *)
Lemma validateFrame_defaults f : validateFrame (with_defaults f) = validateFrame f.
Proof.
  unfold validateFrame. rewrite validate_class_defaults.
  cut (with_defaults (with_defaults f) = with_defaults f); [by intros ->|].
  unfold with_defaults, class_of, is_message. cbn. by destruct (bool_decide (f_type f = FIPS_PACKET)).
Qed.

Lemma validateFrame_shape f v : validateFrame f = Ok v -> v = with_defaults f.
Proof. unfold validateFrame. intros H. by result_inv. Qed.

Lemma validateFrame_idem f v : validateFrame f = Ok v -> validateFrame v = Ok v.
Proof. intros H. pose proof (validateFrame_shape f v H) as ->. by rewrite validateFrame_defaults. Qed.

(** ** Headers *)

Lemma length_class_or_flags f : length (class_or_flags f) = 2%nat.
Proof. unfold class_or_flags. by destruct (is_message _ _). Qed.

Lemma length_fwav_header f : length (fwav_header f) = 32%nat.
Proof. unfold fwav_header. rewrite !length_app, !length_le_bytes, length_class_or_flags. done. Qed.

(** The fields of an encoded frame read back. *)
Lemma fwav_header_fields f rest :
  normal_frame f ->
  let raw := fwav_header f ++ rest in
  slice raw 0 4 = FWAV_MAGIC /\ read_le 1 4 raw = FWAV_VERSION
  /\ read_le 1 5 raw = message_type_code (f_type f) /\ slice raw 6 8 = class_or_flags f
  /\ read_le 4 8 raw = zlen (f_payload f) /\ read_le 4 12 raw = f_epoch f
  /\ read_le 8 16 raw = f_sequence f /\ Some (read_le 4 24 raw) = f_sampleRate f
  /\ Some (read_le 2 28 raw) = f_channels f /\ Some (read_le 2 30 raw) = f_encoding f.
Proof.
  intros [_ _ He Hs (r & Hr & ?) (c & Hc & ?) (e & Hen & ?) Hp]. cbv zeta. unfold fwav_header, FWAV_MAGIC.
  rewrite Hr, Hc, Hen. cbn [default from_option id].
  unfold UINT16_MAX, UINT32_MAX, UINT64_MAX, MAX_PAYLOAD_BYTES, MAX_MESSAGE_BYTES, FWAV_HEADER_BYTES in *.
  assert (0 <= zlen (f_payload f)) by (unfold zlen; lia).
  destruct (class_or_flags f) as [|b0 [|b1 [|? ?]]] eqn:Ec;
    try (pose proof (length_class_or_flags f) as HL; rewrite Ec in HL; discriminate HL).
  rewrite <- !app_assoc. cbn [app].
  repeat split; rewrite ?read_le_skip_byte; read_fields; try done.
  all: unfold read_le; cbn; destruct (f_type f); reflexivity || (cbn; lia).
Qed.

Lemma slice_pair (l : bytes) off a b :
  slice l off (off + 2) = [a; b] ->
  read_le 1 off l = a /\ read_le 1 (off + 1) l = b /\ read_le 2 off l = a + 256 * b.
Proof.
  unfold read_le, slice. replace (off + 2 - off)%nat with 2%nat by lia. intros H.
  replace (off + 1 - off)%nat with 1%nat by lia. replace (off + 1 + 1 - (off + 1))%nat with 1%nat by lia.
  replace (off + 2 - off)%nat with 2%nat by lia. rewrite <- drop_drop.
  destruct (drop off l) as [|x [|y m]]; try discriminate. cbn in H. injection H as -> ->.
  cbn [take drop le_value]. rewrite take_0. cbn [le_value]. lia.
Qed.

(** What the decoder hands to [validateFrame] is the frame encoded. *)
Lemma decoded_frame f rest :
  normal_frame f -> rest = f_payload f ->
  let input := fwav_header f ++ rest in
  let packet := bool_decide (f_type f = FIPS_PACKET) in
  {| f_type := f_type f;
     f_flags := Some (if packet then js_shl (read_le 1 7 input) 8 else read_le 2 6 input);
     f_trafficClass := if packet then Some (read_le 1 6 input) else None;
     f_epoch := read_le 4 12 input; f_sequence := read_le 8 16 input;
     f_sampleRate := Some (read_le 4 24 input); f_channels := Some (read_le 2 28 input);
     f_encoding := Some (read_le 2 30 input); f_payload := drop 32 input |} = f.
Proof.
  intros Hn ->. cbv zeta.
  pose proof (fwav_header_fields f (f_payload f) Hn) as F. cbv zeta in F.
  destruct F as (_ & _ & _ & F6 & _ & F12 & F16 & F24 & F28 & F30).
  rewrite drop_app_length' by (by rewrite length_fwav_header).
  destruct Hn as [(fl & Hfl & Hb & H0) Hclass _ _ _ _ _ _].
  rewrite F12, F16, F24, F28, F30. unfold class_or_flags, is_message in F6. rewrite Hfl in F6.
  cbn [default from_option id] in F6. unfold UINT16_MAX in *.
  destruct f as [t flags class ep seq sr ch en pl].
  cbn [f_type f_flags f_trafficClass f_epoch f_sequence f_sampleRate f_channels f_encoding f_payload] in *.
  subst flags. destruct (bool_decide (t = FIPS_PACKET)) eqn:Ht; bool_split.
  - destruct Hclass as (c & -> & Hc). assert (fl = 0) as -> by auto. cbn [default from_option id le_bytes app] in F6.
    rewrite Z.mod_small in F6 by lia. apply (slice_pair _ 6) in F6 as (-> & E & _).
    change (6 + 1)%nat with 7%nat in E. by rewrite E.
  - subst class. change (le_bytes 2 fl) with [fl mod 256; fl / 256 mod 256] in F6.
    apply (slice_pair _ 6) in F6 as (_ & _ & ->). f_equal. f_equal.
    rewrite (Z.mod_small (fl / 256)) by (split; [apply Z.div_pos|apply Z.div_lt_upper_bound]; lia).
    pose proof (Z.div_mod fl 256). lia.
Qed.

(** The decoder hands the frame of a header and its payload to [validateFrame]. *)
Lemma decode_header f : normal_frame f -> decodeFrame (fwav_header f ++ f_payload f) = validateFrame f.
Proof.
  intros Hn. pose proof (fwav_header_fields f (f_payload f) Hn) as F. cbv zeta in F.
  pose proof (decoded_frame f (f_payload f) Hn eq_refl) as D. cbv zeta in D.
  set (raw := fwav_header f ++ f_payload f) in *.
  destruct F as (F0 & F4 & F5 & _ & F8 & _).
  assert (Hlen : zlen raw = 32 + zlen (f_payload f)).
  { unfold raw, zlen. rewrite length_app, length_fwav_header. lia. }
  assert (Hp : 0 <= zlen (f_payload f) <= MAX_PAYLOAD_BYTES) by (split; [unfold zlen; lia|apply Hn]).
  unfold decodeFrame. rewrite F0, F4, F5, F8, Hlen, isMessageType_code.
  unfold FWAV_HEADER_BYTES, MAX_PAYLOAD_BYTES, MAX_MESSAGE_BYTES, FWAV_HEADER_BYTES in *.
  rewrite (proj2 (Z.ltb_ge (32 + zlen (f_payload f)) 32)), (proj2 (Z.ltb_ge (256 * 1024) (32 + zlen (f_payload f)))),
    (proj2 (Z.ltb_ge (256 * 1024 - 32) (zlen (f_payload f)))), Z.eqb_refl by lia.
  change (bool_decide (ascii_string FWAV_MAGIC = FWAV_MAGIC)) with true. change (FWAV_VERSION =? FWAV_VERSION) with true.
  cbn [negb orb require_not rbind]. by rewrite D, Z.eqb_refl.
Qed.

Lemma frame_decode f raw : encodeFrame f = Ok raw -> decodeFrame raw = validateFrame f.
Proof.
  unfold encodeFrame. destruct (validateFrame f) as [v|] eqn:R; [|done]. cbn [rbind]. intros H.
  assert (E : raw = fwav_header v ++ f_payload v) by congruence. rewrite E, decode_header by (by eapply validateFrame_normal).
  by apply validateFrame_idem in R.
Qed.

(** C12: the decoder returns every frame the encoder accepts, with the defaults
    of its optional fields spelled out. *)
Theorem frame_decode_encode f raw : encodeFrame f = Ok raw -> decodeFrame raw = validateFrame f.
Proof. apply frame_decode. Qed.

(** A PCM frame of one sample. *)
Definition sample_frame : FwavFrame :=
  mkFrame PCM_CAPTURE None None 3 17 (Some 48000) (Some 1) (Some FLOAT32_LE) [1;0;0;0;0;0;0;0; 0;0;128;63].
Definition sample_frame_raw : bytes :=
  Eval vm_compute in match encodeFrame sample_frame with Ok raw => raw | Throw _ => [] end.

Lemma frame_decode_encode_witness : decodeFrame sample_frame_raw = validateFrame sample_frame.
Proof. apply frame_decode_encode. vm_compute. reflexivity. Defined.

(** ** What the decoder accepts *)

Lemma pcm_none_default o e : o = Some e -> default PCM_NONE o = default 0 o.
Proof. by intros ->. Qed.

(** The header bytes past the magic are those of the frame decoded. *)
Lemma fwav_raw_fields raw f :
  bytes_ok raw -> (32 <= length raw)%nat -> normal_frame f ->
  read_le 1 4 raw = FWAV_VERSION -> read_le 1 5 raw = message_type_code (f_type f) ->
  slice raw 6 8 = class_or_flags f -> read_le 4 8 raw = zlen (f_payload f) ->
  read_le 4 12 raw = f_epoch f -> read_le 8 16 raw = f_sequence f ->
  f_sampleRate f = Some (read_le 4 24 raw) -> f_channels f = Some (read_le 2 28 raw) ->
  f_encoding f = Some (read_le 2 30 raw) ->
  fwav_header f = FWAV_MAGIC ++ drop 4 (take 32 raw).
Proof.
  intros Hok Hlen Hn F4 F5 F6 F8 F12 F16 F24 F28 F30.
  apply byte_read in F4; [|done|lia]. apply byte_read in F5; [|done|lia].
  unfold fwav_header. rewrite F24, F28, F30. cbn [default from_option id].
  change [?a; ?b] with ([a] ++ [b]). f_equal.
  rewrite <- F4, <- F5, <- F6, <- F8, <- F12, <- F16.
  rewrite !le_bytes_read_le by (done || lia). cbn [Nat.add].
  rewrite <- !app_assoc, !slice_join by lia. unfold slice. by rewrite take_drop_commute.
Qed.

Lemma with_defaults_some f fl sr ch en :
  f_flags f = Some fl -> f_sampleRate f = Some sr -> f_channels f = Some ch -> f_encoding f = Some en ->
  (f_type f = FIPS_PACKET -> is_some (f_trafficClass f) = true) -> with_defaults f = f.
Proof.
  intros Hf Hs Hc He Ht. unfold with_defaults, class_of, is_message. rewrite Hf, Hs, Hc, He.
  destruct f as [t flags class ep seq sr' ch' en' pl]. cbn in *. subst.
  destruct (bool_decide (t = FIPS_PACKET)) eqn:E; [|done]. bool_split. specialize (Ht E). by destruct class.
Qed.

Lemma shifted_byte b : 0 <= b < 256 -> js_shl b 8 = 256 * b.
Proof.
  intros Hb. unfold js_shl. rewrite (to_int32_small b) by lia. change (8 mod 32) with 8.
  rewrite Z.shiftl_mul_pow2 by lia. change (2 ^ 8) with 256. rewrite to_int32_small by lia. lia.
Qed.

Lemma frame_encode raw f :
  bytes_ok raw -> decodeFrame raw = Ok f -> encodeFrame f = Ok (FWAV_MAGIC ++ drop 4 raw).
Proof.
  intros Hok. unfold decodeFrame. intros H. result_inv.
  destruct (isMessageType _) as [t|] eqn:Ht; [|done]. result_inv. apply isMessageType_inv in Ht. bool_split.
  unfold FWAV_HEADER_BYTES in *. assert (Hlen : (32 <= length raw)%nat) by (unfold zlen in *; lia).
  pose proof (validateFrame_normal _ _ H) as Hn. pose proof (validateFrame_idem _ _ H) as Hi.
  apply validateFrame_shape in H. erewrite with_defaults_some in H;
    [|reflexivity..|cbn [f_type f_trafficClass]; intros Et; by rewrite bool_decide_eq_true_2].
  assert (Hh : fwav_header f = FWAV_MAGIC ++ drop 4 (take 32 raw)).
  { apply fwav_raw_fields; try done; rewrite H; cbn [f_type f_payload f_epoch f_sequence f_sampleRate f_channels
      f_encoding]; try done.
    - rewrite H in Hn. destruct Hn as [(fl & [= Hfl] & Hb & Hz) _ _ _ _ _ _ _]. unfold class_or_flags, is_message.
      cbn [f_type f_flags f_trafficClass] in *.
      assert (Hs : slice raw 6 8 = slice raw 6 7 ++ slice raw 7 8) by (by rewrite slice_join by lia).
      destruct (bool_decide (t = FIPS_PACKET)) eqn:Et; bool_split; cbn [default from_option id].
      + rewrite (le_bytes_read_le 1 6) by (done || lia). rewrite Hs. f_equal. apply (byte_read 7); [done|lia|].
        pose proof (read_le_bound 1 7 raw Hok) as Hb7. change (256 ^ Z.of_nat 1) with 256 in Hb7.
        rewrite shifted_byte in Hfl by done. specialize (Hz Et). lia.
      + by rewrite (le_bytes_read_le 2 6) by (done || lia).
    - unfold zlen in *. rewrite length_drop. lia. }
  unfold encodeFrame. rewrite Hi. cbn [rbind]. f_equal. rewrite Hh.
  replace (f_payload f) with (drop 32 raw) by (by rewrite H). rewrite <- app_assoc. f_equal.
  rewrite <- (take_drop 32 raw) at 3. rewrite drop_app_le by (rewrite length_take; lia). done.
Qed.

(** C13: what the decoder accepts it accepts in one form: encoding the decoded
    frame gives the bytes back, up to the high bits of the four magic bytes,
    which [toString('ascii')] does not look at. *)
Theorem frame_encode_decode raw f :
  bytes_ok raw -> decodeFrame raw = Ok f -> encodeFrame f = Ok (FWAV_MAGIC ++ drop 4 raw).
Proof. apply frame_encode. Qed.

(** The magic with every high bit set is accepted. *)
Definition high_magic_raw : bytes := map (fun b => b + 128) FWAV_MAGIC ++ drop 4 sample_frame_raw.

Lemma frame_encode_decode_witness :
  encodeFrame (with_defaults sample_frame) = Ok sample_frame_raw /\ high_magic_raw <> sample_frame_raw.
Proof.
  split; [|by vm_compute].
  apply (frame_encode_decode high_magic_raw); [|vm_compute; reflexivity].
  repeat constructor; unfold byte_ok; vm_compute; try discriminate; reflexivity.
Defined.

(** ** No replay *)

Inductive StreamEvent := FrameArrives (frame : FwavFrame) | StreamReset.

(** The frames a stream accepts: a rejected frame or reset changes nothing. *)
Fixpoint accepted_frames (events : list StreamEvent) (t : EpochTracker) : list (Z * Z) :=
  match events with
  | [] => []
  | FrameArrives frame :: rest =>
      match tracker_accept frame t with
      | Ok t' => (f_epoch frame, f_sequence frame) :: accepted_frames rest t'
      | Throw _ => accepted_frames rest t
      end
  | StreamReset :: rest =>
      match tracker_reset t with
      | Ok t' => accepted_frames rest t'
      | Throw _ => accepted_frames rest t
      end
  end.

(** Epoch first, then sequence. *)
Definition before (p q : Z * Z) : Prop := p.1 < q.1 \/ (p.1 = q.1 /\ p.2 < q.2).

Definition after_tracker (t : EpochTracker) (p : Z * Z) : Prop :=
  before (et_epoch t, et_lastSequence t) p.

Lemma before_trans p q r : before p q -> before q r -> before p r.
Proof. unfold before. destruct p, q, r; cbn. lia. Qed.

Lemma tracker_accept_after frame t t' :
  tracker_accept frame t = Ok t' ->
  after_tracker t (f_epoch frame, f_sequence frame)
  /\ (et_epoch t', et_lastSequence t') = (f_epoch frame, f_sequence frame).
Proof.
  unfold tracker_accept. intros H. result_inv. bool_split. unfold after_tracker, before. cbn.
  split; [lia|]. by f_equal.
Qed.

Lemma accepted_frames_sorted events : forall t,
  Forall (after_tracker t) (accepted_frames events t)
  /\ StronglySorted before (accepted_frames events t).
Proof.
  assert (Hmono : forall t t' l, before (et_epoch t, et_lastSequence t) (et_epoch t', et_lastSequence t') ->
    Forall (after_tracker t') l -> Forall (after_tracker t) l).
  { intros t t' l Ht Hl. eapply Forall_impl; [exact Hl|]. intros p. by apply before_trans. }
  induction events as [|[frame|] events IH]; intros t; cbn; [split; constructor|..].
  - destruct (tracker_accept frame t) as [t'|] eqn:E; [|apply IH].
    apply tracker_accept_after in E as [Ha Ht]. destruct (IH t') as [Hf Hs]. split; constructor; try done.
    + apply (Hmono t t'); [by rewrite Ht|done].
    + eapply Forall_impl; [exact Hf|]. intros p Hp. unfold after_tracker in Hp. by rewrite Ht in Hp.
  - destruct (tracker_reset t) as [t'|] eqn:E; [|apply IH]. destruct (IH t') as [Hf Hs]. split; [|done].
    apply (Hmono t t'); [|done]. unfold tracker_reset in E. result_inv. left. cbn. lia.
Qed.

(** A stream accepts no frame twice and none out of order: whatever
    arrives between resets, the accepted frames are strictly increasing in
    epoch and, within an epoch, in sequence number. *)
Theorem tracker_no_replay events : StronglySorted before (accepted_frames events new_tracker).
Proof. apply accepted_frames_sorted. Qed.
