(* ===== verification/Json.v ===== *)
(** * JavaScript values read from outside

    The [unknown] values the validators inspect: what [JSON.parse] or a
    message event hands over.  An object is an association list of its own
    properties in insertion order; strings are sequences of UTF-16 code units;
    numbers are binary64. *)

From stdpp Require Import base list numbers option strings.
From Stdlib Require Import ZArith Lia SpecFloat.
From S2P Require Import Prelude Utf8 Doubles.

Inductive value :=
  | VUndefined
  | VNull
  | VBool (b : bool)
  | VNumber (n : double)
  | VString (s : jsstring)
  | VArray (items : list value)
  | VObject (fields : list (jsstring * value)).

Abbreviation fields := (list (jsstring * value)) (only parsing).

#[export] Instance value_eq_dec : EqDecision value.
Proof.
  unfold EqDecision, Decision. fix dec 1. intros x y.
  assert (Hl : forall l l' : list value, {l = l'} + {l <> l'}). 
  { exact (List.list_eq_dec dec). }
  assert (Hf : forall l l' : list (jsstring * value), {l = l'} + {l <> l'}).
  { apply List.list_eq_dec. intros [k v] [k' v']. destruct (decide (k = k')); [|right; congruence]. destruct (dec v v'); [left|right]; congruence. }
  destruct x, y; try (right; discriminate); try (left; reflexivity).
  - destruct (decide (b = b0)); [left|right]; congruence.
  - destruct (decide (n = n0)); [left|right]; congruence.
  - destruct (decide (s = s0)); [left|right]; congruence.
  - destruct (Hl items items0); [left|right]; congruence.
  - destruct (Hf fields fields0); [left|right]; congruence.
Defined.

(** An integer as a number. *)
Definition vint (z : Z) : value := VNumber (d_of_Z z).
Definition vstr (s : string) : value := VString (js s).

(** [value && typeof value === 'object' && !Array.isArray(value)] *)
Definition as_object (v : value) : option fields :=
  match v with VObject f => Some f | _ => None end.

Definition as_array (v : value) : option (list value) :=
  match v with VArray l => Some l | _ => None end.

Definition as_bool (v : value) : option bool := match v with VBool b => Some b | _ => None end.
Definition as_string (v : value) : option jsstring := match v with VString s => Some s | _ => None end.
Definition as_number (v : value) : option double := match v with VNumber n => Some n | _ => None end.

(** [typeof value === 'number' && Number.isSafeInteger(value)] *)
Definition as_integer (v : value) : option Z :=
  match v with VNumber n => d_safe_integer n | _ => None end.

(** [value.key], [undefined] when there is no such property. *)
Definition get (key : string) (f : fields) : value := default VUndefined (map_get (js key) f).

(** [key in value], for the property names the source tests. *)
Definition has (key : string) (f : fields) : bool := map_has (js key) f.

Definition own_keys (f : fields) : list jsstring := f.*1.

Definition key_in (keys : list string) (key : jsstring) : bool :=
  existsb (fun k => bool_decide (key = js k)) keys.

(** Every own key is one of [keys]. *)
Definition only_keys (keys : list string) (f : fields) : bool := forallb (key_in keys) (own_keys f).

Definition all_keys (keys : list string) (f : fields) : bool := forallb (fun k => has k f) keys.

(** As many own keys as [keys], and each of them. *)
Definition same_keys (keys : list string) (f : fields) : bool :=
  (zlen (own_keys f) =? zlen keys) && all_keys keys f.

(** [value === 'literal'] *)
Definition is_literal (s : string) (v : value) : bool :=
  match v with VString t => bool_decide (t = js s) | _ => false end.

Definition is_true_value (v : value) : bool := match v with VBool b => b | _ => false end.
Definition is_bool (v : value) : bool := match v with VBool _ => true | _ => false end.
Definition is_null (v : value) : bool := match v with VNull => true | _ => false end.
Definition is_undefined (v : value) : bool := match v with VUndefined => true | _ => false end.

Definition is_integer_in (low high : Z) (v : value) : bool :=
  match as_integer v with Some z => (low <=? z) && (z <=? high) | None => false end.

(** A safe integer that is not negative. *)
Definition is_count (v : value) : bool := is_integer_in 0 MAX_SAFE_INTEGER v.

Definition count_of (v : value) : Z := default 0 (as_integer v).

(** ** Characters, as code units *)

Definition is_digit (c : Z) : bool := (48 <=? c) && (c <=? 57).
Definition is_lower (c : Z) : bool := (97 <=? c) && (c <=? 122).
Definition is_upper (c : Z) : bool := (65 <=? c) && (c <=? 90).
Definition is_hex_lower (c : Z) : bool := is_digit c || ((97 <=? c) && (c <=? 102)).
Definition is_hex (c : Z) : bool := is_hex_lower c || ((65 <=? c) && (c <=? 70)).

(** [/^[class]{min,max}$/] *)
Definition string_of (class : Z -> bool) (min max : Z) (s : jsstring) : bool :=
  (min <=? zlen s) && (zlen s <=? max) && forallb class s.

Definition starts_with (prefix : string) (s : jsstring) : bool :=
  bool_decide (take (length (js prefix)) s = js prefix).

(** [/^npub1[0-9a-z]+$/] *)
Definition is_npub (s : jsstring) : bool :=
  starts_with "npub1" s && (6 <=? zlen s) && forallb (fun c => is_digit c || is_lower c) (drop 5 s).

(** [/^fd[0-9a-f]{2}:[0-9a-f:]+$/i] *)
Definition is_fips_ipv6 (s : jsstring) : bool :=
  match s with
  | f :: d :: a :: b :: colon :: rest =>
      ((f =? 102) || (f =? 70)) && ((d =? 100) || (d =? 68)) && is_hex a && is_hex b && (colon =? 58)
      && (1 <=? zlen rest) && forallb (fun c => is_hex c || (c =? 58)) rest
  | _ => false
  end.

(** ** Lemmas *)

Lemma as_object_inv v f : as_object v = Some f -> v = VObject f.
Proof. by destruct v; intros [= ->]. Qed.

Lemma as_integer_safe v z : as_integer v = Some z -> is_safe_integer z = true.
Proof.
  destruct v; try done. cbn. unfold d_safe_integer. destruct (d_integer _); [|done].
  destruct (is_safe_integer _) eqn:E; [by intros [= <-]|done].
Qed.

Lemma is_integer_in_spec low high v :
  is_integer_in low high v = true <-> exists z, as_integer v = Some z /\ low <= z <= high.
Proof.
  unfold is_integer_in. split.
  - destruct (as_integer v) as [z|]; [|done]. intros H. bool_split. by exists z.
  - intros (z & -> & ?). apply andb_true_intro. split; apply Z.leb_le; lia.
Qed.

Lemma is_literal_inv s v : is_literal s v = true -> v = vstr s.
Proof. destruct v; try done. cbn. intros H. bool_split. by subst. Qed.
