(* ===== verification/Control.v ===== *)
(** * The FIPS control client ([packages/bridge/src/fips-control-client.ts])

    Validation of the daemon's answers, row by row, and the client that sends
    one request at a time over a fresh stream: its queue, the buffer of the
    request in flight, its timers, and every way a request can settle. *)

From stdpp Require Import base list numbers option strings.
From Stdlib Require Import ZArith Lia SpecFloat.
From S2P Require Import Prelude Utf8 Doubles Json.

Definition MAX_REQUEST_BYTES : Z := 512.
Definition MAX_RESPONSE_BYTES : Z := 65536.
Definition CONNECT_TIMEOUT_MS : Z := 500.
Definition READ_TIMEOUT_MS : Z := 1500.
Definition TOTAL_TIMEOUT_MS : Z := 2000.

Inductive FipsControlQuery := QueryPeers | QueryLinks | QueryTransports | QuerySessions.

Record FipsConnectRequest := mkConnect { cr_npub : jsstring; cr_address : jsstring; cr_transport : jsstring }.

Record FipsPeer := mkPeer {
  peer_npub : jsstring; peer_connectivity : jsstring; peer_link_id : Z; peer_transport_type : jsstring;
  peer_authenticated_at_ms : Z; peer_last_seen_ms : Z }.

Record FipsLink := mkLink {
  link_link_id : Z; link_transport_id : Z; link_state : jsstring; link_created_at_ms : Z;
  link_stats : fields }.

Record FipsTransport := mkTransport {
  tr_transport_id : Z; tr_type : jsstring; tr_state : jsstring; tr_mtu : Z; tr_stats : fields }.

Record FipsSession := mkFipsSession { fs_npub : jsstring; fs_state : jsstring }.

Inductive FipsControlData :=
  | Peers (rows : list FipsPeer)
  | Links (rows : list FipsLink)
  | Transports (rows : list FipsTransport)
  | Sessions (rows : list FipsSession).

(** ** Rows *)

Definition COMMANDS (query : FipsControlQuery) : string :=
  match query with
  | QueryPeers => "show_peers" | QueryLinks => "show_links"
  | QueryTransports => "show_transports" | QuerySessions => "show_sessions"
  end.

Definition query_key (query : FipsControlQuery) : string :=
  match query with
  | QueryPeers => "peers" | QueryLinks => "links" | QueryTransports => "transports" | QuerySessions => "sessions"
  end.

Definition invalid_protocol {A} : result A := Throw "protocol_invalid".

(** A string of 1 to 2048 code units. *)
Definition text (v : value) : option jsstring :=
  match v with
  | VString s => if (0 <? zlen s) && (zlen s <=? 2048) then Some s else None
  | _ => None
  end.

Definition finite (v : value) : option Z :=
  match as_integer v with Some z => if 0 <=? z then Some z else None | None => None end.

Definition exactKeys (f : fields) (keys : list string) : bool := only_keys keys f && all_keys keys f.

Definition parse_peer (row : value) : result FipsPeer :=
  match as_object row with
  | None => invalid_protocol
  | Some f =>
      match text (get "npub" f), text (get "connectivity" f), finite (get "link_id" f),
            text (get "transport_type" f), finite (get "authenticated_at_ms" f),
            finite (get "last_seen_ms" f) with
      | Some npub, Some connectivity, Some link_id, Some transport_type, Some at_ms, Some seen =>
          Ok (mkPeer npub connectivity link_id transport_type at_ms seen)
      | _, _, _, _, _, _ => invalid_protocol
      end
  end.

Definition parse_link (row : value) : result FipsLink :=
  match as_object row with
  | None => invalid_protocol
  | Some f =>
      match as_object (get "stats" f), finite (get "link_id" f), finite (get "transport_id" f),
            text (get "state" f), finite (get "created_at_ms" f) with
      | Some stats, Some link_id, Some transport_id, Some state, Some created =>
          if forallb (fun e => is_count e.2) stats
          then Ok (mkLink link_id transport_id state created stats) else invalid_protocol
      | _, _, _, _, _ => invalid_protocol
      end
  end.

Definition parse_session (row : value) : result FipsSession :=
  match as_object row with
  | None => invalid_protocol
  | Some f =>
      match text (get "npub" f), text (get "state" f) with
      | Some npub, Some state => Ok (mkFipsSession npub state)
      | _, _ => invalid_protocol
      end
  end.

Definition parse_transport (row : value) : result FipsTransport :=
  match as_object row with
  | None => invalid_protocol
  | Some f =>
      match as_object (get "stats" f), finite (get "transport_id" f), text (get "type" f),
            text (get "state" f), finite (get "mtu" f) with
      | Some stats, Some transport_id, Some type, Some state, Some mtu =>
          Ok (mkTransport transport_id type state mtu stats)
      | _, _, _, _, _ => invalid_protocol
      end
  end.

(** [rows.map(row => ...)], which throws at the first bad row. *)
Fixpoint map_rows {A} (parse : value -> result A) (rows : list value) : result (list A) :=
  match rows with
  | [] => Ok []
  | row :: rest => let? r := parse row in let? rs := map_rows parse rest in Ok (r :: rs)
  end.

Definition parseRows (query : FipsControlQuery) (data : value) : result FipsControlData :=
  match as_object data with
  | None => invalid_protocol
  | Some body =>
      if negb (exactKeys body [query_key query]) then invalid_protocol
      else match as_array (get (query_key query) body) with
      | None => invalid_protocol
      | Some rows =>
          match query with
          | QueryPeers => let? l := map_rows parse_peer rows in Ok (Peers l)
          | QueryLinks => let? l := map_rows parse_link rows in Ok (Links l)
          | QuerySessions => let? l := map_rows parse_session rows in Ok (Sessions l)
          | QueryTransports => let? l := map_rows parse_transport rows in Ok (Transports l)
          end
      end
  end.

(** [/^sound-[ab]$/] *)
Definition is_sound_address (s : jsstring) : bool :=
  bool_decide (s = js "sound-a") || bool_decide (s = js "sound-b").

Definition validConnectRequest (r : FipsConnectRequest) : bool :=
  is_npub (cr_npub r) && (zlen (cr_npub r) <=? 128) && is_sound_address (cr_address r)
  && bool_decide (cr_transport r = js "sound").

(** ** The client *)

Inductive RequestKind :=
  | AskQuery (query : FipsControlQuery)
  | AskConnect (request : FipsConnectRequest).

Inductive Answer :=
  | AnswerData (data : FipsControlData)
  | AnswerConnected (request : FipsConnectRequest).

Record Request := mkRequest { rq_id : nat; rq_kind : RequestKind }.

(** The stream of a request: what it has received, and whether the timer of
    the connection is still armed. *)
Record InFlight := mkInFlight {
  if_request : Request; if_connecting : bool; if_bytes : bytes; if_sawNewline : bool }.

Record ControlClient := mkClient {
  cc_closed : bool;
  cc_active : option InFlight;
  cc_queue : list Request;
  cc_outcomes : list (nat * result Answer);
  cc_next : nat;
}.

#[export] Instance eta_ControlClient : Eta ControlClient := fun c =>
  mkClient (cc_closed c) (cc_active c) (cc_queue c) (cc_outcomes c) (cc_next c).

Definition new_client : ControlClient := mkClient false None [] [] 0.

Section Client.
(** [JSON.parse], the stream factory (does the [n]-th call return a stream?). *)
Context (JSON_parse : jsstring -> option value) (connects : nat -> bool).

Definition parseEnvelope (line : bytes) : result value :=
  match utf8_decode line with
  | Throw _ => invalid_protocol
  | Ok decoded =>
      match JSON_parse decoded with
      | None => invalid_protocol
      | Some envelope =>
          match as_object envelope with
          | None => invalid_protocol
          | Some v =>
              match text (get "status" v) with
              | None => invalid_protocol
              | Some status =>
                  if bool_decide (status = js "error") && exactKeys v ["status"; "message"]
                     && match text (get "message" v) with Some _ => true | None => false end
                  then Throw "daemon_error"
                  else if negb (bool_decide (status = js "ok")) || negb (exactKeys v ["status"; "data"])
                  then invalid_protocol
                  else Ok (get "data" v)
              end
          end
      end
  end.

Definition parseResponse (query : FipsControlQuery) (line : bytes) : result FipsControlData :=
  let? data := parseEnvelope line in parseRows query data.

Definition parseConnectResponse (expected : FipsConnectRequest) (line : bytes) : result FipsConnectRequest :=
  let? envelope := parseEnvelope line in
  match as_object envelope with
  | None => invalid_protocol
  | Some data =>
      if negb (exactKeys data ["npub"; "address"; "transport"])
         || negb (bool_decide (as_string (get "npub" data) = Some (cr_npub expected)))
         || negb (bool_decide (as_string (get "address" data) = Some (cr_address expected)))
         || negb (bool_decide (as_string (get "transport" data) = Some (cr_transport expected)))
      then invalid_protocol else Ok expected
  end.

Definition parse_answer (kind : RequestKind) (line : bytes) : result Answer :=
  match kind with
  | AskQuery query => let? data := parseResponse query line in Ok (AnswerData data)
  | AskConnect request => let? r := parseConnectResponse request line in Ok (AnswerConnected r)
  end.

(** The request line, as [JSON.stringify] writes it. *)
Definition quoted (s : jsstring) : jsstring := [34] ++ s ++ [34].
Definition member (key : string) (v : jsstring) : jsstring := quoted (js key) ++ js ":" ++ v.

Definition request_line (kind : RequestKind) : bytes :=
  utf8_encode (match kind with
  | AskQuery query => js "{" ++ member "command" (quoted (js (COMMANDS query))) ++ js "}"
  | AskConnect r =>
      js "{" ++ member "command" (quoted (js "connect")) ++ js "," ++ member "params"
        (js "{" ++ member "npub" (quoted (cr_npub r)) ++ js "," ++ member "address" (quoted (cr_address r))
         ++ js "," ++ member "transport" (quoted (cr_transport r)) ++ js "}") ++ js "}"
  end) ++ [10].

Definition settle_request (id : nat) (r : result Answer) : ControlClient -> ControlClient :=
  set cc_outcomes (fun l => l ++ [(id, r)]).

(** [drain] and the closure [run]: start the next request that can start. *)
Fixpoint run_queue (queue : list Request) (c : ControlClient) : ControlClient :=
  match queue with
  | [] => set cc_queue (fun _ => []) c
  | r :: rest =>
      if cc_closed c then run_queue rest (settle_request (rq_id r) (Throw "client_closed") c)
      else if MAX_REQUEST_BYTES <? zlen (request_line (rq_kind r))
      then run_queue rest (settle_request (rq_id r) (Throw "query_invalid") c)
      else if connects (rq_id r)
      then set cc_queue (fun _ => rest) (set cc_active (fun _ => Some (mkInFlight r true [] false)) c)
      else run_queue rest (settle_request (rq_id r) (Throw "transport_error") c)
  end.

Definition drain (c : ControlClient) : ControlClient :=
  match cc_active c with Some _ => c | None => run_queue (cc_queue c) c end.

(** [finish]: the request in flight settles and the next one starts. *)
Definition finish (r : result Answer) (c : ControlClient) : ControlClient :=
  match cc_active c with
  | Some a => drain (settle_request (rq_id (if_request a)) r (set cc_active (fun _ => None) c))
  | None => c
  end.

Definition fail_request (code : string) (c : ControlClient) : ControlClient :=
  finish (Throw (if cc_closed c then "client_closed" else code)) c.

Fixpoint index_of (b : Z) (l : bytes) : option nat :=
  match l with
  | [] => None
  | x :: l' => if x =? b then Some 0%nat else option_map S (index_of b l')
  end.

Definition is_blank (b : Z) : bool := (b =? 32) || (b =? 9) || (b =? 13) || (b =? 10).

Definition onData_chunk (chunk : bytes) (c : ControlClient) : ControlClient :=
  match cc_active c with
  | None => c
  | Some a =>
      let bytes := if_bytes a ++ chunk in
      if MAX_RESPONSE_BYTES <? zlen bytes then fail_request "protocol_invalid" c
      else match index_of 10 bytes with
      | None => set cc_active (fun _ => Some (mkInFlight (if_request a) (if_connecting a) bytes (if_sawNewline a))) c
      | Some index =>
          if if_sawNewline a || existsb (fun b => negb (is_blank b)) (drop (S index) bytes)
          then fail_request "protocol_invalid" c
          else set cc_active (fun _ => Some (mkInFlight (if_request a) (if_connecting a) bytes true)) c
      end
  end.

(** The connection is made: its timer is cleared. *)
Definition onConnect (c : ControlClient) : ControlClient :=
  match cc_active c with
  | Some a => set cc_active (fun _ => Some (mkInFlight (if_request a) false (if_bytes a) (if_sawNewline a))) c
  | None => c
  end.

Definition onConnectTimeout (c : ControlClient) : ControlClient :=
  match cc_active c with
  | Some a => if if_connecting a then fail_request "connect_timeout" c else c
  | None => c
  end.

Definition onEnd (c : ControlClient) : ControlClient :=
  match cc_active c with
  | None => c
  | Some a =>
      if negb (if_sawNewline a) then fail_request "protocol_invalid" c
      else let line := match index_of 10 (if_bytes a) with
                       | Some index => take index (if_bytes a) | None => if_bytes a end in
           finish (parse_answer (rq_kind (if_request a)) line) c
  end.

(** [request]: rejected at once when closed, else queued. *)
Definition submit (kind : RequestKind) (c : ControlClient) : ControlClient :=
  let id := cc_next c in
  let c := set cc_next S c in
  if match kind with AskConnect r => negb (validConnectRequest r) | AskQuery _ => false end
  then settle_request id (Throw "query_invalid") c
  else if cc_closed c then settle_request id (Throw "client_closed") c
  else drain (set cc_queue (fun q => q ++ [mkRequest id kind]) c).

(** [close]: the stream is destroyed, which settles nothing by itself; the
    queued requests are rejected. *)
Definition close_client (c : ControlClient) : ControlClient :=
  if cc_closed c then c
  else run_queue (cc_queue c) (set cc_closed (fun _ => true) c).

(** What can happen to the client; stream and timer events concern the
    request in flight, whose listeners are the only ones attached. *)
Inductive ControlEvent :=
  | Submitted (kind : RequestKind)
  | StreamConnected
  | Data (chunk : bytes)
  | Ended
  | StreamError
  | ConnectTimeout
  | ReadTimeout
  | TotalTimeout
  | Aborted
  | Closed.

Definition control_step (e : ControlEvent) (c : ControlClient) : ControlClient :=
  match e with
  | Submitted kind => submit kind c
  | StreamConnected => onConnect c
  | Data chunk => onData_chunk chunk c
  | Ended => onEnd c
  | StreamError => fail_request "transport_error" c
  | ConnectTimeout => onConnectTimeout c
  | ReadTimeout => fail_request "read_timeout" c
  | TotalTimeout => fail_request "total_timeout" c
  | Aborted => fail_request "aborted" c
  | Closed => close_client c
  end.

Definition control_run (events : list ControlEvent) (c : ControlClient) : ControlClient :=
  foldl (fun c e => control_step e c) c events.
End Client.

(** ** Every request is accounted for

    The invariant of the client, kept by every event: each request ever
    submitted is settled, in flight or queued, and only one of these; nothing
    waits while the stream is free; a closed client has an empty queue; and
    the buffer of the request in flight is bounded. *)

Section Accounting.
Context (JSON_parse : jsstring -> option value) (connects : nat -> bool).

Definition in_flight_ids (c : ControlClient) : list nat :=
  match cc_active c with Some a => [rq_id (if_request a)] | None => [] end.

Definition all_ids (c : ControlClient) : list nat :=
  (cc_outcomes c).*1 ++ in_flight_ids c ++ map rq_id (cc_queue c).

Definition buffered (c : ControlClient) : Z :=
  match cc_active c with Some a => zlen (if_bytes a) | None => 0 end.

Record client_ok (c : ControlClient) : Prop := {
  ok_ids : all_ids c ≡ₚ seq 0 (cc_next c);
  ok_busy : cc_active c = None -> cc_queue c = [];
  ok_closed : cc_closed c = true -> cc_queue c = [];
  ok_buffer : buffered c <= MAX_RESPONSE_BYTES;
}.

Lemma run_queue_ids queue c :
  cc_active c = None ->
  let c' := run_queue connects queue c in
  all_ids c' ≡ₚ (cc_outcomes c).*1 ++ map rq_id queue /\ cc_next c' = cc_next c
  /\ cc_closed c' = cc_closed c /\ (cc_active c' = None -> cc_queue c' = [])
  /\ (cc_closed c = true -> cc_queue c' = []) /\ buffered c' <= MAX_RESPONSE_BYTES.
Proof.
  revert c. induction queue as [|r rest IH]; intros c Hfree; cbn.
  - unfold all_ids, in_flight_ids, buffered, set. cbn. rewrite Hfree. repeat split; done.
  - assert (Hsettle : forall o,
      let c' := run_queue connects rest (settle_request (rq_id r) o c) in
      all_ids c' ≡ₚ (cc_outcomes c).*1 ++ rq_id r :: map rq_id rest /\ cc_next c' = cc_next c
      /\ cc_closed c' = cc_closed c /\ (cc_active c' = None -> cc_queue c' = [])
      /\ (cc_closed c = true -> cc_queue c' = []) /\ buffered c' <= MAX_RESPONSE_BYTES).
    { intros o. destruct (IH (settle_request (rq_id r) o c) Hfree) as (H & ? & ? & ? & ? & ?).
      repeat split; try done. cbn zeta. rewrite H. unfold settle_request, set. cbn.
      by rewrite fmap_app, <- app_assoc. }
    destruct (cc_closed c) eqn:Hc; [apply Hsettle|].
    destruct (_ <? _); [apply Hsettle|]. destruct (connects _); [|apply Hsettle].
    unfold all_ids, in_flight_ids, buffered, set. cbn. repeat split; done.
Qed.

Lemma new_client_ok : client_ok new_client.
Proof. by split. Qed.

(** Freeing the stream with an outcome for the request that held it. *)
Lemma finish_ok r c : client_ok c -> client_ok (finish connects r c).
Proof.
  intros Hok. pose proof Hok as [Hids Hbusy Hclosed Hbuf]. unfold finish.
  destruct (cc_active c) as [a|] eqn:E; [|done].
  set (c1 := settle_request _ _ _). assert (Ha : cc_active c1 = None) by done.
  unfold drain. rewrite Ha.
  destruct (run_queue_ids (cc_queue c1) c1 Ha) as (H & Hn & Hc & H1 & H2 & H3).
  split; try done.
  - rewrite H, Hn. change (cc_next c1) with (cc_next c). rewrite <- Hids.
    unfold all_ids, in_flight_ids. rewrite E.
    subst c1. unfold settle_request, set. cbn. by rewrite fmap_app, <- app_assoc.
  - rewrite Hc. exact H2.
Qed.

Lemma fail_request_ok code c : client_ok c -> client_ok (fail_request connects code c).
Proof. apply finish_ok. Qed.

(** Changing what the request in flight has received. *)
Lemma refill_ok a b c :
  cc_active c = Some a -> if_request b = if_request a -> zlen (if_bytes b) <= MAX_RESPONSE_BYTES ->
  client_ok c -> client_ok (set cc_active (fun _ => Some b) c).
Proof.
  intros E Hr Hb [Hids Hbusy Hclosed Hbuf]. split; try done.
  unfold all_ids, in_flight_ids, set in *. cbn in *. rewrite E in Hids. by rewrite Hr.
Qed.

Lemma onData_chunk_ok chunk c : client_ok c -> client_ok (onData_chunk connects chunk c).
Proof.
  intros H. unfold onData_chunk. destruct (cc_active c) as [a|] eqn:E; [|done].
  destruct (_ <? _) eqn:Hlen; [by apply fail_request_ok|]. apply Z.ltb_ge in Hlen.
  destruct (index_of _ _).
  - destruct (_ || _); [by apply fail_request_ok|]. by eapply refill_ok.
  - by eapply refill_ok.
Qed.

Lemma submit_ok kind c : client_ok c -> client_ok (submit connects kind c).
Proof.
  intros [Hids Hbusy Hclosed Hbuf]. unfold submit.
  set (c0 := set cc_next S c).
  assert (Hnow : forall o, client_ok (settle_request (cc_next c) o c0)).
  { intros o. split; try done. unfold all_ids, settle_request, c0, set. cbn -[seq].
    rewrite seq_S, fmap_app. cbn. rewrite <- app_assoc. cbn.
    etransitivity; [symmetry; apply Permutation_middle|]. rewrite Permutation_cons_append.
    apply Permutation_app_tail. exact Hids. }
  destruct (match kind with AskConnect _ => _ | _ => _ end); [apply Hnow|].
  destruct (cc_closed c0) eqn:Hc; [apply Hnow|].
  unfold drain. set (c1 := set cc_queue _ c0).
  assert (Hall : all_ids c1 ≡ₚ seq 0 (S (cc_next c))).
  { unfold all_ids, in_flight_ids, c1, c0, set. cbn -[seq]. rewrite seq_S, map_app. cbn.
    rewrite !app_assoc. apply Permutation_app_tail. rewrite <- app_assoc. exact Hids. }
  destruct (cc_active c1) as [a|] eqn:Ha.
  - split; [done|congruence| |done]. intros Hx. change (cc_closed c0 = true) in Hx. congruence.
  - destruct (run_queue_ids (cc_queue c1) c1 Ha) as (H & Hn & Hcl & H1 & H2 & H3).
    split; [|done|by rewrite Hcl|done].
    rewrite H, Hn. change (cc_next c1) with (S (cc_next c)). rewrite <- Hall.
    unfold all_ids, in_flight_ids. by rewrite Ha.
Qed.

(** A closed client rejects its whole queue. *)
Lemma run_queue_closed queue c :
  cc_closed c = true ->
  run_queue connects queue c
  = set cc_queue (fun _ => [])
      (set cc_outcomes (fun l => l ++ map (fun r => (rq_id r, Throw "client_closed")) queue) c).
Proof.
  revert c. induction queue as [|r rest IH]; intros c Hc; cbn.
  - unfold set. cbn. by rewrite app_nil_r.
  - rewrite Hc, IH by done. unfold settle_request, set. cbn. by rewrite <- app_assoc.
Qed.

Lemma close_client_ok c : client_ok c -> client_ok (close_client connects c).
Proof.
  intros Hok. pose proof Hok as [Hids Hbusy Hclosed Hbuf]. unfold close_client.
  destruct (cc_closed c) eqn:E; [done|]. rewrite run_queue_closed by done. split; try done.
  unfold all_ids, in_flight_ids, set in *. cbn in *.
  rewrite <- Hids, fmap_app, app_nil_r, <- app_assoc, <- list_fmap_compose. apply Permutation_app_head.
  apply Permutation_app_comm.
Qed.

Lemma control_step_ok e c : client_ok c -> client_ok (control_step JSON_parse connects e c).
Proof.
  intros H. destruct e; cbn; auto using submit_ok, onData_chunk_ok, fail_request_ok, close_client_ok.
  - unfold onConnect. destruct (cc_active c) as [a|] eqn:E; [|done].
    eapply refill_ok; try done. pose proof (ok_buffer _ H) as Hb. unfold buffered in Hb. by rewrite E in Hb.
  - unfold onEnd. destruct (cc_active c) as [a|]; [|done].
    destruct (negb _); [by apply fail_request_ok|by apply finish_ok].
  - unfold onConnectTimeout. destruct (cc_active c) as [a|]; [|done].
    destruct (if_connecting a); [by apply fail_request_ok|done].
Qed.

Lemma control_run_ok events c :
  client_ok c -> client_ok (control_run JSON_parse connects events c).
Proof.
  revert c. induction events as [|e events IH]; intros c H; [done|].
  apply IH. by apply control_step_ok.
Qed.

Lemma closed_run_closed e c :
  cc_closed c = true -> cc_closed (control_step JSON_parse connects e c) = true.
Proof.
  assert (Hrun : forall q c, cc_closed (run_queue connects q c) = cc_closed c).
  { induction q as [|r q IH]; intros c'; [done|]. cbn. destruct (cc_closed c') eqn:E.
    - by rewrite IH.
    - destruct (_ <? _); [by rewrite IH|]. destruct (connects _); by rewrite ?IH. }
  assert (Hfin : forall r c, cc_closed (finish connects r c) = cc_closed c).
  { intros r c'. unfold finish, drain. destruct (cc_active c'); [|done]. etransitivity; [apply (Hrun _ _)|done]. }
  intros H. destruct e; cbn; unfold fail_request; rewrite ?Hfin; auto.
  - unfold submit. destruct (match kind with AskConnect _ => _ | _ => _ end); [done|].
    change (cc_closed (set cc_next S c)) with (cc_closed c). by rewrite H.
  - unfold onConnect. by destruct (cc_active c).
  - unfold onData_chunk, fail_request. destruct (cc_active c); [|done].
    destruct (_ <? _); [by rewrite Hfin|]. destruct (index_of _ _); [|done].
    destruct (_ || _); by rewrite ?Hfin.
  - unfold onEnd, fail_request. destruct (cc_active c); [|done]. destruct (negb _); by rewrite Hfin.
  - unfold onConnectTimeout, fail_request. destruct (cc_active c) as [a|]; [|done].
    destruct (if_connecting a); by rewrite ?Hfin.
  - unfold close_client. by rewrite H.
Qed.
End Accounting.

(** ** What a caller can rely on *)

Section Contract.
Context (JSON_parse : jsstring -> option value) (connects : nat -> bool).

Let run := control_run JSON_parse connects.

(** C14: whatever is submitted, received, timed out, aborted or closed, and in
    whatever order, every request ever submitted is exactly once either
    settled, in flight or queued; none waits while no stream is open; a closed
    client queues nothing; and at most 65536 bytes are buffered. *)
Theorem requests_accounted_once events :
  let c := run events new_client in
  all_ids c ≡ₚ seq 0 (cc_next c) /\ (cc_active c = None -> cc_queue c = [])
  /\ (cc_closed c = true -> cc_queue c = []) /\ buffered c <= MAX_RESPONSE_BYTES.
Proof.
  destruct (control_run_ok JSON_parse connects events new_client new_client_ok) as [? ? ? ?]. auto.
Qed.

Lemma closed_timeout_settles c :
  client_ok c -> cc_closed c = true ->
  let c' := control_step JSON_parse connects ReadTimeout c in
  (cc_outcomes c').*1 ≡ₚ seq 0 (cc_next c') /\ cc_active c' = None /\ cc_queue c' = [].
Proof.
  intros Hok Hc. pose proof (control_step_ok JSON_parse connects ReadTimeout c Hok) as Hok'.
  pose proof (closed_run_closed JSON_parse connects ReadTimeout c Hc) as Hc'.
  set (c' := control_step _ _ _ _) in *.
  assert (Ha : cc_active c' = None).
  { subst c'. cbn. unfold fail_request, finish. destruct (cc_active c) as [a|] eqn:E; [|done].
    unfold drain, settle_request, set. cbn -[run_queue]. by rewrite (ok_closed _ Hok Hc). }
  pose proof (ok_busy _ Hok' Ha) as Hq. destruct Hok' as [Hids _ _ _].
  unfold all_ids, in_flight_ids in Hids. rewrite Ha, Hq in Hids. cbn in Hids. rewrite app_nil_r in Hids.
  auto.
Qed.

(** C15: once the client is closed, its read timer is enough to settle all that
    was ever submitted, each request exactly once, whatever happens between
    [close] and the timer. *)
Theorem close_settles_everything before between :
  let c := run (before ++ [Closed] ++ between ++ [ReadTimeout]) new_client in
  (cc_outcomes c).*1 ≡ₚ seq 0 (cc_next c) /\ cc_active c = None /\ cc_queue c = [].
Proof.
  subst run. unfold control_run. rewrite !foldl_app. cbn [foldl].
  apply closed_timeout_settles.
  - apply control_run_ok. apply (control_step_ok JSON_parse connects Closed). by apply control_run_ok, new_client_ok.
  - set (c0 := foldl _ new_client before).
    assert (H : cc_closed (control_step JSON_parse connects Closed c0) = true).
    { cbn. unfold close_client. destruct (cc_closed c0) eqn:E; [done|].
      by rewrite run_queue_closed. }
    revert H. generalize (control_step JSON_parse connects Closed c0). clear.
    induction between as [|e between IH]; intros c H; [done|]. apply IH. by apply closed_run_closed.
Qed.
End Contract.
