(* ===== verification/Encodings.v ===== *)
(** * Text encodings of bytes

    Node's [toString('hex')] and [toString('base64')] and the browser's
    [atob], as the bridge and the UI use them, with their round trips. *)

From stdpp Require Import base list numbers option strings.
From Stdlib Require Import ZArith Lia.
From S2P Require Import Prelude Utf8.

(** ** Hexadecimal *)

Definition hex_digit (v : Z) : Z := if v <? 10 then 48 + v else 87 + v.

(** [bytes.toString('hex')] *)
Fixpoint to_hex (l : bytes) : jsstring :=
  match l with
  | [] => []
  | b :: rest => hex_digit (b / 16) :: hex_digit (b mod 16) :: to_hex rest
  end.

(** ** Base64 *)

Definition b64_char (v : Z) : Z :=
  if v <? 26 then 65 + v else if v <? 52 then 71 + v else if v <? 62 then v - 4
  else if v =? 62 then 43 else 47.

Definition b64_value (c : Z) : option Z :=
  if (65 <=? c) && (c <=? 90) then Some (c - 65)
  else if (97 <=? c) && (c <=? 122) then Some (c - 71)
  else if (48 <=? c) && (c <=? 57) then Some (c + 4)
  else if c =? 43 then Some 62 else if c =? 47 then Some 63 else None.

(** [bytes.toString('base64')], padded. *)
Fixpoint to_base64 (l : bytes) : jsstring :=
  match l with
  | [] => []
  | [a] => [b64_char (a / 4); b64_char (a mod 4 * 16); 61; 61]
  | [a; b] => [b64_char (a / 4); b64_char (a mod 4 * 16 + b / 16); b64_char (b mod 16 * 4); 61]
  | a :: b :: c :: rest =>
      b64_char (a / 4) :: b64_char (a mod 4 * 16 + b / 16) :: b64_char (b mod 16 * 4 + c / 64)
      :: b64_char (c mod 64) :: to_base64 rest
  end.

(** [atob] of a padded string without white space: the binary string, a code
    unit per byte; it throws on a character outside the alphabet. *)
Fixpoint atob (s : jsstring) : result bytes :=
  match s with
  | [] => Ok []
  | p :: q :: r :: t :: rest =>
      match b64_value p, b64_value q with
      | Some p, Some q =>
          let a := p * 4 + q / 16 in
          match b64_value r, b64_value t with
          | Some r, Some t =>
              let? more := atob rest in
              Ok (a :: q mod 16 * 16 + r / 4 :: r mod 4 * 64 + t :: more)
          | Some r, None =>
              if (t =? 61) && bool_decide (rest = []) then Ok [a; q mod 16 * 16 + r / 4]
              else Throw "InvalidCharacterError"
          | None, _ =>
              if (r =? 61) && (t =? 61) && bool_decide (rest = []) then Ok [a]
              else Throw "InvalidCharacterError"
          end
      | _, _ => Throw "InvalidCharacterError"
      end
  | _ => Throw "InvalidCharacterError"
  end.

(** ** Round trips *)

Lemma b64_value_char v : 0 <= v < 64 -> b64_value (b64_char v) = Some v.
Proof.
  intros Hv. unfold b64_char.
  destruct (Z.ltb_spec v 26); [|destruct (Z.ltb_spec v 52); [|destruct (Z.ltb_spec v 62);
    [|destruct (Z.eqb_spec v 62); [by subst|by replace v with 63 by lia]]]];
  unfold b64_value;
  repeat match goal with
  | |- context [?a <=? ?b] => destruct (Z.leb_spec a b); try lia; cbn
  end; f_equal; lia.
Qed.

Lemma list_ind3 {A} (P : list A -> Prop) :
  P [] -> (forall a, P [a]) -> (forall a b, P [a; b]) ->
  (forall a b c l, P l -> P (a :: b :: c :: l)) -> forall l, P l.
Proof.
  intros H0 H1 H2 H3 l.
  enough (P l /\ (forall a, P (a :: l)) /\ (forall a b, P (a :: b :: l))) by tauto.
  induction l as [|x l (IH0 & IH1 & IH2)]; [done|]. repeat split; auto.
Qed.

Lemma split_bits a k : 0 <= a -> 0 < k -> a / k * k + a mod k = a.
Proof. intros. pose proof (Z.div_mod a k). lia. Qed.

Lemma join_bits x y k : 0 <= y < k -> (x * k + y) / k = x /\ (x * k + y) mod k = y.
Proof.
  intros. split.
  - rewrite Z.div_add_l, Z.div_small by lia. lia.
  - rewrite Z.add_comm, Z.mod_add, Z.mod_small by lia. done.
Qed.

Lemma b64_fields a b : byte_ok a -> byte_ok b ->
  0 <= a / 4 < 64 /\ 0 <= a mod 4 * 16 + b / 16 < 64 /\ 0 <= b mod 16 * 4 < 64
  /\ a / 4 * 4 + (a mod 4 * 16 + b / 16) / 16 = a
  /\ (a mod 4 * 16 + b / 16) mod 16 * 16 + b mod 16 = b.
Proof.
  unfold byte_ok. intros Ha Hb.
  assert (0 <= b / 16 < 16) as H16 by (split; [apply Z.div_pos; lia|apply Z.div_lt_upper_bound; lia]).
  pose proof (Z.mod_pos_bound a 4). pose proof (Z.mod_pos_bound b 16).
  pose proof (split_bits a 4). pose proof (split_bits b 16).
  assert (0 <= a / 4 < 64) by (split; [apply Z.div_pos; lia|apply Z.div_lt_upper_bound; lia]).
  destruct (join_bits (a mod 4) (b / 16) 16 H16) as [-> ->]. lia.
Qed.

Lemma b64_last b c : byte_ok b -> byte_ok c ->
  0 <= b mod 16 * 4 + c / 64 < 64 /\ 0 <= c mod 64 < 64
  /\ (b mod 16 * 4 + c / 64) / 4 = b mod 16
  /\ (b mod 16 * 4 + c / 64) mod 4 * 64 + c mod 64 = c.
Proof.
  unfold byte_ok. intros Hb Hc.
  assert (0 <= c / 64 < 4) as H4 by (split; [apply Z.div_pos; lia|apply Z.div_lt_upper_bound; lia]).
  pose proof (Z.mod_pos_bound b 16). pose proof (Z.mod_pos_bound c 64). pose proof (split_bits c 64).
  destruct (join_bits (b mod 16) (c / 64) 4 H4) as [-> ->]. lia.
Qed.

Lemma byte_ok_0 : byte_ok 0.
Proof. unfold byte_ok. lia. Qed.

(** What was written in base64 is read back by [atob]. *)
Lemma atob_to_base64 l : bytes_ok l -> atob (to_base64 l) = Ok l.
Proof.
  induction l as [|a|a b|a b c l IH] using list_ind3; intros Hl; [done|..].
  - apply Forall_cons in Hl as [Ha _].
    destruct (b64_fields a 0 Ha byte_ok_0) as (H1 & H2 & _ & H3 & _).
    change (0 / 16) with 0 in *. rewrite Z.add_0_r in *. cbn [to_base64 atob].
    rewrite !b64_value_char by done. change (b64_value 61) with (@None Z). cbn. by rewrite H3.
  - apply Forall_cons in Hl as [Ha [Hb _]%Forall_cons].
    destruct (b64_fields a b Ha Hb) as (H1 & H2 & H3 & H4 & H5). cbn [to_base64 atob].
    rewrite !b64_value_char by done. change (b64_value 61) with (@None Z). cbn -[Z.mul Z.div Z.modulo].
    rewrite H4, Z.div_mul, H5 by lia. done.
  - apply Forall_cons in Hl as [Ha [Hb [Hc Hl]%Forall_cons]%Forall_cons].
    destruct (b64_fields a b Ha Hb) as (H1 & H2 & _ & H4 & H5).
    destruct (b64_last b c Hb Hc) as (H6 & H7 & H8 & H9). cbn [to_base64 atob].
    rewrite !b64_value_char by done. rewrite (IH Hl). cbn -[Z.mul Z.div Z.modulo].
    by rewrite H4, H8, H5, H9.
Qed.

Lemma to_base64_inj l1 l2 : bytes_ok l1 -> bytes_ok l2 -> to_base64 l1 = to_base64 l2 -> l1 = l2.
Proof.
  intros H1 H2 H. pose proof (atob_to_base64 l1 H1) as E1. rewrite H, atob_to_base64 in E1 by done.
  congruence.
Qed.

Lemma hex_digit_inj v w : 0 <= v < 16 -> 0 <= w < 16 -> hex_digit v = hex_digit w -> v = w.
Proof. unfold hex_digit. intros. destruct (Z.ltb_spec v 10), (Z.ltb_spec w 10); lia. Qed.

Lemma to_hex_inj l1 : forall l2, bytes_ok l1 -> bytes_ok l2 -> to_hex l1 = to_hex l2 -> l1 = l2.
Proof.
  induction l1 as [|a l1 IH]; intros [|b l2] H1 H2; try done. cbn.
  apply Forall_cons in H1 as [Ha H1]. apply Forall_cons in H2 as [Hb H2]. intros [= E1 E2 E3].
  unfold byte_ok in *. f_equal; [|by apply IH].
  pose proof (split_bits a 16). pose proof (split_bits b 16).
  assert (0 <= a / 16 < 16) by (split; [apply Z.div_pos; lia|apply Z.div_lt_upper_bound; lia]).
  assert (0 <= b / 16 < 16) by (split; [apply Z.div_pos; lia|apply Z.div_lt_upper_bound; lia]).
  pose proof (Z.mod_pos_bound a 16). pose proof (Z.mod_pos_bound b 16).
  apply hex_digit_inj in E1, E2; lia.
Qed.
