(* ===== verification/Image.v ===== *)
(** * Image transfer ([packages/bridge/src/image-transfer.ts])

    The datagram of one compressed band of the image, the sender's loop that
    cuts a raster into bands, the receiver that assembles them whatever the
    order and repetition of the datagrams, and the retry loop that sends once
    per appearance of the authenticated peer.  The compressor is Node's zlib, a
    parameter with the laws of its documentation. *)

From stdpp Require Import base list numbers option strings sorting.
From Stdlib Require Import ZArith Lia.
From S2P Require Import Prelude Utf8 Encodings.

Definition IMAGE_TRANSFER_PORT : Z := 45910.
Definition IMAGE_MAX_WIDTH : Z := 96.
Definition IMAGE_MAX_HEIGHT : Z := 96.
Definition IMAGE_MAX_BYTES : Z := IMAGE_MAX_WIDTH * IMAGE_MAX_HEIGHT * 4.
Definition IMAGE_BAND_MAX_BYTES : Z := 1200.
Definition IMAGE_BAND_TARGET_ROWS : Z := 6.
Definition HEADER_BYTES : Z := 32.
Definition MAGIC : bytes := [70; 73; 77; 71].
Definition ENCODING_DEFLATE_RAW : Z := 2.

(** [deflateRawSync(x, { level: 9 })]; [inflateRawSync(x, { maxOutputLength })],
    which may throw. *)
Class Zlib := {
  deflateRaw : bytes -> bytes;
  inflateRaw : bytes -> Z -> option bytes;
}.

(** Inflating undoes deflating when the output limit allows; the output is a
    byte string, never empty, and no larger than zlib's documented bound. *)
Class ZlibLaws (Z : Zlib) := {
  inflate_deflate x n : bytes_ok x -> zlen x <= 65535 -> zlen x <= n -> inflateRaw (deflateRaw x) n = Some x;
  deflate_bytes x : bytes_ok x -> zlen x <= 65535 -> bytes_ok (deflateRaw x);
  deflate_nonempty x : zlen x <= 65535 -> 1 <= zlen (deflateRaw x);
  deflate_bound x : zlen x <= 65535 -> zlen (deflateRaw x) <= zlen x + zlen x / 4096 + 13;
}.

Record ImageTransferBand := mkBand { band_y : Z; band_rows : Z; band_rgbaBase64 : jsstring }.

#[export] Instance ImageTransferBand_eq_dec : EqDecision ImageTransferBand.
Proof. solve_decision. Defined.

Record ImageTransferSnapshot := mkSnapshot {
  sn_transferId : option jsstring; sn_width : Z; sn_height : Z; sn_receivedRows : Z;
  sn_complete : bool; sn_revision : Z; sn_bands : list ImageTransferBand }.

(** A band, its transfer named by a buffer (to encode) or by its hexadecimal
    form (decoded). *)
Record DecodedBand (T : Type) := mkDecoded {
  db_transferId : T; db_width : Z; db_height : Z; db_y : Z; db_rows : Z; db_rgba : bytes }.
Arguments mkDecoded {T}. Arguments db_transferId {T}. Arguments db_width {T}. Arguments db_height {T}.
Arguments db_y {T}. Arguments db_rows {T}. Arguments db_rgba {T}.

Definition integer (value minimum maximum : Z) (code : string) : result unit :=
  require_not (negb (is_safe_integer value) || (value <? minimum) || (maximum <? value)) code.

Definition validateRaster (width height : Z) (rgba : bytes) : result unit :=
  let? _ := integer width 1 IMAGE_MAX_WIDTH "image_width_invalid" in
  let? _ := integer height 1 IMAGE_MAX_HEIGHT "image_height_invalid" in
  require_not (negb (zlen rgba =? width * height * 4) || (IMAGE_MAX_BYTES <? zlen rgba)) "image_raster_invalid".

Definition image_header (transferId : bytes) (width height y rows payload : Z) : bytes :=
  MAGIC ++ [1; ENCODING_DEFLATE_RAW] ++ le_bytes 2 0 ++ transferId
  ++ le_bytes 2 width ++ le_bytes 2 height ++ le_bytes 2 y ++ le_bytes 2 rows
  ++ le_bytes 4 payload ++ le_bytes 4 0.

Section Codec.
Context {Z0 : Zlib}.

Definition encodeImageBand (input : DecodedBand bytes) : result bytes :=
  let? _ := integer (db_width input) 1 IMAGE_MAX_WIDTH "image_width_invalid" in
  let? _ := integer (db_height input) 1 IMAGE_MAX_HEIGHT "image_height_invalid" in
  reject_if negb (zlen (db_transferId input) =? 8) with "image_transfer_id_invalid";
  let? _ := integer (db_y input) 0 (db_height input - 1) "image_band_y_invalid" in
  let? _ := integer (db_rows input) 1 (db_height input - db_y input) "image_band_rows_invalid" in
  reject_if negb (zlen (db_rgba input) =? db_width input * db_rows input * 4)
            || (IMAGE_MAX_BYTES <? zlen (db_rgba input)) with "image_band_payload_invalid";
  let payload := deflateRaw (db_rgba input) in
  reject_if (zlen payload <? 1) || (IMAGE_BAND_MAX_BYTES <? zlen payload) with "image_band_compressed_oversize";
  Ok (image_header (db_transferId input) (db_width input) (db_height input) (db_y input) (db_rows input)
        (zlen payload) ++ payload).

Definition decodeImageBand (frame : bytes) : result (DecodedBand jsstring) :=
  reject_if (zlen frame <=? HEADER_BYTES) || (HEADER_BYTES + IMAGE_BAND_MAX_BYTES <? zlen frame)
  with "image_frame_size_invalid";
  reject_if negb (bool_decide (slice frame 0 4 = MAGIC)) || negb (read_le 1 4 frame =? 1)
            || negb (read_le 1 5 frame =? ENCODING_DEFLATE_RAW) || negb (read_le 2 6 frame =? 0)
            || negb (read_le 4 28 frame =? 0) with "image_frame_header_invalid";
  let width := read_le 2 16 frame in let height := read_le 2 18 frame in
  let y := read_le 2 20 frame in let rows := read_le 2 22 frame in
  let payload := drop 32 frame in
  reject_if negb (read_le 4 24 frame =? zlen payload) with "image_frame_length_invalid";
  let? _ := integer width 1 IMAGE_MAX_WIDTH "image_width_invalid" in
  let? _ := integer height 1 IMAGE_MAX_HEIGHT "image_height_invalid" in
  let? _ := integer y 0 (height - 1) "image_band_y_invalid" in
  let? _ := integer rows 1 (height - y) "image_band_rows_invalid" in
  let expectedBytes := width * rows * 4 in
  match inflateRaw payload expectedBytes with
  | None => Throw "image_band_payload_invalid"
  | Some rgba =>
      reject_if negb (zlen rgba =? expectedBytes) with "image_band_payload_invalid";
      Ok (mkDecoded (to_hex (slice frame 8 16)) width height y rows rgba)
  end.
End Codec.

(** ** The transfer object *)

Inductive Role := RoleA | RoleB.

#[export] Instance Role_eq_dec : EqDecision Role.
Proof. solve_decision. Defined.

Definition emptySnapshot : ImageTransferSnapshot := mkSnapshot None 0 0 0 false 0 [].

(** A call of [send] that waits for its datagram to go out. *)
Record Sending := mkSending {
  sd_transferId : bytes; sd_width : Z; sd_height : Z; sd_rgba : bytes;
  sd_y : Z; sd_rows : Z; sd_bands : Z }.

Record ImageTransfer := mkTransfer {
  it_closed : bool;
  it_snapshot : ImageTransferSnapshot;
  it_received : list (Z * ImageTransferBand);
  it_sending : list (nat * Sending);
  it_next : nat;
  it_outbox : list bytes;
  it_results : list (nat * result (jsstring * Z));
}.

#[export] Instance eta_ImageTransfer : Eta ImageTransfer := fun t =>
  mkTransfer (it_closed t) (it_snapshot t) (it_received t) (it_sending t) (it_next t) (it_outbox t) (it_results t).

Definition createImageTransfer : ImageTransfer := mkTransfer false emptySnapshot [] [] 0 [] [].

Section Transfer.
Context {Z0 : Zlib} (role : Role) (peerIpv6 : string).

Definition band_le (left right : ImageTransferBand) : Prop := band_y left <= band_y right.

#[global] Instance band_le_dec : RelDecision band_le.
Proof. intros l r. unfold band_le. apply _. Defined.

Definition total_rows (bands : list ImageTransferBand) : Z := foldr (fun b n => band_rows b + n) 0 bands.

(** The first band of a transfer the receiver does not hold: what it held is
    forgotten. *)
Definition another_transfer (band : DecodedBand jsstring) (t : ImageTransfer) : bool :=
  negb (bool_decide (sn_transferId (it_snapshot t) = Some (db_transferId band)))
  || negb (sn_width (it_snapshot t) =? db_width band) || negb (sn_height (it_snapshot t) =? db_height band).

Definition begin_transfer (transferId : jsstring) (width height : Z) (t : ImageTransfer) : ImageTransfer :=
  set it_received (fun _ => [])
    (set it_snapshot (fun sn => mkSnapshot (Some transferId) width height 0 false (sn_revision sn + 1) []) t).

(** The band is stored, unless it is there, and the snapshot rebuilt. *)
Definition store_band (band : DecodedBand jsstring) (t : ImageTransfer) : ImageTransfer :=
  let unchanged := match map_get (db_y band) (it_received t) with
                   | Some previous => (band_rows previous =? db_rows band)
                                      && bool_decide (band_rgbaBase64 previous = to_base64 (db_rgba band))
                   | None => false
                   end in
  if unchanged then t
  else
    let item := mkBand (db_y band) (db_rows band) (to_base64 (db_rgba band)) in
    let received := map_set (db_y band) item (it_received t) in
    let bands := merge_sort band_le received.*2 in
    set it_received (fun _ => received)
      (set it_snapshot (fun sn => mkSnapshot (sn_transferId sn) (sn_width sn) (sn_height sn)
         (total_rows bands) (total_rows bands =? db_height band) (sn_revision sn + 1) bands) t).

(** A datagram arrived. *)
Definition accept (frame : bytes) (remote : string) (t : ImageTransfer) : ImageTransfer :=
  if negb (bool_decide (role = RoleB)) || negb (bool_decide (remote = peerIpv6)) then t
  else match decodeImageBand frame with
  | Throw _ => t
  | Ok band =>
      store_band band
        (if another_transfer band t
         then begin_transfer (db_transferId band) (db_width band) (db_height band) t else t)
  end.

(** [while (rows > 0)]: the tallest band, of at most [rows] rows, that fits. *)
Fixpoint fit_rows (rows : nat) (transferId : bytes) (width height y : Z) (rgba : bytes) : result (Z * bytes) :=
  match rows with
  | O => Throw "image_band_payload_invalid"
  | S fewer =>
      let n := Z.of_nat rows in
      let body := slice rgba (Z.to_nat (y * width * 4)) (Z.to_nat ((y + n) * width * 4)) in
      match encodeImageBand (mkDecoded transferId width height y n body) with
      | Ok frame => Ok (n, frame)
      | Throw message =>
          if negb (bool_decide (message = "image_band_compressed_oversize"%string)) || (n =? 1)
          then Throw message
          else fit_rows fewer transferId width height y rgba
      end
  end.

Definition result_of (id : nat) (r : result (jsstring * Z)) : ImageTransfer -> ImageTransfer :=
  set it_results (fun l => l ++ [(id, r)]).

(** The body of the loop from row [y]: the next datagram is handed to the
    socket, or the call is done. *)
Definition send_next (id : nat) (s : Sending) (t : ImageTransfer) : ImageTransfer :=
  if sd_y s <? sd_height s then
    match fit_rows (Z.to_nat (Z.min IMAGE_BAND_TARGET_ROWS (sd_height s - sd_y s))) (sd_transferId s)
            (sd_width s) (sd_height s) (sd_y s) (sd_rgba s) with
    | Throw e => result_of id (Throw e) t
    | Ok (rows, frame) =>
        set it_outbox (fun l => l ++ [frame])
          (set it_sending (fun l => l ++ [(id, mkSending (sd_transferId s) (sd_width s) (sd_height s)
             (sd_rgba s) (sd_y s) rows (sd_bands s))]) t)
    end
  else
    result_of id (Ok (to_hex (sd_transferId s), sd_bands s))
      (set it_snapshot (fun sn => mkSnapshot (sn_transferId sn) (sn_width sn) (sn_height sn)
         (sd_height s) true (sn_revision sn + 1) (sn_bands sn)) t).

Definition send (transferId : bytes) (width height : Z) (rgba : bytes) (t : ImageTransfer) : ImageTransfer :=
  let id := it_next t in
  let t := set it_next S t in
  if it_closed t || negb (bool_decide (role = RoleA)) then result_of id (Throw "image_send_forbidden") t
  else match validateRaster width height rgba with
  | Throw e => result_of id (Throw e) t
  | Ok _ =>
      send_next id (mkSending transferId width height rgba 0 0 0)
        (set it_snapshot (fun sn => mkSnapshot (Some (to_hex transferId)) width height 0 false
           (sn_revision sn + 1) []) t)
  end.

(** [await sendDatagram]: the socket took the datagram of call [id], or failed. *)
Definition datagram_done (id : nat) (error : option string) (t : ImageTransfer) : ImageTransfer :=
  match map_get id (it_sending t) with
  | None => t
  | Some s =>
      let t := set it_sending (map_delete id) t in
      match error with
      | Some e => result_of id (Throw e) t
      | None => send_next id (mkSending (sd_transferId s) (sd_width s) (sd_height s) (sd_rgba s)
                  (sd_y s + sd_rows s) (sd_rows s) (sd_bands s + 1)) t
      end
  end.

Definition close_transfer : ImageTransfer -> ImageTransfer := set it_closed (fun _ => true).

Inductive TransferEvent :=
  | SendCalled (transferId : bytes) (width height : Z) (rgba : bytes)
  | DatagramDone (id : nat) (error : option string)
  | Message (frame : bytes) (remote : string)
  | CloseCalled.

Definition transfer_step (e : TransferEvent) (t : ImageTransfer) : ImageTransfer :=
  match e with
  | SendCalled transferId width height rgba => send transferId width height rgba t
  | DatagramDone id error => datagram_done id error t
  | Message frame remote => accept frame remote t
  | CloseCalled => close_transfer t
  end.

Definition transfer_run (events : list TransferEvent) (t : ImageTransfer) : ImageTransfer :=
  foldl (fun t e => transfer_step e t) t events.
End Transfer.

(** [decodeBand] of the UI ([apps/modem-ui/src/demo-image.ts]). *)
Definition decodeBand (value : jsstring) : result bytes := atob value.

(** ** The retry loop of the authenticated sender *)

Inductive AttemptPhase := AwaitPeerReady | AwaitSend.

Record AuthenticatedImageSender := mkImageSender {
  as_closed : bool; as_sentOnce : bool; as_peerWasReady : bool; as_sendNeeded : bool;
  as_running : option AttemptPhase; as_timer : bool; as_sends : Z }.

#[export] Instance eta_AuthenticatedImageSender : Eta AuthenticatedImageSender := fun s =>
  mkImageSender (as_closed s) (as_sentOnce s) (as_peerWasReady s) (as_sendNeeded s) (as_running s)
    (as_timer s) (as_sends s).

Definition retry_valid (retryMs : Z) : result unit :=
  require_not (negb (is_safe_integer retryMs) || (retryMs <? 1) || (60000 <? retryMs)) "image_retry_invalid".

Definition schedule (s : AuthenticatedImageSender) : AuthenticatedImageSender :=
  if as_closed s || as_timer s then s else set as_timer (fun _ => true) s.

(** [schedule(0)] on creation. *)
Definition startAuthenticatedImageSender : AuthenticatedImageSender :=
  schedule (mkImageSender false false false true None false 0).

Definition attempt (s : AuthenticatedImageSender) : AuthenticatedImageSender :=
  if as_closed s || match as_running s with Some _ => true | None => false end then s
  else set as_running (fun _ => Some AwaitPeerReady) s.

(** [finally] *)
Definition attempt_over (s : AuthenticatedImageSender) : AuthenticatedImageSender :=
  let s := set as_running (fun _ => None) s in
  if as_closed s then s else schedule s.

(** [options.peerReady()] settled; [None] when it rejected. *)
Definition peer_ready_settled (ready : option bool) (s : AuthenticatedImageSender) : AuthenticatedImageSender :=
  match as_running s with
  | Some AwaitPeerReady =>
      match ready with
      | None => attempt_over s
      | Some false => attempt_over (set as_peerWasReady (fun _ => false) (set as_sendNeeded (fun _ => true) s))
      | Some true =>
          let s := if as_peerWasReady s then s else set as_sendNeeded (fun _ => true) s in
          let s := set as_peerWasReady (fun _ => true) s in
          if as_sendNeeded s
          then set as_running (fun _ => Some AwaitSend) (set as_sends (Z.add 1) s)
          else attempt_over s
      end
  | _ => s
  end.

(** [options.send()] settled. *)
Definition send_settled (ok : bool) (s : AuthenticatedImageSender) : AuthenticatedImageSender :=
  match as_running s with
  | Some AwaitSend =>
      if ok then attempt_over (set as_sendNeeded (fun _ => false) (set as_sentOnce (fun _ => true) s))
      else attempt_over s
  | _ => s
  end.

Definition close_sender (s : AuthenticatedImageSender) : AuthenticatedImageSender :=
  set as_closed (fun _ => true) (set as_timer (fun _ => false) s).

Inductive SenderEvent :=
  | SenderTimer
  | PeerReadySettled (ready : option bool)
  | SendSettled (ok : bool)
  | SenderClosed.

Definition sender_step (e : SenderEvent) (s : AuthenticatedImageSender) : AuthenticatedImageSender :=
  match e with
  | SenderTimer => if as_timer s then attempt (set as_timer (fun _ => false) s) else s
  | PeerReadySettled ready => peer_ready_settled ready s
  | SendSettled ok => send_settled ok s
  | SenderClosed => close_sender s
  end.

Definition sender_run (events : list SenderEvent) (s : AuthenticatedImageSender) : AuthenticatedImageSender :=
  foldl (fun s e => sender_step e s) s events.

(** ** The band codec *)

Section CodecLemmas.
Context {Z0 : Zlib} `{!ZlibLaws Z0}.

Lemma integer_ok value minimum maximum code r :
  integer value minimum maximum code = Ok r -> minimum <= value <= maximum.
Proof.
  unfold integer, require_not. intros H. destruct (_ || _) eqn:E; [done|]. bool_split. lia.
Qed.

Lemma integer_intro value minimum maximum code :
  -65536 <= minimum -> maximum <= 65536 -> minimum <= value <= maximum ->
  integer value minimum maximum code = Ok tt.
Proof.
  intros. unfold integer, require_not, is_safe_integer, MAX_SAFE_INTEGER.
  rewrite (proj2 (Z.leb_le _ value)), (proj2 (Z.leb_le value _)) by lia.
  by rewrite (proj2 (Z.ltb_ge value _)), (proj2 (Z.ltb_ge _ value)) by lia.
Qed.

(** What [encodeImageBand] requires of a band. *)
Definition band_valid (b : DecodedBand bytes) : Prop :=
  1 <= db_width b <= IMAGE_MAX_WIDTH /\ 1 <= db_height b <= IMAGE_MAX_HEIGHT /\
  zlen (db_transferId b) = 8 /\ 0 <= db_y b <= db_height b - 1 /\
  1 <= db_rows b <= db_height b - db_y b /\ zlen (db_rgba b) = db_width b * db_rows b * 4.

Lemma band_valid_size b : band_valid b -> zlen (db_rgba b) <= IMAGE_MAX_BYTES.
Proof.
  unfold band_valid, IMAGE_MAX_BYTES, IMAGE_MAX_WIDTH, IMAGE_MAX_HEIGHT. intros (?&?&?&?&?&->). nia.
Qed.

Definition band_frame (b : DecodedBand bytes) : bytes :=
  image_header (db_transferId b) (db_width b) (db_height b) (db_y b) (db_rows b)
    (zlen (deflateRaw (db_rgba b))) ++ deflateRaw (db_rgba b).

(** A valid band is encoded unless its compressed form is too long. *)
Lemma encodeImageBand_valid b : band_valid b ->
  encodeImageBand b = if IMAGE_BAND_MAX_BYTES <? zlen (deflateRaw (db_rgba b))
                      then Throw "image_band_compressed_oversize" else Ok (band_frame b).
Proof.
  intros Hb. pose proof (band_valid_size b Hb) as Hsize. destruct Hb as (Hw & Hh & Ht & Hy & Hr & Hl).
  unfold encodeImageBand. unfold IMAGE_MAX_WIDTH, IMAGE_MAX_HEIGHT in *.
  rewrite !integer_intro by lia. cbn [rbind]. rewrite Ht, Hl, !Z.eqb_refl. cbn [negb orb].
  rewrite <- Hl. destruct (Z.ltb_spec IMAGE_MAX_BYTES (zlen (db_rgba b))); [lia|]. cbn [require_not rbind].
  assert (zlen (db_rgba b) <= 65535) by (unfold IMAGE_MAX_BYTES, IMAGE_MAX_WIDTH, IMAGE_MAX_HEIGHT in *; lia).
  pose proof (deflate_nonempty (db_rgba b) ltac:(done)).
  destruct (Z.ltb_spec (zlen (deflateRaw (db_rgba b))) 1); [lia|]. cbn [orb].
  by destruct (_ <? _).
Qed.

Lemma encodeImageBand_ok b frame : encodeImageBand b = Ok frame ->
  band_valid b /\ frame = band_frame b /\ zlen (deflateRaw (db_rgba b)) <= IMAGE_BAND_MAX_BYTES.
Proof.
  unfold encodeImageBand. intros H. result_inv. bool_split.
  repeat match goal with R : integer _ _ _ _ = Ok _ |- _ => apply integer_ok in R end.
  repeat split; try done; lia.
Qed.

Lemma read_image_header tid w h y rows n rest :
  zlen tid = 8 -> 0 <= w <= 96 -> 0 <= h <= 96 -> 0 <= y <= 96 -> 0 <= rows <= 96 -> 0 <= n <= 1200 ->
  let f := image_header tid w h y rows n ++ rest in
  slice f 0 4 = MAGIC /\ read_le 1 4 f = 1 /\ read_le 1 5 f = ENCODING_DEFLATE_RAW /\ read_le 2 6 f = 0
  /\ slice f 8 16 = tid /\ read_le 2 16 f = w /\ read_le 2 18 f = h /\ read_le 2 20 f = y
  /\ read_le 2 22 f = rows /\ read_le 4 24 f = n /\ read_le 4 28 f = 0 /\ drop 32 f = rest.
Proof.
  unfold zlen. intros Ht ?????. destruct tid as [|t0 [|t1 [|t2 [|t3 [|t4 [|t5 [|t6 [|t7 [|]]]]]]]]]; cbn in Ht; try lia.
  unfold image_header. rewrite <- !app_assoc. cbn [app]. cbv zeta. unfold MAGIC. cbn [app].
  repeat split; try done; read_fields; try done.
Qed.

Lemma band_decode b frame :
  bytes_ok (db_rgba b) -> encodeImageBand b = Ok frame ->
  decodeImageBand frame = Ok (mkDecoded (to_hex (db_transferId b)) (db_width b) (db_height b) (db_y b)
                                (db_rows b) (db_rgba b)).
Proof.
  intros Hok [Hb [-> Hn]]%encodeImageBand_ok. pose proof (band_valid_size b Hb) as Hsize.
  assert (Hz : zlen (db_rgba b) <= 65535) by (unfold IMAGE_MAX_BYTES, IMAGE_MAX_WIDTH, IMAGE_MAX_HEIGHT in *; lia).
  pose proof (deflate_nonempty (db_rgba b) Hz) as H1. destruct Hb as (Hw & Hh & Ht & Hy & Hr & Hl).
  unfold IMAGE_BAND_MAX_BYTES, IMAGE_MAX_WIDTH, IMAGE_MAX_HEIGHT in *.
  unfold band_frame. set (payload := deflateRaw (db_rgba b)) in *. set (f := _ ++ payload).
  assert (Hlen : zlen f = 32 + zlen payload).
  { subst f. unfold image_header, zlen in *. autorewrite with js. cbn [length MAGIC]. lia. }
  destruct (read_image_header (db_transferId b) (db_width b) (db_height b) (db_y b) (db_rows b)
    (zlen payload) payload) as (E1&E2&E3&E4&E5&E6&E7&E8&E9&E10&E11&E12); try lia. fold f in E1,E2,E3,E4,E5,E6,E7,E8,E9,E10,E11,E12.
  unfold decodeImageBand. rewrite E1, E2, E3, E4, E5, E6, E7, E8, E9, E10, E11, E12, Hlen.
  unfold HEADER_BYTES, IMAGE_BAND_MAX_BYTES. rewrite bool_decide_eq_true_2, !Z.eqb_refl by done.
  destruct (Z.leb_spec (32 + zlen payload) 32); [lia|].
  destruct (Z.ltb_spec (32 + 1200) (32 + zlen payload)); [lia|]. cbn [negb orb require_not rbind].
  rewrite !integer_intro by (unfold IMAGE_MAX_WIDTH, IMAGE_MAX_HEIGHT; lia). cbn [rbind].
  subst payload. rewrite inflate_deflate by (done || lia). rewrite Hl, Z.eqb_refl. done.
Qed.
End CodecLemmas.

(** A compressor that stores its input, as a raw deflate stream of one stored
    block. *)
Definition stored (x : bytes) : bytes :=
  [1; zlen x mod 256; zlen x / 256; 255 - zlen x mod 256; 255 - zlen x / 256] ++ x.

Definition unstored (x : bytes) (limit : Z) : option bytes :=
  if zlen (drop 5 x) <=? limit then Some (drop 5 x) else None.

#[export] Instance StoredZlib : Zlib := {| deflateRaw := stored; inflateRaw := unstored |}.

Lemma stored_laws : ZlibLaws StoredZlib.
Proof.
  assert (Hlen : forall x, zlen (stored x) = 5 + zlen x) by (intros; unfold zlen, stored; cbn; lia).
  split; intros.
  - change (unstored (stored x) n = Some x). unfold unstored. change (drop 5 (stored x)) with x.
    by rewrite (proj2 (Z.leb_le (zlen x) n)) by lia.
  - change (bytes_ok (stored x)). assert (0 <= zlen x) by (unfold zlen; lia).
    pose proof (Z.mod_pos_bound (zlen x) 256). pose proof (Z.div_pos (zlen x) 256).
    pose proof (Z.div_lt_upper_bound (zlen x) 256 256).
    apply bytes_ok_app. split; [|done]. repeat constructor; unfold byte_ok; lia.
  - change (1 <= zlen (stored x)). rewrite Hlen. unfold zlen. lia.
  - change (zlen (stored x) <= zlen x + zlen x / 4096 + 13). rewrite Hlen.
    pose proof (Z.div_pos (zlen x) 4096). unfold zlen in *. lia.
Qed.

(** [decodeImageBand] returns the band [encodeImageBand] encoded, its
    transfer named in hexadecimal; and whatever bytes it accepts, what it
    returns lies inside the image and has its size. *)
Theorem band_roundtrip (Z0 : Zlib) (L : ZlibLaws Z0) b frame :
  bytes_ok (db_rgba b) -> encodeImageBand b = Ok frame ->
  decodeImageBand frame = Ok (mkDecoded (to_hex (db_transferId b)) (db_width b) (db_height b) (db_y b)
                                (db_rows b) (db_rgba b))
  /\ (forall raw d, decodeImageBand raw = Ok d ->
       1 <= db_width d <= IMAGE_MAX_WIDTH /\ 1 <= db_height d <= IMAGE_MAX_HEIGHT /\ 0 <= db_y d
       /\ 1 <= db_rows d /\ db_y d + db_rows d <= db_height d
       /\ zlen (db_rgba d) = db_width d * db_rows d * 4).
Proof.
  intros Hok He. split; [by apply band_decode|]. intros raw d H. unfold decodeImageBand in H. cbv zeta in H.
  result_inv. destruct (inflateRaw _ _); [|done]. result_inv. bool_split.
  repeat match goal with R : integer _ _ _ _ = Ok _ |- _ => apply integer_ok in R end.
  cbn [db_width db_height db_y db_rows db_rgba]. repeat split; try lia; done.
Qed.

Lemma band_roundtrip_witness :
  exists frame, encodeImageBand (mkDecoded [1; 2; 3; 4; 5; 6; 7; 8] 1 2 1 1 [9; 8; 7; 6]) = Ok frame
  /\ decodeImageBand frame = Ok (mkDecoded (js "0102030405060708") 1 2 1 1 [9; 8; 7; 6]).
Proof.
  eexists. split; [vm_compute; reflexivity|].
  apply (band_roundtrip StoredZlib stored_laws (mkDecoded [1; 2; 3; 4; 5; 6; 7; 8] 1 2 1 1 [9; 8; 7; 6])).
  - repeat constructor; unfold byte_ok; lia.
  - vm_compute. reflexivity.
Defined.
