(* ===== verification/ImageDelivery.v ===== *)
(** * The image arrives

    The sender's loop cuts any valid raster into bands that fit a datagram and
    terminates; the receiver, given those datagrams in any order and with any
    repetition, holds the same image, complete. *)

From stdpp Require Import base list numbers option strings sorting sets.
From Stdlib Require Import ZArith Lia.
From S2P Require Import Prelude Utf8 Encodings Image.

Section Delivery.
Context {Z0 : Zlib} `{!ZlibLaws Z0}.
Context (tid : bytes) (w h : Z) (rgba : bytes).
Context (Htid : zlen tid = 8) (Hvalid : validateRaster w h rgba = Ok tt) (Hrgba : bytes_ok rgba).

Lemma raster_bounds : 1 <= w <= 96 /\ 1 <= h <= 96 /\ zlen rgba = w * h * 4.
Proof.
  pose proof Hvalid as H. unfold validateRaster in H. result_inv.
  repeat match goal with R : integer _ _ _ _ = Ok _ |- _ => apply integer_ok in R end.
  unfold require_not in H. destruct (_ || _) eqn:E; [done|]. bool_split. done.
Qed.

Definition body (y rows : Z) : bytes := slice rgba (Z.to_nat (y * w * 4)) (Z.to_nat ((y + rows) * w * 4)).

Definition band (y rows : Z) : DecodedBand bytes := mkDecoded tid w h y rows (body y rows).

Lemma body_ok y rows : bytes_ok (body y rows).
Proof. by apply bytes_ok_slice. Qed.

Lemma band_ok y rows : 0 <= y -> 1 <= rows <= h - y -> band_valid (band y rows).
Proof.
  destruct raster_bounds as (? & ? & Hl). intros. repeat split; cbn; try done; try (unfold IMAGE_MAX_WIDTH, IMAGE_MAX_HEIGHT; lia).
  unfold body, zlen in *. rewrite length_slice by nia. nia.
Qed.

Lemma body_join y rows rest :
  0 <= y -> 0 <= rows -> 0 <= rest -> body y rows ++ body (y + rows) rest = body y (rows + rest).
Proof.
  intros. destruct raster_bounds as (? & ? & _). unfold body.
  rewrite slice_join by nia. do 2 f_equal. lia.
Qed.

(** Some band of at most [n] rows fits. *)
Lemma fit_rows_total n y : 0 <= y -> 1 <= Z.of_nat n <= h - y ->
  exists rows, 1 <= rows <= Z.of_nat n /\ fit_rows n tid w h y rgba = Ok (rows, band_frame (band y rows))
  /\ encodeImageBand (band y rows) = Ok (band_frame (band y rows)).
Proof.
  intros Hy. induction n as [|n IH]; [lia|]. intros Hn.
  assert (Hb := band_ok y (Z.of_nat (S n)) Hy ltac:(lia)).
  assert (E := encodeImageBand_valid _ Hb). cbn -[Z.of_nat encodeImageBand band_frame].
  fold (body y (Z.of_nat (S n))). fold (band y (Z.of_nat (S n))). rewrite E.
  destruct (IMAGE_BAND_MAX_BYTES <? _) eqn:Hbig.
  - destruct (Z.eqb_spec (Z.of_nat (S n)) 1) as [H1|H1].
    + exfalso. apply Z.ltb_lt in Hbig. pose proof (band_valid_size _ Hb) as Hsize.
      destruct Hb as (Hw & _ & _ & _ & _ & Hl). cbn [db_width db_rows db_rgba band] in *.
      assert (Hl1 : zlen (body y (Z.of_nat (S n))) = w * 4) by (rewrite Hl, H1; lia). unfold IMAGE_MAX_WIDTH, IMAGE_MAX_BYTES, IMAGE_MAX_HEIGHT in *.
      pose proof (deflate_bound (body y (Z.of_nat (S n))) ltac:(lia)) as Hd.
      rewrite Hl1, (Z.div_small (w * 4) 4096) in Hd by lia.
      unfold IMAGE_BAND_MAX_BYTES in Hbig. lia.
    + cbn. destruct IH as (rows & ? & ? & ?); [lia|]. exists rows. split; [lia|done].
  - exists (Z.of_nat (S n)). split; [lia|]. by rewrite E, ?Hbig.
Qed.

(** The cut of the rows from [y] on that the loop makes: (row, rows). *)
Inductive cut : Z -> list (Z * Z) -> Prop :=
  | cut_end : cut h []
  | cut_band y rows rest :
      0 <= y < h -> 1 <= rows <= h - y ->
      fit_rows (Z.to_nat (Z.min IMAGE_BAND_TARGET_ROWS (h - y))) tid w h y rgba
        = Ok (rows, band_frame (band y rows)) ->
      encodeImageBand (band y rows) = Ok (band_frame (band y rows)) ->
      cut (y + rows) rest -> cut y ((y, rows) :: rest).

Lemma cut_exists y : 0 <= y <= h -> exists plan, cut y plan.
Proof.
  remember (Z.to_nat (h - y)) as m eqn:Hm. revert y Hm.
  induction m as [m IH] using lt_wf_ind. intros y -> Hy.
  destruct (Z.eq_dec y h) as [->|Hne]; [by exists []; constructor|].
  destruct (fit_rows_total (Z.to_nat (Z.min IMAGE_BAND_TARGET_ROWS (h - y))) y) as (rows & Hr & Hf & He);
    [lia|unfold IMAGE_BAND_TARGET_ROWS; lia|].
  unfold IMAGE_BAND_TARGET_ROWS in *.
  destruct (IH (Z.to_nat (h - (y + rows))) ltac:(lia) (y + rows) eq_refl ltac:(lia)) as [plan Hplan].
  exists ((y, rows) :: plan). constructor; try done; unfold IMAGE_BAND_TARGET_ROWS; lia || done.
Qed.

Definition frame_of (p : Z * Z) : bytes := band_frame (band p.1 p.2).
Definition item_of (p : Z * Z) : ImageTransferBand := mkBand p.1 p.2 (to_base64 (body p.1 p.2)).

Lemma cut_frames y plan p : cut y plan -> p ∈ plan ->
  y <= p.1 /\ encodeImageBand (band p.1 p.2) = Ok (frame_of p).
Proof.
  induction 1 as [|y rows rest Hy Hr Hf He Hcut IH]; [by intros ?%elem_of_nil|].
  intros [->|Hin]%elem_of_cons; cbn; [split; [lia|done]|].
  destruct (IH Hin). split; [lia|done].
Qed.

Lemma cut_rows y plan : cut y plan -> total_rows (item_of <$> plan) = h - y.
Proof.
  induction 1 as [|y rows rest Hy Hr Hf He Hcut IH]; [cbn; lia|].
  rewrite fmap_cons. unfold total_rows in *. cbn [foldr item_of band_rows fst snd]. lia.
Qed.

Lemma cut_start y plan : cut y plan -> y <= h.
Proof. induction 1; lia. Qed.

Lemma cut_sorted y plan : cut y plan -> StronglySorted band_le (item_of <$> plan).
Proof.
  induction 1 as [|y rows rest Hy Hr Hf He Hcut IH]; cbn; constructor; [done|].
  apply Forall_fmap, Forall_forall. intros p Hp. unfold band_le. cbn.
  destruct (cut_frames _ _ _ Hcut Hp). lia.
Qed.

Lemma cut_distinct y plan : cut y plan -> NoDup (fst <$> plan).
Proof.
  induction 1 as [|y rows rest Hy Hr Hf He Hcut IH]; cbn; constructor; [|done].
  intros (p & -> & Hp)%list_elem_of_fmap. destruct (cut_frames _ _ _ Hcut Hp). lia.
Qed.

Lemma cut_bodies y plan : 0 <= y -> cut y plan ->
  concat ((fun p => body p.1 p.2) <$> plan) = body y (h - y).
Proof.
  intros Hy Hcut. induction Hcut as [|y rows rest Hy' Hr Hf He Hcut IH]; cbn.
  - unfold body, slice. replace (h + (h - h)) with h by lia. by rewrite Nat.sub_diag.
  - rewrite IH by lia. pose proof (cut_start _ _ Hcut). rewrite body_join by lia. f_equal. lia.
Qed.

(** ** The sender's run *)

Context (peer : string).

Lemma datagram_done_only id s t :
  it_sending t = [(id, s)] ->
  datagram_done id None t
  = send_next id (mkSending (sd_transferId s) (sd_width s) (sd_height s) (sd_rgba s)
                    (sd_y s + sd_rows s) (sd_rows s) (sd_bands s + 1)) (set it_sending (fun _ => []) t).
Proof.
  intros H. unfold datagram_done. rewrite H. cbn [map_get]. rewrite decide_True by done.
  f_equal. unfold set. cbn. rewrite H. unfold map_delete. cbn. by rewrite bool_decide_eq_true_2.
Qed.

Lemma send_run y plan id r k t :
  cut y plan -> it_sending t = [] ->
  let t' := transfer_run RoleA peer (replicate (length plan) (DatagramDone id None))
              (send_next id (mkSending tid w h rgba y r k) t) in
  it_results t' = it_results t ++ [(id, Ok (to_hex tid, k + zlen plan))] /\
  it_outbox t' = it_outbox t ++ (frame_of <$> plan).
Proof.
  intros Hcut. revert r k t.
  induction Hcut as [|y rows rest Hy Hr Hf He Hcut IH]; intros r k t Ht; unfold send_next; cbn [sd_y sd_height].
  - rewrite Z.ltb_irrefl. cbn. rewrite Z.add_0_r, app_nil_r. done.
  - rewrite (proj2 (Z.ltb_lt y h)) by lia. cbn [sd_transferId sd_width sd_rgba]. rewrite Hf.
    match goal with |- context [transfer_run _ _ _ ?t0] => set (t1 := t0) end.
    assert (Ht1 : it_sending t1 = [(id, mkSending tid w h rgba y rows k)]).
    { subst t1. unfold set. cbn. by rewrite Ht. }
    cbn [length replicate transfer_run foldl transfer_step].
    rewrite (datagram_done_only _ _ _ Ht1). cbn [sd_transferId sd_width sd_height sd_rgba sd_y sd_rows sd_bands].
    destruct (IH rows (k + 1) (set it_sending (fun _ => []) t1)) as [H1 H2]; [done|].
    unfold transfer_run in H1, H2. rewrite H1, H2. subst t1. unfold set. cbn. rewrite <- app_assoc.
    split; [|done]. unfold zlen. cbn [length]. do 5 f_equal. lia.
Qed.

Lemma send_from_row_0 plan :
  cut 0 plan ->
  let a := transfer_run RoleA peer (SendCalled tid w h rgba :: replicate (length plan) (DatagramDone 0 None))
             createImageTransfer in
  it_results a = [(0%nat, Ok (to_hex tid, zlen plan))] /\ it_outbox a = frame_of <$> plan.
Proof.
  intros Hcut. cbn [transfer_run foldl transfer_step]. unfold send. cbn [it_closed createImageTransfer orb].
  unfold set at 1. cbn [it_closed orb]. rewrite bool_decide_eq_true_2 by done. cbn [negb]. rewrite Hvalid.
  match goal with |- context [send_next _ _ ?t1] => destruct (send_run 0 plan 0 0 0 t1 Hcut eq_refl) as [H1 H2] end.
  split; [exact H1|exact H2].
Qed.

(** ** The receiver's run *)

Definition stale (t : ImageTransfer) : Prop := sn_transferId (it_snapshot t) <> Some (to_hex tid).

(** The receiver holds some of the [items] of this transfer, each under its
    row, and its snapshot says so. *)
Record holding (items : list ImageTransferBand) (t : ImageTransfer) : Prop := {
  hd_id : sn_transferId (it_snapshot t) = Some (to_hex tid);
  hd_width : sn_width (it_snapshot t) = w;
  hd_height : sn_height (it_snapshot t) = h;
  hd_keys : NoDup (it_received t).*1;
  hd_items : Forall (fun e => e.1 = band_y e.2 /\ e.2 ∈ items) (it_received t);
  hd_bands : sn_bands (it_snapshot t) = merge_sort band_le (it_received t).*2;
  hd_rows : sn_receivedRows (it_snapshot t) = total_rows (sn_bands (it_snapshot t));
  hd_complete : sn_complete (it_snapshot t) = (sn_receivedRows (it_snapshot t) =? h);
}.

(** What a stale receiver does first: it forgets the other transfer. *)
Definition restarted (t : ImageTransfer) : ImageTransfer := begin_transfer (to_hex tid) w h t.

Lemma restarted_holding items t : holding items (restarted t).
Proof.
  destruct raster_bounds as (_ & ? & _). split; try done.
  - constructor.
  - change (false = (0 =? h)). symmetry. apply Z.eqb_neq. lia.
Qed.

Lemma decode_frame_of y plan p : cut y plan -> p ∈ plan ->
  decodeImageBand (frame_of p) = Ok (mkDecoded (to_hex tid) w h p.1 p.2 (body p.1 p.2)).
Proof.
  intros Hcut Hp. destruct (cut_frames _ _ _ Hcut Hp) as [_ He].
  by rewrite (band_decode (band p.1 p.2) _ (body_ok p.1 p.2) He).
Qed.

(** The decoded datagram of [p]. *)
Definition arrival (p : Z * Z) : DecodedBand jsstring :=
  mkDecoded (to_hex tid) w h p.1 p.2 (body p.1 p.2).

Lemma accept_stale p plan t : cut 0 plan -> p ∈ plan -> stale t ->
  accept RoleB peer (frame_of p) peer t = store_band (arrival p) (restarted t).
Proof.
  intros Hcut Hp Hs. unfold accept. rewrite !bool_decide_eq_true_2 by done. cbn [negb orb].
  rewrite (decode_frame_of 0 plan) by done. fold (arrival p). unfold another_transfer.
  by rewrite bool_decide_eq_false_2.
Qed.

Lemma accept_current p plan t items : cut 0 plan -> p ∈ plan -> holding items t ->
  accept RoleB peer (frame_of p) peer t = store_band (arrival p) t.
Proof.
  intros Hcut Hp H. unfold accept. rewrite !bool_decide_eq_true_2 by done. cbn [negb orb].
  rewrite (decode_frame_of 0 plan) by done. fold (arrival p). unfold another_transfer.
  rewrite bool_decide_eq_true_2 by apply H. rewrite (hd_width _ _ H), (hd_height _ _ H).
  by rewrite !Z.eqb_refl.
Qed.

Lemma plan_item_unique y plan p q :
  cut y plan -> p ∈ plan -> q ∈ plan -> p.1 = q.1 -> p = q.
Proof.
  intros Hcut Hp Hq Heq. apply cut_distinct in Hcut.
  induction plan as [|r plan IH]; [by apply elem_of_nil in Hp|].
  apply NoDup_cons in Hcut as [Hni Hnd]. fold (fst <$> plan) in Hni.
  apply elem_of_cons in Hp as [->|Hp]; apply elem_of_cons in Hq as [->|Hq]; auto.
  - destruct Hni. apply list_elem_of_fmap. by exists q.
  - destruct Hni. apply list_elem_of_fmap. by exists p.
Qed.

(** A datagram of the transfer adds its band, or changes nothing when the band
    is there. *)
Lemma store_holding p plan t :
  cut 0 plan -> p ∈ plan -> holding (item_of <$> plan) t ->
  let t' := store_band (arrival p) t in
  holding (item_of <$> plan) t'
  /\ (forall v, v ∈ (it_received t').*2 <-> v = item_of p \/ v ∈ (it_received t).*2).
Proof.
  intros Hcut Hp H. pose proof H as [Hid Hw Hh Hkeys Hitems Hbands Hrows Hcomplete].
  unfold store_band. cbn [arrival db_y db_rows db_rgba db_height].
  destruct (map_get p.1 (it_received t)) as [previous|] eqn:Hget.
  - assert (previous = item_of p) as ->.
    { apply map_get_elem in Hget. rewrite Forall_forall in Hitems.
      destruct (Hitems _ Hget) as [Hk (q & Hprev & Hq)%list_elem_of_fmap]. cbn in Hk, Hprev. subst previous.
      by rewrite (plan_item_unique 0 plan p q). }
    cbn [item_of band_rows band_rgbaBase64]. rewrite Z.eqb_refl, bool_decide_eq_true_2 by done. cbn [andb].
    split; [done|]. intros v. split; [by right|]. intros [->|]; [|done].
    apply list_elem_of_fmap. exists (p.1, item_of p). split; [done|by apply map_get_elem].
  - cbn zeta. assert (Hnew : map_has p.1 (it_received t) = false) by (unfold map_has; by rewrite Hget).
    rewrite map_set_new by done. fold (item_of p). split.
    + split; try done; unfold set; cbn [it_received].
      * rewrite fmap_app. cbn. apply NoDup_app. split; [done|]. split; [|apply NoDup_singleton].
        intros k Hk ->%list_elem_of_singleton. apply map_has_keys in Hk. congruence.
      * apply Forall_app. split; [done|]. apply Forall_singleton. split; [done|].
        apply list_elem_of_fmap. by exists p.
    + intros v. unfold set. cbn [it_received]. rewrite fmap_app, elem_of_app. cbn.
      rewrite list_elem_of_singleton. tauto.
Qed.

Lemma frame_of_inj plan p q : cut 0 plan -> p ∈ plan -> q ∈ plan -> frame_of p = frame_of q -> p = q.
Proof.
  intros Hcut Hp Hq H. pose proof (decode_frame_of 0 plan p Hcut Hp) as E.
  rewrite H, (decode_frame_of 0 plan q Hcut Hq) in E. injection E as H1 H2 H3.
  by apply (plan_item_unique 0 plan).
Qed.

Lemma receive_frames plan ps t :
  cut 0 plan -> ps ⊆ plan -> holding (item_of <$> plan) t ->
  let t' := transfer_run RoleB peer (map (fun p => Message (frame_of p) peer) ps) t in
  holding (item_of <$> plan) t'
  /\ (forall v, v ∈ (it_received t').*2 <-> v ∈ item_of <$> ps \/ v ∈ (it_received t).*2).
Proof.
  intros Hcut. revert t. induction ps as [|p ps IH]; intros t Hsub Ht;
    cbn [map transfer_run foldl transfer_step].
  - split; [done|]. intros v. rewrite elem_of_nil. tauto.
  - assert (Hp : p ∈ plan) by (apply Hsub, elem_of_cons; by left). rewrite (accept_current p plan t _ Hcut Hp Ht).
    destruct (store_holding p plan t Hcut Hp Ht) as [H1 H2].
    destruct (IH _ ltac:(intros x Hx; apply Hsub, elem_of_cons; by right) H1) as [H3 H4]. split; [exact H3|].
    intros v. unfold transfer_run in H4. rewrite H4, H2, fmap_cons, elem_of_cons. tauto.
Qed.

Lemma band_le_total : Total band_le.
Proof. intros x y. unfold band_le. lia. Qed.

Lemma band_le_trans : Transitive band_le.
Proof. intros x y z. unfold band_le. lia. Qed.

(** When every band is there, the snapshot is the image. *)
Lemma holding_all plan t :
  cut 0 plan -> holding (item_of <$> plan) t ->
  (forall v, v ∈ (it_received t).*2 <-> v ∈ item_of <$> plan) ->
  sn_bands (it_snapshot t) = item_of <$> plan.
Proof.
  intros Hcut H Hall. rewrite (hd_bands _ _ H).
  pose proof band_le_total. pose proof band_le_trans.
  apply (StronglySorted_unique_strong band_le).
  - intros x1 x2 Hx1 Hx2 H12 H21.
    rewrite (merge_sort_Permutation band_le), Hall in Hx1.
    apply list_elem_of_fmap in Hx1 as (p & -> & Hp). apply list_elem_of_fmap in Hx2 as (q & -> & Hq).
    unfold band_le in *. cbn in *. by rewrite (plan_item_unique 0 plan p q) by (done || lia).
  - by apply StronglySorted_merge_sort.
  - by eapply cut_sorted.
  - rewrite (merge_sort_Permutation band_le). apply NoDup_Permutation; [| |done].
    + pose proof (hd_items _ _ H) as Hi. pose proof (hd_keys _ _ H) as Hk.
      apply (NoDup_fmap_1 band_y). rewrite <- list_fmap_compose.
      replace (band_y ∘ snd <$> it_received t) with (it_received t).*1; [done|].
      apply list_fmap_ext. intros i e He. rewrite Forall_forall in Hi.
      by destruct (Hi e (list_elem_of_lookup_2 _ _ _ He)).
    + apply (NoDup_fmap_1 band_y). rewrite <- list_fmap_compose. by eapply cut_distinct.
Qed.

Lemma received_image plan ps t :
  cut 0 plan -> (forall p, p ∈ ps <-> p ∈ plan) -> stale t ->
  let sn := it_snapshot (transfer_run RoleB peer (map (fun p => Message (frame_of p) peer) ps) t) in
  sn_transferId sn = Some (to_hex tid) /\ sn_width sn = w /\ sn_height sn = h
  /\ sn_complete sn = true /\ sn_receivedRows sn = h /\ sn_bands sn = item_of <$> plan.
Proof.
  intros Hcut Hps Hstale. destruct raster_bounds as (_ & Hh & _).
  destruct ps as [|p ps].
  { exfalso. destruct plan as [|q plan]; [inversion Hcut; lia|].
    apply (elem_of_nil q), Hps, elem_of_cons. by left. }
  assert (Hp : p ∈ plan) by (apply Hps, elem_of_cons; by left).
  cbn [map transfer_run foldl transfer_step]. rewrite (accept_stale p plan) by done.
  rewrite <- (accept_current p plan (restarted t) (item_of <$> plan)) by (done || apply restarted_holding).
  destruct (receive_frames plan (p :: ps) (restarted t) Hcut) as [H1 H2].
  { intros q Hq. by apply Hps. }
  { apply restarted_holding. }
  unfold transfer_run in H1, H2. cbn [map foldl transfer_step] in H1, H2.
  set (t' := foldl _ _ _) in *.
  assert (Hbands : sn_bands (it_snapshot t') = item_of <$> plan).
  { apply holding_all; [done..|]. intros v. rewrite H2.
    change (it_received (restarted t)).*2 with (@nil ImageTransferBand). rewrite !list_elem_of_fmap.
    split.
    - intros [(q & -> & Hq)|Hv]; [exists q; split; [done|by apply Hps]|by apply elem_of_nil in Hv].
    - intros (q & -> & Hq). left. exists q. split; [done|by apply Hps]. }
  pose proof (cut_rows 0 plan Hcut) as Hrows.
  destruct H1 as [Hid Hw' Hh' _ _ _ Hr Hc]. rewrite Hbands, Hrows in Hr.
  cbv zeta. repeat split; try done; [|lia]. rewrite Hc, Hr. apply Z.eqb_eq. lia.
Qed.

Lemma image_bodies plan : cut 0 plan ->
  exists bodies, Forall2 (fun b body => decodeBand (band_rgbaBase64 b) = Ok body) (item_of <$> plan) bodies
  /\ concat bodies = rgba.
Proof.
  intros Hcut. destruct raster_bounds as (? & ? & Hl). exists ((fun p => body p.1 p.2) <$> plan). split.
  - apply Forall2_fmap, Forall_Forall2_diag, Forall_forall. intros p _. apply atob_to_base64, body_ok.
  - rewrite (cut_bodies 0 plan) by done. unfold body, slice. rewrite drop_0. apply take_ge. unfold zlen in *. nia.
Qed.
End Delivery.

(** ** The transfer as a whole *)

Section Transfer.
Context {Z0 : Zlib}.

(** C16: any valid raster is cut into datagrams and sent to the end; and a
    receiver that holds another transfer or none, and gets those datagrams in
    any order and with any repetition, ends with the same image: complete, its
    bands in row order, decoding to the bytes that were sent. *)
Theorem image_delivered (L : ZlibLaws Z0) tid w h rgba peerA peerB :
  zlen tid = 8 -> validateRaster w h rgba = Ok tt -> bytes_ok rgba ->
  exists n,
    let a := transfer_run RoleA peerB (SendCalled tid w h rgba :: replicate n (DatagramDone 0 None))
               createImageTransfer in
    it_results a = [(0%nat, Ok (to_hex tid, Z.of_nat n))] /\
    forall b arrivals,
      sn_transferId (it_snapshot b) <> Some (to_hex tid) ->
      (forall m, m ∈ arrivals <-> m ∈ it_outbox a) ->
      let sn := it_snapshot (transfer_run RoleB peerA (map (fun m => Message m peerA) arrivals) b) in
      sn_transferId sn = Some (to_hex tid) /\ sn_width sn = w /\ sn_height sn = h
      /\ sn_complete sn = true /\ sn_receivedRows sn = h
      /\ exists bodies, Forall2 (fun b body => decodeBand (band_rgbaBase64 b) = Ok body) (sn_bands sn) bodies
         /\ concat bodies = rgba.
Proof.
  intros Htid Hv Hok. destruct (raster_bounds w h rgba Hv) as (_ & Hh & _).
  destruct (cut_exists tid w h rgba Htid Hv 0 ltac:(lia)) as [plan Hcut].
  exists (length plan). destruct (send_from_row_0 tid w h rgba Hv peerB plan Hcut) as [H1 H2].
  cbv zeta. rewrite H1, H2. split; [done|]. intros b arrivals Hb Harr.
  assert (exists ps, arrivals = frame_of tid w h rgba <$> ps /\ (forall p, p ∈ ps <-> p ∈ plan)) as (ps & -> & Hps).
  { assert (Hsub : Forall (fun m => exists p, p ∈ plan /\ m = frame_of tid w h rgba p) arrivals).
    { apply Forall_forall. intros m (p & -> & ?)%Harr%list_elem_of_fmap. by exists p. }
    assert (exists ps, arrivals = frame_of tid w h rgba <$> ps /\ ps ⊆ plan) as (ps & -> & Hps).
    { clear Harr. induction Hsub as [|m ms (p & Hp & ->) _ (ps & -> & IH)]; 
        [exists []; split; [done|by intros x ?%elem_of_nil]|].
      exists (p :: ps). split; [done|]. intros x [->|Hx]%elem_of_cons; [done|by apply IH]. }
    exists ps. split; [done|]. intros p. split; [apply Hps|]. intros Hp.
    assert (frame_of tid w h rgba p ∈ frame_of tid w h rgba <$> ps) as (q & Heq & Hq)%list_elem_of_fmap.
    { apply Harr, list_elem_of_fmap. by exists p. }
    by rewrite (frame_of_inj tid w h rgba Hok plan p q Hcut Hp (Hps _ Hq) Heq). }
  pose proof (received_image tid w h rgba Hv Hok peerA plan ps b Hcut Hps Hb) as H.
  rewrite (map_map (frame_of tid w h rgba) (fun m => Message m peerA) ps
           : map _ (frame_of tid w h rgba <$> ps) = _).
  cbv zeta in H. destruct H as (E1 & E2 & E3 & E4 & E5 & E6).
  rewrite E1, E2, E3, E4, E5, E6. repeat split; try done. by apply (image_bodies tid w h rgba Hv Hok).
Qed.
End Transfer.

Definition sample_tid : bytes := [1; 2; 3; 4; 5; 6; 7; 8].
Definition sample_rgba : bytes := map Z.of_nat (seq 0 28).

Lemma image_delivered_witness :
  exists n,
    let a := transfer_run RoleA "fd00::b" (SendCalled sample_tid 1 7 sample_rgba :: replicate n (DatagramDone 0 None))
               createImageTransfer in
    it_results a = [(0%nat, Ok (to_hex sample_tid, Z.of_nat n))] /\
    sn_complete (it_snapshot (transfer_run RoleB "fd00::a"
      (map (fun m => Message m "fd00::a") (reverse (it_outbox a) ++ it_outbox a)) createImageTransfer)) = true.
Proof.
  destruct (image_delivered stored_laws sample_tid 1 7 sample_rgba "fd00::a" "fd00::b") as (n & H1 & H2).
  - reflexivity.
  - reflexivity.
  - repeat constructor; unfold byte_ok; lia.
  - exists n. split; [exact H1|]. apply (H2 createImageTransfer); [done|].
    intros m. rewrite elem_of_app, elem_of_reverse. tauto.
Defined.

(** ** The retry loop *)

(** A live sender is either waiting for its timer or in an attempt, never both;
    the image is only being sent while that is needed; and when it is not the
    peer was present at the last poll. *)
Definition is_running (s : AuthenticatedImageSender) : bool :=
  match as_running s with Some _ => true | None => false end.

Definition sender_ok (s : AuthenticatedImageSender) : bool :=
  (if as_closed s then negb (as_timer s) else Bool.eqb (as_timer s) (negb (is_running s)))
  && match as_running s with Some AwaitSend => as_sendNeeded s && as_peerWasReady s | _ => true end
  && (as_sendNeeded s || as_peerWasReady s).

Lemma sender_step_ok e s : sender_ok s = true -> sender_ok (sender_step e s) = true.
Proof.
  destruct s as [closed once ready needed running timer sends].
  destruct closed, ready, needed, timer, running as [[]|]; try discriminate 1;
    destruct e as [|[[]|]|[]|]; exact (fun _ => eq_refl).
Qed.

Lemma sender_run_ok events s : sender_ok s = true -> sender_ok (sender_run events s) = true.
Proof.
  revert s. induction events as [|e events IH]; intros s H; [done|]. by apply IH, sender_step_ok.
Qed.

(** What the sender learns: a poll that found the peer away, or there; a send
    that ended, well or not.  An event counts only where it is awaited. *)
Inductive Learned := SawAway | SawPeer | SendEnded (ok : bool).

Definition learned (e : SenderEvent) (s : AuthenticatedImageSender) : option Learned :=
  match as_running s, e with
  | Some AwaitPeerReady, PeerReadySettled (Some present) => Some (if present then SawPeer else SawAway)
  | Some AwaitSend, SendSettled ok => Some (SendEnded ok)
  | _, _ => None
  end.

Fixpoint history (events : list SenderEvent) (s : AuthenticatedImageSender) : list Learned :=
  match events with
  | [] => []
  | e :: rest => option_list (learned e s) ++ history rest (sender_step e s)
  end.

(** Was the image sent since the peer last appeared: has a send ended well, and
    no poll found the peer away since? *)
Definition sent_since (d : bool) (h : list Learned) : bool :=
  foldl (fun d m => match m with SawAway => false | SendEnded true => true | _ => d end) d h.

(** The sends that history asks for: one at each poll that finds the peer there
    while the image was not sent since it appeared. *)
Fixpoint owed (d : bool) (h : list Learned) : Z :=
  match h with
  | [] => 0
  | SawPeer :: rest => (if d then 0 else 1) + owed d rest
  | SawAway :: rest => owed false rest
  | SendEnded ok :: rest => owed (d || ok) rest
  end.

(** [sendNeeded] says that the image is still to be sent. *)
Lemma sender_step_owes e s :
  sender_ok s = true ->
  as_sends (sender_step e s) = as_sends s + owed (negb (as_sendNeeded s)) (option_list (learned e s))
  /\ negb (as_sendNeeded (sender_step e s))
     = sent_since (negb (as_sendNeeded s)) (option_list (learned e s)).
Proof.
  destruct s as [closed once ready needed running timer sends].
  destruct closed, ready, needed, timer, running as [[]|]; try discriminate 1; intros _;
    destruct e as [|[[]|]|[]|]; lazy -[Z.add]; split; first [reflexivity|lia].
Qed.

Lemma owed_app d h h' :
  owed d (h ++ h') = owed d h + owed (sent_since d h) h'.
Proof.
  revert d. induction h as [|m h IH]; intros d; [done|]. unfold sent_since in *. cbn [foldl app].
  destruct m as [| |[]]; cbn [owed]; rewrite IH, ?orb_true_r, ?orb_false_r; lia.
Qed.

Lemma sender_run_owes events s :
  sender_ok s = true ->
  as_sends (sender_run events s) = as_sends s + owed (negb (as_sendNeeded s)) (history events s).
Proof.
  revert s. induction events as [|e events IH]; intros s Hok; [cbn; lia|].
  destruct (sender_step_owes e s Hok) as [H1 H2]. cbn [sender_run foldl history].
  change (foldl _ (sender_step e s) events) with (sender_run events (sender_step e s)).
  rewrite IH by by apply sender_step_ok. rewrite owed_app, H1, H2. lia.
Qed.

(** C17: whatever its callbacks do and in whatever order they settle, a sender
    that is not closed is either waiting for its timer or in exactly one
    attempt; and the sends it has made are those its history asks for, no more
    and no fewer: one at each poll that finds the peer there while no send has
    ended well since a poll last found the peer away. *)
Theorem sender_sends_once_per_appearance events :
  let s := sender_run events startAuthenticatedImageSender in
  (as_closed s = false -> as_timer s = negb (is_running s))
  /\ as_sends s = owed false (history events startAuthenticatedImageSender).
Proof.
  split; [|by rewrite sender_run_owes].
  assert (Hok : sender_ok (sender_run events startAuthenticatedImageSender) = true) by (by apply sender_run_ok).
  revert Hok. generalize (sender_run events startAuthenticatedImageSender) as s. intros s Hok Hc.
  unfold sender_ok in Hok. rewrite Hc in Hok. bool_split. by apply eqb_prop.
Qed.

(** The peer is there, the send fails, is made again and ends well; nothing more
    is sent until the peer was away and is back. *)
Example sender_history :
  let poll present := [SenderTimer; PeerReadySettled (Some present)] in
  as_sends (sender_run (poll true ++ [SendSettled false] ++ poll true ++ [SendSettled true] ++ poll true ++ poll true
                        ++ poll false ++ poll true ++ [SendSettled true] ++ poll true) startAuthenticatedImageSender) = 3.
Proof. reflexivity. Qed.
