(* ===== verification/Regex.v ===== *)
(** * Regular expressions

    The part of ECMAScript's regular expressions the source uses: a
    backtracking matcher over code units with greedy repetition and numbered
    groups, and [Number] of the decimal strings the groups capture. *)

From stdpp Require Import base list numbers option strings.
From Stdlib Require Import ZArith Lia SpecFloat.
From S2P Require Import Prelude Utf8 Doubles Json.

Inductive regex :=
  | RChar (class : Z -> bool)
  | REmpty
  | RSeq (a b : regex)
  | RAlt (a b : regex)
  | RStar (a : regex)
  | RGroup (n : nat) (a : regex).

Abbreviation captures := (list (nat * jsstring)) (only parsing).

(** [rx_match r s caps k]: match [r] at the front of [s], then [k] on the
    rest; the first success in priority order. *)
Fixpoint rx_match (r : regex) (s : jsstring) (caps : captures)
    (k : jsstring -> captures -> option captures) {struct r} : option captures :=
  match r with
  | RChar class => match s with c :: s' => if class c then k s' caps else None | [] => None end
  | REmpty => k s caps
  | RSeq a b => rx_match a s caps (fun s' caps' => rx_match b s' caps' k)
  | RAlt a b => match rx_match a s caps k with Some x => Some x | None => rx_match b s caps k end
  | RStar a =>
      (fix loop (fuel : nat) (s : jsstring) (caps : captures) : option captures :=
         match fuel with
         | O => k s caps
         | S fuel' =>
             match rx_match a s caps (fun s' caps' =>
                     if (length s' <? length s)%nat then loop fuel' s' caps' else None) with
             | Some x => Some x
             | None => k s caps
             end
         end) (length s) s caps
  | RGroup n a =>
      rx_match a s caps (fun s' caps' => k s' ((n, take (length s - length s')%nat s) :: caps'))
  end.

(** [regex.exec(s)]: the captures of the leftmost match. *)
Fixpoint rx_exec (r : regex) (s : jsstring) : option captures :=
  match rx_match r s [] (fun _ caps => Some caps) with
  | Some caps => Some caps
  | None => match s with [] => None | _ :: s' => rx_exec r s' end
  end.

Definition rx_group (n : nat) (caps : captures) : option jsstring := map_get n caps.

Definition rchar (c : Z) : regex := RChar (Z.eqb c).

(** A literal string, followed by [r]. *)
Fixpoint rlit_then (s : jsstring) (r : regex) : regex :=
  match s with [] => r | c :: s' => RSeq (rchar c) (rlit_then s' r) end.
Definition rlit (s : string) : regex := rlit_then (js s) REmpty.

Definition rplus (a : regex) : regex := RSeq a (RStar a).
Definition ropt (a : regex) : regex := RAlt a REmpty.
Definition rdigit : regex := RChar is_digit.

(** [\s] *)
Definition is_space (c : Z) : bool :=
  ((9 <=? c) && (c <=? 13)) || (c =? 32) || (c =? 160) || (c =? 0x1680) || ((0x2000 <=? c) && (c <=? 0x200A))
  || (c =? 0x2028) || (c =? 0x2029) || (c =? 0x202F) || (c =? 0x205F) || (c =? 0x3000) || (c =? 0xFEFF).
Definition rspace : regex := RChar is_space.

Fixpoint rseq (l : list regex) : regex :=
  match l with [] => REmpty | r :: l' => RSeq r (rseq l') end.

(** ** Decimal strings *)

(** [num / den] rounded to the nearest double, ties to even: the quotient to
    at least 55 bits, with a last bit that records a remainder. *)
Definition d_ratio (num den : Z) : double :=
  let k := Z.max 0 (55 + Z.log2 den - Z.log2 num) in
  let q := num * 2 ^ k / den in
  let sticky := if num * 2 ^ k mod den =? 0 then 0 else 1 in
  binary_normalize 53 1024 (2 * q + sticky) (- k - 1) false.

Fixpoint digits_value (acc : Z) (s : jsstring) : option Z :=
  match s with
  | [] => Some acc
  | c :: s' => if is_digit c then digits_value (10 * acc + (c - 48)) s' else None
  end.

Fixpoint split_dot (s : jsstring) : jsstring * option jsstring :=
  match s with
  | [] => ([], None)
  | c :: s' => if c =? 46 then ([], Some s') else let (a, b) := split_dot s' in (c :: a, b)
  end.

(** [Number(s)] of a string of digits and dots. *)
Definition decimal_number (s : jsstring) : double :=
  let (whole, fraction) := split_dot s in
  let f := default [] fraction in
  if bool_decide (whole ++ f = []) then S754_nan
  else match digits_value 0 (whole ++ f) with
  | Some n => d_ratio n (10 ^ zlen f)
  | None => S754_nan
  end.

Example exec_leftmost : rx_exec (RGroup 1 (rplus rdigit)) (js "ab12c3") = Some [(1%nat, js "12")].
Proof. reflexivity. Qed.

Example decimal_whole : decimal_number (js "100") = d_of_Z 100.
Proof. reflexivity. Qed.

Example decimal_half : decimal_number (js "33.5") = d_div (d_of_Z 67) (d_of_Z 2).
Proof. reflexivity. Qed.

Example decimal_third : decimal_number (js "0.1") = d_div (d_of_Z 1) (d_of_Z 10).
Proof. reflexivity. Qed.
