(* ===== verification/SoundProof.v ===== *)
(** * The proof of an authenticated sound peer ([packages/bridge/src/proof.ts])

    The join of the FIPS daemon's answers with the acoustic session's and the
    isolation check's reports, and what is published of a ping's output. *)

From stdpp Require Import base list numbers option strings.
From Stdlib Require Import ZArith Lia SpecFloat.
From S2P Require Import Prelude Utf8 Doubles Json Regex.

Inductive ProofReason :=
  | RReady | PeerMissing | PeerNotSound | LinkMissing | LinkInactive | TransportMissing | TransportNotReady
  | AcousticStale | AcousticEpochMismatch | SnapshotStale
  | IsolationFailed | IsolationStale | IsolationEpochMismatch | TargetMismatch.

Definition reason_string (r : ProofReason) : string :=
  match r with
  | RReady => "ready" | PeerMissing => "peer_missing" | PeerNotSound => "peer_not_sound"
  | LinkMissing => "link_missing" | LinkInactive => "link_inactive" | TransportMissing => "transport_missing"
  | TransportNotReady => "transport_not_ready" | AcousticStale => "acoustic_stale"
  | AcousticEpochMismatch => "acoustic_epoch_mismatch" | SnapshotStale => "snapshot_stale"
  | IsolationFailed => "isolation_failed" | IsolationStale => "isolation_stale"
  | IsolationEpochMismatch => "isolation_epoch_mismatch" | TargetMismatch => "target_mismatch"
  end.

Record AcousticProofStatus := mkAcoustic { ac_epoch : Z; ac_ready : bool; ac_observedAtMs : Z }.

Record IsolationProofStatus := mkIsolation {
  is_accepted : bool; is_epoch : Z; is_observedAtMs : Z; is_targetIpv6 : jsstring }.

Record SoundPeerInput := mkPeerInput {
  pi_expectedPeerPublicKey : jsstring; pi_peers : list value; pi_links : list value;
  pi_transports : list value; pi_acoustic : AcousticProofStatus; pi_nowMs : Z;
  pi_batchStartedAtMs : Z; pi_batchCompletedAtMs : Z }.

Record SoundProofInput := mkProofInput {
  pf_peer : SoundPeerInput; pf_targetIpv6 : jsstring; pf_isolation : IsolationProofStatus }.

(** A join that is not ready carries the facts found before it failed. *)
Record SoundPeerJoin := mkJoin {
  pj_reason : ProofReason; pj_peer : option value; pj_link : option value; pj_transport : option value }.

Record RawPingResult := mkRawPing { rp_exitCode : double; rp_stdout : jsstring; rp_stderr : jsstring }.

Record PublicPingResult := mkPing {
  pp_exitCode : Z; pp_sequence : option double; pp_latencyMs : option double;
  pp_lossPercent : option double; pp_safeReason : option string }.

Inductive ProofPhase := Loading | Blocked | PReady | Running | Degraded | Failed.

Record PublicProofState := mkProofState {
  ps_state : ProofPhase; ps_epoch : Z; ps_pingReady : bool; ps_reason : jsstring;
  ps_result : option PublicPingResult }.

Definition MAX_SNAPSHOT_AGE_MS : Z := 60000.

Definition ipv6 (v : value) : option jsstring :=
  match v with VString s => if is_fips_ipv6 s && (zlen s <=? 64) then Some s else None | _ => None end.

(** A safe integer that is not negative. *)
Definition proof_integer (v : value) : option Z :=
  match as_integer v with Some z => if 0 <=? z then Some z else None | None => None end.

(** [value.key] of any value: reading from [undefined] or [null] throws. *)
Definition prop (key : string) (v : value) : result value :=
  match v with
  | VUndefined | VNull => Throw "TypeError"
  | VObject f => Ok (get key f)
  | _ => Ok VUndefined
  end.

(** ** The reducer of the published state *)

Inductive ProofAction :=
  | Snapshot (epoch : Z) (pingReady : bool) (reason : jsstring)
  | Invalidate (epoch : Z) (reason : jsstring).

Definition reduceProofState (previous : option PublicProofState) (action : ProofAction) : PublicProofState :=
  match action with
  | Invalidate epoch reason => mkProofState Degraded epoch false reason None
  | Snapshot epoch pingReady reason =>
      let next := mkProofState (if pingReady then PReady else Blocked) epoch pingReady reason None in
      match previous with
      | Some p => if epoch <? ps_epoch p then p else next
      | None => next
      end
  end.

(** ** Validation of the evidence *)

Definition PEER_KEYS : list string :=
  ["expectedPeerPublicKey"; "peers"; "links"; "transports"; "acoustic"; "nowMs"; "batchStartedAtMs";
   "batchCompletedAtMs"]%string.

Definition PROOF_KEYS : list string :=
  ["expectedPeerPublicKey"; "targetIpv6"; "peers"; "links"; "transports"; "acoustic"; "isolation"; "nowMs";
   "batchStartedAtMs"; "batchCompletedAtMs"]%string.

Definition parse_acoustic (v : value) : option AcousticProofStatus :=
  match as_object v with
  | None => None
  | Some f =>
      match proof_integer (get "epoch" f), as_bool (get "ready" f), proof_integer (get "observedAtMs" f) with
      | Some epoch, Some ready, Some observedAtMs => Some (mkAcoustic epoch ready observedAtMs)
      | _, _, _ => None
      end
  end.

Definition parse_isolation (v : value) : option IsolationProofStatus :=
  match as_object v with
  | None => None
  | Some f =>
      match as_bool (get "accepted" f), proof_integer (get "epoch" f), proof_integer (get "observedAtMs" f),
            ipv6 (get "targetIpv6" f) with
      | Some accepted, Some epoch, Some observedAtMs, Some target =>
          Some (mkIsolation accepted epoch observedAtMs target)
      | _, _, _, _ => None
      end
  end.

(** The members the two inputs share. *)
Definition parse_evidence (error : string) (f : fields) : result SoundPeerInput :=
  match as_string (get "expectedPeerPublicKey" f), as_array (get "peers" f), as_array (get "links" f),
        as_array (get "transports" f), parse_acoustic (get "acoustic" f), proof_integer (get "nowMs" f),
        proof_integer (get "batchStartedAtMs" f), proof_integer (get "batchCompletedAtMs" f) with
  | Some key, Some peers, Some links, Some transports, Some acoustic, Some now, Some started, Some completed =>
      Ok (mkPeerInput key peers links transports acoustic now started completed)
  | _, _, _, _, _, _, _, _ => Throw error
  end.

Definition parseSoundPeerInput (v : value) : result SoundPeerInput :=
  match as_object v with
  | None => Throw "peer_proof_input_invalid"
  | Some f =>
      if negb (same_keys PEER_KEYS f) then Throw "peer_proof_input_invalid"
      else parse_evidence "peer_proof_input_invalid" f
  end.

Definition parseSoundProofInput (v : value) : result SoundProofInput :=
  match as_object v with
  | None => Throw "proof_input_invalid"
  | Some f =>
      if negb (same_keys PROOF_KEYS f) then Throw "proof_input_invalid"
      else
        let? input := parse_evidence "proof_input_invalid" f in
        match ipv6 (get "targetIpv6" f), parse_isolation (get "isolation" f) with
        | Some target, Some isolation => Ok (mkProofInput input target isolation)
        | _, _ => Throw "proof_input_invalid"
        end
  end.

(** ** The joins *)

(** [rows.find(test)], where the test may throw. *)
Fixpoint find_row (test : value -> result bool) (rows : list value) : result (option value) :=
  match rows with
  | [] => Ok None
  | row :: rest => let? found := test row in if found then Ok (Some row) else find_row test rest
  end.

(** [z === v] for an integer [z]. *)
Definition same_integer (z : Z) (v : value) : bool :=
  match as_integer v with Some w => z =? w | None => false end.

(** [item.id === other.id] for identifiers of unknown type. *)
Definition strict_equal (left right : value) : bool :=
  match left, right with
  | VUndefined, VUndefined | VNull, VNull => true
  | VBool a, VBool b => Bool.eqb a b
  | VString a, VString b => bool_decide (a = b)
  | VNumber x, VNumber y => d_eqb x y
  | _, _ => false
  end.

Definition peer_matches (key : jsstring) (item : value) : result bool :=
  let? npub := prop "npub" item in
  if negb (strict_equal npub (VString key)) then Ok false
  else let? connectivity := prop "connectivity" item in Ok (is_literal "connected" connectivity).

Definition id_matches (name : string) (wanted item : value) : result bool :=
  let? id := prop name item in Ok (strict_equal id wanted).

Definition not_ready (reason : ProofReason) (peer link transport : option value) : result SoundPeerJoin :=
  Ok (mkJoin reason peer link transport).

(** [transport.type !== 'sound' || ... || !integer(stats.epoch)], in its order. *)
Definition transport_epoch (transport stats : value) : result (option Z) :=
  let? type := prop "type" transport in
  if negb (is_literal "sound" type) then Ok None
  else let? state := prop "state" transport in
  if negb (is_literal "up" state) then Ok None
  else let? worker_up := prop "worker_up" stats in
  if negb (is_true_value worker_up) then Ok None
  else let? acoustic_ready := prop "acoustic_ready" stats in
  if negb (is_true_value acoustic_ready) then Ok None
  else let? epoch := prop "epoch" stats in Ok (proof_integer epoch).

Definition join_peer (input : SoundPeerInput) : result SoundPeerJoin :=
  let acoustic := pi_acoustic input in
  if (pi_batchCompletedAtMs input <? pi_batchStartedAtMs input)
     || (2000 <? pi_batchCompletedAtMs input - pi_batchStartedAtMs input)
     || (MAX_SNAPSHOT_AGE_MS <? pi_nowMs input - pi_batchCompletedAtMs input)
  then not_ready SnapshotStale None None None
  else
    let? peer := find_row (peer_matches (pi_expectedPeerPublicKey input)) (pi_peers input) in
    match peer with
    | None => not_ready PeerMissing None None None
    | Some peer =>
        let? transport_type := prop "transport_type" peer in
        if negb (is_literal "sound" transport_type) then not_ready PeerNotSound (Some peer) None None
        else
          let? link_id := prop "link_id" peer in
          let? link := find_row (id_matches "link_id" link_id) (pi_links input) in
          match link with
          | None => not_ready LinkMissing (Some peer) None None
          | Some link =>
              let? state := prop "state" link in
              if negb (is_literal "connected" state) then not_ready LinkInactive (Some peer) (Some link) None
              else
                let? transport_id := prop "transport_id" link in
                let? transport := find_row (id_matches "transport_id" transport_id) (pi_transports input) in
                match transport with
                | None => not_ready TransportMissing (Some peer) (Some link) None
                | Some transport =>
                    let fail reason := not_ready reason (Some peer) (Some link) (Some transport) in
                    let? stats := prop "stats" transport in
                    let? epoch := transport_epoch transport stats in
                    match epoch with
                    | None => fail TransportNotReady
                    | Some epoch =>
                        if negb (ac_ready acoustic)
                           || (MAX_SNAPSHOT_AGE_MS <? pi_nowMs input - ac_observedAtMs acoustic)
                        then fail AcousticStale
                        else if negb (ac_epoch acoustic =? epoch) then fail AcousticEpochMismatch
                        else fail RReady
                    end
                end
          end
    end.

Definition joinAuthenticatedSoundPeer (v : value) : result SoundPeerJoin :=
  let? input := parseSoundPeerInput v in join_peer input.

(** [transport.stats.epoch] of a join that is ready. *)
Definition join_epoch (join : SoundPeerJoin) : result value :=
  match pj_transport join with
  | Some transport => let? stats := prop "stats" transport in prop "epoch" stats
  | None => Throw "TypeError"
  end.

Definition peer_ready (join : SoundPeerJoin) : bool :=
  match pj_reason join with RReady => true | _ => false end.

(** The peer input is passed on as it was parsed, so the inner call validates
    nothing new. *)
Definition joinSoundProof (v : value) : result SoundPeerJoin :=
  let? input := parseSoundProofInput v in
  let? join := join_peer (pf_peer input) in
  if negb (peer_ready join) then Ok join
  else
    let now := pi_nowMs (pf_peer input) in let isolation := pf_isolation input in
    let fail reason := not_ready reason (pj_peer join) (pj_link join) (pj_transport join) in
    let? epoch := join_epoch join in
    if negb (is_accepted isolation) then fail IsolationFailed
    else if MAX_SNAPSHOT_AGE_MS <? now - is_observedAtMs isolation then fail IsolationStale
    else if negb (same_integer (is_epoch isolation) epoch) then fail IsolationEpochMismatch
    else if negb (bool_decide (is_targetIpv6 isolation = pf_targetIpv6 input)) then fail TargetMismatch
    else fail RReady.

(** ** What is published of a ping *)

Definition rdecimal : regex := RSeq (rplus rdigit) (ropt (RSeq (rchar 46) (rplus rdigit))).
Definition rdotted : regex := rplus (RChar (fun c => is_digit c || (c =? 46))).

Definition packet_regex : regex :=
  rseq [RGroup 1 (rplus rdigit); rplus rspace; rlit "packet"; ropt (rlit "s"); rlit " transmitted,"; RStar rspace;
        RGroup 2 (rplus rdigit); rplus rspace; ropt (RSeq (rlit "packet") (RSeq (ropt (rlit "s")) (rlit " ")));
        rlit "received,"; RStar rspace; RGroup 3 rdecimal; rlit "% packet loss"].

Definition latency_regex : regex :=
  RAlt
    (rseq [rlit "time"; RChar (fun c => (c =? 61) || (c =? 60)); RGroup 1 rdecimal; RStar rspace; rlit "ms"])
    (rseq [rlit "="; RStar rspace; rdotted; rlit "/"; RGroup 2 rdotted; rlit "/"]).

Definition capture_number (n : nat) (caps : list (nat * jsstring)) : option double :=
  option_map decimal_number (rx_group n caps).

(** [Number.isInteger(exitCode) && exitCode >= 0 && exitCode <= 255] *)
Definition exit_code (code : double) : Z :=
  match d_integer code with Some z => if (0 <=? z) && (z <=? 255) then z else 2 | None => 2 end.

Definition projectSoundProofResult (raw : RawPingResult) : PublicPingResult :=
  let packet := rx_exec packet_regex (rp_stdout raw) in
  let latency := rx_exec latency_regex (rp_stdout raw) in
  let exitCode := exit_code (rp_exitCode raw) in
  mkPing exitCode
    (match packet with Some caps => capture_number 2 caps | None => None end)
    (match latency with
     | Some caps => match capture_number 1 caps with Some x => Some x | None => capture_number 2 caps end
     | None => None
     end)
    (match packet with Some caps => capture_number 3 caps | None => None end)
    (if exitCode =? 0 then None else if exitCode =? 1 then Some "ping_no_reply"%string
     else Some "ping_failed"%string).

Example ping_reply :
  projectSoundProofResult (mkRawPing (d_of_Z 0)
    (js "64 bytes from fd00::2: icmp_seq=1 ttl=64 time=812.5 ms  1 packets transmitted, 1 received, 0% packet loss, time 0ms") [])
  = mkPing 0 (Some (d_of_Z 1)) (Some (d_ratio 8125 10)) (Some (d_of_Z 0)) None.
Proof. vm_compute. reflexivity. Qed.

(** ** What a ready proof rests on *)

Lemma find_row_some test rows row :
  find_row test rows = Ok (Some row) -> row ∈ rows /\ test row = Ok true.
Proof.
  induction rows as [|r rows IH]; cbn; [done|]. destruct (test r) as [[]|] eqn:E; cbn; [|intros H|done].
  - intros [= ->]. split; [apply list_elem_of_here|done].
  - destruct (IH H). split; [by apply list_elem_of_further|done].
Qed.

Lemma peer_matches_true key item :
  peer_matches key item = Ok true ->
  prop "npub" item = Ok (VString key) /\ prop "connectivity" item = Ok (vstr "connected").
Proof.
  unfold peer_matches. intros H. destruct (prop "npub" item) as [npub|] eqn:E; cbn in H; [|done].
  destruct (strict_equal npub (VString key)) eqn:Hs; cbn in H; [|done].
  destruct npub; try done. cbn in Hs. bool_split. subst.
  destruct (prop "connectivity" item) as [c|]; cbn in H; [|done]. injection H as H.
  by rewrite (is_literal_inv _ _ H).
Qed.

Lemma id_matches_true name wanted item :
  id_matches name wanted item = Ok true -> exists id, prop name item = Ok id /\ strict_equal id wanted = true.
Proof.
  unfold id_matches. destruct (prop name item) as [id|]; cbn; [|done]. intros [= H]. by exists id.
Qed.

(** The facts of a connection over sound, in one epoch. *)
Record sound_connection (input : SoundPeerInput) (peer link transport : value) (epoch : Z) : Prop := {
  sc_peer : peer ∈ pi_peers input;
  sc_npub : prop "npub" peer = Ok (VString (pi_expectedPeerPublicKey input));
  sc_connectivity : prop "connectivity" peer = Ok (vstr "connected");
  sc_peer_sound : prop "transport_type" peer = Ok (vstr "sound");
  sc_link : link ∈ pi_links input;
  sc_link_of_peer : exists a b, prop "link_id" link = Ok a /\ prop "link_id" peer = Ok b /\ strict_equal a b = true;
  sc_link_state : prop "state" link = Ok (vstr "connected");
  sc_transport : transport ∈ pi_transports input;
  sc_transport_of_link :
    exists a b, prop "transport_id" transport = Ok a /\ prop "transport_id" link = Ok b /\ strict_equal a b = true;
  sc_transport_up : prop "type" transport = Ok (vstr "sound") /\ prop "state" transport = Ok (vstr "up");
  sc_stats : exists stats e, prop "stats" transport = Ok stats /\ prop "worker_up" stats = Ok (VBool true)
    /\ prop "acoustic_ready" stats = Ok (VBool true) /\ prop "epoch" stats = Ok e /\ proof_integer e = Some epoch;
  sc_acoustic : ac_ready (pi_acoustic input) = true /\ ac_epoch (pi_acoustic input) = epoch;
  sc_fresh : 0 <= pi_batchCompletedAtMs input - pi_batchStartedAtMs input <= 2000
    /\ pi_nowMs input - pi_batchCompletedAtMs input <= MAX_SNAPSHOT_AGE_MS
    /\ pi_nowMs input - ac_observedAtMs (pi_acoustic input) <= MAX_SNAPSHOT_AGE_MS;
}.

Lemma transport_epoch_some transport stats epoch :
  transport_epoch transport stats = Ok (Some epoch) ->
  prop "type" transport = Ok (vstr "sound") /\ prop "state" transport = Ok (vstr "up")
  /\ prop "worker_up" stats = Ok (VBool true) /\ prop "acoustic_ready" stats = Ok (VBool true)
  /\ exists e, prop "epoch" stats = Ok e /\ proof_integer e = Some epoch.
Proof.
  assert (Htrue : forall v, is_true_value v = true -> v = VBool true) by (intros []; cbn; congruence).
  unfold transport_epoch. intros H. result_inv.
  destruct (is_literal "sound" a) eqn:E1; cbn [negb] in H; [|done]. result_inv.
  destruct (is_literal "up" a0) eqn:E2; cbn [negb] in H; [|done]. result_inv.
  destruct (is_true_value a1) eqn:E3; cbn [negb] in H; [|done]. result_inv.
  destruct (is_true_value a2) eqn:E4; cbn [negb] in H; [|done]. result_inv.
  apply is_literal_inv in E1, E2. apply Htrue in E3, E4. subst. repeat split; try done. by exists a3.
Qed.

Ltac ready_step :=
  match goal with
  | H : (if negb (is_literal ?s ?v) then _ else _) = Ok _ |- _ =>
      let E := fresh "L" in
      destruct (is_literal s v) eqn:E; cbn [negb] in H; [apply is_literal_inv in E; subst v|]
  | H : match ?o with Some _ => _ | None => _ end = Ok _ |- _ => destruct o eqn:?
  | H : (if ?b then _ else _) = Ok _ |- _ => let E := fresh "B" in destruct b eqn:E
  | H : not_ready ?r _ _ _ = Ok _ |- _ => unfold not_ready in H; injection H as <-
  end.

Lemma join_peer_ready input join :
  join_peer input = Ok join -> peer_ready join = true ->
  exists peer link transport epoch,
    join = mkJoin RReady (Some peer) (Some link) (Some transport)
    /\ sound_connection input peer link transport epoch.
Proof.
  unfold join_peer. cbv zeta. intros H Hr.
  repeat (first [ready_step|progress result_inv]; try discriminate Hr).
  rename v into peer, v0 into link, v1 into transport, z into epoch.
  exists peer, link, transport, epoch. split; [done|]. bool_split.
  repeat match goal with R : find_row _ _ = Ok _ |- _ => apply find_row_some in R as [? R] end.
  match goal with R : peer_matches _ _ = _ |- _ => apply peer_matches_true in R as [? ?] end.
  repeat match goal with R : id_matches _ _ _ = Ok true |- _ => apply id_matches_true in R as (? & ? & ?) end.
  match goal with R : transport_epoch _ _ = _ |- _ => apply transport_epoch_some in R as (? & ? & ? & ? & ? & ? & ?) end.
  split; eauto 12; repeat split; try done; lia.
Qed.

(** C18: the sound path is declared ready for a ping only on evidence that
    holds together: the expected peer, connected over sound; its link,
    connected; that link's sound transport, up, its worker and its acoustic
    session ready; acoustic session, transport and isolation check all in one
    epoch; the isolation accepted, for the same target; and nothing older than
    a minute. *)
Theorem proof_ready_sound v join :
  joinSoundProof v = Ok join -> pj_reason join = RReady ->
  exists input peer link transport epoch,
    parseSoundProofInput v = Ok input
    /\ join = mkJoin RReady (Some peer) (Some link) (Some transport)
    /\ sound_connection (pf_peer input) peer link transport epoch
    /\ is_accepted (pf_isolation input) = true /\ is_epoch (pf_isolation input) = epoch
    /\ is_targetIpv6 (pf_isolation input) = pf_targetIpv6 input
    /\ pi_nowMs (pf_peer input) - is_observedAtMs (pf_isolation input) <= MAX_SNAPSHOT_AGE_MS.
Proof.
  unfold joinSoundProof. cbv zeta. intros H Hr. result_inv. rename a into input, a0 into first.
  destruct (peer_ready first) eqn:Hready; cbn [negb] in H; [|result_inv; unfold peer_ready in Hready; by rewrite Hr in Hready].
  destruct (join_peer_ready _ _ R0 Hready) as (peer & link & transport & epoch & -> & Hc).
  destruct (sc_stats _ _ _ _ _ Hc) as (stats & e & Hs & _ & _ & He & Hint).
  assert (Hj : join_epoch (mkJoin RReady (Some peer) (Some link) (Some transport)) = Ok e).
  { unfold join_epoch. cbn. by rewrite Hs. }
  rewrite Hj in H. cbn [rbind pj_peer pj_link pj_transport] in H.
  repeat (ready_step; try discriminate Hr). bool_split.
  exists input, peer, link, transport, epoch.
  split; [done|]. split; [done|]. split; [exact Hc|]. split; [done|]. split; [|split; [done|lia]].
  - unfold same_integer in *. unfold proof_integer in Hint. destruct (as_integer e) as [z|]; [|done].
    destruct (0 <=? z); [|done]. injection Hint as ->. bool_split. done.
Qed.

Definition sample_key : string := "npub1qqqqqqqqqqqqqqqqqqqqq".

Definition sample_evidence : value := VObject [
  (js "expectedPeerPublicKey", vstr sample_key); (js "targetIpv6", vstr "fd00::2");
  (js "peers", VArray [VObject [(js "npub", vstr sample_key); (js "connectivity", vstr "connected");
     (js "link_id", vint 4); (js "transport_type", vstr "sound")]]);
  (js "links", VArray [VObject [(js "link_id", vint 4); (js "transport_id", vint 9); (js "state", vstr "connected")]]);
  (js "transports", VArray [VObject [(js "transport_id", vint 9); (js "type", vstr "sound"); (js "state", vstr "up");
     (js "stats", VObject [(js "worker_up", VBool true); (js "acoustic_ready", VBool true); (js "epoch", vint 3)])]]);
  (js "acoustic", VObject [(js "epoch", vint 3); (js "ready", VBool true); (js "observedAtMs", vint 1000)]);
  (js "isolation", VObject [(js "accepted", VBool true); (js "epoch", vint 3); (js "observedAtMs", vint 1000);
     (js "targetIpv6", vstr "fd00::2")]);
  (js "nowMs", vint 2000); (js "batchStartedAtMs", vint 1500); (js "batchCompletedAtMs", vint 1600)].

Lemma proof_ready_sound_witness :
  exists join, joinSoundProof sample_evidence = Ok join /\
    exists input peer link transport epoch,
      parseSoundProofInput sample_evidence = Ok input
      /\ sound_connection (pf_peer input) peer link transport epoch /\ is_epoch (pf_isolation input) = epoch.
Proof.
  eexists. split; [vm_compute; reflexivity|].
  destruct (proof_ready_sound sample_evidence _ ltac:(vm_compute; reflexivity) eq_refl)
    as (input & peer & link & transport & epoch & H1 & _ & H3 & _ & H5 & _).
  by exists input, peer, link, transport, epoch.
Defined.
