(* ===== verification/ProofController.v ===== *)
(** * The proof controller and the peer reconciler
    ([packages/bridge/src/proof-controller.ts], [fips-peer-reconciler.ts])

    Both ask the daemon, the clock and the acoustic side in a fixed order and
    act on the answers.  A routine is a [script]: the calls it makes and what it
    does with each answer; a trace is the calls with the answers they got.  The
    reconciler's polling loop is a state machine. *)

From stdpp Require Import base list numbers option strings.
From Stdlib Require Import ZArith Lia SpecFloat.
From S2P Require Import Prelude Utf8 Doubles Json Control SoundProof.

(** ** Scripts and traces *)

Inductive script (R : Type) :=
  | Return (r : result R)
  | CallNow (k : Z -> script R)
  | CallQueries (queries : list FipsControlQuery) (k : list FipsControlData -> script R)
  | CallAcousticStatus (k : AcousticProofStatus -> script R)
  | CallIsolation (k : IsolationProofStatus -> script R)
  | CallPing (target : jsstring) (k : option RawPingResult -> script R)
  | CallAcousticReady (k : bool -> script R)
  | CallConnect (peer : FipsConnectRequest) (k : script R).
Arguments Return {R}. Arguments CallNow {R}. Arguments CallQueries {R}. Arguments CallAcousticStatus {R}.
Arguments CallIsolation {R}. Arguments CallPing {R}. Arguments CallAcousticReady {R}. Arguments CallConnect {R}.

Fixpoint sbind {A B} (m : script A) (f : A -> script B) : script B :=
  match m with
  | Return (Ok a) => f a
  | Return (Throw e) => Return (Throw e)
  | CallNow k => CallNow (fun x => sbind (k x) f)
  | CallQueries queries k => CallQueries queries (fun x => sbind (k x) f)
  | CallAcousticStatus k => CallAcousticStatus (fun x => sbind (k x) f)
  | CallIsolation k => CallIsolation (fun x => sbind (k x) f)
  | CallPing target k => CallPing target (fun x => sbind (k x) f)
  | CallAcousticReady k => CallAcousticReady (fun x => sbind (k x) f)
  | CallConnect peer k => CallConnect peer (sbind k f)
  end.

Inductive event :=
  | NowIs (ms : Z)
  | QueriesAnswered (queries : list FipsControlQuery) (r : result (list FipsControlData))
  | AcousticStatusIs (status : AcousticProofStatus)
  | IsolationAnswered (r : result IsolationProofStatus)
  | PingDone (target : jsstring) (raw : option RawPingResult)
  | AcousticReadyIs (ready : bool)
  | ConnectAnswered (peer : FipsConnectRequest) (r : result unit).

#[export] Instance FipsControlQuery_eq_dec : EqDecision FipsControlQuery.
Proof. solve_decision. Defined.

#[export] Instance FipsConnectRequest_eq_dec : EqDecision FipsConnectRequest.
Proof. solve_decision. Defined.

(** The result of a script against a trace that answers exactly its calls; a
    rejected query, isolation check or connection ends it. *)
Fixpoint play {R} (m : script R) (trace : list event) {struct m} : option (result R) :=
  match m, trace with
  | Return r, [] => Some r
  | CallNow k, NowIs ms :: rest => play (k ms) rest
  | CallQueries queries k, QueriesAnswered queries' (Ok data) :: rest =>
      if decide (queries = queries' /\ length data = length queries) then play (k data) rest else None
  | CallQueries queries _, [QueriesAnswered queries' (Throw e)] =>
      if decide (queries = queries') then Some (Throw e) else None
  | CallAcousticStatus k, AcousticStatusIs status :: rest => play (k status) rest
  | CallIsolation k, IsolationAnswered (Ok status) :: rest => play (k status) rest
  | CallIsolation _, [IsolationAnswered (Throw e)] => Some (Throw e)
  | CallPing target k, PingDone target' raw :: rest => if decide (target = target') then play (k raw) rest else None
  | CallAcousticReady k, AcousticReadyIs ready :: rest => play (k ready) rest
  | CallConnect peer k, ConnectAnswered peer' (Ok _) :: rest => if decide (peer = peer') then play k rest else None
  | CallConnect peer _, [ConnectAnswered peer' (Throw e)] => if decide (peer = peer') then Some (Throw e) else None
  | _, _ => None
  end.

(** ** The proof controller *)

(** Rows and reports as the values the joins read. *)
Definition peer_value (p : FipsPeer) : value := VObject [
  (js "npub", VString (peer_npub p)); (js "connectivity", VString (peer_connectivity p));
  (js "link_id", vint (peer_link_id p)); (js "transport_type", VString (peer_transport_type p));
  (js "authenticated_at_ms", vint (peer_authenticated_at_ms p)); (js "last_seen_ms", vint (peer_last_seen_ms p))].

Definition link_value (l : FipsLink) : value := VObject [
  (js "link_id", vint (link_link_id l)); (js "transport_id", vint (link_transport_id l));
  (js "state", VString (link_state l)); (js "created_at_ms", vint (link_created_at_ms l));
  (js "stats", VObject (link_stats l))].

Definition transport_value (t : FipsTransport) : value := VObject [
  (js "transport_id", vint (tr_transport_id t)); (js "type", VString (tr_type t)); (js "state", VString (tr_state t));
  (js "mtu", vint (tr_mtu t)); (js "stats", VObject (tr_stats t))].

Definition acoustic_value (a : AcousticProofStatus) : value := VObject [
  (js "epoch", vint (ac_epoch a)); (js "ready", VBool (ac_ready a)); (js "observedAtMs", vint (ac_observedAtMs a))].

Definition isolation_value (i : IsolationProofStatus) : value := VObject [
  (js "accepted", VBool (is_accepted i)); (js "epoch", vint (is_epoch i));
  (js "observedAtMs", vint (is_observedAtMs i)); (js "targetIpv6", VString (is_targetIpv6 i))].

(** [(data as { peers }).peers] and the like: [undefined] on other data. *)
Definition peers_of (d : FipsControlData) : value :=
  match d with Peers l => VArray (map peer_value l) | _ => VUndefined end.
Definition links_of (d : FipsControlData) : value :=
  match d with Links l => VArray (map link_value l) | _ => VUndefined end.
Definition transports_of (d : FipsControlData) : value :=
  match d with Transports l => VArray (map transport_value l) | _ => VUndefined end.

Definition peer_input (key : jsstring) (peers links transports : FipsControlData) (acoustic : AcousticProofStatus)
    (now started completed : Z) : fields := [
  (js "expectedPeerPublicKey", VString key); (js "peers", peers_of peers); (js "links", links_of links);
  (js "transports", transports_of transports); (js "acoustic", acoustic_value acoustic);
  (js "nowMs", vint now); (js "batchStartedAtMs", vint started); (js "batchCompletedAtMs", vint completed)].

(** [{ ...peerEvidence.input, targetIpv6, isolation, nowMs }] *)
Definition proof_input (input : fields) (target : jsstring) (isolation : IsolationProofStatus) (now : Z) : fields :=
  map_set (js "nowMs") (vint now)
    (map_set (js "isolation") (isolation_value isolation) (map_set (js "targetIpv6") (VString target) input)).

Inductive EvidenceClass := Fixture | HumanNeeded.

Record PeerExecution := mkPeerExecution { pe_peerReady : bool; pe_reason : ProofReason; pe_join : SoundPeerJoin }.

Record ProofExecution := mkExecution {
  px_pingReady : bool; px_reason : ProofReason; px_evidenceClass : EvidenceClass;
  px_result : option PublicPingResult; px_raw : option RawPingResult; px_join : SoundPeerJoin }.

Section Controller.
Context (expectedPeerPublicKey targetIpv6 : jsstring).

Definition BATCH : list FipsControlQuery := [QueryPeers; QueryLinks; QueryTransports].

Definition peerEvidence : script (fields * SoundPeerJoin) :=
  CallNow (fun started =>
  CallQueries BATCH (fun data =>
    match data with
    | [peers; links; transports] =>
        CallNow (fun completed =>
        CallAcousticStatus (fun acoustic =>
        CallNow (fun now =>
          let input := peer_input expectedPeerPublicKey peers links transports acoustic now started completed in
          Return (let? join := joinAuthenticatedSoundPeer (VObject input) in Ok (input, join)))))
    | _ => Return (Throw "TypeError")
    end)).

Definition peerStatus : script PeerExecution :=
  sbind peerEvidence (fun e => Return (Ok (mkPeerExecution (peer_ready e.2) (pj_reason e.2) e.2))).

Definition human_needed (join : SoundPeerJoin) : script ProofExecution :=
  Return (Ok (mkExecution false (pj_reason join) HumanNeeded None None join)).

Definition evaluateStatus : script ProofExecution :=
  sbind peerEvidence (fun before =>
    if negb (peer_ready before.2) then human_needed before.2
    else CallIsolation (fun isolation =>
      sbind peerEvidence (fun evidence =>
        if negb (peer_ready evidence.2) then human_needed evidence.2
        else CallNow (fun now =>
          Return (
            let? join := joinSoundProof (VObject (proof_input evidence.1 targetIpv6 isolation now)) in
            Ok (mkExecution (peer_ready join) (pj_reason join) (if peer_ready join then Fixture else HumanNeeded)
                  None None join)))))).

Definition no_ping : RawPingResult := mkRawPing (d_of_Z 2) [] [].

(** [ping]; a failed [execFile] counts as exit code 2. *)
Definition ping : script ProofExecution :=
  sbind evaluateStatus (fun status =>
    if negb (px_pingReady status) then Return (Ok status)
    else CallPing targetIpv6 (fun raw =>
      let raw := default no_ping raw in
      Return (Ok (mkExecution (px_pingReady status) (px_reason status) (px_evidenceClass status)
                    (Some (projectSoundProofResult raw)) (Some raw) (px_join status))))).
End Controller.

(** [status] shares the evaluation in flight: which evaluation a call gets, and
    the controller after it. *)
Record ControllerState := mkController { pc_statusInFlight : option nat; pc_evaluations : nat }.

Definition status (c : ControllerState) : nat * ControllerState :=
  match pc_statusInFlight c with
  | Some running => (running, c)
  | None => (pc_evaluations c, mkController (Some (pc_evaluations c)) (S (pc_evaluations c)))
  end.

(** [finally] of an evaluation. *)
Definition evaluation_settled (running : nat) (c : ControllerState) : ControllerState :=
  if decide (pc_statusInFlight c = Some running) then mkController None (pc_evaluations c) else c.

Definition projectPublicPeerExecution (e : PeerExecution) : bool * ProofReason := (pe_peerReady e, pe_reason e).

Definition projectPublicProofExecution (e : ProofExecution) :
    bool * ProofReason * EvidenceClass * option PublicPingResult * SoundPeerJoin :=
  (px_pingReady e, px_reason e, px_evidenceClass e, px_result e, px_join e).

(** ** The peer reconciler *)

Inductive FipsPeerReconcileResult := WaitingForAcoustic | Connected | Connecting | ConnectInitiated.

Definition peer_connected (request : FipsConnectRequest) (peer : FipsPeer) : bool :=
  bool_decide (peer_npub peer = cr_npub request) && bool_decide (peer_connectivity peer = js "connected")
  && bool_decide (peer_transport_type peer = js "sound").

Definition sound_transport_ids (transports : list FipsTransport) : list Z :=
  map tr_transport_id
    (List.filter (fun t => bool_decide (tr_type t = js "sound")
                           && (bool_decide (tr_state t = js "up") || bool_decide (tr_state t = js "active"))) transports).

Definition link_alive (ids : list Z) (link : FipsLink) : bool :=
  bool_decide (link_transport_id link ∈ ids)
  && (bool_decide (link_state link = js "connected") || bool_decide (link_state link = js "active")).

Definition reconcileFipsPeer (peer : FipsConnectRequest) : script FipsPeerReconcileResult :=
  CallAcousticReady (fun ready =>
    if negb ready then Return (Ok WaitingForAcoustic)
    else CallQueries [QueryPeers] (fun data =>
      match data with
      | [Peers peers] =>
          if existsb (peer_connected peer) peers then Return (Ok Connected)
          else
            CallQueries [QueryTransports] (fun transportData =>
            CallQueries [QueryLinks] (fun linkData =>
              match transportData, linkData with
              | [Transports transports], [Links links] =>
                  if existsb (link_alive (sound_transport_ids transports)) links then Return (Ok Connecting)
                  else CallConnect peer (Return (Ok ConnectInitiated))
              | _, _ => Return (Throw "fips_link_query_invalid")
              end))
      | _ => Return (Throw "fips_peer_query_invalid")
      end)).

Record Reconciler := mkReconciler { rc_stopped : bool; rc_timer : option Z; rc_inFlight : bool }.

Section Loop.
Context (pollDelayMs retryDelayMs : Z).

Definition rc_schedule (delayMs : Z) (r : Reconciler) : Reconciler :=
  if rc_stopped r then r else mkReconciler (rc_stopped r) (Some delayMs) (rc_inFlight r).

Definition rc_run (r : Reconciler) : Reconciler :=
  if rc_stopped r || rc_inFlight r then r else mkReconciler (rc_stopped r) (rc_timer r) true.

Definition createFipsPeerReconciler : Reconciler := rc_schedule 0 (mkReconciler false None false).

Inductive ReconcilerEvent := RcTimer | RcSettled (r : result FipsPeerReconcileResult) | RcClose.

Definition reconciler_step (e : ReconcilerEvent) (r : Reconciler) : Reconciler :=
  match e with
  | RcTimer =>
      match rc_timer r with
      | Some _ => rc_run (mkReconciler (rc_stopped r) None (rc_inFlight r))
      | None => r
      end
  | RcSettled outcome =>
      if rc_inFlight r
      then let r := rc_schedule (match outcome with Ok ConnectInitiated => retryDelayMs | _ => pollDelayMs end) r in
           mkReconciler (rc_stopped r) (rc_timer r) false
      else r
  | RcClose => if rc_stopped r then r else mkReconciler true None (rc_inFlight r)
  end.

Definition reconciler_run (events : list ReconcilerEvent) (r : Reconciler) : Reconciler :=
  foldl (fun r e => reconciler_step e r) r events.
End Loop.

(** ** Traces of scripts *)

#[local] Ltac decided := try (destruct (decide _) eqn:?; [|done]).
#[local] Ltac carry IH ev :=
  destruct IH as [(? & -> & ?)|(? & ?t & ?u & -> & ? & ?)];
  [left; eexists|right; eexists _, (ev :: _), _]; cbn; repeat case_match; try done; eauto.
#[local] Ltac stop H := injection H as <-; left; eexists; cbn; repeat case_match; try done; eauto.
#[local] Ltac not_here Hin :=
  exfalso; repeat (apply elem_of_cons in Hin as [Hin|Hin]; [done|]); by apply elem_of_nil in Hin.

(** A trace of a sequence is a trace of its first part, then of the second. *)
Lemma play_sbind {A B} (m : script A) (f : A -> script B) : forall trace r,
  play (sbind m f) trace = Some r ->
  (exists e, r = Throw e /\ play m trace = Some (Throw e))
  \/ exists a t1 t2, trace = t1 ++ t2 /\ play m t1 = Some (Ok a) /\ play (f a) t2 = Some r.
Proof.
  induction m as [r0|k IH|queries k IH|k IH|k IH|target k IH|k IH|peer k IH]; intros trace r H.
  1: { destruct r0 as [a|e]; cbn in H; [right; by exists a, [], trace|]. destruct trace; [stop H|done]. }
  all: destruct trace as [|ev rest]; try done; destruct ev as [ms|q [data|e]|st|[st|e]|tgt raw|ready|pr [[]|e]];
    try done; cbn [sbind play] in H;
    lazymatch type of H with context [match rest with _ => _ end] => destruct rest; [|done] | _ => idtac end;
    decided; try stop H.
  - carry (IH _ _ _ H) (NowIs ms).
  - carry (IH _ _ _ H) (QueriesAnswered q (Ok data)).
  - carry (IH _ _ _ H) (AcousticStatusIs st).
  - carry (IH _ _ _ H) (IsolationAnswered (Ok st)).
  - carry (IH _ _ _ H) (PingDone tgt raw).
  - carry (IH _ _ _ H) (AcousticReadyIs ready).
  - carry (IH _ _ H) (ConnectAnswered pr (Ok tt)).
Qed.

(** A script that never pings. *)
Fixpoint never_pings {R} (m : script R) : Prop :=
  match m with
  | Return _ => True
  | CallNow k => forall x, never_pings (k x)
  | CallQueries _ k => forall x, never_pings (k x)
  | CallAcousticStatus k => forall x, never_pings (k x)
  | CallIsolation k => forall x, never_pings (k x)
  | CallPing _ _ => False
  | CallAcousticReady k => forall x, never_pings (k x)
  | CallConnect _ k => never_pings k
  end.

Definition is_ping (e : event) : bool := match e with PingDone _ _ => true | _ => false end.

Lemma never_pings_play {R} (m : script R) : forall trace r,
  never_pings m -> play m trace = Some r -> existsb is_ping trace = false.
Proof.
  induction m as [r0|k IH|queries k IH|k IH|k IH|target k IH|k IH|peer k IH]; intros trace r Hm H;
    destruct trace as [|e rest]; try done; destruct e; try done; cbn in *;
    repeat (case_match; try done); eauto.
Qed.

Lemma never_pings_sbind {A B} (m : script A) (f : A -> script B) :
  never_pings m -> (forall a, never_pings (f a)) -> never_pings (sbind m f).
Proof. intros Hm Hf. induction m as [[]| | | | | | |]; cbn in *; auto. Qed.

Section ControllerTraces.
Context (key target : jsstring).

Lemma peerEvidence_never_pings : never_pings (peerEvidence key).
Proof. cbn. intros started data. repeat case_match; done. Qed.

Lemma evaluateStatus_never_pings : never_pings (evaluateStatus key target).
Proof.
  apply never_pings_sbind; [apply peerEvidence_never_pings|]. intros a. case_match; [done|]. intros i.
  apply never_pings_sbind; [apply peerEvidence_never_pings|]. intros b. case_match; done.
Qed.

(** The calls of one evidence batch, with their answers. *)
Definition batch (started : Z) (peers links transports : FipsControlData) (completed : Z)
    (acoustic : AcousticProofStatus) (now : Z) : list event :=
  [NowIs started; QueriesAnswered BATCH (Ok [peers; links; transports]); NowIs completed;
   AcousticStatusIs acoustic; NowIs now].

Lemma peerEvidence_play trace input join :
  play (peerEvidence key) trace = Some (Ok (input, join)) ->
  exists started peers links transports completed acoustic now,
    trace = batch started peers links transports completed acoustic now
    /\ input = peer_input key peers links transports acoustic now started completed
    /\ joinAuthenticatedSoundPeer (VObject input) = Ok join.
Proof.
  intros H. destruct trace as [|[started| | | | | |] trace]; try done. cbn [peerEvidence play] in H.
  destruct trace as [|[|q [data|e]| | | | |] trace]; try done; [|destruct trace; [|done]; by destruct (decide _)].
  destruct (decide _) as [[Hq Hlen]|]; [|done]. subst q.
  destruct data as [|peers [|links [|transports [|]]]]; try done. cbn [play] in H.
  destruct trace as [|[completed| | | | | |] trace]; try done.
  destruct trace as [|[| |acoustic| | | |] trace]; try done.
  destruct trace as [|[now| | | | | |] [|]]; try done.
  destruct (joinAuthenticatedSoundPeer _) as [j|] eqn:E; cbn [rbind] in H; [|done].
  injection H as <- <-. by exists started, peers, links, transports, completed, acoustic, now.
Qed.

Lemma evaluateStatus_ready trace e :
  play (evaluateStatus key target) trace = Some (Ok e) -> px_pingReady e = true ->
  exists before isolation started peers links transports completed acoustic now now',
    trace = before ++ [IsolationAnswered (Ok isolation)] ++ batch started peers links transports completed acoustic now
              ++ [NowIs now']
    /\ joinSoundProof (VObject (proof_input (peer_input key peers links transports acoustic now started completed)
         target isolation now')) = Ok (px_join e)
    /\ pj_reason (px_join e) = RReady.
Proof.
  intros H Hr. apply play_sbind in H as [(? & ? & _)|(a & t1 & t2 & -> & H1 & H)]; [done|].
  destruct (peer_ready a.2) eqn:Ea; cbn [negb] in H; [|destruct t2; [|done]; injection H as <-; done].
  destruct t2 as [|[| | |[isolation|]| | |] t2]; try done; [|by destruct t2].
  cbn [play] in H. apply play_sbind in H as [(? & ? & _)|([input join] & t3 & t4 & -> & H3 & H)]; [done|].
  apply peerEvidence_play in H3 as (started & peers & links & transports & completed & acoustic & now & -> & -> & _).
  cbn [fst snd] in H. destruct (peer_ready join) eqn:Ej; cbn [negb] in H;
    [|destruct t4; [|done]; injection H as <-; done].
  destruct t4 as [|[now'| | | | | |] [|]]; try done. cbn [play] in H.
  destruct (joinSoundProof _) as [j|] eqn:Ejoin; cbn [rbind] in H; [|done]. injection H as <-.
  cbn in Hr. exists t1, isolation, started, peers, links, transports, completed, acoustic, now, now'.
  split; [done|]. split; [done|]. cbn. unfold peer_ready in Hr. by destruct (pj_reason j).
Qed.
End ControllerTraces.

(** C19: a ping is sent only to the configured target, as the very next call
    after a proof that is ready on an evidence batch gathered after the
    isolation check had answered. *)
Theorem ping_only_after_proof key target trace r host raw :
  play (ping key target) trace = Some r -> PingDone host raw ∈ trace ->
  host = target /\
  exists before isolation started peers links transports completed acoustic now now' join,
    trace = before ++ [IsolationAnswered (Ok isolation)] ++ batch started peers links transports completed acoustic now
              ++ [NowIs now'; PingDone target raw]
    /\ joinSoundProof (VObject (proof_input (peer_input key peers links transports acoustic now started completed)
         target isolation now')) = Ok join
    /\ pj_reason join = RReady.
Proof.
  intros H Hin.
  assert (Hno : forall t r, play (evaluateStatus key target) t = Some r -> PingDone host raw ∉ t).
  { intros t r' Hp Hi. pose proof (never_pings_play _ _ _ (evaluateStatus_never_pings key target) Hp) as Hf.
    apply not_true_iff_false in Hf. apply Hf. apply existsb_exists. exists (PingDone host raw).
    split; [by apply list_elem_of_In|done]. }
  apply play_sbind in H as [(e & -> & H)|(e & t1 & t2 & -> & H1 & H)]; [by destruct (Hno _ _ H)|].
  apply elem_of_app in Hin as [Hin|Hin]; [by destruct (Hno _ _ H1)|].
  destruct (px_pingReady e) eqn:Er; cbn [negb] in H; [|destruct t2; [|done]; by apply elem_of_nil in Hin].
  destruct t2 as [|[| | | |target' raw'| |] [|]]; try done; cbn [play] in H; [|by case_match].
  destruct (decide (target = target')) as [<-|]; [|done].
  apply list_elem_of_singleton in Hin. injection Hin as -> ->. split; [done|].
  destruct (evaluateStatus_ready _ _ _ _ H1 Er)
    as (before & isolation & started & peers & links & transports & completed & acoustic & now & now' & -> & Hj & Hr).
  exists before, isolation, started, peers, links, transports, completed, acoustic, now, now', (px_join e).
  split; [by rewrite <- !app_assoc|done].
Qed.

Definition sample_peers : FipsControlData :=
  Peers [mkPeer (js sample_key) (js "connected") 4 (js "sound") 10 20].
Definition sample_links : FipsControlData := Links [mkLink 4 9 (js "connected") 10 []].
Definition sample_transports : FipsControlData :=
  Transports [mkTransport 9 (js "sound") (js "up") 176
    [(js "worker_up", VBool true); (js "acoustic_ready", VBool true); (js "epoch", vint 3)]].

Definition sample_batch (start : Z) : list event :=
  batch start sample_peers sample_links sample_transports (start + 10) (mkAcoustic 3 true start) (start + 20).

Definition sample_trace : list event :=
  sample_batch 1000 ++ [IsolationAnswered (Ok (mkIsolation true 3 1500 (js "fd00::2")))] ++ sample_batch 2000
  ++ [NowIs 2030; PingDone (js "fd00::2") None].

Lemma ping_only_after_proof_witness :
  existsb is_ping sample_trace = true /\
  exists join isolation input now,
    joinSoundProof (VObject (proof_input input (js "fd00::2") isolation now)) = Ok join /\ pj_reason join = RReady.
Proof.
  split; [reflexivity|].
  assert (H : exists r, play (ping (js sample_key) (js "fd00::2")) sample_trace = Some r)
    by (eexists; vm_compute; reflexivity).
  destruct H as [r H].
  destruct (ping_only_after_proof _ _ _ _ (js "fd00::2") None H) as [_ (b & i & s & p & l & t & c & a & n & n' & j & _ & Hj & Hr)].
  { unfold sample_trace. rewrite !elem_of_app. do 3 right. apply elem_of_cons. right. by apply list_elem_of_singleton. }
  exists j, i, (peer_input (js sample_key) p l t a n s c), n'. split; [exact Hj|exact Hr].
Defined.

(** ** The reconciler connects only what is down *)

(** C20: the reconciler asks the daemon to connect only its configured peer,
    only after the acoustic session was ready, and only when the daemon had
    just reported neither that peer connected over sound nor a live link over a
    running sound transport. *)
Theorem reconcile_connects_only_when_down peer trace r p answer :
  play (reconcileFipsPeer peer) trace = Some r -> ConnectAnswered p answer ∈ trace ->
  p = peer /\
  exists peers transports links,
    trace = [AcousticReadyIs true; QueriesAnswered [QueryPeers] (Ok [Peers peers]);
             QueriesAnswered [QueryTransports] (Ok [Transports transports]);
             QueriesAnswered [QueryLinks] (Ok [Links links]); ConnectAnswered peer answer]
    /\ existsb (peer_connected peer) peers = false
    /\ existsb (link_alive (sound_transport_ids transports)) links = false.
Proof.
  intros H Hin. unfold reconcileFipsPeer in H.
  destruct trace as [|[| | | | |[]|] t]; try done; cbn [negb play] in H; [|destruct t; [not_here Hin|done]].
  destruct t as [|[|q1 [d1|]| | | | |] t]; try done; [|destruct t; [not_here Hin|done]].
  destruct (decide _) as [[Hq1 _]|]; [subst q1|done].
  destruct d1 as [|[peers| | |] [|]]; cbn [play] in H; try (by destruct t; [not_here Hin|]).
  destruct (existsb (peer_connected peer) peers) eqn:Hpeers; cbn [play] in H; [by destruct t; [not_here Hin|]|].
  destruct t as [|[|q2 [d2|]| | | | |] t]; try done; [|destruct t; [not_here Hin|done]].
  destruct (decide _) as [[Hq2 _]|]; [subst q2|done].
  destruct t as [|[|q3 [d3|]| | | | |] t]; try done; [|destruct t; [not_here Hin|done]].
  destruct (decide _) as [[Hq3 _]|]; [subst q3|done].
  destruct d2 as [|[| |transports|] [|]]; cbn [play] in H; try (by destruct t; [not_here Hin|]).
  destruct d3 as [|[|links| |] [|]]; cbn [play] in H; try (by destruct t; [not_here Hin|]).
  destruct (existsb (link_alive _) links) eqn:Hlinks; cbn [play] in H; [by destruct t; [not_here Hin|]|].
  assert (Hlast : p = peer /\ t = [ConnectAnswered peer answer]).
  { do 4 (apply elem_of_cons in Hin as [Hin|Hin]; [done|]).
    destruct t as [|[| | | | | |p' [[]|e]] [|]]; try done; destruct (decide _); try done; subst;
      apply list_elem_of_singleton in Hin; by injection Hin as -> ->. }
  destruct Hlast as [-> ->]. split; [done|]. by exists peers, transports, links.
Qed.

Definition sample_request : FipsConnectRequest := mkConnect (js sample_key) (js "sound-b") (js "sound").

Lemma reconcile_connects_only_when_down_witness :
  exists trace, play (reconcileFipsPeer sample_request) trace = Some (Ok ConnectInitiated)
  /\ exists peers transports links, trace = [AcousticReadyIs true; QueriesAnswered [QueryPeers] (Ok [Peers peers]);
             QueriesAnswered [QueryTransports] (Ok [Transports transports]);
             QueriesAnswered [QueryLinks] (Ok [Links links]); ConnectAnswered sample_request (Ok tt)].
Proof.
  exists [AcousticReadyIs true; QueriesAnswered [QueryPeers] (Ok [Peers []]);
          QueriesAnswered [QueryTransports] (Ok [sample_transports]);
          QueriesAnswered [QueryLinks] (Ok [Links []]); ConnectAnswered sample_request (Ok tt)].
  assert (H : play (reconcileFipsPeer sample_request)
    [AcousticReadyIs true; QueriesAnswered [QueryPeers] (Ok [Peers []]);
     QueriesAnswered [QueryTransports] (Ok [sample_transports]);
     QueriesAnswered [QueryLinks] (Ok [Links []]); ConnectAnswered sample_request (Ok tt)] = Some (Ok ConnectInitiated))
    by (vm_compute; reflexivity).
  split; [exact H|].
  destruct (reconcile_connects_only_when_down _ _ _ sample_request (Ok tt) H) as [_ (p & t & l & E & _)].
  - do 4 (apply elem_of_cons; right). by apply list_elem_of_singleton.
  - by exists p, t, l.
Defined.

(** Whatever the outcomes of its attempts, a reconciler that is not stopped
    either waits for its timer or has exactly one attempt in flight, and a
    stopped one waits for no timer. *)
Theorem reconciler_keeps_polling pollDelayMs retryDelayMs events :
  let r := reconciler_run pollDelayMs retryDelayMs events createFipsPeerReconciler in
  bool_decide (is_Some (rc_timer r)) = negb (rc_stopped r || rc_inFlight r).
Proof.
  cbv zeta.
  assert (H : forall r, bool_decide (is_Some (rc_timer r)) = negb (rc_stopped r || rc_inFlight r) ->
    bool_decide (is_Some (rc_timer (reconciler_run pollDelayMs retryDelayMs events r)))
    = negb (rc_stopped (reconciler_run pollDelayMs retryDelayMs events r)
            || rc_inFlight (reconciler_run pollDelayMs retryDelayMs events r))).
  { induction events as [|e events IH]; intros r H; [done|]. cbn [reconciler_run foldl]. apply IH. clear IH.
    destruct r as [[] [t|] []]; cbn in H; try done; destruct e as [|o|]; cbn; done. }
  by apply H.
Qed.
