(* ===== verification/Owner.v ===== *)
(** * Ownership of close handles ([packages/bridge/src/resource-owner.ts])

    Resources are closed in the reverse of their registration, one after the
    other, each once, whatever fails. *)

From stdpp Require Import base list numbers option strings.
From Stdlib Require Import ZArith Lia.
From S2P Require Import Prelude Utf8 Json.

(** A resource is its name and its handle, known by a number. *)
Record Resource := mkResource { rs_name : jsstring; rs_handle : nat }.

(** The pass over the resources: what is being closed, what is left, and the
    failures so far. *)
Inductive Closing :=
  | ClosingPass (current : Resource) (rest : list Resource) (failures : nat)
  | ClosingDone (r : result unit).

Record ResourceOwner := mkOwner {
  ro_resources : list Resource; ro_closed : bool; ro_closing : option Closing; ro_calls : list Resource }.

Definition new_owner : ResourceOwner := mkOwner [] false None [].

(** [/^[A-Za-z0-9._-]+$/] *)
Definition resource_name_ok (name : jsstring) : bool :=
  (1 <=? zlen name)
  && forallb (fun c => is_upper c || is_lower c || is_digit c || (c =? 46) || (c =? 95) || (c =? 45)) name.

Definition register (name : jsstring) (handle : nat) (o : ResourceOwner) : result unit * ResourceOwner :=
  if ro_closed o then (Throw "resource owner is closed", o)
  else if negb (resource_name_ok name) then (Throw "resource owner registration is invalid", o)
  else (Ok tt, mkOwner (ro_resources o ++ [mkResource name handle]) (ro_closed o) (ro_closing o) (ro_calls o)).

(** The next [resource.close()] is called, or the pass ends. *)
Definition close_next (rest : list Resource) (failures : nat) (o : ResourceOwner) : ResourceOwner :=
  match rest with
  | [] => mkOwner (ro_resources o) (ro_closed o)
            (Some (ClosingDone (if (failures =? 0)%nat then Ok tt else Throw "owned resource cleanup failed")))
            (ro_calls o)
  | current :: rest =>
      mkOwner (ro_resources o) (ro_closed o) (Some (ClosingPass current rest failures)) (ro_calls o ++ [current])
  end.

Definition closeAll (o : ResourceOwner) : ResourceOwner :=
  close_next (reverse (ro_resources o)) 0 (mkOwner (ro_resources o) true (ro_closing o) (ro_calls o)).

(** [close]: the first call starts the pass, the others share it. *)
Definition close_owner (o : ResourceOwner) : ResourceOwner :=
  match ro_closing o with Some _ => o | None => closeAll o end.

(** The close being awaited fulfilled, or threw. *)
Definition close_settled (ok : bool) (o : ResourceOwner) : ResourceOwner :=
  match ro_closing o with
  | Some (ClosingPass _ rest failures) => close_next rest (if ok then failures else S failures) o
  | _ => o
  end.

Inductive OwnerEvent := Registered (name : jsstring) (handle : nat) | CloseOwner | CloseSettled (ok : bool).

Definition owner_step (e : OwnerEvent) (o : ResourceOwner) : ResourceOwner :=
  match e with
  | Registered name handle => (register name handle o).2
  | CloseOwner => close_owner o
  | CloseSettled ok => close_settled ok o
  end.

Definition owner_run (events : list OwnerEvent) (o : ResourceOwner) : ResourceOwner :=
  foldl (fun o e => owner_step e o) o events.

(** What is called and what is left are the registered resources reversed. *)
Definition owner_ok (o : ResourceOwner) : Prop :=
  match ro_closing o with
  | None => ro_calls o = [] /\ ro_closed o = false
  | Some (ClosingPass current rest _) =>
      ro_calls o ++ rest = reverse (ro_resources o) /\ ro_calls o <> [] /\ ro_closed o = true
  | Some (ClosingDone _) => ro_calls o = reverse (ro_resources o) /\ ro_closed o = true
  end.

(** The settlements still awaited. *)
Definition pending (o : ResourceOwner) : nat :=
  match ro_closing o with Some (ClosingPass _ rest _) => S (length rest) | _ => 0 end.

Lemma close_next_ok rest failures o :
  ro_closed o = true -> ro_calls o ++ rest = reverse (ro_resources o) ->
  owner_ok (close_next rest failures o) /\ pending (close_next rest failures o) = length rest
  /\ is_Some (ro_closing (close_next rest failures o)) /\ ro_resources (close_next rest failures o) = ro_resources o.
Proof.
  intros Hc H. destruct rest as [|r rest]; cbn; [by rewrite app_nil_r in H|].
  unfold owner_ok. cbn. rewrite <- app_assoc. repeat split; try done. by destruct (ro_calls o).
Qed.

Lemma close_settled_ok ok o :
  owner_ok o -> is_Some (ro_closing o) ->
  owner_ok (close_settled ok o) /\ pending (close_settled ok o) = pred (pending o)
  /\ is_Some (ro_closing (close_settled ok o)) /\ ro_resources (close_settled ok o) = ro_resources o.
Proof.
  intros H Hs. unfold close_settled, pending, owner_ok in *.
  destruct (ro_closing o) as [[current rest failures|r]|] eqn:E.
  - destruct H as (H & _ & Hc). apply (close_next_ok rest _ o Hc H).
  - rewrite E. done.
  - by destruct Hs.
Qed.

Lemma close_owner_ok o : owner_ok o ->
  owner_ok (close_owner o) /\ (pending (close_owner o) <= length (ro_resources o))%nat
  /\ is_Some (ro_closing (close_owner o)) /\ ro_resources (close_owner o) = ro_resources o.
Proof.
  intros H. unfold close_owner. destruct (ro_closing o) as [c|] eqn:E.
  - split; [done|]. rewrite E. split; [|done]. unfold owner_ok, pending in *. rewrite E in *.
    destruct c as [current rest failures|r]; [|lia]. destruct H as (H & Hne & _).
    apply (f_equal length) in H. rewrite length_app, length_reverse in H.
    destruct (ro_calls o); [done|]. cbn in *. lia.
  - unfold owner_ok in H. rewrite E in H. destruct H as [H _].
    destruct (close_next_ok (reverse (ro_resources o)) 0 (mkOwner (ro_resources o) true (ro_closing o) (ro_calls o)))
      as (H1 & H2 & H3 & H4); [done|cbn; by rewrite H|].
    unfold closeAll. rewrite H2, length_reverse. done.
Qed.

Lemma owner_step_ok e o : owner_ok o -> owner_ok (owner_step e o).
Proof.
  intros H. destruct e as [name handle| |ok]; cbn [owner_step].
  - unfold register, owner_ok in *. destruct (ro_closing o) as [[]|] eqn:E.
    + destruct H as (H1 & H2 & Hc). rewrite Hc. cbn. by rewrite E.
    + destruct H as (H1 & Hc). rewrite Hc. cbn. by rewrite E.
    + destruct H as [H1 Hc]. rewrite Hc. by destruct (negb _); cbn; rewrite ?E.
  - by apply close_owner_ok.
  - destruct (ro_closing o) eqn:E; [apply close_settled_ok; [done|by rewrite E]|].
    unfold close_settled. by rewrite E.
Qed.

Lemma owner_run_ok events o : owner_ok o -> owner_ok (owner_run events o).
Proof.
  revert o. induction events as [|e events IH]; intros o H; [done|]. by apply IH, owner_step_ok.
Qed.

Lemma settlements_ok settlements o :
  owner_ok o -> is_Some (ro_closing o) ->
  let o' := owner_run (map CloseSettled settlements) o in
  owner_ok o' /\ pending o' = (pending o - length settlements)%nat /\ is_Some (ro_closing o')
  /\ ro_resources o' = ro_resources o.
Proof.
  revert o. induction settlements as [|ok l IH]; intros o H Hs.
  - cbn. by rewrite Nat.sub_0_r.
  - destruct (close_settled_ok ok o H Hs) as (H1 & H2 & H3 & H4).
    destruct (IH _ H1 H3) as (H5 & H6 & H7 & H8). cbn [map owner_run foldl owner_step length].
    unfold owner_run in *. rewrite H6, H2, H8. repeat split; try done. lia.
Qed.

(** C21: whatever is registered, and whenever [close] is called and called
    again, handles are called in the reverse order of registration, never one
    twice; and once [close] was called, as many settlements as there are
    resources, failures included, end the pass with every handle called. *)
Theorem resources_closed_in_reverse events settlements :
  let o := owner_run events new_owner in
  (exists rest, reverse (ro_resources o) = ro_calls o ++ rest) /\
  ((length (ro_resources o) <= length settlements)%nat ->
   let ended := owner_run (map CloseSettled settlements) (close_owner o) in
   ro_calls ended = reverse (ro_resources o) /\ exists r, ro_closing ended = Some (ClosingDone r)).
Proof.
  cbv zeta. set (o := owner_run events new_owner).
  assert (Ho : owner_ok o) by (by apply owner_run_ok). split.
  { unfold owner_ok in Ho. destruct (ro_closing o) as [[current rest failures|r]|].
    - exists rest. symmetry. apply Ho.
    - exists []. by rewrite app_nil_r, (proj1 Ho).
    - exists (reverse (ro_resources o)). by rewrite (proj1 Ho). }
  intros Hlen. destruct (close_owner_ok o Ho) as (H1 & H2 & H3 & H4).
  destruct (settlements_ok settlements _ H1 H3) as (H5 & H6 & H7 & H8). cbv zeta in *.
  set (ended := owner_run (map _ _) _) in *. unfold owner_ok, pending in *.
  destruct (ro_closing ended) as [[current rest failures|r]|] eqn:E; [lia| |by destruct H7].
  rewrite (proj1 H5), H8, H4. eauto.
Qed.
