(* ===== verification/AcousticAdapter.v ===== *)
(** * The seam between FIPS packets and the acoustic session
    ([apps/modem-ui/src]: [fips-packet-adapter.ts], [acoustic-session-adapter.ts])

    [createFipsPacketAdapter] and [AcousticSessionAdapter] over any session that
    offers [AcousticSessionPort].  The callbacks are the page's: a control is
    logged, and handing a packet to the bridge throws when the bridge is not
    open. *)

From stdpp Require Import base list numbers option strings.
From Stdlib Require Import ZArith Lia.
From S2P Require Import Prelude Fwav SessionState SessionReceive.

(** What the adapter uses of a session, and what a session owes it: no packet
    is accepted by a session that is not ready. *)
Class SessionPort (S : Type) := {
  port_epoch : S -> Z;
  port_ready : S -> bool;
  port_enqueue : bytes -> AcousticTrafficClass -> M S AcousticQueueResult;
  port_reset : Z -> M S unit;
  port_markHeartbeatMissed : M S unit;
  port_enqueue_gate packet class s :
    port_ready s = false ->
    wp (port_enqueue packet class) (fun r _ => match r with Ok q => qr_accepted q = false | Throw _ => True end) s;
}.

Record FipsPacketEnvelope := mkEnvelope { ev_bytes : bytes; ev_trafficClass : Z }.

Inductive RefusalReason :=
  | NotArmed | Stale | Invalid | AcousticQueueFull | AcousticNotReady | AcousticPacketBounds | AcousticClassInvalid.

Inductive PacketResult := Accepted | Refused (reason : RefusalReason).

Definition validPacket (packet : bytes) : bool := (0 <? zlen packet) && (zlen packet <=? 256 * 1024 - 32).

Definition envelope (packet : bytes) (trafficClass : Z) : option FipsPacketEnvelope :=
  if negb (validPacket packet) || negb (isFipsTrafficClass trafficClass) then None
  else Some (mkEnvelope packet trafficClass).

Inductive AdapterControl := ControlReady (epoch : Z) | ControlDisarm (epoch : Z).

(** The session, the adapter's own fields, and what it handed out. *)
Record AcousticSessionAdapter (S : Type) := mkAdapter {
  ad_session : S;
  ad_lifecycle : option (Z * Z);
  ad_generation : Z;
  ad_armedEpoch : option Z;
  ad_controls : list AdapterControl;
  ad_emitted : list FipsPacketEnvelope;
}.
Arguments mkAdapter {S}.
Arguments ad_session {S}.
Arguments ad_lifecycle {S}.
Arguments ad_generation {S}.
Arguments ad_armedEpoch {S}.
Arguments ad_controls {S}.
Arguments ad_emitted {S}.

#[export] Instance eta_Adapter {S} : Eta (AcousticSessionAdapter S) := fun a =>
  mkAdapter (ad_session a) (ad_lifecycle a) (ad_generation a) (ad_armedEpoch a) (ad_controls a) (ad_emitted a).

Section Adapter.
Context {S : Type} `{SessionPort S}.

Abbreviation AM := (M (AcousticSessionAdapter S)) (only parsing).

(** A call of the session. *)
Definition on_session {A} (m : M S A) : AM A := fun a =>
  let (r, s') := m (ad_session a) in (r, set ad_session (fun _ => s') a).

Definition control (c : AdapterControl) : AM unit := mmodify (set ad_controls (fun l => l ++ [c])).

(** ** The packet adapter *)

Definition active (epoch generation : Z) (a : AcousticSessionAdapter S) : option RefusalReason :=
  match ad_lifecycle a with
  | None => Some NotArmed
  | Some (e, g) => if negb (e =? epoch) || negb (g =? generation) then Some Stale else None
  end.

Definition fips_arm (epoch generation : Z) : AM unit := ad_lifecycle <== Some (epoch, generation).

Definition fips_invalidate : AM unit := ad_lifecycle <== None.

Definition trafficClass (value : Z) : AcousticTrafficClass :=
  if value =? traffic_class_code ClassControl then Control
  else if value =? traffic_class_code ClassHeartbeat then HeartbeatClass else Ordinary.

Definition refusal (reason : option string) : RefusalReason :=
  if bool_decide (reason = Some "acoustic_queue_full"%string) then AcousticQueueFull
  else if bool_decide (reason = Some "acoustic_not_ready"%string) then AcousticNotReady
  else if bool_decide (reason = Some "acoustic_packet_bounds"%string) then AcousticPacketBounds else AcousticClassInvalid.

(** The [onPacket] the constructor gives the packet adapter. *)
Definition adapter_onPacket (e : FipsPacketEnvelope) : AM PacketResult :=
  let! result := on_session (port_enqueue (ev_bytes e) (trafficClass (ev_trafficClass e))) in
  mret (if qr_accepted result then Accepted else Refused (refusal (qr_reason result))).

Definition fips_receive (packet : bytes) (class epoch generation : Z) : AM PacketResult :=
  let! a := mget in
  match active epoch generation a with
  | Some reason => mret (Refused reason)
  | None =>
      match envelope packet class with
      | None => mret (Refused Invalid)
      | Some accepted => adapter_onPacket accepted
      end
  end.

(** [bridge_open]: does [emitPacket] return, or throw? *)
Definition emitPacket (bridge_open : bool) (e : FipsPacketEnvelope) : AM unit :=
  if bridge_open then mmodify (set ad_emitted (fun l => l ++ [e])) else mthrow "FIPS bridge is disconnected".

Definition fips_send (bridge_open : bool) (packet : bytes) (class : Z) : AM PacketResult :=
  let! a := mget in
  match ad_lifecycle a with
  | None => mret (Refused NotArmed)
  | Some _ =>
      match envelope packet class with
      | None => mret (Refused Invalid)
      | Some accepted => emitPacket bridge_open accepted ;; mret Accepted
      end
  end.

(** ** The session adapter *)

Definition disarm (epoch : Z) : AM unit :=
  let! a := mget in
  match ad_armedEpoch a with
  | None => mskip
  | Some _ => fips_invalidate ;; control (ControlDisarm epoch) ;; ad_armedEpoch <== None
  end.

Definition refresh : AM unit :=
  let! a := mget in
  let epoch := port_epoch (ad_session a) in
  if negb (port_ready (ad_session a)) then disarm epoch
  else if bool_decide (ad_armedEpoch a = Some epoch) then mskip
  else
    disarm (default epoch (ad_armedEpoch a)) ;;
    ad_armedEpoch <== Some epoch ;;
    fips_arm epoch (ad_generation a) ;;
    control (ControlReady epoch).

Definition new_adapter (session : S) : AcousticSessionAdapter S := final refresh (mkAdapter session None 1 None [] []).

(** [generation = this.#generation] when the caller gives none. *)
Definition receiveFips (packet : bytes) (class epoch : Z) (generation : option Z) : AM PacketResult :=
  let! a := mget in
  let generation := default (ad_generation a) generation in
  if negb (generation =? ad_generation a) then mret (Refused Stale) else fips_receive packet class epoch generation.

Definition deliver (bridge_open : bool) (packet : bytes) (class : Z) (generation : option Z) : AM PacketResult :=
  let! a := mget in
  if negb (default (ad_generation a) generation =? ad_generation a) then mret (Refused Stale)
  else fips_send bridge_open packet class.

Definition disarm_current : AM unit := let! a := mget in disarm (port_epoch (ad_session a)).

Definition next_generation : AM unit := mmodify (set ad_generation (fun g => g + 1)).

Definition markDegraded : AM unit := disarm_current ;; on_session port_markHeartbeatMissed.
Definition adapter_reset (epoch : Z) : AM unit := disarm_current ;; next_generation ;; on_session (port_reset epoch).
Definition invalidate : AM unit := disarm_current ;; next_generation.

(** ** Every sequence of calls, the session moving on between them *)

Inductive AdapterCall :=
  | CallRefresh
  | CallReceive (packet : bytes) (class epoch : Z) (generation : option Z)
  | CallDeliver (bridge_open : bool) (packet : bytes) (class : Z) (generation : option Z)
  | CallMarkDegraded
  | CallReset (epoch : Z)
  | CallInvalidate
  | SessionMoves (session : S).

Definition adapter_call (c : AdapterCall) : AM unit :=
  match c with
  | CallRefresh => refresh
  | CallReceive packet class epoch generation => let! _ := receiveFips packet class epoch generation in mskip
  | CallDeliver bridge_open packet class generation => let! _ := deliver bridge_open packet class generation in mskip
  | CallMarkDegraded => markDegraded
  | CallReset epoch => adapter_reset epoch
  | CallInvalidate => invalidate
  | SessionMoves session => ad_session <== session
  end.

Definition adapter_run (calls : list AdapterCall) (a : AcousticSessionAdapter S) : AcousticSessionAdapter S :=
  foldl (fun a c => final (adapter_call c) a) a calls.

(** ** The adapter's invariant *)

(** The epoch announced ready, if controls came in turn: a READY only while
    none is, a DISARM only while one is. *)
Definition control_step (announced : option (option Z)) (c : AdapterControl) : option (option Z) :=
  match announced, c with
  | Some None, ControlReady epoch => Some (Some epoch)
  | Some (Some _), ControlDisarm _ => Some None
  | _, _ => None
  end.

Definition announced (controls : list AdapterControl) : option (option Z) := foldl control_step (Some None) controls.

(** From a generation on: armed means the packet adapter is armed with the same
    epoch in the current generation, and the bridge was told so. *)
Record adapter_ok (generation : Z) (a : AcousticSessionAdapter S) : Prop := {
  ok_lifecycle : ad_lifecycle a = option_map (fun epoch => (epoch, ad_generation a)) (ad_armedEpoch a);
  ok_controls : announced (ad_controls a) = Some (ad_armedEpoch a);
  ok_generation : generation <= ad_generation a;
}.

Lemma on_session_ok {A} generation (m : M S A) : keeps (adapter_ok generation) (on_session m).
Proof.
  intros a [H1 H2 H3]. unfold on_session. Transparent wp. unfold wp, outcome, final. Opaque wp.
  destruct (m (ad_session a)) as [r s']. by split.
Qed.

Lemma disarm_wp generation epoch a :
  adapter_ok generation a ->
  wp (disarm epoch) (fun r a' => r = Ok tt /\ adapter_ok generation a' /\ ad_armedEpoch a' = None
                                 /\ ad_generation a' = ad_generation a /\ ad_session a' = ad_session a) a.
Proof.
  intros [H1 H2 H3]. unfold disarm, fips_invalidate, control. wp_prim. wp_prim. destruct (ad_armedEpoch a) as [e|] eqn:E.
  - repeat wp_prim. split; [done|]. split; [|done].
    split; unfold set; cbn; [done| |done]. unfold announced. rewrite foldl_app. fold (announced (ad_controls a)). by rewrite H2.
  - wp_prim. split; [done|]. split; [|done]. split; rewrite ?E; done.
Qed.

Lemma refresh_wp generation a :
  adapter_ok generation a ->
  wp refresh (fun r a' => r = Ok tt /\ adapter_ok generation a' /\ ad_session a' = ad_session a
    /\ ad_armedEpoch a' = if port_ready (ad_session a) then Some (port_epoch (ad_session a)) else None) a.
Proof.
  intros Hok. unfold refresh. wp_prim. wp_prim. cbv zeta. destruct (port_ready (ad_session a)); cbn [negb].
  - case_bool_decide as E; [by wp_prim|]. wp_prim. eapply wp_mono; [by apply disarm_wp|].
    intros r a' (-> & [H1 H2 H3] & Hn & Hg & Hs). unfold fips_arm, control. repeat wp_prim. split; [done|].
    split; [|by split]. rewrite <- Hg. split; unfold set; cbn; [done| |done].
    unfold announced. rewrite foldl_app. fold (announced (ad_controls a')). by rewrite H2, Hn.
  - eapply wp_mono; [by apply disarm_wp|]. by intros r a' (? & ? & ? & _ & ?).
Qed.

Lemma fips_receive_ok generation packet class epoch g : keeps (adapter_ok generation) (fips_receive packet class epoch g).
Proof.
  intros a Ha. unfold fips_receive. wp_prim. wp_prim. destruct (active epoch g a); [by wp_prim|].
  destruct (envelope packet class); [|by wp_prim]. unfold adapter_onPacket. wp_prim.
  eapply wp_mono; [by apply on_session_ok|]. intros [q|] a' Ha'; [by wp_prim|done].
Qed.

Lemma deliver_ok generation bridge_open packet class g :
  keeps (adapter_ok generation) (deliver bridge_open packet class g).
Proof.
  intros a Ha. unfold deliver, fips_send, emitPacket. wp_prim. wp_prim. destruct (negb _); [by wp_prim|]. wp_prim. wp_prim.
  destruct (ad_lifecycle a); [|by wp_prim]. destruct (envelope packet class); [|by wp_prim]. wp_prim.
  destruct bridge_open; [|by wp_prim]. wp_prim. wp_prim. by destruct Ha.
Qed.

Lemma retire_wp generation a :
  adapter_ok generation a ->
  wp invalidate (fun r a' => r = Ok tt /\ adapter_ok generation a' /\ ad_armedEpoch a' = None
                             /\ ad_generation a' = ad_generation a + 1) a.
Proof.
  intros Ha. unfold invalidate, disarm_current, next_generation. wp_prim. wp_prim. wp_prim.
  eapply wp_mono; [by apply disarm_wp|]. intros r a' (-> & [H1 H2 H3] & Hn & Hg & _). wp_prim. split; [done|].
  split; [|split; [done|by rewrite <- Hg]]. split; unfold set; cbn; [by rewrite H1, Hn|done|lia].
Qed.

Lemma adapter_call_ok generation c : keeps (adapter_ok generation) (adapter_call c).
Proof.
  intros a Ha. destruct c as [|packet class epoch g|bridge_open packet class g| |epoch| |session]; cbn [adapter_call].
  - eapply wp_mono; [by apply refresh_wp|]. naive_solver.
  - wp_prim. unfold receiveFips. wp_prim. wp_prim. destruct (negb _); [by wp_prim; wp_prim|].
    eapply wp_mono; [by apply fips_receive_ok|]. intros [r|] a' Ha'; [by wp_prim|done].
  - wp_prim. eapply wp_mono; [by apply deliver_ok|]. intros [r|] a' Ha'; [by wp_prim|done].
  - unfold markDegraded, disarm_current. wp_prim. wp_prim. wp_prim. eapply wp_mono; [by apply disarm_wp|].
    intros r a' (-> & Ha' & _). by apply on_session_ok.
  - change (wp (disarm_current ;; next_generation ;; on_session (port_reset epoch)) (fun _ a' => adapter_ok generation a') a).
    unfold disarm_current, next_generation. wp_prim. wp_prim. wp_prim. eapply wp_mono; [by apply disarm_wp|].
    intros r a' (-> & [H1 H2 H3] & Hn & Hg & _). wp_prim. wp_prim. apply on_session_ok.
    split; unfold set; cbn; [by rewrite H1, Hn|done|lia].
  - eapply wp_mono; [by apply retire_wp|]. naive_solver.
  - wp_prim. by destruct Ha.
Qed.

Lemma adapter_run_ok generation calls a : adapter_ok generation a -> adapter_ok generation (adapter_run calls a).
Proof.
  revert a. induction calls as [|c calls IH]; intros a Ha; [done|]. apply IH.
  by apply (wp_elim (adapter_call c) (fun _ a' => adapter_ok generation a')), adapter_call_ok.
Qed.

Lemma new_adapter_ok session : adapter_ok 1 (new_adapter session).
Proof.
  unfold new_adapter. apply (wp_elim refresh (fun _ a' => adapter_ok 1 a')). eapply wp_mono; [apply refresh_wp|naive_solver].
  by split.
Qed.
End Adapter.
