(* ===== verification/AdapterProps.v ===== *)
(** * What passes the seam

    The acoustic session implements the port, and what the adapter guarantees
    over any session that does. *)

From stdpp Require Import base list numbers option strings.
From Stdlib Require Import ZArith Lia.
From S2P Require Import Prelude Fwav Calibration SessionState Session SessionReceive SessionStates AcousticAdapter.

(** [AcousticSession] as the adapter sees it: [snapshot.ready] is the state
    [Ready]. *)
Lemma session_enqueue_gate options packet class s :
  is_state s Ready = false ->
  wp (enqueuePacket options packet class) (fun r _ => match r with Ok q => qr_accepted q = false | Throw _ => True end) s.
Proof.
  intros Hs. unfold enqueuePacket. wp_prim. eapply wp_moves; [apply (expireWork_stays options Ready); by left|].
  intros [u|e] s' Hst; [|done]. wp_prim. wp_prim.
  assert (E : is_state s' Ready = false).
  { unfold is_state in *. apply bool_decide_eq_false in Hs. apply bool_decide_eq_false. intros E. by apply Hs, Hst. }
  rewrite E. cbn [negb orb]. by wp_prim.
Qed.

Definition session_port (options : AcousticSessionOptions) : SessionPort Session := {|
  port_epoch := s_epoch;
  port_ready := fun s => is_state s Ready;
  port_enqueue := enqueuePacket options;
  port_reset := reset options;
  port_markHeartbeatMissed := markHeartbeatMissed options;
  port_enqueue_gate := session_enqueue_gate options;
|}.

(** C27: over any session that offers the port, and whatever it does between the
    adapter's calls: the bridge is told READY and DISARM in turn, the last
    being the READY of the epoch the adapter is armed with; a packet is accepted
    towards the session only when armed, in that epoch and the current
    generation, well formed, and the session is ready; one is accepted towards
    the bridge only when armed, and is the one handed over; a refresh arms
    exactly when the session is ready, in its epoch; and after an invalidation
    nothing of an older generation passes either way. *)
Theorem packets_pass_only_while_armed {S} `{SessionPort S} (session : S) calls :
  let a := adapter_run calls (new_adapter session) in
  announced (ad_controls a) = Some (ad_armedEpoch a)
  /\ (forall packet class epoch g, outcome (receiveFips packet class epoch g) a = Ok Accepted ->
       ad_armedEpoch a = Some epoch /\ default (ad_generation a) g = ad_generation a
       /\ validPacket packet = true /\ isFipsTrafficClass class = true /\ port_ready (ad_session a) = true)
  /\ (forall bridge_open packet class g, outcome (deliver bridge_open packet class g) a = Ok Accepted ->
       (exists epoch, ad_armedEpoch a = Some epoch) /\ bridge_open = true
       /\ ad_emitted (final (deliver bridge_open packet class g) a) = ad_emitted a ++ [mkEnvelope packet class])
  /\ ad_armedEpoch (final refresh a) = (if port_ready (ad_session a) then Some (port_epoch (ad_session a)) else None)
  /\ (forall more packet class epoch g bridge_open, g <= ad_generation a ->
       let a' := adapter_run more (final invalidate a) in
       outcome (receiveFips packet class epoch (Some g)) a' = Ok (Refused Stale)
       /\ outcome (deliver bridge_open packet class (Some g)) a' = Ok (Refused Stale)).
Proof.
  intros a. assert (Ha : adapter_ok 1 a) by (apply adapter_run_ok, new_adapter_ok). clearbody a.
  split; [apply Ha|]. split; [|split; [|split]].
  - intros packet class epoch g. apply (wp_elim _ (fun r _ => r = Ok Accepted -> _)). unfold receiveFips, fips_receive.
    wp_prim. wp_prim. cbv zeta. destruct (Z.eqb_spec (default (ad_generation a) g) (ad_generation a)) as [Eg|];
      cbn [negb]; [|by wp_prim].
    wp_prim. wp_prim. unfold active. rewrite (ok_lifecycle _ _ Ha). destruct (ad_armedEpoch a) as [e|]; cbv beta iota delta [option_map]; [|by wp_prim].
    destruct (Z.eqb_spec e epoch) as [->|]; cbn [negb orb]; [|by wp_prim].
    destruct (Z.eqb_spec (ad_generation a) (default (ad_generation a) g)); cbn [negb]; [|by wp_prim].
    unfold envelope. destruct (validPacket packet); cbn [negb orb]; [|by wp_prim].
    destruct (isFipsTrafficClass class); cbn [negb]; [|by wp_prim]. unfold adapter_onPacket. wp_prim.
    destruct (port_ready (ad_session a)) eqn:Er.
    { eapply wp_mono; [apply (on_session_ok 1); exact Ha|]. intros [q|] a' _; [|done]. by wp_prim. }
    pose proof (port_enqueue_gate packet (trafficClass class) (ad_session a) Er) as Hq.
    apply (wp_elim _ (fun r _ => _)) in Hq. Transparent wp. unfold wp, on_session, outcome, final in *. Opaque wp.
    cbn [ev_bytes ev_trafficClass]. destruct (port_enqueue packet (trafficClass class) (ad_session a)) as [[q|] s']; [|done].
    cbn in Hq |- *. by rewrite Hq.
  - intros bridge_open packet class g.
    apply (wp_elim _ (fun r a' => r = Ok Accepted -> (exists epoch, ad_armedEpoch a = Some epoch) /\ bridge_open = true
       /\ ad_emitted a' = ad_emitted a ++ [mkEnvelope packet class])). unfold deliver, fips_send, emitPacket.
    wp_prim. wp_prim. destruct (negb _); [by wp_prim|]. wp_prim. wp_prim. rewrite (ok_lifecycle _ _ Ha).
    destruct (ad_armedEpoch a) as [e|]; cbv beta iota delta [option_map]; [|by wp_prim]. unfold envelope.
    destruct (negb (validPacket packet) || _); [by wp_prim|]. wp_prim. destruct bridge_open; [|by wp_prim].
    wp_prim. wp_prim. split; [by exists e|done].
  - apply (wp_elim refresh (fun _ a' => ad_armedEpoch a' = _)). eapply wp_mono; [by apply refresh_wp|naive_solver].
  - intros more packet class epoch g bridge_open Hg a'.
    assert (Hok : adapter_ok (ad_generation a + 1) a').
    { apply adapter_run_ok. apply (wp_elim invalidate (fun _ a' => adapter_ok (ad_generation a + 1) a')).
      eapply wp_mono; [by apply retire_wp|]. intros r a1 (_ & [H1 H2 _] & _ & E). split; try done. lia. }
    assert (Hne : (g =? ad_generation a') = false) by (apply Z.eqb_neq; pose proof (ok_generation _ _ Hok); lia).
    split; apply (wp_elim _ (fun r _ => r = Ok (Refused Stale))); [unfold receiveFips|unfold deliver];
      wp_prim; wp_prim; cbv zeta; cbn [default id]; rewrite Hne; by wp_prim.
Qed.

(** A session that is its epoch, ready when it is positive. *)
Definition epoch_port : SessionPort Z.
Proof.
  refine {| port_epoch := fun s => s; port_ready := fun s => 0 <? s;
            port_enqueue := fun _ _ s => (Ok (if 0 <? s then accepted 1 else refused "acoustic_not_ready"), s);
            port_reset := fun epoch s => (Ok tt, epoch); port_markHeartbeatMissed := fun s => (Ok tt, 0) |}.
  intros packet class s H. Transparent wp. unfold wp, outcome. Opaque wp. cbn. by rewrite H.
Defined.

Example adapter_scenario :
  let a := @new_adapter Z epoch_port 7 in
  outcome (@receiveFips Z epoch_port [1; 2] 1 7 None) a = Ok Accepted
  /\ outcome (@receiveFips Z epoch_port [1; 2] 1 6 None) a = Ok (Refused Stale)
  /\ outcome (@receiveFips Z epoch_port [] 1 7 None) a = Ok (Refused Invalid)
  /\ outcome (@receiveFips Z epoch_port [1; 2] 1 7 (Some 1)) (final (@adapter_reset Z epoch_port 8) a) = Ok (Refused Stale)
  /\ ad_controls (final (@adapter_reset Z epoch_port 8) a) = [ControlReady 7; ControlDisarm 7].
Proof. vm_compute. done. Qed.
