(* ===== verification/Sha256.v ===== *)
(** * SHA-256, as Node's and the browser's crypto compute it (FIPS 180-4) *)

From stdpp Require Import base list numbers option.
From Stdlib Require Import ZArith Lia.
From S2P Require Import Prelude.

Definition w32 : Z := 4294967295.
Definition add32 (a b : Z) : Z := Z.land (a + b) w32.
Definition rotr (n a : Z) : Z := Z.lor (Z.shiftr a n) (Z.land (Z.shiftl a (32 - n)) w32).

(** ** Constants

    The standard's constants are the first 32 bits of the fractional parts of the
    cube roots and the square roots of the first primes. *)

Definition is_prime (n : nat) : bool :=
  forallb (fun d => negb (Nat.modulo n d =? 0)%nat) (seq 2 (n - 2)).

(** The first 64 of them lie below 312. *)
Definition sha_primes : list nat := List.filter is_prime (seq 2 310).

(** The largest [r] below [2 ^ bits] whose [k]-th power is at most [n]. *)
Fixpoint root_below (bits : nat) (k n : Z) (r : Z) : Z :=
  match bits with
  | O => r
  | S bits' =>
      let r' := r + 2 ^ Z.of_nat bits' in
      root_below bits' k n (if r' ^ k <=? n then r' else r)
  end.

Definition root_fraction (k : Z) (p : nat) : Z := Z.land (root_below 38 k (Z.of_nat p * 2 ^ (32 * k)) 0) w32.

Definition sha_k : list Z := Eval vm_compute in map (root_fraction 3) sha_primes.

Definition sha_h : list Z := Eval vm_compute in map (root_fraction 2) (take 8 sha_primes).

Record sha_state := mkSha { sa : Z; sb : Z; sc : Z; sd : Z; se : Z; sf : Z; sg : Z; sh : Z }.

Definition sha_init : sha_state :=
  let h i := nth i sha_h 0 in mkSha (h 0%nat) (h 1%nat) (h 2%nat) (h 3%nat) (h 4%nat) (h 5%nat) (h 6%nat) (h 7%nat).

Definition sha_round (s : sha_state) (k w : Z) : sha_state :=
  let s1 := Z.lxor (rotr 6 (se s)) (Z.lxor (rotr 11 (se s)) (rotr 25 (se s))) in
  let ch := Z.lxor (Z.land (se s) (sf s)) (Z.land (Z.lxor (se s) w32) (sg s)) in
  let t1 := sh s + s1 + ch + k + w in
  let s0 := Z.lxor (rotr 2 (sa s)) (Z.lxor (rotr 13 (sa s)) (rotr 22 (sa s))) in
  let maj := Z.lxor (Z.land (sa s) (sb s)) (Z.lxor (Z.land (sa s) (sc s)) (Z.land (sb s) (sc s))) in
  mkSha (Z.land (t1 + s0 + maj) w32) (sa s) (sb s) (sc s) (add32 (sd s) t1) (se s) (sf s) (sg s).

(** The message schedule, oldest word last: the next word from the last 16. *)
Definition sha_next (w : list Z) : Z :=
  let x := nth 14 w 0 in let y := nth 1 w 0 in
  let s0 := Z.lxor (rotr 7 x) (Z.lxor (rotr 18 x) (Z.shiftr x 3)) in
  let s1 := Z.lxor (rotr 17 y) (Z.lxor (rotr 19 y) (Z.shiftr y 10)) in
  Z.land (nth 15 w 0 + s0 + nth 6 w 0 + s1) w32.

Fixpoint sha_rounds (ks : list Z) (words window : list Z) (s : sha_state) : sha_state :=
  match ks with
  | [] => s
  | k :: ks' =>
      match words with
      | w :: words' => sha_rounds ks' words' (take 16 (w :: window)) (sha_round s k w)
      | [] => let w := sha_next window in sha_rounds ks' [] (take 16 (w :: window)) (sha_round s k w)
      end
  end.

Definition sha_block (s : sha_state) (words : list Z) : sha_state :=
  let r := sha_rounds sha_k words [] s in
  mkSha (add32 (sa s) (sa r)) (add32 (sb s) (sb r)) (add32 (sc s) (sc r)) (add32 (sd s) (sd r))
    (add32 (se s) (se r)) (add32 (sf s) (sf r)) (add32 (sg s) (sg r)) (add32 (sh s) (sh r)).

Fixpoint be_words (l : bytes) : list Z :=
  match l with
  | a :: b :: c :: d :: rest => (((a * 256 + b) * 256 + c) * 256 + d) :: be_words rest
  | _ => []
  end.

Fixpoint be_bytes (n : nat) (v : Z) : bytes :=
  match n with O => [] | S n' => be_bytes n' (v / 256) ++ [v mod 256] end.

Definition sha_pad (l : bytes) : bytes :=
  l ++ [128] ++ replicate (Z.to_nat ((55 - zlen l) mod 64)) 0 ++ be_bytes 8 (8 * zlen l).

Fixpoint sha_blocks (n : nat) (words : list Z) (s : sha_state) : sha_state :=
  match n with O => s | S n' => sha_blocks n' (drop 16 words) (sha_block s (take 16 words)) end.

Definition sha256 (l : bytes) : bytes :=
  let words := be_words (sha_pad l) in
  let s := sha_blocks (length words / 16) words sha_init in
  concat (map (be_bytes 4) [sa s; sb s; sc s; sd s; se s; sf s; sg s; sh s]).

