(* ===== verification/Corpus.v ===== *)
(** * The qualification corpus
    ([fixtures/corpus/manifest.json], [packages/bridge/src/qualification-session.ts] lines 65-134)

    The committed cases, the payloads the bridge derives for them, and the
    ordered list a qualification goes through: building it throws when a payload
    no longer hashes to the committed digest. *)

From stdpp Require Import base list numbers option strings pretty.
From Stdlib Require Import ZArith Lia.
From S2P Require Import Prelude Utf8 Doubles Json Encodings Regex Sha256.

Inductive LiteralDirection := AtoB | BtoA.

#[export] Instance LiteralDirection_eq_dec : EqDecision LiteralDirection.
Proof. solve_decision. Defined.

(** ['A → B'] and ['B → A'], the arrow being U+2192. *)
Definition direction_text (d : LiteralDirection) : jsstring :=
  match d with AtoB => [65; 32; 0x2192; 32; 66] | BtoA => [66; 32; 0x2192; 32; 65] end.

Inductive CorpusPattern := AllZero | AllFF | Incrementing | Alternating | Pseudorandom.

Record CorpusManifestCase := mkEntry {
  cm_id : string; cm_direction : LiteralDirection; cm_size : Z; cm_pattern : CorpusPattern; cm_sha256 : string }.

Record CyrinxQualificationCase := mkCase {
  qc_id : jsstring; qc_direction : LiteralDirection; qc_payload : bytes; qc_digest : jsstring; qc_size : Z;
  qc_cold : bool }.

Definition CORPUS_SEED : string := "fipwave-phase-01-corpus-v1".

(** [createHash('sha256').update(x).digest('hex')] *)
Definition sha256_hex (x : bytes) : jsstring := to_hex (sha256 x).

(** [Number(id.slice(-2)) - 1], for identifiers that end in two digits. *)
Definition case_index (id : jsstring) : Z :=
  default 0 (digits_value 0 (drop (length id - 2) id)) - 1.

(** The bytes of the linear congruential generator. *)
Fixpoint lcg_bytes (n : nat) (state : Z) : bytes :=
  match n with
  | O => []
  | S n' => let state := to_uint32 (state * 1664525 + 1013904223) in js_ushr state 24 :: lcg_bytes n' state
  end.

Definition decimal_text (z : Z) : jsstring := js (pretty z).

Definition pseudorandom_seed (entry : CorpusManifestCase) (index : Z) : Z :=
  read_le 4 0 (sha256 (utf8_encode
    (js CORPUS_SEED ++ [58] ++ direction_text (cm_direction entry) ++ [58] ++ decimal_text (cm_size entry)
     ++ [58] ++ decimal_text index))).

Definition manifestPayload (entry : CorpusManifestCase) : bytes :=
  let index := case_index (js (cm_id entry)) in
  let size := Z.to_nat (cm_size entry) in
  let offsets := map Z.of_nat (seq 0 size) in
  match cm_pattern entry with
  | AllZero => replicate size 0
  | AllFF => replicate size 255
  | Incrementing => map (fun offset => js_and (offset + index) 255) offsets
  | Alternating => map (fun offset => if Z.rem (offset + index) 2 =? 0 then 0xaa else 0x55) offsets
  | Pseudorandom => lcg_bytes size (pseudorandom_seed entry index)
  end.

Definition corpusCase (entry : CorpusManifestCase) : result CyrinxQualificationCase :=
  let payload := manifestPayload entry in
  let digest := sha256_hex payload in
  if bool_decide (digest = js (cm_sha256 entry))
  then Ok (mkCase (js (cm_id entry)) (cm_direction entry) payload digest (cm_size entry) false)
  else Throw "committed corpus payload drift".

Definition coldCase (id : string) (direction : LiteralDirection) (fill : Z) : CyrinxQualificationCase :=
  let payload := replicate 256 fill in
  mkCase (js id) direction payload (sha256_hex payload) 256 true.

Fixpoint corpus_cases (entries : list CorpusManifestCase) : result (list CyrinxQualificationCase) :=
  match entries with
  | [] => Ok []
  | entry :: rest => let? c := corpusCase entry in let? cs := corpus_cases rest in Ok (c :: cs)
  end.

Definition manifest_cases : list CorpusManifestCase := [
  mkEntry "a-to-b-256-01" AtoB 256 AllZero "5341e6b2646979a70e57653007a1f310169421ec9bdd9f1a5648f75ade005af1";
  mkEntry "a-to-b-256-02" AtoB 256 AllFF "3d6876a0146de8576eb2395a858de1213d1b92c65b779df3a331cfd5a4584546";
  mkEntry "a-to-b-256-03" AtoB 256 Incrementing "feb3943c6cbca3f3bf6491b0c021f40368536c7fd54c418a3a754ced89351880";
  mkEntry "a-to-b-256-04" AtoB 256 Alternating "f27a3a59770a5641860de605db1cca7212f7132cda71d0217901c4c347ba15ab";
  mkEntry "a-to-b-256-05" AtoB 256 Pseudorandom "b45d68b0907a82373581e4a481f25360a09966978c2cf27292be3edc793ebd33";
  mkEntry "a-to-b-256-06" AtoB 256 AllZero "5341e6b2646979a70e57653007a1f310169421ec9bdd9f1a5648f75ade005af1";
  mkEntry "a-to-b-256-07" AtoB 256 AllFF "3d6876a0146de8576eb2395a858de1213d1b92c65b779df3a331cfd5a4584546";
  mkEntry "a-to-b-256-08" AtoB 256 Incrementing "dd6ffa2e9eca842e3b1385edad940cf4581c200217cc881b76381bcc2b2bfe31";
  mkEntry "a-to-b-256-09" AtoB 256 Alternating "200bd68ee0036a1c243c95ed34ce125bb51fb50edbd9b2aa1c79a0356f4bb508";
  mkEntry "a-to-b-256-10" AtoB 256 Pseudorandom "9f6cfcdd055cfa01bfd2dac28b7912c015946b098babaa2be27da49b38994f89";
  mkEntry "a-to-b-256-11" AtoB 256 AllZero "5341e6b2646979a70e57653007a1f310169421ec9bdd9f1a5648f75ade005af1";
  mkEntry "a-to-b-256-12" AtoB 256 AllFF "3d6876a0146de8576eb2395a858de1213d1b92c65b779df3a331cfd5a4584546";
  mkEntry "a-to-b-256-13" AtoB 256 Incrementing "f375b4a71df87ae9601746f45a1b12fdf19e8dd46a942e9cf59086b7df771763";
  mkEntry "a-to-b-256-14" AtoB 256 Alternating "f27a3a59770a5641860de605db1cca7212f7132cda71d0217901c4c347ba15ab";
  mkEntry "a-to-b-256-15" AtoB 256 Pseudorandom "a540c9291b2c5175125deff725d1d558d526549b3624d0601432f82ac3f70a1a";
  mkEntry "a-to-b-256-16" AtoB 256 AllZero "5341e6b2646979a70e57653007a1f310169421ec9bdd9f1a5648f75ade005af1";
  mkEntry "a-to-b-256-17" AtoB 256 AllFF "3d6876a0146de8576eb2395a858de1213d1b92c65b779df3a331cfd5a4584546";
  mkEntry "a-to-b-256-18" AtoB 256 Incrementing "2d90a1e62c68792ebe959115f2f229f70c2a2383f4751feee91790557479948f";
  mkEntry "a-to-b-256-19" AtoB 256 Alternating "200bd68ee0036a1c243c95ed34ce125bb51fb50edbd9b2aa1c79a0356f4bb508";
  mkEntry "a-to-b-256-20" AtoB 256 Pseudorandom "28aeec29f9d8df3fde2767450a7bd1e5f6c0a318889fa1e1fafe4acb2f2fb244";
  mkEntry "a-to-b-1536-01" AtoB 1536 AllZero "80422bc3d307b4a25bdafcc84ac7fb01cb55a09810e8b0f37bb12e0edb5c48ca";
  mkEntry "a-to-b-1536-02" AtoB 1536 AllFF "e6d1b616fc8f6230c07d0e573527b701e7f377803916cc22f51faa21917d9160";
  mkEntry "a-to-b-1536-03" AtoB 1536 Incrementing "18005dd022aec76604509addf4281b6a53b34752a1cd976c78e136198c2720bb";
  mkEntry "a-to-b-1536-04" AtoB 1536 Alternating "e6c168f9928a0e083fed4af23bc8aefd672dc4e4df5bcec91d7fd460e722a3c3";
  mkEntry "a-to-b-1536-05" AtoB 1536 Pseudorandom "da1e752cfe2b0fe460a276108b1f60f7c6dc96fc3e336f6b4d77249a51e0cc96";
  mkEntry "b-to-a-256-01" BtoA 256 AllZero "5341e6b2646979a70e57653007a1f310169421ec9bdd9f1a5648f75ade005af1";
  mkEntry "b-to-a-256-02" BtoA 256 AllFF "3d6876a0146de8576eb2395a858de1213d1b92c65b779df3a331cfd5a4584546";
  mkEntry "b-to-a-256-03" BtoA 256 Incrementing "feb3943c6cbca3f3bf6491b0c021f40368536c7fd54c418a3a754ced89351880";
  mkEntry "b-to-a-256-04" BtoA 256 Alternating "f27a3a59770a5641860de605db1cca7212f7132cda71d0217901c4c347ba15ab";
  mkEntry "b-to-a-256-05" BtoA 256 Pseudorandom "0b97a0d581a35644a711e87fc623098aa2a6e3d9236b419fd313175d48413706";
  mkEntry "b-to-a-256-06" BtoA 256 AllZero "5341e6b2646979a70e57653007a1f310169421ec9bdd9f1a5648f75ade005af1";
  mkEntry "b-to-a-256-07" BtoA 256 AllFF "3d6876a0146de8576eb2395a858de1213d1b92c65b779df3a331cfd5a4584546";
  mkEntry "b-to-a-256-08" BtoA 256 Incrementing "dd6ffa2e9eca842e3b1385edad940cf4581c200217cc881b76381bcc2b2bfe31";
  mkEntry "b-to-a-256-09" BtoA 256 Alternating "200bd68ee0036a1c243c95ed34ce125bb51fb50edbd9b2aa1c79a0356f4bb508";
  mkEntry "b-to-a-256-10" BtoA 256 Pseudorandom "d5e14d8b7e6ca9b6a405a0764acde9b781bda6879aeca35b20349e294d1cf518";
  mkEntry "b-to-a-256-11" BtoA 256 AllZero "5341e6b2646979a70e57653007a1f310169421ec9bdd9f1a5648f75ade005af1";
  mkEntry "b-to-a-256-12" BtoA 256 AllFF "3d6876a0146de8576eb2395a858de1213d1b92c65b779df3a331cfd5a4584546";
  mkEntry "b-to-a-256-13" BtoA 256 Incrementing "f375b4a71df87ae9601746f45a1b12fdf19e8dd46a942e9cf59086b7df771763";
  mkEntry "b-to-a-256-14" BtoA 256 Alternating "f27a3a59770a5641860de605db1cca7212f7132cda71d0217901c4c347ba15ab";
  mkEntry "b-to-a-256-15" BtoA 256 Pseudorandom "e9c12fe86ea0827166a5db0fff73b9ece98a5df617ad0fa3da817a1c3149e85e";
  mkEntry "b-to-a-256-16" BtoA 256 AllZero "5341e6b2646979a70e57653007a1f310169421ec9bdd9f1a5648f75ade005af1";
  mkEntry "b-to-a-256-17" BtoA 256 AllFF "3d6876a0146de8576eb2395a858de1213d1b92c65b779df3a331cfd5a4584546";
  mkEntry "b-to-a-256-18" BtoA 256 Incrementing "2d90a1e62c68792ebe959115f2f229f70c2a2383f4751feee91790557479948f";
  mkEntry "b-to-a-256-19" BtoA 256 Alternating "200bd68ee0036a1c243c95ed34ce125bb51fb50edbd9b2aa1c79a0356f4bb508";
  mkEntry "b-to-a-256-20" BtoA 256 Pseudorandom "757b6ab8e75e524ef8302e0b9d21eff0fdcc12ae2b5c1a09a666cfc6d8d25540";
  mkEntry "b-to-a-1536-01" BtoA 1536 AllZero "80422bc3d307b4a25bdafcc84ac7fb01cb55a09810e8b0f37bb12e0edb5c48ca";
  mkEntry "b-to-a-1536-02" BtoA 1536 AllFF "e6d1b616fc8f6230c07d0e573527b701e7f377803916cc22f51faa21917d9160";
  mkEntry "b-to-a-1536-03" BtoA 1536 Incrementing "18005dd022aec76604509addf4281b6a53b34752a1cd976c78e136198c2720bb";
  mkEntry "b-to-a-1536-04" BtoA 1536 Alternating "e6c168f9928a0e083fed4af23bc8aefd672dc4e4df5bcec91d7fd460e722a3c3";
  mkEntry "b-to-a-1536-05" BtoA 1536 Pseudorandom "cc12d2243647a6f3386fffa16fff229455bbc206ba32973447700a56862b1922"].

Definition ORDERED_CASES : result (list CyrinxQualificationCase) :=
  let? corpus := corpus_cases manifest_cases in
  Ok (coldCase "cyrinx-cold-a-to-b" AtoB 0x3c :: coldCase "cyrinx-cold-b-to-a" BtoA 0xc3 :: corpus).

Definition cyrinxDigitalCases (ordered : list CyrinxQualificationCase) : result (list CyrinxQualificationCase) :=
  let corpus := drop 2 ordered in
  match List.find (fun c => qc_size c =? 256) corpus, List.find (fun c => qc_size c =? 1536) corpus with
  | Some small, Some large => Ok [small; large]
  | _, _ => Throw "committed corpus is missing digital gate cases"
  end.

(** The committed digests, checked one by one. *)
Definition entry_matches (entry : CorpusManifestCase) : bool :=
  bool_decide (sha256_hex (manifestPayload entry) = js (cm_sha256 entry)).

Definition entries_match (entries : list CorpusManifestCase) : bool := forallb entry_matches entries.

#[local] Strategy expand [entries_match entry_matches manifest_cases].

Lemma committed_entries_match : entries_match manifest_cases = true.
Proof. vm_cast_no_check (eq_refl true). Qed.

#[local] Opaque sha256_hex manifestPayload.

Lemma corpus_cases_ok entries :
  entries_match entries = true ->
  exists cs, corpus_cases entries = Ok cs /\ map qc_id cs = map (fun e => js (cm_id e)) entries
    /\ map qc_digest cs = map (fun e => js (cm_sha256 e)) entries
    /\ Forall (fun c => qc_cold c = false /\ qc_digest c = sha256_hex (qc_payload c)) cs.
Proof.
  induction entries as [|e entries IH]; [intros _; by exists []|]. intros [He Hrest]%andb_prop.
  destruct (IH Hrest) as (cs & H1 & H2 & H3 & H4).
  apply bool_decide_eq_true_1 in He. cbn [corpus_cases map]. unfold corpusCase. cbv zeta.
  rewrite bool_decide_eq_true_2 by done. cbn [rbind]. rewrite H1. cbn [rbind].
  eexists. split; [done|]. cbn [map qc_id qc_digest]. rewrite H2, H3, He. repeat split; try done.
  constructor; [by split|done].
Qed.

(** The payloads the bridge derives for the committed manifest hash to the
    digests committed there, so the ordered list of cases exists: the two cold
    cases, then the fifty of the manifest in its order. *)
Theorem committed_corpus_loads :
  exists corpus,
    ORDERED_CASES = Ok (coldCase "cyrinx-cold-a-to-b" AtoB 0x3c :: coldCase "cyrinx-cold-b-to-a" BtoA 0xc3 :: corpus)
    /\ map qc_id corpus = map (fun e => js (cm_id e)) manifest_cases
    /\ map qc_digest corpus = map (fun e => js (cm_sha256 e)) manifest_cases
    /\ Forall (fun c => qc_cold c = false /\ qc_digest c = sha256_hex (qc_payload c)) corpus.
Proof.
  destruct (corpus_cases_ok _ committed_entries_match) as (cs & H1 & H2 & H3 & H4).
  exists cs. unfold ORDERED_CASES. rewrite H1. repeat split; [exact H2|exact H3|exact H4].
Qed.
