(* ===== verification/Qualification.v ===== *)
(** * The runner's qualification session
    ([packages/bridge/src/qualification-session.ts], lines 136-450)

    The authoritative state of one runner process: its stages from build to the
    last corpus case, the instruction a browser may accept, the completion that
    awaits an acknowledgement, the deadline, and the fallback to Quiet.  The
    methods run in the state-and-exception monad: what a method assigned before
    it threw stays. *)

From stdpp Require Import base list numbers option strings.
From Stdlib Require Import ZArith Lia.
From S2P Require Import Prelude Utf8 Corpus.

Definition CYRINX_DEADLINE_MS : Z := 90 * 60 * 1000.
Definition CYRINX_TRANSMIT_SETTLE_MS : Z := 4500.

Inductive CyrinxFallbackReason :=
  | BuildFailed | DigitalRoundtripFailed | ColdAToBFailed | ColdBToAFailed | CorpusFailed | DeadlineExpired.

Inductive CyrinxStage :=
  | StIdle | StBuild | StDigital | StColdAToB | StColdBToA | StCorpus | StComplete | StQuiet | StUnqualified.

Inductive CyrinxSessionCodec := CodecIdle | CodecCyrinx | CodecQuiet | CodecUnqualified.

Inductive CyrinxInstructionAction := Transmit | Listen.

Inductive FallbackState := Available | Activated | FallbackFailed.

Inductive Role := RoleA | RoleB.

#[export] Instance Reason_eq_dec : EqDecision CyrinxFallbackReason.
Proof. solve_decision. Defined.
#[export] Instance Stage_eq_dec : EqDecision CyrinxStage.
Proof. solve_decision. Defined.
#[export] Instance Codec_eq_dec : EqDecision CyrinxSessionCodec.
Proof. solve_decision. Defined.
#[export] Instance Action_eq_dec : EqDecision CyrinxInstructionAction.
Proof. solve_decision. Defined.
#[export] Instance FallbackState_eq_dec : EqDecision FallbackState.
Proof. solve_decision. Defined.

Record CyrinxInstruction := mkInstruction {
  in_action : CyrinxInstructionAction; in_caseId : jsstring; in_direction : LiteralDirection; in_cold : bool }.

Record CyrinxSessionSnapshot := mkSessionSnapshot {
  ss_epoch : Z; ss_codec : CyrinxSessionCodec; ss_stage : CyrinxStage;
  ss_startedAtMs : option Z; ss_deadlineAtMs : option Z; ss_elapsedMs : option Z;
  ss_fallbackState : FallbackState; ss_reasonCode : option CyrinxFallbackReason;
  ss_instruction : option CyrinxInstruction; ss_terminal : bool }.

Record Accepted := mkAccepted { ac_caseIndex : nat; ac_mode : CyrinxInstructionAction; ac_acceptedAtMs : Z }.

Record CyrinxQualificationSession := mkSession {
  qs_role : Role;
  qs_codec : CyrinxSessionCodec;
  qs_stage : CyrinxStage;
  qs_startedAtMs : option Z;
  qs_deadlineAtMs : option Z;
  qs_lastElapsedMs : option Z;
  qs_terminalElapsedMs : option Z;
  qs_fallbackState : FallbackState;
  qs_fallbackReason : option CyrinxFallbackReason;
  qs_caseIndex : option nat;
  qs_accepted : option Accepted;
  qs_pendingCompletionReason : option CyrinxFallbackReason;
  qs_coldReceivePassed : bool;
}.

#[export] Instance eta_CyrinxQualificationSession : Eta CyrinxQualificationSession := fun s =>
  mkSession (qs_role s) (qs_codec s) (qs_stage s) (qs_startedAtMs s) (qs_deadlineAtMs s) (qs_lastElapsedMs s)
    (qs_terminalElapsedMs s) (qs_fallbackState s) (qs_fallbackReason s) (qs_caseIndex s) (qs_accepted s)
    (qs_pendingCompletionReason s) (qs_coldReceivePassed s).

Abbreviation QM := (M CyrinxQualificationSession) (only parsing).

Definition new_session (role : Role) : CyrinxQualificationSession :=
  mkSession role CodecIdle StIdle None None None None Available None None None None false.

Definition checkedNow (nowMs : Z) : QM Z :=
  if negb (is_safe_integer nowMs) || (nowMs <? 0) then mthrow "qualification_clock_invalid" else mret nowMs.

Definition actionFor (role : Role) (direction : LiteralDirection) : CyrinxInstructionAction :=
  let localDirection := match role with RoleA => AtoB | RoleB => BtoA end in
  if decide (direction = localDirection) then Transmit else Listen.

Definition stageForCase (index : nat) : CyrinxStage :=
  match index with O => StColdAToB | S O => StColdBToA | _ => StCorpus end.

Definition failureReasonForStage (stage : CyrinxStage) : result CyrinxFallbackReason :=
  match stage with
  | StBuild => Ok BuildFailed
  | StDigital => Ok DigitalRoundtripFailed
  | StColdAToB => Ok ColdAToBFailed
  | StColdBToA => Ok ColdBToAFailed
  | StCorpus => Ok CorpusFailed
  | _ => Throw "qualification_stage_not_failable"
  end.

Definition is_some {A} (o : option A) : bool := match o with Some _ => true | None => false end.

Definition terminal (s : CyrinxQualificationSession) : bool :=
  match qs_stage s with StComplete | StQuiet | StUnqualified => true | _ => false end.

Definition is_cyrinx (s : CyrinxQualificationSession) : bool :=
  match qs_codec s with CodecCyrinx => true | _ => false end.

(** A completion whose acknowledgement is still due can be taken back. *)
Definition revocableComplete (s : CyrinxQualificationSession) : bool :=
  match qs_stage s with StComplete => is_some (qs_pendingCompletionReason s) | _ => false end.

Definition settled (s : CyrinxQualificationSession) : bool := terminal s && negb (revocableComplete s).

Section Session.
Context (cases : list CyrinxQualificationCase).

Definition currentCase (s : CyrinxQualificationSession) : option CyrinxQualificationCase :=
  match qs_caseIndex s with Some i => cases !! i | None => None end.

Definition elapsed_ (nowMs : Z) : QM Z :=
  let! now := checkedNow nowMs in
  let! s := mget in
  match qs_startedAtMs s with
  | None => mthrow "qualification_not_started"
  | Some startedAt =>
      let elapsed := Z.max 0 (now - startedAt) in
      let last := Z.max (default 0 (qs_lastElapsedMs s)) elapsed in
      qs_lastElapsedMs <== Some last;;
      mret last
  end.

Definition activate (reason : CyrinxFallbackReason) (nowMs : Z) : QM bool :=
  let! s := mget in
  if is_some (qs_fallbackReason s) || settled s || negb (is_cyrinx s) then mret false
  else
    qs_fallbackReason <== Some reason;;
    qs_fallbackState <== Activated;;
    qs_codec <== CodecQuiet;;
    qs_stage <== StQuiet;;
    qs_accepted <== None;;
    qs_pendingCompletionReason <== None;;
    let! elapsed := elapsed_ nowMs in
    qs_terminalElapsedMs <== Some (if decide (reason = DeadlineExpired) then Z.max CYRINX_DEADLINE_MS elapsed else elapsed);;
    mret true.

Definition start (nowMs : Z) : QM bool :=
  let! _ := checkedNow nowMs in
  let! s := mget in
  if decide (qs_stage s = StIdle) then
    qs_codec <== CodecCyrinx;;
    qs_stage <== StBuild;;
    qs_startedAtMs <== Some nowMs;;
    qs_deadlineAtMs <== Some (nowMs + CYRINX_DEADLINE_MS);;
    qs_lastElapsedMs <== Some 0;;
    mret true
  else mret false.

Definition expire (nowMs : Z) : QM bool :=
  let! s := mget in
  match qs_startedAtMs s, qs_deadlineAtMs s with
  | Some _, Some deadline =>
      if settled s || negb (is_cyrinx s) then mret false
      else
        let! now := checkedNow nowMs in
        let! elapsed := elapsed_ now in
        if (now <? deadline) && (elapsed <? CYRINX_DEADLINE_MS) then mret false
        else activate DeadlineExpired now
  | _, _ => mret false
  end.

Definition assertStage (expected : CyrinxStage) : QM unit :=
  let! s := mget in
  if decide (qs_stage s = expected) then mskip else mthrow "qualification_stage_order_invalid".

Definition assertBeforeDeadline (nowMs : Z) : QM unit :=
  let! expired := expire nowMs in
  if expired then mthrow "cyrinx_deadline_expired"
  else
    let! s := mget in
    if terminal s || negb (is_cyrinx s) then mthrow "qualification_session_terminal" else mskip.

Definition completeBuild (nowMs : Z) : QM unit :=
  assertStage StBuild;; assertBeforeDeadline nowMs;; qs_stage <== StDigital.

Definition completeDigital (nowMs : Z) : QM unit :=
  assertStage StDigital;; assertBeforeDeadline nowMs;;
  qs_caseIndex <== Some O;; qs_stage <== stageForCase 0.

Definition acceptInstruction (caseId : jsstring) (direction : LiteralDirection) (nowMs : Z) :
    QM (CyrinxQualificationCase * CyrinxInstructionAction) :=
  assertBeforeDeadline nowMs;;
  let! s := mget in
  match currentCase s, qs_caseIndex s with
  | Some value, Some index =>
      if terminal s then mthrow "qualification_instruction_unavailable"
      else if is_some (qs_pendingCompletionReason s) then mthrow "qualification_completion_not_acknowledged"
      else if is_some (qs_accepted s) then mthrow "qualification_instruction_already_accepted"
      else if negb (bool_decide (caseId = qc_id value)) || negb (bool_decide (direction = qc_direction value))
      then mthrow "qualification_instruction_mismatch"
      else
        let mode := actionFor (qs_role s) (qc_direction value) in
        let! now := checkedNow nowMs in
        qs_accepted <== Some (mkAccepted index mode now);;
        mret (value, mode)
  | _, _ => mthrow "qualification_instruction_unavailable"
  end.

(** The accepted instruction, when it is for the current case. *)
Definition accepted_current (s : CyrinxQualificationSession) : option Accepted :=
  match qs_accepted s with
  | Some a => if decide (Some (ac_caseIndex a) = qs_caseIndex s) then Some a else None
  | None => None
  end.

Definition canReceiveCapture (s : CyrinxQualificationSession) : bool :=
  match accepted_current s with
  | Some a => bool_decide (ac_mode a = Listen) && negb (terminal s)
  | None => false
  end.

Definition caseSettleRemaining (mode : CyrinxInstructionAction) (nowMs : Z) : QM Z :=
  let! s := mget in
  match accepted_current s with
  | None => mthrow "qualification_instruction_not_accepted"
  | Some accepted =>
      if negb (bool_decide (ac_mode accepted = mode)) then mthrow "qualification_instruction_mode_mismatch"
      else
        let! now := checkedNow nowMs in
        let elapsed := Z.max 0 (now - ac_acceptedAtMs accepted) in
        mret (Z.max 0 (CYRINX_TRANSMIT_SETTLE_MS - elapsed))
  end.

Definition transmitSettleRemaining (nowMs : Z) : QM Z := caseSettleRemaining Transmit nowMs.

Definition completeAccepted (mode : CyrinxInstructionAction) (nowMs : Z) : QM unit :=
  assertBeforeDeadline nowMs;;
  let! s := mget in
  if is_some (qs_pendingCompletionReason s) then mthrow "qualification_completion_not_acknowledged"
  else match accepted_current s with
  | None => mthrow "qualification_instruction_not_accepted"
  | Some accepted =>
      if negb (bool_decide (ac_mode accepted = mode)) then mthrow "qualification_instruction_mode_mismatch"
      else match currentCase s with
      | None => mthrow "qualification_instruction_unavailable"
      | Some value =>
          let! reason := mlift (failureReasonForStage (qs_stage s)) in
          qs_pendingCompletionReason <== Some reason;;
          (if bool_decide (mode = Listen) && qc_cold value then qs_coldReceivePassed <== true else mskip);;
          qs_accepted <== None;;
          let nextIndex := S (ac_caseIndex accepted) in
          if (length cases <=? nextIndex)%nat then
            qs_caseIndex <== None;;
            qs_stage <== StComplete;;
            let! elapsed := elapsed_ nowMs in
            qs_terminalElapsedMs <== Some elapsed
          else
            qs_caseIndex <== Some nextIndex;;
            qs_stage <== stageForCase nextIndex
      end
  end.

Definition acknowledgeAcceptedCompletion : QM unit :=
  let! s := mget in
  match qs_pendingCompletionReason s with
  | None => mthrow "qualification_completion_not_pending"
  | Some _ => qs_pendingCompletionReason <== None
  end.

Definition abortCase : QM unit := qs_accepted <== None.

Definition activateFallback (reason : CyrinxFallbackReason) (nowMs : Z) : QM bool :=
  let! s := mget in
  if negb (is_some (qs_startedAtMs s)) || settled s || negb (is_cyrinx s) || is_some (qs_fallbackReason s)
  then mret false
  else
    let! now := checkedNow nowMs in
    let! elapsed := elapsed_ now in
    if match qs_deadlineAtMs s with
       | Some deadline => (deadline <=? now) || (CYRINX_DEADLINE_MS <=? elapsed)
       | None => false
       end
    then activate DeadlineExpired now
    else activate reason now.

Definition failCurrent (nowMs : Z) : QM bool :=
  let! s := mget in
  if terminal s && negb (is_some (qs_pendingCompletionReason s)) then mret false
  else
    let! reason := mlift (match qs_pendingCompletionReason s with
                          | Some r => Ok r | None => failureReasonForStage (qs_stage s) end) in
    activateFallback reason nowMs.

Definition operatorReset (nowMs : Z) : QM bool :=
  qs_accepted <== None;;
  let! s := mget in
  if negb (is_cyrinx s) || bool_decide (qs_stage s = StIdle) || settled s then mret false
  else failCurrent nowMs.

Definition forceDeadlineExpiry (nowMs : Z) : QM bool :=
  let! s := mget in
  if negb (is_some (qs_startedAtMs s)) || settled s || negb (is_cyrinx s) then mret false
  else let! now := checkedNow nowMs in activate DeadlineExpired now.

Definition markQuietFailed : QM bool :=
  let! s := mget in
  if negb (bool_decide (qs_stage s = StQuiet)) || negb (bool_decide (qs_fallbackState s = Activated)) then mret false
  else
    qs_codec <== CodecUnqualified;;
    qs_stage <== StUnqualified;;
    qs_fallbackState <== FallbackFailed;;
    mret true.

Definition snapshot (epoch nowMs : Z) : QM CyrinxSessionSnapshot :=
  if negb (is_safe_integer epoch) || (epoch <? 0) then mthrow "qualification_epoch_invalid"
  else
    let! s := mget in
    let! elapsedMs := (match qs_startedAtMs s with
                       | None => mret None
                       | Some _ =>
                           match qs_terminalElapsedMs s with
                           | Some e => mret (Some e)
                           | None => let! e := elapsed_ nowMs in mret (Some e)
                           end
                       end) in
    let instruction :=
      match currentCase s with
      | Some value =>
          if negb (terminal s) && negb (is_some (qs_accepted s)) && negb (is_some (qs_pendingCompletionReason s))
          then Some (mkInstruction (actionFor (qs_role s) (qc_direction value)) (qc_id value) (qc_direction value)
                       (qc_cold value))
          else None
      | None => None
      end in
    mret (mkSessionSnapshot epoch (qs_codec s) (qs_stage s) (qs_startedAtMs s) (qs_deadlineAtMs s) elapsedMs
            (qs_fallbackState s) (qs_fallbackReason s) instruction (terminal s)).

(** A call of one of the methods. *)
Inductive Call :=
  | CStart (nowMs : Z)
  | CCompleteBuild (nowMs : Z)
  | CCompleteDigital (nowMs : Z)
  | CAcceptInstruction (caseId : jsstring) (direction : LiteralDirection) (nowMs : Z)
  | CSettleRemaining (mode : CyrinxInstructionAction) (nowMs : Z)
  | CCompleteAccepted (mode : CyrinxInstructionAction) (nowMs : Z)
  | CAcknowledge
  | CAbortCase
  | COperatorReset (nowMs : Z)
  | CExpire (nowMs : Z)
  | CForceDeadlineExpiry (nowMs : Z)
  | CActivateFallback (reason : CyrinxFallbackReason) (nowMs : Z)
  | CFailCurrent (nowMs : Z)
  | CMarkQuietFailed
  | CSnapshot (epoch nowMs : Z).

Definition ignore {A} (m : QM A) : QM unit := let! _ := m in mskip.

Definition call (c : Call) : QM unit :=
  match c with
  | CStart now => ignore (start now)
  | CCompleteBuild now => completeBuild now
  | CCompleteDigital now => completeDigital now
  | CAcceptInstruction caseId direction now => ignore (acceptInstruction caseId direction now)
  | CSettleRemaining mode now => ignore (caseSettleRemaining mode now)
  | CCompleteAccepted mode now => completeAccepted mode now
  | CAcknowledge => acknowledgeAcceptedCompletion
  | CAbortCase => abortCase
  | COperatorReset now => ignore (operatorReset now)
  | CExpire now => ignore (expire now)
  | CForceDeadlineExpiry now => ignore (forceDeadlineExpiry now)
  | CActivateFallback reason now => ignore (activateFallback reason now)
  | CFailCurrent now => ignore (failCurrent now)
  | CMarkQuietFailed => ignore markQuietFailed
  | CSnapshot epoch now => ignore (snapshot epoch now)
  end.

(** The session after a sequence of calls, thrown or not. *)
Definition calls (cs : list Call) (s : CyrinxQualificationSession) : CyrinxQualificationSession :=
  foldl (fun s c => final (call c) s) s cs.
End Session.
