(* ===== verification/QualificationProps.v ===== *)
(** * What a qualification guarantees

    The invariant of the runner's qualification session, kept by every method
    whether it returns or throws, and its consequences: the fallback is final,
    the deadline stops all progress, and completion means that every case was
    completed, in order. *)

From stdpp Require Import base list numbers option strings.
From Stdlib Require Import ZArith Lia.
From S2P Require Import Prelude Utf8 Corpus Qualification.

Section Props.
Context (cases : list CyrinxQualificationCase).

(** ** The invariant *)

Definition codec_of_stage (stage : CyrinxStage) : CyrinxSessionCodec :=
  match stage with
  | StIdle => CodecIdle
  | StQuiet => CodecQuiet
  | StUnqualified => CodecUnqualified
  | _ => CodecCyrinx
  end.

Definition fallback_of_stage (stage : CyrinxStage) : FallbackState :=
  match stage with StQuiet => Activated | StUnqualified => FallbackFailed | _ => Available end.

Definition is_fallback (stage : CyrinxStage) : bool :=
  match stage with StQuiet | StUnqualified => true | _ => false end.

(** Where the session is in the list of cases. *)
Definition position_ok (stage : CyrinxStage) (index : option nat) : Prop :=
  match stage with
  | StIdle | StBuild | StDigital | StComplete => index = None
  | StQuiet | StUnqualified => True
  | _ => exists i, index = Some i /\ stage = stageForCase i
  end.

Definition accepted_ok (s : CyrinxQualificationSession) : Prop :=
  match qs_accepted s with
  | None => True
  | Some a => qs_caseIndex s = Some (ac_caseIndex a) /\ terminal s = false /\ qs_codec s = CodecCyrinx
              /\ qs_pendingCompletionReason s = None
  end.

Definition pending_ok (s : CyrinxQualificationSession) : Prop :=
  qs_pendingCompletionReason s <> None -> qs_codec s = CodecCyrinx /\ qs_stage s <> StBuild /\ qs_stage s <> StDigital.

Record session_ok (s : CyrinxQualificationSession) : Prop := {
  ok_codec : qs_codec s = codec_of_stage (qs_stage s);
  ok_started : is_some (qs_startedAtMs s) = negb (bool_decide (qs_stage s = StIdle));
  ok_deadline : qs_deadlineAtMs s = option_map (fun t => t + CYRINX_DEADLINE_MS) (qs_startedAtMs s);
  ok_state : qs_fallbackState s = fallback_of_stage (qs_stage s);
  ok_reason : is_some (qs_fallbackReason s) = is_fallback (qs_stage s);
  ok_position : position_ok (qs_stage s) (qs_caseIndex s);
  ok_accepted : accepted_ok s;
  ok_pending : pending_ok s;
  ok_elapsed : terminal s = true -> is_some (qs_terminalElapsedMs s) = true;
}.

Lemma accepted_none s : qs_accepted s = None -> accepted_ok s.
Proof. intros H. unfold accepted_ok. by rewrite H. Qed.

Lemma pending_none s : qs_pendingCompletionReason s = None -> pending_ok s.
Proof. intros H Hx. by rewrite H in Hx. Qed.

Lemma new_session_ok role : session_ok (new_session role).
Proof. by split. Qed.

(** ** The methods, as state changes *)

Definition with_elapsed (v : Z) (s : CyrinxQualificationSession) : CyrinxQualificationSession :=
  set qs_lastElapsedMs (fun _ => Some v) s.

(** The session after [#activate]. *)
Definition activated (reason : CyrinxFallbackReason) (elapsed terminalElapsed : Z) (s : CyrinxQualificationSession) :=
  mkSession (qs_role s) CodecQuiet StQuiet (qs_startedAtMs s) (qs_deadlineAtMs s) (Some elapsed)
    (Some terminalElapsed) Activated (Some reason) (qs_caseIndex s) None None (qs_coldReceivePassed s).

Definition valid_now (nowMs : Z) : Prop := is_safe_integer nowMs = true /\ 0 <= nowMs.

Lemma wp_checkedNow now (Q : result Z -> CyrinxQualificationSession -> Prop) s :
  (~ valid_now now -> forall e, Q (Throw e) s) -> (valid_now now -> Q (Ok now) s) -> wp (checkedNow now) Q s.
Proof.
  intros H1 H2. unfold checkedNow. destruct (_ || _) eqn:E.
  - apply wp_throw, H1. intros [Hs Hn]. rewrite Hs in E. cbn in E. apply Z.ltb_lt in E. lia.
  - apply wp_ret, H2. by bool_split.
Qed.

Lemma wp_elapsed now (Q : result Z -> CyrinxQualificationSession -> Prop) s :
  (valid_now now /\ is_some (qs_startedAtMs s) = true \/ forall e, Q (Throw e) s) ->
  (forall v, match qs_startedAtMs s with Some t => now - t <= v | None => True end -> Q (Ok v) (with_elapsed v s)) ->
  wp (elapsed_ now) Q s.
Proof.
  intros H1 H2. unfold elapsed_, checkedNow. apply wp_bind.
  destruct (negb (is_safe_integer now) || (now <? 0)) eqn:E.
  { apply wp_throw. destruct H1 as [[[H Hn] _]|H]; [|done].
    apply orb_true_iff in E as [E|E]; [by rewrite H in E|]. apply Z.ltb_lt in E. lia. }
  apply wp_ret, wp_bind, wp_get. destruct (qs_startedAtMs s) as [t|].
  - apply wp_bind, wp_modify, wp_ret. apply H2. lia.
  - apply wp_throw. destruct H1 as [[_ H]|H]; [done|apply H].
Qed.

Lemma wp_activate reason now (Q : result bool -> CyrinxQualificationSession -> Prop) s :
  valid_now now -> is_some (qs_startedAtMs s) = true ->
  (is_some (qs_fallbackReason s) || settled s || negb (is_cyrinx s) = true -> Q (Ok false) s) ->
  (qs_fallbackReason s = None -> settled s = false -> is_cyrinx s = true ->
   forall e t, Q (Ok true) (activated reason e t s)) ->
  wp (activate reason now) Q s.
Proof.
  intros Hnow Hs H1 H2. unfold activate. apply wp_bind, wp_get.
  destruct (_ || _ || _) eqn:E; [by apply wp_ret, H1|]. bool_split.
  repeat (apply wp_bind, wp_modify). apply wp_bind, wp_elapsed; [by left|]. intros v _.
  apply wp_bind, wp_modify, wp_ret. apply H2; [by destruct (qs_fallbackReason s)|done..].
Qed.

Lemma cyrinx_stage s : session_ok s -> is_cyrinx s = true ->
  is_fallback (qs_stage s) = false /\ qs_stage s <> StIdle.
Proof.
  intros Hok Hc. unfold is_cyrinx in Hc. rewrite (ok_codec _ Hok) in Hc. by destruct (qs_stage s).
Qed.

Lemma cyrinx_no_reason s : session_ok s -> is_cyrinx s = true -> is_some (qs_fallbackReason s) = false.
Proof. intros Hok Hc. rewrite (ok_reason _ Hok). by apply cyrinx_stage. Qed.

Lemma wp_expire now (Q : result bool -> CyrinxQualificationSession -> Prop) s :
  session_ok s ->
  (settled s || negb (is_cyrinx s) = true -> Q (Ok false) s) ->
  (~ valid_now now -> forall e, Q (Throw e) s) ->
  (forall v, is_cyrinx s = true -> valid_now now ->
     match qs_startedAtMs s with Some t => now < t + CYRINX_DEADLINE_MS | None => False end ->
     Q (Ok false) (with_elapsed v s)) ->
  (settled s = false -> is_cyrinx s = true -> forall e t, Q (Ok true) (activated DeadlineExpired e t s)) ->
  wp (expire now) Q s.
Proof.
  intros Hok H1 H2 H3 H4. unfold expire. apply wp_bind, wp_get. rewrite (ok_deadline _ Hok).
  pose proof (ok_started _ Hok) as Hst. pose proof (ok_codec _ Hok) as Hcodec.
  destruct (qs_startedAtMs s) as [t|] eqn:Est; cbn [option_map].
  - destruct (settled s || negb (is_cyrinx s)) eqn:E; [by apply wp_ret, H1|]. bool_split.
    apply wp_bind, wp_checkedNow; [done|]. intros Hnow. apply wp_bind, wp_elapsed; [left; split; [done|by rewrite Est]|].
    intros v _. destruct (_ && _) eqn:Eb.
    + apply wp_ret, H3; [done..|]. apply andb_prop in Eb as [Eb _]. by apply Z.ltb_lt in Eb.
    + apply wp_activate; [done|change (is_some (qs_startedAtMs s) = true); by rewrite Est| |].
      * intros Hx. exfalso. pose proof (cyrinx_no_reason s Hok ltac:(done)) as Hr.
        change (is_some (qs_fallbackReason s) || settled s || negb (is_cyrinx s) = true) in Hx.
        rewrite Hr in Hx. destruct (settled s), (is_cyrinx s); done.
      * intros _ _ _ e t'. by apply H4.
  - apply wp_ret, H1. destruct (bool_decide_reflect (qs_stage s = StIdle)) as [Hidle|]; [|done].
    unfold is_cyrinx. rewrite Hcodec, Hidle. apply orb_true_r.
Qed.

(** [#assertBeforeDeadline] either throws, leaving the session as it was or
    fallen back, or passes: the session is live and within its deadline. *)
Lemma wp_assertBeforeDeadline now (Q : result unit -> CyrinxQualificationSession -> Prop) s :
  session_ok s ->
  (forall e, Q (Throw e) s) ->
  (settled s = false -> is_cyrinx s = true -> forall m e t, Q (Throw m) (activated DeadlineExpired e t s)) ->
  (forall m v, Q (Throw m) (with_elapsed v s)) ->
  (forall v, terminal s = false -> is_cyrinx s = true -> valid_now now ->
     match qs_startedAtMs s with Some t => now < t + CYRINX_DEADLINE_MS | None => False end ->
     Q (Ok tt) (with_elapsed v s)) ->
  wp (assertBeforeDeadline now) Q s.
Proof.
  intros Hok H1 H2 H3 H4. unfold assertBeforeDeadline. apply wp_bind, wp_expire; [done|..].
  - intros E. apply wp_bind, wp_get. destruct (terminal s || negb (is_cyrinx s)) eqn:Et; [by apply wp_throw|].
    exfalso. unfold settled in E. bool_split. rewrite H, H0 in E. done.
  - done.
  - intros v Hc Hvalid Hnow. apply wp_bind, wp_get. destruct (_ || _) eqn:Et; [apply wp_throw, H3|].
    bool_split. by apply wp_ret, H4.
  - intros Hs Hc e t. by apply wp_throw, H2.
Qed.

(** ** The invariant is kept *)

Lemma with_elapsed_ok v s : session_ok s -> session_ok (with_elapsed v s).
Proof. by intros [? ? ? ? ? ? ? ? ?]. Qed.

Lemma activated_ok reason e t s : session_ok s -> is_cyrinx s = true -> session_ok (activated reason e t s).
Proof.
  intros Hok Hc. pose proof (ok_started _ Hok) as Hst. pose proof (ok_codec _ Hok) as Hcodec.
  split; cbn; try done.
  - rewrite Hst. unfold is_cyrinx in Hc. rewrite Hcodec in Hc. by destruct (qs_stage s).
  - by rewrite (ok_deadline _ Hok).
Qed.

(** How many cases are done, while that can still grow. *)
Definition done_count (s : CyrinxQualificationSession) : option nat :=
  match qs_stage s with
  | StIdle | StBuild | StDigital => Some 0%nat
  | StComplete => Some (length cases)
  | StQuiet | StUnqualified => None
  | _ => qs_caseIndex s
  end.

(** What every call does, but the completion of a case: the invariant holds
    after it, a fallback reason and a start time stay, and no case is done. *)
Record calm (s s' : CyrinxQualificationSession) : Prop := {
  calm_ok : session_ok s';
  calm_reason : forall r, qs_fallbackReason s = Some r -> qs_fallbackReason s' = Some r;
  calm_started : forall t, qs_startedAtMs s = Some t -> qs_startedAtMs s' = Some t;
  calm_done : done_count s' = None \/ done_count s' = done_count s;
}.

(** The completion of a case. *)
Record advance (s s' : CyrinxQualificationSession) : Prop := {
  adv_ok : session_ok s';
  adv_reason : qs_fallbackReason s' = qs_fallbackReason s;
  adv_started : qs_startedAtMs s' = qs_startedAtMs s;
  adv_done : exists a, qs_accepted s = Some a /\ done_count s = Some (ac_caseIndex a)
             /\ done_count s' = Some (S (ac_caseIndex a));
}.

Lemma calm_refl s : session_ok s -> calm s s.
Proof. split; auto. Qed.

Lemma calm_trans s s' s'' : calm s s' -> calm s' s'' -> calm s s''.
Proof.
  intros [H1 H2 H3 H4] [H5 H6 H7 H8]. split; auto.
  destruct H8 as [H8|H8]; [by left|]. rewrite H8. exact H4.
Qed.

Lemma calm_elapsed v s : session_ok s -> calm s (with_elapsed v s).
Proof. intros H. split; auto using with_elapsed_ok. Qed.

Lemma calm_activated reason e t s : session_ok s -> is_cyrinx s = true -> calm s (activated reason e t s).
Proof.
  intros H Hc. split; [by apply activated_ok| |auto|by left].
  intros r Hr. pose proof (cyrinx_no_reason s H Hc) as Hn. by rewrite Hr in Hn.
Qed.

Lemma calm_drop_accepted s : session_ok s -> calm s (set qs_accepted (fun _ => None) s).
Proof. intros [? ? ? ? ? ? ? ? ?]. by split; auto. Qed.

Lemma calm_acknowledge s : session_ok s -> calm s (set qs_pendingCompletionReason (fun _ => None) s).
Proof.
  intros [? ? ? ? ? ? Ha ? ?]. split; auto. split; try done. unfold accepted_ok, set in *. cbn in *.
  destruct (qs_accepted s); [|done]. by destruct Ha as (? & ? & ? & _).
Qed.

Lemma calm_accept a s : session_ok s ->
  qs_caseIndex s = Some (ac_caseIndex a) -> terminal s = false -> is_cyrinx s = true ->
  qs_pendingCompletionReason s = None -> calm s (set qs_accepted (fun _ => Some a) s).
Proof.
  intros [? ? ? ? ? ? Ha ? ?] Hi Ht Hc Hp. split; auto. split; try done. unfold accepted_ok, set. cbn.
  split; [done|]. split; [done|]. split; [|done]. unfold is_cyrinx in Hc. by destruct (qs_codec s).
Qed.

Lemma wp_assert_calm now s : session_ok s ->
  wp (assertBeforeDeadline now) (fun r s' => calm s s' /\
    match r with
    | Ok _ => exists v, s' = with_elapsed v s /\ terminal s = false /\ is_cyrinx s = true /\ valid_now now
        /\ match qs_startedAtMs s with Some t => now < t + CYRINX_DEADLINE_MS | None => False end
    | Throw _ => True
    end) s.
Proof.
  intros H. apply wp_assertBeforeDeadline; auto using calm_refl, calm_elapsed, calm_activated.
  intros v Ht Hc Hn Hd. split; [by apply calm_elapsed|]. by exists v.
Qed.

Lemma wp_expire_calm now s : session_ok s -> wp (expire now) (fun _ s' => calm s s') s.
Proof. intros H. apply wp_expire; auto using calm_refl, calm_elapsed, calm_activated. Qed.

Lemma wp_activate_calm reason now s :
  session_ok s -> valid_now now -> is_some (qs_startedAtMs s) = true ->
  wp (activate reason now) (fun _ s' => calm s s') s.
Proof. intros H Hn Hs. apply wp_activate; auto using calm_refl, calm_activated. Qed.

Lemma wp_activateFallback_calm reason now s :
  session_ok s -> wp (activateFallback reason now) (fun _ s' => calm s s') s.
Proof.
  intros H. unfold activateFallback. apply wp_bind, wp_get.
  destruct (_ || _ || _ || _) eqn:E; [by apply wp_ret, calm_refl|]. bool_split.
  apply wp_bind, wp_checkedNow; [intros; by apply calm_refl|]. intros Hn.
  apply wp_bind, wp_elapsed; [by left|]. intros v _.
  assert (Hv : forall r, wp (activate r now) (fun _ s' => calm s s') (with_elapsed v s)).
  { intros r. eapply wp_mono; [apply wp_activate_calm; [by apply with_elapsed_ok|done..]|].
    intros o s' Hs'. exact (calm_trans _ _ _ (calm_elapsed v s H) Hs'). }
  destruct (match qs_deadlineAtMs s with Some _ => _ | None => _ end); apply Hv.
Qed.

Lemma wp_failCurrent_calm now s : session_ok s -> wp (failCurrent now) (fun _ s' => calm s s') s.
Proof.
  intros H. unfold failCurrent. apply wp_bind, wp_get. destruct (_ && _); [by apply wp_ret, calm_refl|].
  apply wp_bind, wp_lift.
  destruct (match qs_pendingCompletionReason s with Some _ => _ | None => _ end); [|by apply calm_refl].
  by apply wp_activateFallback_calm.
Qed.

Lemma wp_ignore {A} (m : M CyrinxQualificationSession A) (R : CyrinxQualificationSession -> Prop) s :
  wp m (fun _ s' => R s') s -> wp (ignore m) (fun _ s' => R s') s.
Proof. intros H. apply wp_bind. eapply wp_mono; [exact H|]. intros [a|e] s' Hs'; [by apply wp_ret|done]. Qed.

Context (Hcases : (0 < length cases)%nat).

Lemma start_calm now s : session_ok s -> wp (start now) (fun _ s' => calm s s') s.
Proof.
  intros H. unfold start. apply wp_bind, wp_checkedNow; [intros; by apply calm_refl|]. intros Hn.
  apply wp_bind, wp_get. destruct (decide (qs_stage s = StIdle)) as [Hidle|]; [|by apply wp_ret, calm_refl].
  repeat (apply wp_bind, wp_modify). apply wp_ret.
  pose proof H as [Hc Hs Hd Hf Hr Hp Ha Hpend He]. rewrite Hidle in *.
  rewrite bool_decide_eq_true_2 in Hs by done. cbn in Hc.
  split; auto.
  - split; try done; unfold set; cbn.
    + unfold accepted_ok in *. cbn. destruct (qs_accepted s); [|done]. destruct Ha as (_ & _ & Ha & _). congruence.
    + intros Hx. destruct (Hpend Hx). congruence.
  - intros t Ht. by rewrite Ht in Hs.
  - right. unfold done_count, set. cbn. by rewrite Hidle.
Qed.

(** Once [#assertBeforeDeadline] passed, the rest of a method. *)
Lemma wp_guarded {A} now (m : M CyrinxQualificationSession A) (Q : result A -> CyrinxQualificationSession -> Prop) s :
  session_ok s -> (forall e s', calm s s' -> Q (Throw e) s') ->
  (forall v, terminal s = false -> is_cyrinx s = true -> valid_now now -> wp m Q (with_elapsed v s)) ->
  wp (assertBeforeDeadline now;; m) Q s.
Proof.
  intros H H1 H2. apply wp_bind. eapply wp_mono; [by apply wp_assert_calm|].
  intros [[]|e] s' [Hcalm Hs']; [|by apply H1]. destruct Hs' as (v & -> & Ht & Hc & Hn & _). by apply H2.
Qed.

Lemma next_stage_calm expected next index now s :
  session_ok s -> expected = StBuild /\ next = StDigital /\ index = None
                  \/ expected = StDigital /\ next = StColdAToB /\ index = Some 0%nat ->
  qs_stage s = expected -> qs_caseIndex s = None ->
  calm s (set qs_stage (fun _ => next) (set qs_caseIndex (fun _ => index) (with_elapsed now s))).
Proof.
  intros H Hcase Hst Hidx. pose proof H as [Hc Hs Hd Hf Hr Hp Ha Hpend He].
  assert (Hacc : qs_accepted s = None).
  { unfold accepted_ok in Ha. destruct (qs_accepted s); [|done]. destruct Ha as [Ha _]. congruence. }
  assert (Hno : qs_pendingCompletionReason s = None).
  { destruct (qs_pendingCompletionReason s) eqn:E; [|done]. destruct Hpend as (_ & ? & ?); [by rewrite E|].
    by destruct Hcase as [(-> & _)|(-> & _)]. }
  assert (Hd0 : done_count s = Some 0%nat).
  { unfold done_count. rewrite Hst. by destruct Hcase as [(-> & _)|(-> & _)]. }
  unfold set, with_elapsed in *.
  destruct Hcase as [(-> & -> & ->)|(-> & -> & ->)]; rewrite Hst in *; cbn in *;
    (split; [split; cbn; try done| done | done | right; by rewrite Hd0]).
  all: first [by apply accepted_none | by apply pending_none | by exists 0%nat].
Qed.

Lemma completeBuild_calm now s : session_ok s -> wp (completeBuild now) (fun _ s' => calm s s') s.
Proof.
  intros H. unfold completeBuild, assertStage. apply wp_bind, wp_bind, wp_get.
  destruct (decide (qs_stage s = StBuild)) as [Hst|]; [|by apply wp_throw, calm_refl]. apply wp_ret.
  apply wp_guarded; [done|done|]. intros v _ _ _. apply wp_modify.
  assert (Hi : qs_caseIndex s = None) by (pose proof (ok_position _ H) as Hp; by rewrite Hst in Hp).
  pose proof (next_stage_calm StBuild StDigital None v s H ltac:(auto) Hst Hi) as Hcalm.
  replace (set qs_caseIndex _ _) with (with_elapsed v s) in Hcalm; [done|].
  destruct s. cbn in Hi. by subst.
Qed.

Lemma completeDigital_calm now s : session_ok s -> wp (completeDigital now) (fun _ s' => calm s s') s.
Proof.
  intros H. unfold completeDigital, assertStage. apply wp_bind, wp_bind, wp_get.
  destruct (decide (qs_stage s = StDigital)) as [Hst|]; [|by apply wp_throw, calm_refl]. apply wp_ret.
  apply wp_guarded; [done|done|]. intros v _ _ _. apply wp_bind, wp_modify, wp_modify.
  assert (Hi : qs_caseIndex s = None) by (pose proof (ok_position _ H) as Hp; by rewrite Hst in Hp).
  apply (next_stage_calm StDigital StColdAToB (Some 0%nat) v s H ltac:(auto) Hst Hi).
Qed.

Lemma acceptInstruction_calm caseId direction now s :
  session_ok s -> wp (acceptInstruction cases caseId direction now) (fun _ s' => calm s s') s.
Proof.
  intros H. unfold acceptInstruction. apply wp_guarded; [done|done|]. intros v Ht Hc _. apply wp_bind, wp_get.
  assert (Hv : calm s (with_elapsed v s)) by (by apply calm_elapsed).
  destruct (currentCase cases (with_elapsed v s)) as [value|]; [|by apply wp_throw].
  destruct (qs_caseIndex (with_elapsed v s)) as [index|] eqn:Hi; [|by apply wp_throw].
  destruct (terminal (with_elapsed v s)) eqn:Hterm; [by apply wp_throw|].
  destruct (is_some (qs_pendingCompletionReason _)) eqn:Hp; [by apply wp_throw|].
  destruct (is_some (qs_accepted _)); [by apply wp_throw|]. destruct (_ || _); [by apply wp_throw|].
  apply wp_bind, wp_checkedNow; [done|]. intros Hn. apply wp_bind, wp_modify, wp_ret.
  eapply calm_trans; [exact Hv|]. apply calm_accept; auto using with_elapsed_ok.
  by destruct (qs_pendingCompletionReason _).
Qed.

Lemma operatorReset_calm now s : session_ok s -> wp (operatorReset now) (fun _ s' => calm s s') s.
Proof.
  intros H. unfold operatorReset. apply wp_bind, wp_modify, wp_bind, wp_get.
  pose proof (calm_drop_accepted s H) as Hd. set (s1 := set qs_accepted _ s) in *.
  destruct (_ || _ || _); [by apply wp_ret|]. eapply wp_mono; [apply wp_failCurrent_calm, Hd|].
  intros r s' Hs'. by eapply calm_trans.
Qed.

Lemma forceDeadlineExpiry_calm now s : session_ok s -> wp (forceDeadlineExpiry now) (fun _ s' => calm s s') s.
Proof.
  intros H. unfold forceDeadlineExpiry. apply wp_bind, wp_get.
  destruct (_ || _ || _) eqn:E; [by apply wp_ret, calm_refl|]. bool_split.
  apply wp_bind, wp_checkedNow; [intros; by apply calm_refl|]. intros Hn. by apply wp_activate_calm.
Qed.

Lemma markQuietFailed_calm s : session_ok s -> wp markQuietFailed (fun _ s' => calm s s') s.
Proof.
  intros H. unfold markQuietFailed. apply wp_bind, wp_get.
  destruct (_ || _) eqn:E; [by apply wp_ret, calm_refl|]. bool_split. rename H0 into Hst.
  repeat (apply wp_bind, wp_modify). apply wp_ret.
  pose proof H as [Hc Hs Hd Hf Hr Hp Ha Hpend He]. rewrite Hst in *. cbn in Hc.
  split; try done; [|by left]. split; try done.
  - unfold accepted_ok, set in *. cbn. destruct (qs_accepted s); [|done]. destruct Ha as (_ & Ha & _).
    unfold terminal in Ha. by rewrite Hst in Ha.
  - intros Hx. destruct (Hpend Hx). congruence.
  - intros _. apply He. unfold terminal. by rewrite Hst.
Qed.

Lemma snapshot_calm epoch now s : session_ok s -> wp (snapshot cases epoch now) (fun _ s' => calm s s') s.
Proof.
  intros H. unfold snapshot. destruct (_ || _); [by apply wp_throw, calm_refl|]. apply wp_bind, wp_get, wp_bind.
  destruct (qs_startedAtMs s); [|by apply wp_ret, wp_ret, calm_refl].
  destruct (qs_terminalElapsedMs s); [by apply wp_ret, wp_ret, calm_refl|].
  apply wp_bind, wp_elapsed; [right; intros; by apply calm_refl|]. intros v _.
  by apply wp_ret, wp_ret, calm_elapsed.
Qed.

Lemma caseSettleRemaining_calm mode now s :
  session_ok s -> wp (caseSettleRemaining mode now) (fun _ s' => calm s s') s.
Proof.
  intros H. unfold caseSettleRemaining. apply wp_bind, wp_get.
  destruct (accepted_current s); [|by apply wp_throw, calm_refl]. destruct (negb _); [by apply wp_throw, calm_refl|].
  apply wp_bind, wp_checkedNow; [intros; by apply calm_refl|]. intros _. by apply wp_ret, calm_refl.
Qed.

Lemma acknowledge_calm s : session_ok s -> wp acknowledgeAcceptedCompletion (fun _ s' => calm s s') s.
Proof.
  intros H. apply wp_bind, wp_get. destruct (qs_pendingCompletionReason s); [|by apply wp_throw, calm_refl].
  by apply wp_modify, calm_acknowledge.
Qed.

Definition is_completion (c : Call) : bool := match c with CCompleteAccepted _ _ => true | _ => false end.

Lemma call_calm c s : session_ok s -> is_completion c = false -> wp (call cases c) (fun _ s' => calm s s') s.
Proof.
  intros H Hc. destruct c; try done; cbn [call]; try apply wp_ignore;
    auto using start_calm, completeBuild_calm, completeDigital_calm, acceptInstruction_calm, caseSettleRemaining_calm,
      acknowledge_calm, operatorReset_calm, wp_expire_calm, forceDeadlineExpiry_calm, wp_activateFallback_calm,
      wp_failCurrent_calm, markQuietFailed_calm, snapshot_calm.
  by apply wp_modify, calm_drop_accepted.
Qed.

(** The session after a completion, before the elapsed time is stored. *)
Definition completed (reason : CyrinxFallbackReason) (cold : bool) (index : option nat) (stage : CyrinxStage)
    (last terminalElapsed : option Z) (s : CyrinxQualificationSession) : CyrinxQualificationSession :=
  mkSession (qs_role s) (qs_codec s) stage (qs_startedAtMs s) (qs_deadlineAtMs s) last terminalElapsed
    (qs_fallbackState s) (qs_fallbackReason s) index None (Some reason) cold.

Lemma advance_completed reason cold index stage last terminalElapsed a s :
  session_ok s -> is_cyrinx s = true -> qs_accepted s = Some a ->
  (index = None /\ stage = StComplete /\ length cases = S (ac_caseIndex a) /\ is_some terminalElapsed = true
   \/ index = Some (S (ac_caseIndex a)) /\ stage = stageForCase (S (ac_caseIndex a))) ->
  advance s (completed reason cold index stage last terminalElapsed s).
Proof.
  intros H Hc Ha Hcase. pose proof (cyrinx_stage s H Hc) as [Hnf Hni].
  pose proof H as [Hcodec Hs Hd Hf Hr Hp Hacc _ _]. unfold accepted_ok in Hacc. rewrite Ha in Hacc.
  destruct Hacc as (Hidx & Ht & Hcy & _).
  assert (Hnext : stageForCase (S (ac_caseIndex a)) = StColdBToA \/ stageForCase (S (ac_caseIndex a)) = StCorpus)
    by (destruct (ac_caseIndex a); cbn; auto).
  assert (Hstage : codec_of_stage stage = CodecCyrinx /\ fallback_of_stage stage = Available /\ stage <> StIdle
    /\ is_fallback stage = false /\ stage <> StBuild /\ stage <> StDigital).
  { destruct Hcase as [(_ & -> & _)|(_ & ->)]; [done|]. by destruct Hnext as [-> | ->]. }
  destruct Hstage as (S1 & S2 & S3 & S4 & S5 & S6).
  split; try done.
  - split; cbn; try done.
    + by rewrite S1.
    + rewrite Hs, !bool_decide_eq_false_2 by done. done.
    + rewrite S2, Hf. by destruct (qs_stage s).
    + by rewrite S4, Hr.
    + destruct Hcase as [(-> & -> & _)|(-> & ->)]; [done|].
      destruct Hnext as [E|E]; rewrite E; (eexists; split; [reflexivity|by rewrite E]).
    + intros Hterm. destruct Hcase as [(_ & _ & _ & Hx)|(_ & ->)]; [done|].
      unfold terminal in Hterm. cbn [qs_stage completed] in Hterm. by destruct Hnext as [E|E]; rewrite E in Hterm.
  - exists a. split; [done|]. unfold done_count. cbn [qs_stage qs_caseIndex completed]. split.
    + rewrite Hidx in Hp |- *. destruct (qs_stage s); done.
    + destruct Hcase as [(-> & -> & Hlen & _)|(-> & ->)]; [by rewrite Hlen|].
      by destruct Hnext as [E|E]; rewrite E.
Qed.

Lemma completeAccepted_advances mode now s :
  session_ok s ->
  wp (completeAccepted cases mode now)
    (fun r s' => match r with Ok _ => advance s s' | Throw _ => calm s s' end) s.
Proof.
  intros H. unfold completeAccepted. apply wp_guarded; [done|done|]. intros v Ht Hc Hn. apply wp_bind, wp_get.
  assert (Hv : calm s (with_elapsed v s)) by (by apply calm_elapsed).
  destruct (is_some (qs_pendingCompletionReason _)); [by apply wp_throw|].
  destruct (accepted_current (with_elapsed v s)) as [a|] eqn:Ea; [|by apply wp_throw].
  destruct (negb _); [by apply wp_throw|].
  destruct (currentCase cases (with_elapsed v s)) as [value|] eqn:Ecase; [|by apply wp_throw].
  apply wp_bind, wp_lift. destruct (failureReasonForStage _) as [reason|]; [|done].
  assert (Hacc : qs_accepted s = Some a /\ qs_caseIndex s = Some (ac_caseIndex a)).
  { unfold accepted_current in Ea. change (qs_accepted (with_elapsed v s)) with (qs_accepted s) in Ea.
    change (qs_caseIndex (with_elapsed v s)) with (qs_caseIndex s) in Ea.
    destruct (qs_accepted s) as [a'|]; [|done]. by destruct (decide _); [injection Ea as <-|]. }
  destruct Hacc as [Hacc Hidx].
  assert (Hlt : (ac_caseIndex a < length cases)%nat).
  { unfold currentCase in Ecase. change (qs_caseIndex (with_elapsed v s)) with (qs_caseIndex s) in Ecase.
    rewrite Hidx in Ecase. by eapply lookup_lt_Some. }
  assert (Hstarted : is_some (qs_startedAtMs s) = true).
  { rewrite (ok_started _ H), bool_decide_eq_false_2; [done|]. by apply cyrinx_stage. }
  apply wp_bind, wp_modify, wp_bind.
  match goal with |- wp ?m ?Q _ => assert (Hcold : forall cold,
    Q (Ok tt) (mkSession (qs_role s) (qs_codec s) (qs_stage s) (qs_startedAtMs s) (qs_deadlineAtMs s) (Some v)
      (qs_terminalElapsedMs s) (qs_fallbackState s) (qs_fallbackReason s) (qs_caseIndex s) (qs_accepted s) (Some reason)
      cold)) end.
  { intros cold. cbv beta iota. apply wp_bind, wp_modify.
    destruct (Nat.leb_spec (length cases) (S (ac_caseIndex a))) as [Hend|Hmore].
    - apply wp_bind, wp_modify, wp_bind, wp_modify, wp_bind, wp_elapsed; [by left|]. intros w _.
      apply wp_modify.
      apply (advance_completed reason cold None StComplete (Some w) (Some w) a s H Hc Hacc). left.
      repeat split; try done. lia.
    - apply wp_bind, wp_modify, wp_modify.
      apply (advance_completed reason cold (Some (S (ac_caseIndex a))) _ (Some v) (qs_terminalElapsedMs s) a s H Hc Hacc).
      by right. }
  destruct (_ && _); [apply wp_modify|apply wp_ret]; apply Hcold.
Qed.

(** ** Sequences of calls *)

(** The index of the case a call completes, if it does. *)
Definition completes (c : Call) (s : CyrinxQualificationSession) : list nat :=
  match qs_accepted s with
  | Some a => if is_completion c && is_ok (outcome (call cases c) s) then [ac_caseIndex a] else []
  | None => []
  end.

Fixpoint completions (cs : list Call) (s : CyrinxQualificationSession) : list nat :=
  match cs with
  | [] => []
  | c :: cs => completes c s ++ completions cs (final (call cases c) s)
  end.

Lemma call_steps c s : session_ok s ->
  calm s (final (call cases c) s) /\ completes c s = []
  \/ advance s (final (call cases c) s) /\ (forall a, qs_accepted s = Some a -> completes c s = [ac_caseIndex a]).
Proof.
  intros H. unfold completes. destruct (is_completion c) eqn:Ec.
  - destruct c as [| | | | |mode now| | | | | | | | |]; try done.
    pose proof (completeAccepted_advances mode now s H) as Hw. cbn [call].
    with_strategy transparent [wp] unfold wp in Hw.
    destruct (outcome _ _) as [u|e]; cbn; [right|left].
    + split; [done|]. by intros a ->.
    + split; [done|]. by destruct (qs_accepted s).
  - left. pose proof (call_calm c s H Ec) as Hw. with_strategy transparent [wp] unfold wp in Hw.
    split; [done|]. by destruct (qs_accepted s).
Qed.

Lemma call_ok c s : session_ok s -> session_ok (final (call cases c) s).
Proof. intros H. destruct (call_steps c s H) as [[Hc _]|[Ha _]]; [apply Hc|apply Ha]. Qed.

Lemma calls_ok cs s : session_ok s -> session_ok (calls cases cs s).
Proof. revert s. induction cs as [|c cs IH]; intros s H; [done|]. by apply IH, call_ok. Qed.

Lemma completions_count cs : forall s d d',
  session_ok s -> done_count s = Some d -> done_count (calls cases cs s) = Some d' ->
  (d <= d')%nat /\ completions cs s = seq d (d' - d).
Proof.
  induction cs as [|c cs IH]; intros s d d' H Hd Hd'; cbn in *.
  - rewrite Hd in Hd'. injection Hd' as <-. split; [done|]. by rewrite Nat.sub_diag.
  - assert (Hnone : forall cs s, session_ok s -> done_count s = None -> done_count (calls cases cs s) = None).
    { clear - Hcases. intros cs. induction cs as [|c cs IH]; intros s H Hn; [done|]. apply IH; [by apply call_ok|].
      destruct (call_steps c s H) as [[Hc _]|[Ha _]].
      - destruct (calm_done _ _ Hc) as [Hx|Hx]; [done|]. by rewrite Hx.
      - destruct (adv_done _ _ Ha) as (a & _ & Hx & _). congruence. }
    destruct (call_steps c s H) as [[Hc ->]|[Ha Hcomp]].
    + destruct (calm_done _ _ Hc) as [Hx|Hx].
      * unfold calls in Hnone, Hd'. rewrite (Hnone cs) in Hd' by (apply Hc || done). done.
      * apply (IH (final (call cases c) s)); [apply Hc|by rewrite Hx|done].
    + destruct (adv_done _ _ Ha) as (a & Hacc & Hda & Hnext). rewrite (Hcomp a Hacc).
      rewrite Hd in Hda. injection Hda as ->.
      destruct (IH _ _ _ (adv_ok _ _ Ha) Hnext Hd') as [Hle ->]. split; [lia|].
      replace (d' - ac_caseIndex a)%nat with (S (d' - S (ac_caseIndex a))) by lia. done.
Qed.
End Props.

Section Late.
Context (now t : Z) (s : CyrinxQualificationSession).
Context (Hok : session_ok s) (Hst : qs_startedAtMs s = Some t) (Hlate : t + CYRINX_DEADLINE_MS <= now).

(** Nothing guarded by the deadline returns after it. *)
Lemma late_guard {A} (m : M CyrinxQualificationSession A) :
  wp (assertBeforeDeadline now;; m) (fun r _ => is_ok r = false) s.
Proof.
  apply wp_bind. eapply wp_mono; [by apply (wp_assert_calm [])|]. intros [u|e] s' [_ H]; [|done].
  destruct H as (v & _ & _ & _ & _ & H). rewrite Hst in H. lia.
Qed.

(** The deadline noticed: the session falls back. *)
Lemma late_expire : valid_now now -> settled s = false -> is_cyrinx s = true ->
  wp (expire now) (fun r s' => r = Ok true /\ qs_stage s' = StQuiet /\ qs_fallbackReason s' = Some DeadlineExpired) s.
Proof.
  intros Hn Hs Hc. apply wp_expire; auto.
  - rewrite Hs, Hc. done.
  - intros Hx. by destruct Hx.
  - intros v _ _ H. rewrite Hst in H. lia.
Qed.
End Late.

(** ** Theorems *)

(** C22: whatever methods are called, in whatever order, with whatever clock and
    whether they throw or not: a qualification that is complete has completed
    every case, each once, in the order of the list; one still running stands at
    the first case not completed. *)
Theorem complete_means_every_case cases cs role :
  (0 < length cases)%nat ->
  let s := calls cases cs (new_session role) in
  (qs_stage s = StComplete -> completions cases cs (new_session role) = seq 0 (length cases))
  /\ (forall i, qs_codec s = CodecCyrinx -> qs_caseIndex s = Some i ->
       completions cases cs (new_session role) = seq 0 i).
Proof.
  intros Hcases s. assert (Hok : session_ok s) by (apply calls_ok; [done|apply new_session_ok]).
  split.
  - intros Hst. destruct (completions_count cases Hcases cs (new_session role) 0 (length cases)) as [_ H];
      [apply new_session_ok|done|unfold done_count; fold s; by rewrite Hst|]. by rewrite Nat.sub_0_r in H.
  - intros i Hc Hi. destruct (completions_count cases Hcases cs (new_session role) 0 i) as [_ H];
      [apply new_session_ok|done| |by rewrite Nat.sub_0_r in H]. fold s. unfold done_count.
    pose proof (ok_codec _ Hok) as Hcodec. pose proof (ok_position _ Hok) as Hp. rewrite Hi in Hp |- *.
    rewrite Hc in Hcodec. by destruct (qs_stage s).
Qed.

Definition sample_cases : list CyrinxQualificationCase :=
  [mkCase (js "cold-ab") AtoB [] [] 256 true; mkCase (js "cold-ba") BtoA [] [] 256 true].

Definition sample_calls : list Call :=
  [CStart 1000; CCompleteBuild 2000; CCompleteDigital 3000;
   CAcceptInstruction (js "cold-ab") AtoB 4000; CCompleteAccepted Transmit 9000; CAcknowledge;
   CAcceptInstruction (js "cold-ba") BtoA 10000; CCompleteAccepted Listen 15000; CAcknowledge].

Lemma complete_means_every_case_witness :
  (0 < length sample_cases)%nat /\ completions sample_cases sample_calls (new_session RoleA) = seq 0 2.
Proof.
  split; [cbn; lia|]. apply (proj1 (complete_means_every_case sample_cases sample_calls RoleA ltac:(cbn; lia))).
  vm_compute. reflexivity.
Defined.

(** C23: a fallback is final: once a reason is recorded it never changes, the
    codec is never Cyrinx again, the start time stays, and no capture is
    received. *)
Theorem fallback_is_final cases cs more role reason :
  (0 < length cases)%nat ->
  let s := calls cases cs (new_session role) in
  qs_fallbackReason s = Some reason ->
  let s' := calls cases more s in
  qs_fallbackReason s' = Some reason /\ (qs_codec s' = CodecQuiet \/ qs_codec s' = CodecUnqualified)
  /\ qs_startedAtMs s' = qs_startedAtMs s /\ canReceiveCapture s' = false.
Proof.
  intros Hcases s Hr s'. assert (Hok : session_ok s) by (apply calls_ok; [done|apply new_session_ok]).
  assert (H : session_ok s' /\ qs_fallbackReason s' = Some reason /\ qs_startedAtMs s' = qs_startedAtMs s).
  { subst s'. clearbody s. revert s Hr Hok. induction more as [|c more IH]; intros s Hr Hok; [done|].
    cbn [calls foldl].
    assert (Hst : is_some (qs_startedAtMs s) = true).
    { rewrite (ok_started _ Hok), bool_decide_eq_false_2; [done|]. intros E.
      pose proof (ok_reason _ Hok) as Hx. by rewrite Hr, E in Hx. }
    destruct (call_steps cases Hcases c s Hok) as [[Hc _]|[Ha _]].
    - destruct (IH (final (call cases c) s)) as (? & ? & E); [by apply (calm_reason _ _ _ Hc)|apply Hc|].
      split; [done|split; [done|etransitivity; [exact E|]]]. destruct (qs_startedAtMs s) as [t|] eqn:Et; [|done].
      by apply (calm_started _ _ _ Hc).
    - destruct (IH (final (call cases c) s)) as (? & ? & E); [by rewrite (adv_reason _ _ _ Ha)|apply Ha|].
      split; [done|split; [done|etransitivity; [exact E|]]]. apply (adv_started _ _ _ Ha). }
  destruct H as (Hok' & Hr' & Hs). split; [done|].
  pose proof (ok_reason _ Hok') as Hx. rewrite Hr' in Hx. pose proof (ok_codec _ Hok') as Hcodec.
  assert (Hfb : is_fallback (qs_stage s') = true) by (by rewrite <- Hx). split; [|split; [done|]].
  - rewrite Hcodec. destruct (qs_stage s'); try done; cbn; auto.
  - unfold canReceiveCapture. destruct (accepted_current s'); [|done].
    assert (Ht : terminal s' = true) by (unfold terminal; by destruct (qs_stage s')). rewrite Ht. apply andb_false_r.
Qed.

Lemma fallback_is_final_witness :
  let s := calls sample_cases [CStart 1000; CExpire 5401000] (new_session RoleA) in
  qs_fallbackReason s = Some DeadlineExpired
  /\ qs_codec (calls sample_cases sample_calls s) <> CodecCyrinx.
Proof.
  split; [vm_compute; reflexivity|].
  destruct (fallback_is_final sample_cases [CStart 1000; CExpire 5401000] sample_calls RoleA DeadlineExpired
    ltac:(cbn; lia) ltac:(vm_compute; reflexivity)) as (_ & [H|H] & _); rewrite H; discriminate.
Defined.

(** Ninety minutes after the start nothing progresses: completing the
    build, the digital gate or a case and accepting an instruction all throw;
    and the first look at the clock falls back, for the deadline. *)
Theorem deadline_stops_progress cases cs role now t :
  (0 < length cases)%nat ->
  let s := calls cases cs (new_session role) in
  qs_startedAtMs s = Some t -> t + CYRINX_DEADLINE_MS <= now ->
  is_ok (outcome (completeBuild now) s) = false /\ is_ok (outcome (completeDigital now) s) = false
  /\ (forall caseId direction, is_ok (outcome (acceptInstruction cases caseId direction now) s) = false)
  /\ (forall mode, is_ok (outcome (completeAccepted cases mode now) s) = false)
  /\ (valid_now now -> qs_codec s = CodecCyrinx -> settled s = false ->
       let s' := final (expire now) s in
       qs_stage s' = StQuiet /\ qs_fallbackReason s' = Some DeadlineExpired).
Proof.
  intros Hcases s Hst Hlate. assert (Hok : session_ok s) by (apply calls_ok; [done|apply new_session_ok]).
  clearbody s. pose proof (fun A => late_guard now t s Hok Hst Hlate (A:=A)) as Hguard.
  split; [|split; [|split; [|split]]].
  - apply (wp_elim _ (fun r _ => is_ok r = false)). unfold completeBuild, assertStage.
    apply wp_bind, wp_bind, wp_get. destruct (decide _); [apply wp_ret, Hguard|by apply wp_throw].
  - apply (wp_elim _ (fun r _ => is_ok r = false)). unfold completeDigital, assertStage.
    apply wp_bind, wp_bind, wp_get. destruct (decide _); [apply wp_ret, Hguard|by apply wp_throw].
  - intros caseId direction. apply (wp_elim _ (fun r _ => is_ok r = false)), Hguard.
  - intros mode. apply (wp_elim _ (fun r _ => is_ok r = false)), Hguard.
  - intros Hn Hc Hs. apply (wp_elim (expire now)
      (fun _ s' => qs_stage s' = StQuiet /\ qs_fallbackReason s' = Some DeadlineExpired)).
    eapply wp_mono; [apply (late_expire now t s Hok Hst Hlate Hn Hs)|by intros r s' [_ H]].
    unfold is_cyrinx. by rewrite Hc.
Qed.

Lemma deadline_stops_progress_witness :
  let s := calls sample_cases [CStart 1000; CCompleteBuild 2000] (new_session RoleA) in
  is_ok (outcome (completeDigital 5401000) s) = false
  /\ qs_stage (final (expire 5401000) s) = StQuiet.
Proof.
  destruct (deadline_stops_progress sample_cases [CStart 1000; CCompleteBuild 2000] RoleA 5401000 1000)
    as (_ & H1 & _ & _ & H2); [cbn; lia|vm_compute; reflexivity|vm_compute; congruence|].
  split; [exact H1|]. apply H2; [split; [reflexivity|lia]|vm_compute; reflexivity|vm_compute; reflexivity].
Defined.
