(* ===== verification/UiState.v ===== *)
(** * The UI's view of the bridge ([apps/modem-ui/src]: [bridge-state.ts],
    [fips-peer-state.ts], [acoustic-status.ts], [ui-errors.ts])

    What the browser page lets in from outside, and the reducer of what it
    shows: exact records of bounded scalars, and error texts from a closed set. *)

From stdpp Require Import base list numbers option strings.
From Stdlib Require Import ZArith Lia SpecFloat.
From S2P Require Import Prelude Utf8 Doubles Json Regex.

(** A regular expression anchored at both ends. *)
Definition rx_full (r : regex) (s : jsstring) : option (list (nat * jsstring)) :=
  rx_match r s [] (fun rest caps => match rest with [] => Some caps | _ => None end).

Definition rx_test_full (r : regex) (s : jsstring) : bool :=
  match rx_full r s with Some _ => true | None => false end.

(** [/^[a-z0-9_]{1,80}$/] *)
Definition is_reason_code (s : jsstring) : bool :=
  string_of (fun c => is_lower c || is_digit c || (c =? 95)) 1 80 s.

(** ** Bridge state *)

Inductive BridgeStatus :=
  | BLoading | BIdle | BArming | BReady | BDisconnected | BOverflow | BRejected | BResetting.
Inductive QueueHealth := QClear | QOverflow | QRejected | QUnknown.
Inductive UiRole := UiA | UiB | UiUnknown.
(** A two-valued fact of the bridge, or not known yet. *)
Inductive Fact := Yes | No | Unknown.

#[export] Instance BridgeStatus_eq_dec : EqDecision BridgeStatus.
Proof. solve_decision. Defined.
#[export] Instance QueueHealth_eq_dec : EqDecision QueueHealth.
Proof. solve_decision. Defined.
#[export] Instance Fact_eq_dec : EqDecision Fact.
Proof. solve_decision. Defined.

Record BridgeSnapshot := mkBridgeSnapshot {
  bs_role : UiRole; bs_browserAudio : bool; bs_localBridge : bool; bs_soundTransport : bool; bs_epoch : Z;
  bs_queueHealth : QueueHealth; bs_queueItems : Z; bs_queueBytes : Z; bs_txPackets : Z; bs_rxPackets : Z;
  bs_soundMtu : Z; bs_lastEventAt : jsstring; bs_lastError : option jsstring }.

Record BridgeState := mkBridgeState {
  br_role : UiRole; br_configuration : Fact; br_browserAudio : Fact; br_localBridge : Fact; br_soundTransport : Fact;
  br_epoch : Z; br_queueHealth : QueueHealth; br_queueItems : Z; br_queueBytes : Z; br_txPackets : Z;
  br_rxPackets : Z; br_soundMtu : option Z; br_lastEventAt : option jsstring; br_lastError : option jsstring;
  br_status : BridgeStatus; br_stale : bool }.

#[export] Instance eta_BridgeState : Eta BridgeState := fun s =>
  mkBridgeState (br_role s) (br_configuration s) (br_browserAudio s) (br_localBridge s) (br_soundTransport s)
    (br_epoch s) (br_queueHealth s) (br_queueItems s) (br_queueBytes s) (br_txPackets s) (br_rxPackets s)
    (br_soundMtu s) (br_lastEventAt s) (br_lastError s) (br_status s) (br_stale s).

Inductive BridgeAction :=
  | ASnapshot (snapshot : BridgeSnapshot)
  | AResetStart
  | AResetAck (epoch : Z)
  | AResetFailed (reason : jsstring).

Definition BRIDGE_FIELDS : list string :=
  ["role"; "configuration"; "browserAudio"; "localBridge"; "soundTransport"; "epoch"; "queueHealth"; "queueItems";
   "queueBytes"; "txPackets"; "rxPackets"; "soundMtu"; "lastEventAt"; "lastError"]%string.

Definition has_line_break (s : jsstring) : bool := existsb (fun c => (c =? 13) || (c =? 10)) s.

(** [/^Bridge rejected ([a-z0-9_]{1,80})\.$/] *)
Definition rejected_code (s : jsstring) : option jsstring :=
  let prefix := js "Bridge rejected " in
  let code := take (length s - length prefix - 1) (drop (length prefix) s) in
  if bool_decide (s = prefix ++ code ++ [46]) && is_reason_code code then Some code else None.

Definition safeBridgeError (v : value) : option jsstring :=
  match v with
  | VString s =>
      if (zlen s =? 0) || (240 <? zlen s) || has_line_break s then None
      else option_map (fun code => js "Bridge rejected " ++ code ++ [46]) (rejected_code s)
  | _ => None
  end.

Definition fallback : BridgeState :=
  mkBridgeState UiUnknown Unknown Unknown Unknown Unknown 0 QUnknown 0 0 0 0 None None None BLoading true.

(** One of two literals. *)
Definition either (yes no : string) (v : value) : option bool :=
  if is_literal yes v then Some true else if is_literal no v then Some false else None.

Definition nonNegative (v : value) : option Z :=
  match as_integer v with Some z => if 0 <=? z then Some z else None | None => None end.

(** [String(value.queueHealth)]: only a string can spell one of the four, and
    an array of one such string. *)
Fixpoint queue_health (v : value) : option QueueHealth :=
  match v with
  | VString s =>
      if bool_decide (s = js "clear") then Some QClear else if bool_decide (s = js "overflow") then Some QOverflow
      else if bool_decide (s = js "rejected") then Some QRejected
      else if bool_decide (s = js "unknown") then Some QUnknown else None
  | VArray [v] => queue_health v
  | _ => None
  end.

Section Validation.
(** Does [Date.parse] understand the text? *)
Context (date_parses : jsstring -> bool).

Definition parse_role (v : value) : option UiRole :=
  if is_literal "A" v then Some UiA else if is_literal "B" v then Some UiB else None.

(** [null], or a text [safeBridgeError] leaves as it is. *)
Definition parse_lastError (v : value) : option (option jsstring) :=
  match v with
  | VNull => Some None
  | _ => match safeBridgeError v with
         | Some safe => if bool_decide (as_string v = Some safe) then Some (Some safe) else None
         | None => None
         end
  end.

Definition parse_mtu (v : value) : option Z :=
  match as_integer v with Some z => if z <? 1357 then None else Some z | None => None end.

Definition parse_eventAt (v : value) : option jsstring :=
  match v with VString s => if date_parses s then Some s else None | _ => None end.

Definition validateBridgeSnapshot (input : value) : option BridgeSnapshot :=
  match as_object input with
  | None => None
  | Some f =>
      if negb (zlen (own_keys f) =? zlen BRIDGE_FIELDS) || negb (only_keys BRIDGE_FIELDS f)
         || negb (is_literal "ready" (get "configuration" f)) then None
      else match parse_role (get "role" f), either "armed" "not-armed" (get "browserAudio" f),
                 either "ready" "disconnected" (get "localBridge" f), either "started" "waiting" (get "soundTransport" f),
                 nonNegative (get "epoch" f), queue_health (get "queueHealth" f), nonNegative (get "queueItems" f),
                 nonNegative (get "queueBytes" f), nonNegative (get "txPackets" f), nonNegative (get "rxPackets" f),
                 parse_mtu (get "soundMtu" f), parse_eventAt (get "lastEventAt" f), parse_lastError (get "lastError" f) with
      | Some role, Some audio, Some bridge, Some sound, Some epoch, Some health, Some items, Some bytes, Some tx,
        Some rx, Some mtu, Some at_, Some lastError =>
          Some (mkBridgeSnapshot role audio bridge sound epoch health items bytes tx rx mtu at_ lastError)
      | _, _, _, _, _, _, _, _, _, _, _, _, _ => None
      end
  end.
End Validation.

Definition fact (b : bool) : Fact := if b then Yes else No.

Definition snapshot_status (s : BridgeSnapshot) : BridgeStatus :=
  if decide (bs_queueHealth s = QOverflow) then BOverflow
  else if decide (bs_queueHealth s = QRejected) then BRejected
  else if bs_localBridge s && bs_browserAudio s then BReady
  else if negb (bs_localBridge s) then BDisconnected else BIdle.

(** [{ ...snapshot, status, stale }] *)
Definition shown_snapshot (s : BridgeSnapshot) : BridgeState :=
  let status := snapshot_status s in
  mkBridgeState (bs_role s) Yes (fact (bs_browserAudio s)) (fact (bs_localBridge s)) (fact (bs_soundTransport s))
    (bs_epoch s) (bs_queueHealth s) (bs_queueItems s) (bs_queueBytes s) (bs_txPackets s) (bs_rxPackets s)
    (Some (bs_soundMtu s)) (Some (bs_lastEventAt s)) (bs_lastError s) status (bool_decide (status = BDisconnected)).

Definition known_no (f : Fact) : Fact := match f with Unknown => Unknown | _ => No end.

(** [now] is [new Date().toISOString()]. *)
Definition reduceBridgeState (now : jsstring) (current : option BridgeState) (action : BridgeAction) : BridgeState :=
  let state := default fallback current in
  match action with
  | ASnapshot s =>
      if (bs_epoch s <? br_epoch state) || bool_decide (br_status state = BResetting) then state
      else shown_snapshot s
  | AResetStart => set br_stale (fun _ => true) (set br_status (fun _ => BResetting) state)
  | AResetAck epoch =>
      if negb (bool_decide (br_status state = BResetting)) || negb (epoch =? br_epoch state + 1) then state
      else mkBridgeState (br_role state) (br_configuration state) (known_no (br_browserAudio state))
             (known_no (br_localBridge state)) (known_no (br_soundTransport state)) epoch QClear 0 0 0 0
             (br_soundMtu state) (Some now) None BIdle false
  | AResetFailed reason =>
      set br_status (fun _ => BDisconnected) (set br_stale (fun _ => true)
        (set br_lastError (fun _ => Some (default (js "Bridge rejected bridge_status_unavailable.")
           (safeBridgeError (VString reason)))) state))
  end.

Definition bridge_run (actions : list (jsstring * BridgeAction)) (s : option BridgeState) : option BridgeState :=
  foldl (fun s a => Some (reduceBridgeState a.1 s a.2)) s actions.

(** ** The FIPS peer's state *)

Definition PEER_REASONS : list string :=
  ["ready"; "peer_missing"; "peer_not_sound"; "link_missing"; "link_inactive"; "transport_missing";
   "transport_not_ready"; "acoustic_stale"; "acoustic_epoch_mismatch"; "snapshot_stale"]%string.

Definition one_of (l : list string) (v : value) : bool := existsb (fun s => is_literal s v) l.

Definition parseFipsPeerStatus (v : value) : option (bool * jsstring) :=
  match as_object v with
  | None => None
  | Some f =>
      if negb (same_keys ["peerReady"; "reason"]%string f) then None
      else match as_bool (get "peerReady" f), as_string (get "reason" f) with
      | Some peerReady, Some reason =>
          if negb (one_of PEER_REASONS (get "reason" f)) then None
          else if negb (Bool.eqb peerReady (is_literal "ready" (get "reason" f))) then None
          else Some (peerReady, reason)
      | _, _ => None
      end
  end.

(** ** The acoustic session's public status *)

Definition ACOUSTIC_PHASES : list string :=
  ["Idle"; "Listening"; "HelloSent"; "HelloAckSent"; "CapsSent"; "CalibratingAToB"; "CalibratingBToA"; "Committing";
   "AwaitingHeartbeat"; "Ready"; "Degraded"; "Recovering"; "Error"]%string.

Definition ACOUSTIC_KEYS : list string :=
  ["phase"; "evidenceClass"; "peer"; "epoch"; "commitAcknowledged"; "currentHeartbeat"; "ready"; "txPackets";
   "rxPackets"; "retries"; "dropped"; "duplicates"; "queuedPackets"; "queuedBytes"; "reason"]%string.

Definition safeReason (v : value) : bool :=
  match v with VString s => is_reason_code s | _ => false end.

Definition count (v : value) : bool := is_integer_in 0 1000000 v.

(** [['Fixture', 'Loopback', 'Open air'].includes(String(v))] *)
Fixpoint evidence_text (v : value) : bool :=
  match v with
  | VString _ => one_of ["Fixture"; "Loopback"; "Open air"]%string v
  | VArray [v] => evidence_text v
  | _ => false
  end.

(** The object itself is returned, so the result is whether it is accepted. *)
Definition parseAcousticPublicStatus (input : value) : option fields :=
  match as_object input with
  | None => None
  | Some f =>
      if negb (zlen (own_keys f) =? zlen ACOUSTIC_KEYS) || negb (only_keys ACOUSTIC_KEYS f) then None
      else if negb (one_of ACOUSTIC_PHASES (get "phase" f)) || negb (evidence_text (get "evidenceClass" f))
              || negb (one_of ["configured"; "unknown"]%string (get "peer" f)) || negb (count (get "epoch" f))
              || negb (is_bool (get "commitAcknowledged" f)) || negb (is_bool (get "currentHeartbeat" f))
              || negb (is_bool (get "ready" f)) || negb (count (get "txPackets" f)) || negb (count (get "rxPackets" f))
              || negb (count (get "retries" f)) || negb (count (get "dropped" f)) || negb (count (get "duplicates" f))
              || negb (count (get "queuedPackets" f)) || negb (count (get "queuedBytes" f))
              || negb (is_null (get "reason" f) || safeReason (get "reason" f)) then None
      else if negb (Bool.eqb (is_true_value (get "ready" f))
                      (is_true_value (get "commitAcknowledged" f) && is_true_value (get "currentHeartbeat" f)
                       && is_literal "Ready" (get "phase" f))) then None
      else Some f
  end.

(** The part of a session's snapshot that is published. *)
Record SessionFacts := mkFacts {
  sf_state : string; sf_epoch : Z; sf_ready : bool; sf_committed : bool; sf_retries : Z; sf_dropped : Z;
  sf_duplicates : Z; sf_queuedPackets : Z; sf_queuedBytes : Z; sf_reason : option jsstring }.

Definition projectAcousticStatus (s : SessionFacts) (evidenceClass : string) (txPackets rxPackets : Z) : result fields :=
  let candidate := [
    (js "phase", vstr (sf_state s)); (js "evidenceClass", vstr evidenceClass); (js "peer", vstr "configured");
    (js "epoch", vint (sf_epoch s)); (js "commitAcknowledged", VBool (sf_committed s));
    (js "currentHeartbeat", VBool (sf_ready s)); (js "ready", VBool (sf_ready s));
    (js "txPackets", vint txPackets); (js "rxPackets", vint rxPackets); (js "retries", vint (sf_retries s));
    (js "dropped", vint (sf_dropped s)); (js "duplicates", vint (sf_duplicates s));
    (js "queuedPackets", vint (sf_queuedPackets s)); (js "queuedBytes", vint (sf_queuedBytes s));
    (js "reason", match sf_reason s with Some r => VString r | None => VNull end)] in
  match parseAcousticPublicStatus (VObject candidate) with
  | Some f => Ok f
  | None => Throw "acoustic status projection is invalid"
  end.

(** ** Error texts *)

Definition FIXED_REASONS : list string := [
  "audio reset is required before changing epoch"; "audio reset is required before re-arm"; "audio preflight failed";
  "microphone is unavailable"; "PCM playback failed"; "PCM playback was cancelled by reset";
  "Local bridge disconnected"; "Local bridge closed before delivery was accepted"; "Local bridge connection timed out";
  "Local bridge connection was replaced"; "Local bridge did not accept audio settings";
  "Local bridge did not return RESET"; "Local bridge is not open for qualification-result delivery";
  "Local bridge result delivery failed"; "Local bridge RESET delivery failed"; "Local bridge settings delivery failed";
  "Local bridge sent an invalid qualification-result acknowledgement";
  "Local bridge sent an stale Cyrinx session snapshot"; "Local bridge sent an unsolicited RESET";
  "Local bridge sent an unsupported message"; "Local bridge sent an unrecognized acknowledgement";
  "Qualification-result delivery is already pending"; "Quiet applied microphone settings are incompatible";
  "Quiet applied settings are unavailable"; "Quiet AudioContext state is unavailable"; "Quiet is not armed";
  "Quiet runtime realm is unavailable"; "Quiet transmission cancelled by reset";
  "Rejected stale or impossible Quiet receiver evidence"; "browser audio unavailable";
  "local bridge message was rejected"; "local bridge reset was unavailable"; "local modem operation was unavailable";
  "Quiet modem operation was unavailable"]%string.

Fixpoint ralt (l : list regex) : regex :=
  match l with [] => RChar (fun _ => false) | [r] => r | r :: l' => RAlt r (ralt l') end.

(** [r{1,n}] *)
Fixpoint rup_to (n : nat) (r : regex) : regex :=
  match n with O => REmpty | S O => r | S n' => RSeq r (ropt (rup_to n' r)) end.

Definition rwords (l : list string) : regex := ralt (map rlit l).

Definition runknown_or (n : nat) : regex := RAlt (rlit "unknown") (rup_to n rdigit).

Definition SAFE_AUDIO_TEMPLATES : list regex := [
  RSeq (rlit "permission is ") (rwords ["granted"; "denied"; "unknown"]%string);
  rseq [rlit "audio context state is "; rwords ["running"; "suspended"; "closed"; "interrupted"; "unknown"]%string;
        rlit ", not running"];
  rseq [rwords ["context"; "codec capture"]%string; rlit " sample rate is "; runknown_or 6; rlit ", not 48000"];
  rseq [rlit "input-device sample rate is "; runknown_or 6; rlit ", not 44100 or 48000"];
  rseq [rlit "codec capture channel count is "; runknown_or 4; rlit ", not 1"];
  rseq [rlit "input-device channel count is "; runknown_or 4; rlit ", not 1 or 2"];
  rseq [rwords ["echo cancellation"; "noise suppression"; "automatic gain control"]%string; rlit " is ";
        rwords ["true"; "false"; "unknown"]%string];
  RSeq (rlit "AudioWorklet status is ") (rwords ["ready"; "unavailable"; "unknown"]%string);
  RSeq (rlit "local bridge status is ") (rwords ["connected"; "disconnected"; "unknown"]%string);
  RSeq (rlit "stale audio completion for epoch ") (rup_to 10 rdigit)].

(** [s.trim() !== s] *)
Definition untrimmed (s : jsstring) : bool :=
  match s with
  | [] => false
  | c :: _ => is_space c || is_space (List.last s 0)
  end.

(** [reason] is the message of an error, the string thrown, or [''] . *)
Definition safeUiReason (raw fallback : jsstring) : jsstring :=
  if (zlen raw =? 0) || (240 <? zlen raw) || untrimmed raw || has_line_break raw then fallback
  else if existsb (fun s => bool_decide (raw = js s)) FIXED_REASONS
          || existsb (fun t => rx_test_full t raw) SAFE_AUDIO_TEMPLATES then raw
  else fallback.

Definition safeConfigReason (raw : jsstring) : jsstring :=
  if bool_decide (raw = js "runner qualification configuration is invalid") then raw
  else js "runner qualification configuration is unavailable".

Example safe_template : safeUiReason (js "context sample rate is 44100, not 48000") [] = js "context sample rate is 44100, not 48000".
Proof. vm_compute. reflexivity. Qed.

Example unsafe_text : safeUiReason (js "TypeError at https://host/?token=1") (js "browser audio unavailable") = js "browser audio unavailable".
Proof. vm_compute. reflexivity. Qed.

(** ** The shown state *)

Definition shown (s : option BridgeState) : BridgeState := default fallback s.

Lemma reduce_epoch now s a : br_epoch (shown s) <= br_epoch (reduceBridgeState now s a).
Proof.
  unfold reduceBridgeState. fold (shown s). destruct a as [n| |epoch|reason]; try done.
  - destruct (Z.ltb_spec (bs_epoch n) (br_epoch (shown s))); [done|]. cbn [orb]. by destruct (bool_decide _).
  - destruct (negb (bool_decide _)); [done|]. destruct (Z.eqb_spec epoch (br_epoch (shown s) + 1)); cbn; lia.
Qed.

Definition is_ack_or_failure (epoch : Z) (a : BridgeAction) : bool :=
  match a with AResetAck e => e =? epoch + 1 | AResetFailed _ => true | _ => false end.

Lemma reduce_resetting now s a :
  br_status (shown s) = BResetting -> is_ack_or_failure (br_epoch (shown s)) a = false ->
  br_status (reduceBridgeState now s a) = BResetting
  /\ br_epoch (reduceBridgeState now s a) = br_epoch (shown s).
Proof.
  intros H Ha. unfold reduceBridgeState. fold (shown s). destruct a as [n| |epoch|reason]; try done.
  - rewrite bool_decide_eq_true_2, orb_true_r by done. done.
  - cbn in Ha. rewrite Ha. rewrite orb_true_r. done.
Qed.

(** The epoch the page shows never goes back, whatever snapshots and
    acknowledgements arrive late; and a page that is resetting stays so, in its
    epoch, until the reset of exactly that epoch is acknowledged or fails. *)
Theorem bridge_state_follows_resets actions s :
  br_epoch (shown s) <= br_epoch (shown (bridge_run actions s)) /\
  (br_status (shown s) = BResetting ->
   forallb (fun a => negb (is_ack_or_failure (br_epoch (shown s)) a.2)) actions = true ->
   br_status (shown (bridge_run actions s)) = BResetting
   /\ br_epoch (shown (bridge_run actions s)) = br_epoch (shown s)).
Proof.
  revert s. induction actions as [|[now a] actions IH]; intros s; [done|]. cbn [bridge_run foldl fst snd].
  destruct (IH (Some (reduceBridgeState now s a))) as [H1 H2]. split.
  - etransitivity; [apply (reduce_epoch now s a)|exact H1].
  - intros Hr Ha. cbn [forallb snd] in Ha. apply andb_prop in Ha as [Ha Hrest]. apply negb_true_iff in Ha.
    destruct (reduce_resetting now s a Hr Ha) as [H3 H4]. specialize (H2 H3).
    assert (E : br_epoch (shown (Some (reduceBridgeState now s a))) = br_epoch (shown s)) by exact H4.
    rewrite E in H2. exact (H2 Hrest).
Qed.
