(* ===== verification/Texts.v ===== *)
(** * Texts put together from parts

    The keys the source builds with template strings: decimal numbers, and parts
    joined by a separator that none of the first ones contains. *)

From stdpp Require Import base list numbers option strings pretty.
From Stdlib Require Import ZArith Lia Ascii.
From S2P Require Import Prelude Utf8.

(** [`${z}`], for an integer. *)
Definition number_text (z : Z) : jsstring := js (pretty z).

(** Digits and the minus sign. *)
Definition is_number_char (c : ascii) : bool :=
  let n := N_of_ascii c in ((48 <=? n) && (n <=? 57) || (n =? 45))%N.

Fixpoint all_chars (p : ascii -> bool) (s : string) : bool :=
  match s with EmptyString => true | String c s' => p c && all_chars p s' end.

Lemma pretty_N_go_chars x s : all_chars is_number_char s = true -> all_chars is_number_char (pretty_N_go x s) = true.
Proof.
  revert s. induction (N.lt_wf_0 x) as [x _ IH]; intros s Hs.
  assert (x = 0 \/ 0 < x)%N as [->|Hx] by lia; [by rewrite pretty_N_go_0|].
  rewrite pretty_N_go_step by done. apply IH; [by apply N.div_lt|]. cbn [all_chars]. rewrite Hs, andb_true_r.
  unfold pretty_N_char. repeat case_match; done.
Qed.

Lemma pretty_chars (z : Z) : all_chars is_number_char (pretty z) = true.
Proof.
  assert (H : forall p : positive, all_chars is_number_char (pretty p) = true).
  { intros p. change (pretty p) with (pretty (N.pos p)). unfold pretty, pretty_N. case_decide; [done|].
    by apply pretty_N_go_chars. }
  destruct z as [|p|p]; [done|apply H|]. apply (H p).
Qed.

Lemma js_all_chars p c s : all_chars p s = true -> c ∈ js s -> exists a, p a = true /\ c = Z.of_N (N_of_ascii a).
Proof.
  induction s as [|a s IH]; cbn; [by intros _ ?%elem_of_nil|]. intros [Ha Hs]%andb_prop [->|Hc]%elem_of_cons; eauto.
Qed.

Lemma number_text_avoids c z : c < 45 \/ c = 47 \/ 57 < c -> c ∉ number_text z.
Proof.
  intros Hc Hin. apply (js_all_chars is_number_char) in Hin as (a & Ha & ->); [|apply pretty_chars].
  unfold is_number_char in Ha. apply orb_prop in Ha as [[H1 H2]%andb_prop|H].
  - apply N.leb_le in H1, H2. lia.
  - apply N.eqb_eq in H. lia.
Qed.

Lemma js_inj s s' : js s = js s' -> s = s'.
Proof.
  revert s'. induction s as [|a s IH]; intros [|b s'] E; try done. cbn in E. injection E as Ea Es. f_equal; [|by apply IH].
  apply N2Z.inj in Ea. rewrite <- (ascii_N_embedding a), <- (ascii_N_embedding b). by f_equal.
Qed.

Lemma number_text_inj z z' : number_text z = number_text z' -> z = z'.
Proof. intros E%js_inj. by apply (inj pretty). Qed.

Lemma split_at_separator {A} (sep : A) a b a' b' :
  sep ∉ a -> sep ∉ a' -> a ++ [sep] ++ b = a' ++ [sep] ++ b' -> a = a' /\ b = b'.
Proof.
  revert a'. induction a as [|x a IH]; intros [|y a'] Ha Ha' E; cbn in E; simplify_eq; try done.
  - by apply not_elem_of_cons in Ha' as [? _].
  - by apply not_elem_of_cons in Ha as [? _].
  - apply not_elem_of_cons in Ha as [_ Ha], Ha' as [_ Ha']. by destruct (IH a' Ha Ha') as [-> ->].
Qed.
