(* ===== verification/UiProof.v ===== *)
(** * The UI's view of the proof ([apps/modem-ui/src/proof-state.ts])

    The bounded projection of a proof execution the page admits, and the
    reducer of the proof panel. *)

From stdpp Require Import base list numbers option strings pretty.
From Stdlib Require Import ZArith Lia SpecFloat.
From S2P Require Import Prelude Utf8 Doubles Json UiState.

Inductive ProofEvidenceClass := Fixture | Loopback | OpenAir | HumanNeeded.

Inductive ProofMode :=
  | MLoading | MRefreshing | MBlocked | MReady | MRunning | MNonphysical | MOpenAir | MHumanNeeded | MFailed | MError.

#[export] Instance ProofEvidenceClass_eq_dec : EqDecision ProofEvidenceClass.
Proof. solve_decision. Defined.
#[export] Instance ProofMode_eq_dec : EqDecision ProofMode.
Proof. solve_decision. Defined.

Record ProofCounters := mkCounters {
  co_completeTx : option Z; co_completeRx : option Z; co_acousticTx : option Z; co_acousticRx : option Z;
  co_fragmentsTx : option Z; co_fragmentsRx : option Z; co_integrityFailures : option Z; co_retries : option Z }.

Record ProofSnapshot := mkProofSnapshot {
  sn_pingReady : bool; sn_reason : string; sn_evidenceClass : ProofEvidenceClass;
  sn_peerIdentity : jsstring; sn_peerVerified : bool; sn_linkId : option Z; sn_linkVerified : bool;
  sn_transportEpoch : option Z; sn_transportVerified : bool; sn_isolationVerified : bool; sn_counters : ProofCounters }.

Record ProofOutcome := mkOutcome {
  ou_exitCode : Z; ou_sequence : option Z; ou_latencyMs : option double; ou_lossPercent : option double;
  ou_safeReason : option jsstring }.

Record ProofState := mkProofState {
  st_mode : ProofMode; st_snapshot : option ProofSnapshot; st_outcome : option ProofOutcome;
  st_needsRefresh : bool; st_message : string }.

Definition REASONS : list string :=
  ["ready"; "peer_missing"; "peer_not_sound"; "link_missing"; "link_inactive"; "transport_missing";
   "transport_not_ready"; "acoustic_stale"; "acoustic_epoch_mismatch"; "isolation_failed"; "isolation_stale";
   "isolation_epoch_mismatch"; "target_mismatch"; "snapshot_stale"; "proof_unavailable"]%string.

(** [reasons.has(v)], returning the reason. *)
Definition parse_reason (v : value) : option string := List.find (fun r => is_literal r v) REASONS.

Definition parse_evidence (v : value) : option ProofEvidenceClass :=
  if is_literal "Fixture" v then Some Fixture else if is_literal "Loopback" v then Some Loopback
  else if is_literal "Open air" v then Some OpenAir else if is_literal "human_needed" v then Some HumanNeeded else None.

Definition finite (v : value) : option Z :=
  match as_integer v with Some z => if (0 <=? z) && (z <=? 1000000000) then Some z else None | None => None end.

Definition timestamp (v : value) : option Z :=
  match as_integer v with Some z => if 0 <=? z then Some z else None | None => None end.

(** [/^[A-Za-z0-9:._-]+$/], of 1 to [maximum] code units. *)
Definition text (v : value) (maximum : Z) : option jsstring :=
  match v with
  | VString s =>
      if string_of (fun c => is_upper c || is_lower c || is_digit c || (c =? 58) || (c =? 46) || (c =? 95) || (c =? 45))
           1 maximum s
      then Some s else None
  | _ => None
  end.

(** [null], a count, or neither. *)
Definition nullableCount (v : value) : option (option Z) :=
  match v with VNull => Some None | _ => option_map Some (finite v) end.

Definition reasonCopy (reason : string) : string :=
  if bool_decide (reason = "ready") then "Ready to run one kernel ICMPv6 ping from Role A."
  else if bool_decide (reason = "peer_missing") || bool_decide (reason = "peer_not_sound")
  then "Waiting for authenticated Sound peer"
  else if bool_decide (reason = "link_missing") || bool_decide (reason = "link_inactive")
          || bool_decide (reason = "transport_missing") then "Waiting for active Sound link"
  else if bool_decide (reason = "transport_not_ready") || bool_decide (reason = "acoustic_stale")
          || bool_decide (reason = "acoustic_epoch_mismatch")
  then "Disarmed — current acoustic session is not ready"
  else if bool_decide (reason = "isolation_failed") || bool_decide (reason = "isolation_stale")
          || bool_decide (reason = "isolation_epoch_mismatch") then "Waiting for paired Role B isolation proof"
  else if bool_decide (reason = "target_mismatch") then "Waiting for configured Role B target"
  else "Waiting for a current snapshot".

(** [null], or a finite number in [0, maximum]. *)
Definition nullable_number (maximum : Z) (v : value) : option (option double) :=
  match v with
  | VNull => Some None
  | VNumber x =>
      if d_is_finite x && d_leb (d_of_Z 0) x && d_leb x (d_of_Z maximum) then Some (Some x) else None
  | _ => None
  end.

Definition parse_exitCode (v : value) : option Z :=
  match as_integer v with Some z => if (0 <=? z) && (z <=? 2) then Some z else None | None => None end.

Definition parse_safeReason (v : value) : option (option jsstring) :=
  match v with VNull => Some None | _ => option_map Some (text v 80) end.

Definition parseResult (v : value) : option ProofOutcome :=
  match as_object v with
  | None => None
  | Some f =>
      if negb (same_keys ["exitCode"; "sequence"; "latencyMs"; "lossPercent"; "safeReason"]%string f) then None
      else match parse_exitCode (get "exitCode" f), nullableCount (get "sequence" f),
                 nullable_number 120000 (get "latencyMs" f), nullable_number 100 (get "lossPercent" f),
                 parse_safeReason (get "safeReason" f) with
      | Some exitCode, Some sequence, Some latencyMs, Some lossPercent, Some safeReason =>
          Some (mkOutcome exitCode sequence latencyMs lossPercent safeReason)
      | _, _, _, _, _ => None
      end
  end.

(** What the page keeps of the peer, the link and the transport. *)
Record PeerFacts := mkPeerFacts { pf_npub : jsstring; pf_connectivity : jsstring; pf_link_id : Z; pf_type : jsstring }.
Record LinkFacts := mkLinkFacts { lf_link_id : Z; lf_state : jsstring }.
Record TransportFacts := mkTransportFacts { tf_type : jsstring; tf_state : jsstring; tf_stats : fields }.

Definition parse_peer (f : fields) : option PeerFacts :=
  if negb (same_keys ["npub"; "connectivity"; "link_id"; "transport_type"; "authenticated_at_ms"; "last_seen_ms"]%string f)
  then None
  else match text (get "npub" f) 128, text (get "connectivity" f) 32, finite (get "link_id" f),
             text (get "transport_type" f) 32, timestamp (get "authenticated_at_ms" f), timestamp (get "last_seen_ms" f) with
  | Some npub, Some connectivity, Some link_id, Some type, Some _, Some _ =>
      Some (mkPeerFacts npub connectivity link_id type)
  | _, _, _, _, _, _ => None
  end.

Definition parse_link (f : fields) : option LinkFacts :=
  if negb (same_keys ["link_id"; "transport_id"; "state"; "created_at_ms"; "stats"]%string f) then None
  else match finite (get "link_id" f), finite (get "transport_id" f), text (get "state" f) 32,
             timestamp (get "created_at_ms" f), as_object (get "stats" f) with
  | Some link_id, Some _, Some state, Some _, Some _ => Some (mkLinkFacts link_id state)
  | _, _, _, _, _ => None
  end.

Definition parse_transport (f : fields) : option TransportFacts :=
  if negb (same_keys ["transport_id"; "type"; "state"; "mtu"; "stats"]%string f) then None
  else match finite (get "transport_id" f), text (get "type" f) 32, text (get "state" f) 32, finite (get "mtu" f),
             as_object (get "stats" f) with
  | Some _, Some type, Some state, Some _, Some stats => Some (mkTransportFacts type state stats)
  | _, _, _, _, _ => None
  end.

(** An optional part: absent when it is not a record, else valid or rejected. *)
Definition optional_part {A} (parse : fields -> option A) (v : value) : option (option A) :=
  match as_object v with None => Some None | Some f => option_map Some (parse f) end.

Definition counter (stats : option fields) (key : string) : option Z :=
  match stats with
  | Some f => if has key f then default None (nullableCount (get key f)) else None
  | None => None
  end.

Definition counters (stats : option fields) : ProofCounters :=
  mkCounters (counter stats "complete_tx") (counter stats "complete_rx") (counter stats "acoustic_tx")
    (counter stats "acoustic_rx") (counter stats "fragments_tx") (counter stats "fragments_rx")
    (counter stats "integrity_failures") (counter stats "retries").

Definition build_snapshot (pingReady joinReady : bool) (reason joinReason : string) (evidenceClass : ProofEvidenceClass)
    (peer : option PeerFacts) (link : option LinkFacts) (transport : option TransportFacts) : ProofSnapshot :=
  let stats := option_map tf_stats transport in
  mkProofSnapshot
    (pingReady && joinReady && bool_decide (reason = "ready"%string) && bool_decide (joinReason = "ready"%string))
    reason evidenceClass
    (match peer with Some p => pf_npub p | None => js "Waiting for a current snapshot" end)
    (match peer with
     | Some p => bool_decide (pf_connectivity p = js "connected") && bool_decide (pf_type p = js "sound")
     | None => false
     end)
    (option_map lf_link_id link)
    (match link with
     | Some l => bool_decide (lf_state l = js "connected") && bool_decide (option_map pf_link_id peer = Some (lf_link_id l))
     | None => false
     end)
    (counter stats "epoch")
    (match transport with
     | Some t => bool_decide (tf_type t = js "sound") && bool_decide (tf_state t = js "up")
                 && is_true_value (get "worker_up" (tf_stats t)) && is_true_value (get "acoustic_ready" (tf_stats t))
     | None => false
     end)
    (bool_decide (reason = "ready"%string)) (counters stats).

Inductive Parsed := PLoading | PSnapshot (snapshot : ProofSnapshot) (outcome : option ProofOutcome).

Definition is_loading (f : fields) : bool :=
  same_keys ["state"; "pingReady"; "reason"; "result"]%string f && is_literal "loading" (get "state" f)
  && match get "pingReady" f with VBool false => true | _ => false end
  && is_literal "proof_unavailable" (get "reason" f) && is_null (get "result" f).

Definition parseProofSnapshot (v : value) : option Parsed :=
  match as_object v with
  | None => None
  | Some f =>
      if is_loading f then Some PLoading
      else if negb (only_keys ["pingReady"; "reason"; "evidenceClass"; "join"; "result"]%string f) then None
      else match as_bool (get "pingReady" f), parse_reason (get "reason" f), parse_evidence (get "evidenceClass" f),
                 as_object (get "join" f) with
      | Some pingReady, Some reason, Some evidenceClass, Some join =>
          match as_bool (get "pingReady" join), parse_reason (get "reason" join), optional_part parse_peer (get "peer" join),
                optional_part parse_link (get "link" join), optional_part parse_transport (get "transport" join) with
          | Some joinReady, Some joinReason, Some peer, Some link, Some transport =>
              let snapshot := build_snapshot pingReady joinReady reason joinReason evidenceClass peer link transport in
              if is_undefined (get "result" f) || is_null (get "result" f) then Some (PSnapshot snapshot None)
              else option_map (fun outcome => PSnapshot snapshot (Some outcome)) (parseResult (get "result" f))
          | _, _, _, _, _ => None
          end
      | _, _, _, _ => None
      end
  end.

Definition or_none (z : option Z) : jsstring := match z with Some z => js (pretty z) | None => js "none" end.

Definition fingerprint (s : ProofSnapshot) : jsstring :=
  sn_peerIdentity s ++ [58] ++ or_none (sn_linkId s) ++ [58] ++ or_none (sn_transportEpoch s) ++ [58]
  ++ js (if sn_transportVerified s then "true" else "false").

Definition initial : ProofState := mkProofState MLoading None None false "Waiting for current proof facts…".

Inductive Source := FromRefresh | FromPing | FromNowhere.

#[export] Instance Source_eq_dec : EqDecision Source.
Proof. solve_decision. Defined.

Inductive ProofAction :=
  | DoRefresh
  | DoRunning
  | DoError
  | DoSnapshot (v : value) (source : Source).

Definition unavailable (state : ProofState) : ProofState :=
  mkProofState MError (st_snapshot state) None true
    "Proof status unavailable — proof_unavailable. Refresh proof status.".

(** The result of a ping. *)
Definition after_ping (snapshot : ProofSnapshot) (outcome : ProofOutcome) : ProofState :=
  let ok := ou_exitCode outcome =? 0 in
  let openAir := ok && bool_decide (sn_evidenceClass snapshot = OpenAir) in
  let nonphysical := ok && bool_decide (sn_evidenceClass snapshot <> OpenAir) in
  mkProofState (if openAir then MOpenAir else if nonphysical then MNonphysical else MFailed) (Some snapshot)
    (Some outcome) true
    (if openAir then "Open-air ICMPv6 reply observed across the authenticated Sound link."
     else if nonphysical then "ICMPv6 reply observed. Physical Open-air proof is still required."
     else "Kernel ping did not receive an ICMPv6 reply. Check the Sound link, then refresh proof status.").

Definition reduce_snapshot (state : ProofState) (snapshot : ProofSnapshot) (parsedOutcome : option ProofOutcome)
    (source : Source) : ProofState :=
  let changed := match st_snapshot state with
                 | Some old => negb (bool_decide (fingerprint old = fingerprint snapshot)) | None => false end in
  let fresh := bool_decide (source = FromRefresh) in
  let invalidated := changed && match st_outcome state with Some _ => true | None => false end in
  let needsRefresh := bool_decide (source = FromPing) || (negb fresh && st_needsRefresh state) || invalidated in
  let outcome := if invalidated || needsRefresh then None else parsedOutcome in
  match parsedOutcome, source with
  | Some o, FromPing => after_ping snapshot o
  | _, _ =>
      if negb (sn_pingReady snapshot) || needsRefresh then
        let human := bool_decide (sn_evidenceClass snapshot = HumanNeeded) in
        mkProofState (if human then MHumanNeeded else MBlocked) (Some snapshot) None needsRefresh
          (if human then "Human needed — matching two-laptop Open-air evidence is not available."
           else "Ping is blocked — " +:+ reasonCopy (sn_reason snapshot) +:+ ". Refresh proof status after recovery.")
      else mkProofState MReady (Some snapshot) outcome false "Ready to run one kernel ICMPv6 ping from Role A."
  end.

Definition reduceProofState (previous : option ProofState) (action : ProofAction) : ProofState :=
  let state := default initial previous in
  match action with
  | DoRefresh =>
      mkProofState MRefreshing (st_snapshot state) (st_outcome state) (st_needsRefresh state) "Refreshing proof status…"
  | DoRunning =>
      mkProofState MRunning (st_snapshot state) None true "Running kernel ping in Role A FIPS namespace…"
  | DoError => unavailable state
  | DoSnapshot v source =>
      match parseProofSnapshot v with
      | None => unavailable state
      | Some PLoading => mkProofState MLoading None None true "Waiting for current proof facts…"
      | Some (PSnapshot snapshot outcome) => reduce_snapshot state snapshot outcome source
      end
  end.

Definition proof_run (actions : list ProofAction) (s : option ProofState) : option ProofState :=
  foldl (fun s a => Some (reduceProofState s a)) s actions.

(** ** What the panel may claim *)

Definition is_refresh (a : ProofAction) : bool := match a with DoSnapshot _ FromRefresh => true | _ => false end.

(** What each mode claims of the facts shown beside it. *)
Definition claims_hold (s : ProofState) : Prop :=
  match st_mode s with
  | MReady =>
      st_needsRefresh s = false
      /\ exists n, st_snapshot s = Some n /\ sn_pingReady n = true /\ sn_reason n = "ready"%string /\ sn_isolationVerified n = true
  | MOpenAir =>
      st_needsRefresh s = true
      /\ exists n o, st_snapshot s = Some n /\ st_outcome s = Some o /\ ou_exitCode o = 0 /\ sn_evidenceClass n = OpenAir
  | MNonphysical =>
      st_needsRefresh s = true
      /\ exists n o, st_snapshot s = Some n /\ st_outcome s = Some o /\ ou_exitCode o = 0 /\ sn_evidenceClass n <> OpenAir
  | _ => True
  end.

Lemma parseProofSnapshot_built v n o :
  parseProofSnapshot v = Some (PSnapshot n o) ->
  sn_pingReady n = true -> sn_reason n = "ready"%string /\ sn_isolationVerified n = true.
Proof.
  unfold parseProofSnapshot. intros Hp Hn.
  assert (E : exists a b c d e p l t, n = build_snapshot a b c d e p l t).
  { repeat (case_match; simplify_eq/=); eauto 12;
      destruct (parseResult _); simplify_eq/=; eauto 12. }
  destruct E as (? & ? & ? & ? & ? & ? & ? & ? & ->). clear Hp. unfold build_snapshot in *.
  all: cbn in *; rewrite !andb_true_iff, !bool_decide_eq_true in Hn; rewrite bool_decide_eq_true; naive_solver.
Qed.

Lemma reduce_claims p a : claims_hold (reduceProofState p a).
Proof.
  unfold reduceProofState. destruct a as [| | |v source]; try exact I.
  destruct (parseProofSnapshot v) as [[|n o]|] eqn:E; try exact I.
  pose proof (parseProofSnapshot_built v n o E) as Hn. unfold reduce_snapshot.
  set (changed := match st_snapshot _ with Some _ => _ | None => _ end). clearbody changed.
  assert (Hping : forall o, claims_hold (after_ping n o)).
  { intros o'. unfold after_ping, claims_hold. destruct (Z.eqb_spec (ou_exitCode o') 0); [|done].
    destruct (decide (sn_evidenceClass n = OpenAir)).
    - rewrite bool_decide_eq_true_2 by done. cbn. eauto 8.
    - rewrite bool_decide_eq_false_2, bool_decide_eq_true_2 by done. cbn. eauto 8. }
  destruct o as [o|], source; try apply Hping.
  all: match goal with |- claims_hold (if ?c then _ else _) => destruct c eqn:Ec end;
    [unfold claims_hold; cbn [st_mode]; destruct (bool_decide (sn_evidenceClass n = HumanNeeded)); exact I|].
  all: apply orb_false_iff in Ec as [Er _]; apply negb_false_iff in Er; destruct (Hn Er) as [H1 H2]; cbn; eauto 8.
Qed.

Lemma reduce_needs_refresh s a :
  st_needsRefresh s = true -> is_refresh a = false ->
  st_mode (reduceProofState (Some s) a) <> MReady /\ st_needsRefresh (reduceProofState (Some s) a) = true.
Proof.
  intros Hs Ha. unfold reduceProofState. cbn. destruct a as [| | |v source]; try done.
  destruct (parseProofSnapshot v) as [[|n o]|]; try done. unfold reduce_snapshot.
  destruct source; [done| |]; rewrite Hs.
  - destruct o; [unfold after_ping; cbn; by repeat case_match|].
    cbn. rewrite orb_true_r. cbn. by destruct (bool_decide _).
  - destruct o; cbn; rewrite orb_true_r; cbn; by destruct (bool_decide _).
Qed.

(** Whatever the page is told, the panel offers a ping only beside a current
    snapshot ready for one with its isolation verified, and claims an open-air
    reply only beside a successful ping on open-air evidence; and once a ping
    was run, a failure shown or facts changed, it offers no ping again before a
    snapshot the operator refreshed. *)
Theorem proof_panel_claims actions a s :
  claims_hold (reduceProofState (proof_run actions s) a) /\
  (st_needsRefresh (default initial s) = true -> forallb (fun a => negb (is_refresh a)) (actions ++ [a]) = true ->
   st_mode (reduceProofState (proof_run actions s) a) <> MReady).
Proof.
  split; [apply reduce_claims|]. revert s. induction actions as [|b actions IH]; intros s Hs Hf.
  - destruct s as [s|]; [|done]. apply (proj1 (reduce_needs_refresh s a Hs ltac:(cbn in Hf; destruct (is_refresh a); done))).
  - cbn in Hf |- *. apply andb_prop in Hf as [Hb Hf]. apply negb_true_iff in Hb. apply IH; [|done]. cbn.
    destruct s as [s|]; [|done]. by apply reduce_needs_refresh.
Qed.
