(* ===== verification/Watchdog.v ===== *)
(** * The page's deadline for one case ([apps/modem-ui/src/cyrinx-case-watchdog.ts])

    [CyrinxCaseWatchdog] with the timers of the page: the handles that are live,
    the callback that runs when one of them fires, and the failures handed to
    [onFailure].  [emitOnce] is the last thing each method does, so a handler
    that calls the watchdog back is a further call after it. *)

From stdpp Require Import base list numbers option strings.
From Stdlib Require Import ZArith Lia.
From S2P Require Import Prelude Utf8 Texts Corpus Qualification.

Definition CYRINX_BROWSER_CASE_TIMEOUT_MS : Z := 25000.

(** [mode]: 'listen' or 'transmit', as an instruction's action. *)
Record CyrinxBrowserCase := mkBrowserCase {
  bc_epoch : Z; bc_caseId : jsstring; bc_direction : LiteralDirection; bc_mode : CyrinxInstructionAction }.

#[export] Instance CyrinxBrowserCase_eq_dec : EqDecision CyrinxBrowserCase.
Proof. solve_decision. Defined.

Record CyrinxAuthoritativeCaseSnapshot := mkCaseSnapshot {
  cs_epoch : Z; cs_codec : CyrinxSessionCodec; cs_terminal : bool; cs_instruction : option CyrinxBrowserCase }.

(** Epoch, direction and case, separated by NUL: the mode is no part of it. *)
Definition identity (value : CyrinxBrowserCase) : jsstring :=
  number_text (bc_epoch value) ++ [0] ++ direction_text (bc_direction value) ++ [0] ++ bc_caseId value.

Definition sameCyrinxBrowserCase (left : option CyrinxBrowserCase) (right : CyrinxBrowserCase) : bool :=
  bool_decide (left = Some right).

Record CyrinxCaseWatchdog := mkWatchdog {
  wd_active : option CyrinxBrowserCase;
  wd_transmitCompletionSent : bool;
  wd_timer : option nat;
  wd_reported : list jsstring;
  (* the page *)
  wd_live : list nat;
  wd_next : nat;
  wd_failures : list CyrinxBrowserCase;
}.

#[export] Instance eta_CyrinxCaseWatchdog : Eta CyrinxCaseWatchdog := fun w =>
  mkWatchdog (wd_active w) (wd_transmitCompletionSent w) (wd_timer w) (wd_reported w) (wd_live w) (wd_next w)
    (wd_failures w).

Definition new_watchdog (timeoutMs : Z) : result CyrinxCaseWatchdog :=
  reject_if negb (is_safe_integer timeoutMs) || (timeoutMs <=? 0) with "Cyrinx browser case timeout is invalid";
  Ok (mkWatchdog None false None [] [] 0 []).

Definition setTimeout (w : CyrinxCaseWatchdog) : CyrinxCaseWatchdog :=
  set wd_timer (fun _ => Some (wd_next w)) (set wd_live (fun l => l ++ [wd_next w]) (set wd_next S w)).

Definition clearTimeout (handle : nat) (w : CyrinxCaseWatchdog) : CyrinxCaseWatchdog :=
  set wd_live (List.filter (fun h => negb (h =? handle)%nat)) w.

Definition clearActive (w : CyrinxCaseWatchdog) : CyrinxCaseWatchdog :=
  let w := match wd_timer w with Some handle => clearTimeout handle w | None => w end in
  set wd_transmitCompletionSent (fun _ => false) (set wd_active (fun _ => None) (set wd_timer (fun _ => None) w)).

Definition cancel : CyrinxCaseWatchdog -> CyrinxCaseWatchdog := clearActive.

(** The failure is handed over whether the handler throws or not. *)
Definition emitOnce (value : CyrinxBrowserCase) (w : CyrinxCaseWatchdog) : CyrinxCaseWatchdog :=
  let key := identity value in
  if bool_decide (key ∈ wd_reported w) then w
  else set wd_failures (fun l => l ++ [value]) (set wd_reported (fun l => l ++ [key]) w).

Definition arm (value : CyrinxBrowserCase) (w : CyrinxCaseWatchdog) : CyrinxCaseWatchdog :=
  if sameCyrinxBrowserCase (wd_active w) value then w
  else setTimeout (set wd_transmitCompletionSent (fun _ => false) (set wd_active (fun _ => Some value) (cancel w))).

(** The callback of [arm]'s timer. *)
Definition on_timeout (w : CyrinxCaseWatchdog) : CyrinxCaseWatchdog :=
  match wd_active w with
  | None => w
  | Some active =>
      emitOnce active (set wd_timer (fun _ => None)
        (set wd_transmitCompletionSent (fun _ => false) (set wd_active (fun _ => None) w)))
  end.

Definition owns (value : CyrinxBrowserCase) (w : CyrinxCaseWatchdog) : bool := sameCyrinxBrowserCase (wd_active w) value.

Definition markTransmitCompletionSent (value : CyrinxBrowserCase) (w : CyrinxCaseWatchdog) : bool * CyrinxCaseWatchdog :=
  if negb (bool_decide (bc_mode value = Transmit)) || negb (sameCyrinxBrowserCase (wd_active w) value) then (false, w)
  else (true, set wd_transmitCompletionSent (fun _ => true) w).

Definition completeTransmitAfterAuthoritativeSnapshot (snapshot : CyrinxAuthoritativeCaseSnapshot)
    (w : CyrinxCaseWatchdog) : bool * CyrinxCaseWatchdog :=
  match wd_active w with
  | None => (false, w)
  | Some active =>
      if negb (bool_decide (bc_mode active = Transmit)) || negb (bc_epoch active =? cs_epoch snapshot)
         || negb (wd_transmitCompletionSent w) then (false, w)
      else
        let advanced := negb (bool_decide (cs_codec snapshot = CodecCyrinx)) || cs_terminal snapshot
                        || match cs_instruction snapshot with
                           | Some instruction => negb (sameCyrinxBrowserCase (Some active) instruction)
                           | None => false
                           end in
        if negb advanced then (false, w) else (true, clearActive w)
  end.

Definition fail (value : CyrinxBrowserCase) (w : CyrinxCaseWatchdog) : bool * CyrinxCaseWatchdog :=
  if negb (sameCyrinxBrowserCase (wd_active w) value) then (false, w)
  else (true, emitOnce value (clearActive w)).

Definition complete (value : CyrinxBrowserCase) (w : CyrinxCaseWatchdog) : bool * CyrinxCaseWatchdog :=
  if negb (sameCyrinxBrowserCase (wd_active w) value) then (false, w) else (true, clearActive w).

(** ** Every sequence of calls and timeouts *)

Inductive WatchdogEvent :=
  | WArm (value : CyrinxBrowserCase)
  | WMark (value : CyrinxBrowserCase)
  | WSnapshot (snapshot : CyrinxAuthoritativeCaseSnapshot)
  | WFail (value : CyrinxBrowserCase)
  | WComplete (value : CyrinxBrowserCase)
  | WCancel
  | WTimeout (handle : nat).

(** A timer fires only while it is live, and only once. *)
Definition watchdog_event (e : WatchdogEvent) (w : CyrinxCaseWatchdog) : CyrinxCaseWatchdog :=
  match e with
  | WArm value => arm value w
  | WMark value => (markTransmitCompletionSent value w).2
  | WSnapshot snapshot => (completeTransmitAfterAuthoritativeSnapshot snapshot w).2
  | WFail value => (fail value w).2
  | WComplete value => (complete value w).2
  | WCancel => cancel w
  | WTimeout handle => if bool_decide (handle ∈ wd_live w) then on_timeout (clearTimeout handle w) else w
  end.

Definition watchdog_run (events : list WatchdogEvent) (w : CyrinxCaseWatchdog) : CyrinxCaseWatchdog :=
  foldl (fun w e => watchdog_event e w) w events.

Definition fresh : CyrinxCaseWatchdog := mkWatchdog None false None [] [] 0 [].

Example timeout_is_positive : new_watchdog 0 = Throw "Cyrinx browser case timeout is invalid".
Proof. reflexivity. Qed.

Example default_watchdog : new_watchdog CYRINX_BROWSER_CASE_TIMEOUT_MS = Ok fresh.
Proof. reflexivity. Qed.

(** ** Lemmas *)

Lemma direction_text_inj d d' : direction_text d = direction_text d' -> d = d'.
Proof. by destruct d, d'. Qed.

Lemma direction_no_nul d : 0 ∉ direction_text d.
Proof. intros H%list_elem_of_In. destruct d; cbn in H; lia. Qed.

Lemma identity_inj v v' :
  identity v = identity v' ->
  bc_epoch v = bc_epoch v' /\ bc_direction v = bc_direction v' /\ bc_caseId v = bc_caseId v'.
Proof.
  unfold identity. intros E.
  apply split_at_separator in E as [E1 E]; [|apply number_text_avoids; lia..].
  apply split_at_separator in E as [E2 E3]; [|apply direction_no_nul..].
  by apply number_text_inj in E1; apply direction_text_inj in E2.
Qed.

(** The timer is live exactly while a case is watched, and what was reported is
    remembered; [armed] are the cases [arm] was ever called with. *)
Record watchdog_ok (armed : list CyrinxBrowserCase) (w : CyrinxCaseWatchdog) : Prop := {
  ok_timer : match wd_active w with
             | Some v => v ∈ armed /\ exists h, wd_timer w = Some h /\ wd_live w = [h]
             | None => wd_timer w = None /\ wd_live w = [] end;
  ok_reported : wd_reported w = map identity (wd_failures w);
  ok_once : NoDup (wd_reported w);
  ok_armed : forall v, v ∈ wd_failures w -> v ∈ armed;
}.

Lemma filter_handle h : List.filter (fun h' => negb (h' =? h)%nat) [h] = [].
Proof. cbn. by rewrite Nat.eqb_refl. Qed.

Lemma clearActive_ok armed w : watchdog_ok armed w -> watchdog_ok armed (clearActive w) /\ wd_active (clearActive w) = None.
Proof.
  intros [Ht Hr Hn Ha]. split; [|by unfold clearActive; destruct (wd_timer w)].
  unfold clearActive. destruct (wd_active w) as [v|] eqn:E.
  - destruct Ht as (_ & h & -> & Hl). split; unfold clearTimeout, set; cbn; auto. split; [done|]. by rewrite Hl, filter_handle.
  - destruct Ht as [-> Hl]. split; unfold set; cbn; auto.
Qed.

Lemma emitOnce_ok armed v w :
  watchdog_ok armed w -> v ∈ armed ->
  watchdog_ok armed (emitOnce v w) /\ wd_active (emitOnce v w) = wd_active w
  /\ identity v ∈ map identity (wd_failures (emitOnce v w)).
Proof.
  intros [Ht Hr Hn Ha] Hv. unfold emitOnce. case_bool_decide as Hin.
  - rewrite Hr in Hin. by split.
  - split; [|split; [done|unfold set; cbn; rewrite map_app; apply elem_of_app; right; apply list_elem_of_here]].
    split; unfold set; cbn; [done|by rewrite map_app, Hr| |].
    + apply NoDup_app. split; [done|]. split; [|apply NoDup_singleton]. by intros x Hx ->%list_elem_of_singleton.
    + intros v' [H| ->%list_elem_of_singleton]%elem_of_app; auto.
Qed.

Lemma on_timeout_ok armed h v w :
  watchdog_ok armed w -> wd_active w = Some v -> wd_live w = [h] ->
  let w' := on_timeout (clearTimeout h w) in
  watchdog_ok armed w' /\ wd_active w' = None /\ identity v ∈ map identity (wd_failures w').
Proof.
  intros [Ht Hr Hn Ha] Hv Hl. rewrite Hv in Ht. destruct Ht as (Hin & h' & Hh & Hl').
  unfold on_timeout. change (wd_active (clearTimeout h w)) with (wd_active w). rewrite Hv.
  match goal with |- context [emitOnce v ?x] => destruct (emitOnce_ok armed v x) as (H1 & H2 & H3) end; [|done|by rewrite H2].
  split; unfold clearTimeout, set; cbn; try done. split; [done|]. by rewrite Hl, filter_handle.
Qed.

Lemma watchdog_ok_more armed v w : watchdog_ok armed w -> watchdog_ok (armed ++ [v]) w.
Proof.
  intros [Ht Hr Hn Ha]. split; try done.
  - destruct (wd_active w); [|done]. split; [|apply Ht]. apply elem_of_app. left. apply Ht.
  - intros v' H. apply elem_of_app. left. auto.
Qed.

Lemma arm_ok armed v w : watchdog_ok armed w -> watchdog_ok (armed ++ [v]) (arm v w).
Proof.
  intros Hw. unfold arm. destruct (sameCyrinxBrowserCase _ _); [by apply watchdog_ok_more|].
  destruct (clearActive_ok armed w Hw) as [Hc Hnone]. unfold cancel.
  destruct (watchdog_ok_more _ v _ Hc) as [Ht Hr Hn Ha]. rewrite Hnone in Ht. destruct Ht as [_ Hl].
  split; unfold set; cbn; try done. split; [apply elem_of_app; right; apply list_elem_of_here|]. exists (wd_next (clearActive w)). split; [done|].
  change (wd_live _ ++ _ = [wd_next (clearActive w)]) with (wd_live (clearActive w) ++ [wd_next (clearActive w)] = [wd_next (clearActive w)]).
  by rewrite Hl.
Qed.

Definition armed_by (e : WatchdogEvent) : list CyrinxBrowserCase := match e with WArm v => [v] | _ => [] end.

Lemma watchdog_event_ok armed e w : watchdog_ok armed w -> watchdog_ok (armed ++ armed_by e) (watchdog_event e w).
Proof.
  intros Hw. pose proof (clearActive_ok armed w Hw) as [Hc Hnone].
  destruct e as [v|v|snap|v|v| |h]; cbn [armed_by watchdog_event]; [by apply arm_ok|rewrite app_nil_r..].
  - unfold markTransmitCompletionSent. destruct (_ || _); cbn [snd]; [done|]. by destruct Hw.
  - unfold completeTransmitAfterAuthoritativeSnapshot. destruct (wd_active w); [|done].
    destruct (_ || _ || _); [done|]. cbv zeta. by destruct (negb _).
  - unfold fail. destruct (sameCyrinxBrowserCase _ _) eqn:E; cbn [negb snd]; [|done].
    apply bool_decide_eq_true_1 in E. destruct Hw as [Ht _ _ _]. rewrite E in Ht. by apply emitOnce_ok; [|apply Ht].
  - unfold complete. by destruct (sameCyrinxBrowserCase _ _).
  - done.
  - case_bool_decide as Hin; [|done]. pose proof Hw as [Ht _ _ _]. destruct (wd_active w) as [v|] eqn:E.
    + destruct Ht as (_ & h' & _ & Hl). rewrite Hl in Hin. apply list_elem_of_singleton in Hin as ->.
      by apply (on_timeout_ok armed h' v w).
    + destruct Ht as [_ Hl]. rewrite Hl in Hin. by apply elem_of_nil in Hin.
Qed.

Lemma watchdog_run_ok events armed w :
  watchdog_ok armed w -> watchdog_ok (armed ++ concat (map armed_by events)) (watchdog_run events w).
Proof.
  revert armed w. induction events as [|e events IH]; intros armed w Hw; cbn; [by rewrite app_nil_r|].
  rewrite app_assoc. by apply IH, watchdog_event_ok.
Qed.

(** C24: whatever is called and whenever its timers fire, the watchdog reports a
    case of an epoch and direction at most once, and only one it was armed with;
    it keeps exactly one timer while it watches a case and none otherwise; being
    armed again with that case moves nothing; and when the timer fires the case
    has been reported and is watched no more. *)
Theorem watchdog_reports_once events :
  let w := watchdog_run events fresh in
  (forall i j v v', wd_failures w !! i = Some v -> wd_failures w !! j = Some v' ->
     bc_epoch v = bc_epoch v' -> bc_direction v = bc_direction v' -> bc_caseId v = bc_caseId v' -> i = j)
  /\ (forall v, v ∈ wd_failures w -> WArm v ∈ events)
  /\ match wd_active w with
     | None => wd_live w = []
     | Some v =>
         WArm v ∈ events /\ watchdog_event (WArm v) w = w
         /\ exists h, wd_live w = [h]
            /\ let w' := watchdog_event (WTimeout h) w in
               wd_active w' = None /\ wd_live w' = []
               /\ exists r, r ∈ wd_failures w' /\ bc_epoch r = bc_epoch v /\ bc_direction r = bc_direction v
                            /\ bc_caseId r = bc_caseId v
     end.
Proof.
  intros w. assert (Hw : watchdog_ok (concat (map armed_by events)) w).
  { apply (watchdog_run_ok events [] fresh). split; cbn; [done|done|apply NoDup_nil_2|]. by intros v ?%elem_of_nil. }
  assert (Harmed : forall v, v ∈ concat (map armed_by events) -> WArm v ∈ events).
  { intros v Hv. apply list_elem_of_In, in_concat in Hv as (l & Hl & Hv). apply in_map_iff in Hl as (e & <- & He).
    apply list_elem_of_In. destruct e; cbn in Hv; try done. by destruct Hv as [->|[]]. }
  pose proof Hw as [Ht Hr Hn Ha]. split; [|split].
  - intros i j v v' Hi Hj E1 E2 E3. rewrite Hr in Hn. rewrite NoDup_alt in Hn.
    apply (Hn i j (identity v)); [by rewrite map_fmap, list_lookup_fmap, Hi|].
    rewrite map_fmap, list_lookup_fmap, Hj. cbn. unfold identity. by rewrite E1, E2, E3.
  - auto.
  - destruct (wd_active w) as [v|] eqn:E; [|apply Ht]. destruct Ht as (Hin & h & Hh & Hl).
    split; [auto|]. split.
    { cbn. unfold arm, sameCyrinxBrowserCase. by rewrite E, bool_decide_eq_true_2. }
    exists h. split; [done|]. cbn [watchdog_event]. rewrite bool_decide_eq_true_2 by (rewrite Hl; apply list_elem_of_here).
    destruct (on_timeout_ok _ h v w Hw E Hl) as (H1 & H2 & H3). split; [done|]. split.
    { destruct H1 as [H1 _ _ _]. rewrite H2 in H1. apply H1. }
    apply list_elem_of_In, in_map_iff in H3 as (r & E' & Hr'). apply list_elem_of_In in Hr'. exists r.
    split; [done|]. by apply identity_inj.
Qed.
