(* ===== verification/UiQualification.v ===== *)
(** * The page's part in a qualification
    ([apps/modem-ui/src]: [qualification-session.ts], [qualification.ts];
    [packages/bridge/src/codecs/types.ts])

    The display reducer of the runner's snapshots, the gate that admits adapter
    results one by one, the run from Cyrinx to Quiet, and the selection over a
    set of results.  Texts that a sender chooses stay texts; times and sizes the
    source compares are numbers; epochs and counts are integers. *)

From stdpp Require Import base list numbers option strings.
From Stdlib Require Import ZArith Lia SpecFloat.
From S2P Require Import Prelude Utf8 Doubles Json Regex Texts Corpus.

(** ** Snapshots of the runner's session *)

Record CyrinxSessionSnapshot := mkUiSnapshot {
  us_codec : string; us_stage : string; us_startedAtMs : option double; us_deadlineAtMs : option double;
  us_elapsedMs : option double; us_reasonCode : option string }.

#[export] Instance eta_CyrinxSessionSnapshot : Eta CyrinxSessionSnapshot := fun s =>
  mkUiSnapshot (us_codec s) (us_stage s) (us_startedAtMs s) (us_deadlineAtMs s) (us_elapsedMs s) (us_reasonCode s).

Definition REASONS : list string :=
  ["cyrinx_build_failed"; "cyrinx_digital_roundtrip_failed"; "cyrinx_cold_a_to_b_failed"; "cyrinx_cold_b_to_a_failed";
   "cyrinx_corpus_failed"; "cyrinx_deadline_expired"]%string.

Definition STAGES : list string :=
  ["idle"; "build"; "digital"; "cold-a-to-b"; "cold-b-to-a"; "corpus"; "quiet"; "complete"; "unqualified"]%string.

Record CyrinxQualificationSession := mkUiSession { uq_state : CyrinxSessionSnapshot; uq_quietStarted : bool }.

#[export] Instance eta_UiSession : Eta CyrinxQualificationSession := fun s => mkUiSession (uq_state s) (uq_quietStarted s).

Definition new_ui_session : CyrinxQualificationSession :=
  mkUiSession (mkUiSnapshot "idle" "idle" None None None None) false.

Definition is_codec (c : string) (s : CyrinxSessionSnapshot) : bool := bool_decide (us_codec s = c).

Definition is_fallback_codec (s : CyrinxSessionSnapshot) : bool := is_codec "quiet" s || is_codec "unqualified" s.

Definition canRequestStart (s : CyrinxQualificationSession) : bool := is_codec "idle" (uq_state s).
Definition shouldStartQuiet (s : CyrinxQualificationSession) : bool :=
  is_codec "quiet" (uq_state s) && negb (uq_quietStarted s).

(** [startedAtMs], [deadlineAtMs] and [elapsedMs] are integers, ninety minutes
    apart. *)
Definition deadline_valid (c : CyrinxSessionSnapshot) : bool :=
  match us_startedAtMs c, us_deadlineAtMs c, us_elapsedMs c with
  | Some started, Some deadline, Some elapsed =>
      match d_integer started, d_integer deadline, d_integer elapsed with
      | Some _, Some _, Some _ =>
          negb (d_ltb started (d_of_Z 0)) && d_eqb (d_sub deadline started) (d_of_Z 5400000)
          && negb (d_ltb elapsed (d_of_Z 0))
      | _, _, _ => false
      end
  | _, _, _ => false
  end.

(** [left !== right], for numbers that may be missing. *)
Definition differ (left right : option double) : bool :=
  match left, right with
  | Some x, Some y => negb (d_eqb x y)
  | None, None => false
  | _, _ => true
  end.

(** The empty text is as good as none. *)
Definition reason_given (reason : option string) : bool :=
  match reason with Some r => negb (bool_decide (r = EmptyString)) | None => false end.

Definition known_reason (reason : option string) : bool :=
  match reason with Some r => bool_decide (r ∈ REASONS) | None => false end.

Definition has_reason (c : CyrinxSessionSnapshot) : bool :=
  match us_reasonCode c with Some _ => true | None => false end.

Definition apply_snapshot (candidate : CyrinxSessionSnapshot) (s : CyrinxQualificationSession) :
    result CyrinxQualificationSession :=
  let state := uq_state s in
  reject_if negb (bool_decide (us_stage candidate ∈ STAGES)) with "runner session stage is invalid";
  if is_codec "idle" candidate then
    reject_if negb (bool_decide (us_stage candidate = "idle"%string)) || negb (is_codec "idle" state)
      with "runner session attempted to restart Cyrinx";
    Ok s
  else
    reject_if negb (deadline_valid candidate) with "runner session deadline is invalid";
    reject_if is_codec "cyrinx" candidate && has_reason candidate
      with "Cyrinx runner session cannot carry a fallback reason";
    reject_if is_fallback_codec candidate && (negb (reason_given (us_reasonCode candidate)) || negb (known_reason (us_reasonCode candidate)))
      with "runner fallback reason is invalid";
    let? _ := (if is_codec "idle" state then Ok tt
               else
                 reject_if differ (us_startedAtMs candidate) (us_startedAtMs state)
                           || differ (us_deadlineAtMs candidate) (us_deadlineAtMs state)
                   with "runner session deadline changed";
                 reject_if is_fallback_codec state && is_codec "cyrinx" candidate
                   with "runner session attempted to retry Cyrinx";
                 reject_if reason_given (us_reasonCode state)
                           && negb (bool_decide (us_reasonCode candidate = us_reasonCode state))
                   with "runner session changed its first failure reason";
                 Ok tt) in
    Ok (set uq_state (fun _ => candidate) s).

Definition markQuietStarted (s : CyrinxQualificationSession) : result CyrinxQualificationSession :=
  reject_if negb (shouldStartQuiet s) with "Quiet cannot start without an authoritative fallback";
  Ok (set uq_quietStarted (fun _ => true) s).

Definition markQuietFailed (s : CyrinxQualificationSession) : result CyrinxQualificationSession :=
  reject_if negb (is_codec "quiet" (uq_state s)) with "Quiet failure has no active fallback";
  Ok (set uq_state (fun state => set us_codec (fun _ => "unqualified"%string)
                                   (set us_stage (fun _ => "unqualified"%string) state)) s).

Inductive UiSessionCall := UApply (candidate : CyrinxSessionSnapshot) | UQuietStarted | UQuietFailed.

(** A call that throws leaves the session as it was. *)
Definition ui_session_call (c : UiSessionCall) (s : CyrinxQualificationSession) : CyrinxQualificationSession :=
  match (match c with UApply v => apply_snapshot v s | UQuietStarted => markQuietStarted s | UQuietFailed => markQuietFailed s end) with
  | Ok s' => s'
  | Throw _ => s
  end.

Definition ui_session_run (cs : list UiSessionCall) (s : CyrinxQualificationSession) : CyrinxQualificationSession :=
  foldl (fun s c => ui_session_call c s) s cs.

(** ** Adapter results *)

Inductive EvidenceClass := Fixture | Loopback | OpenAir.

#[export] Instance EvidenceClass_eq_dec : EqDecision EvidenceClass.
Proof. solve_decision. Defined.

Record CodecProfile := mkProfile { cp_codec : string; cp_name : jsstring; cp_audible : bool; cp_advertisedMtu : Z }.

Record QueueEvidence := mkQueues {
  qe_captureHighWaterBytes : double; qe_captureHighWaterMs : double; qe_playbackHighWaterBytes : double;
  qe_playbackHighWaterMs : double; qe_discontinuities : double }.

Record AdapterResult := mkResult {
  ar_adapter : string; ar_profile : CodecProfile; ar_evidenceClass : EvidenceClass; ar_epoch : Z;
  ar_direction : jsstring; ar_caseId : jsstring; ar_digest : jsstring; ar_bytePerfect : bool; ar_deliveryCount : Z;
  ar_acquisitionMs : double; ar_airtimeMs : double; ar_coldAcquired : bool; ar_complete : bool; ar_audioPassed : bool; ar_queues : QueueEvidence;
  ar_reasonCode : option jsstring }.

Record GateOptions := mkGateOptions { go_expectedEpoch : Z; go_deadLinkTimeoutMs : double }.

Inductive Decision := DPending | DHumanNeeded | DRejected | DCyrinx | DQuiet | DUnqualified.

#[export] Instance Decision_eq_dec : EqDecision Decision.
Proof. solve_decision. Defined.

Record GateDecision := mkDecision { gd_decision : Decision; gd_reasonCodes : list jsstring }.

Definition VALID_DIRECTIONS : list jsstring := [direction_text AtoB; direction_text BtoA].
Definition QUALIFYING_SMALL : Z := 19.
Definition QUALIFYING_LARGE : Z := 5.
Definition MAX_QUEUE_BYTES : double := d_of_Z (256 * 1024).
Definition MAX_QUEUE_DURATION_MS : double := d_of_Z 5000.

Definition is_blank (s : jsstring) : bool := forallb is_space s.

(** [/^[a-f0-9]{64}$/i] *)
Definition is_digest (s : jsstring) : bool := string_of is_hex 64 64 s.

Definition queues_exceeded (q : QueueEvidence) : bool :=
  d_ltb MAX_QUEUE_BYTES (qe_captureHighWaterBytes q) || d_ltb MAX_QUEUE_BYTES (qe_playbackHighWaterBytes q)
  || d_ltb MAX_QUEUE_DURATION_MS (qe_captureHighWaterMs q) || d_ltb MAX_QUEUE_DURATION_MS (qe_playbackHighWaterMs q)
  || d_ltb (d_of_Z 0) (qe_discontinuities q).

Definition invalidResult (r : AdapterResult) (options : GateOptions) : option jsstring :=
  let timeout := go_deadLinkTimeoutMs options in
  if negb (ar_epoch r =? go_expectedEpoch options) then Some (js "stale_epoch")
  else if negb (ar_complete r) then Some (js "partial_evidence")
  else if negb (bool_decide (ar_direction r ∈ VALID_DIRECTIONS)) || is_blank (ar_caseId r) then Some (js "missing_case")
  else if negb (is_digest (ar_digest r)) || negb (ar_bytePerfect r) then Some (js "bad_digest")
  else if negb (ar_deliveryCount r =? 1) then Some (js "delivery_not_exactly_once")
  else if negb (ar_coldAcquired r) then Some (js "cold_acquisition_failed")
  else if negb (ar_audioPassed r) then Some (js "audio_preflight_failed")
  else if negb (d_is_finite timeout) || d_leb timeout (d_of_Z 0) then Some (js "dead_link_timeout_invalid")
  else if cp_advertisedMtu (ar_profile r) <? 1357 then Some (js "minimum_mtu_required")
  else if negb (cp_audible (ar_profile r)) then Some (js "audible_profile_required")
  else if d_ltb (ar_airtimeMs r) (d_of_Z 0) || d_leb (d_div timeout (d_of_Z 3)) (ar_airtimeMs r)
  then Some (js "airtime_budget_exceeded")
  else if queues_exceeded (ar_queues r) then Some (js "queue_bound_exceeded")
  else ar_reasonCode r.

(** Epoch, direction and case, separated by NUL. *)
Definition result_identity (r : AdapterResult) : jsstring :=
  number_text (ar_epoch r) ++ [0] ++ ar_direction r ++ [0] ++ ar_caseId r.

Record QualificationGate := mkGate { ga_seen : list jsstring; ga_decision : GateDecision }.

Definition new_gate : QualificationGate := mkGate [] (mkDecision DPending []).

Definition gate_reject (reason : jsstring) (g : QualificationGate) : QualificationGate :=
  mkGate (ga_seen g) (mkDecision DRejected [reason]).

(** A reason that is the empty text is no reason. *)
Definition truthy (reason : option jsstring) : option jsstring :=
  match reason with Some [] => None | r => r end.

(** The decision returned is [ga_decision] of the gate after the call. *)
Definition gate_accept (options : GateOptions) (r : AdapterResult) (g : QualificationGate) : QualificationGate :=
  let decision := gd_decision (ga_decision g) in
  if bool_decide (decision = DRejected) || bool_decide (decision = DUnqualified) then g
  else match truthy (invalidResult r options) with
  | Some invalid => gate_reject invalid g
  | None =>
      if bool_decide (result_identity r ∈ ga_seen g) then gate_reject (js "duplicate_case") g
      else mkGate (ga_seen g ++ [result_identity r])
             (if bool_decide (ar_evidenceClass r = OpenAir) then ga_decision g
              else mkDecision DHumanNeeded [js "non_physical_evidence"])
  end.

Definition reduceQualificationEvent := gate_accept.

(** ** The run *)

Inductive ActiveCodec := AIdle | ACyrinx | AQuiet | AUnqualified.

#[export] Instance ActiveCodec_eq_dec : EqDecision ActiveCodec.
Proof. solve_decision. Defined.

Record CyrinxRunState := mkRunState {
  ru_activeCodec : ActiveCodec; ru_deadlineAtMs : option Z; ru_reasonCodes : list jsstring }.

Record CyrinxQualificationRun := mkRun {
  rn_state : CyrinxRunState; rn_cyrinxGate : QualificationGate; rn_quietGate : QualificationGate }.

#[export] Instance eta_CyrinxQualificationRun : Eta CyrinxQualificationRun := fun r =>
  mkRun (rn_state r) (rn_cyrinxGate r) (rn_quietGate r).

Definition new_run : CyrinxQualificationRun := mkRun (mkRunState AIdle None []) new_gate new_gate.

Definition run_start (nowMs : Z) (r : CyrinxQualificationRun) : CyrinxQualificationRun :=
  if decide (ru_activeCodec (rn_state r) = AIdle)
  then set rn_state (fun _ => mkRunState ACyrinx (Some (nowMs + 90 * 60 * 1000)) []) r else r.

Definition run_fallback (reason : jsstring) (r : CyrinxQualificationRun) : CyrinxQualificationRun :=
  set rn_state (fun s => mkRunState AQuiet (ru_deadlineAtMs s) [reason]) r.

Definition run_unqualified (reason : jsstring) (r : CyrinxQualificationRun) : CyrinxQualificationRun :=
  set rn_state (fun s => mkRunState AUnqualified (ru_deadlineAtMs s) [reason]) r.

Definition first_reason (otherwise : string) (d : GateDecision) : jsstring := default (js otherwise) (head (gd_reasonCodes d)).

(** The state returned, and the run after the call. *)
Definition run_accept (options : GateOptions) (result : AdapterResult) (nowMs : Z) (r : CyrinxQualificationRun) :
    CyrinxRunState * CyrinxQualificationRun :=
  match ru_activeCodec (rn_state r) with
  | AIdle => (mkRunState AUnqualified None [js "cyrinx_not_started"], r)
  | AUnqualified => (rn_state r, r)
  | ACyrinx =>
      let r' :=
        if default 0 (ru_deadlineAtMs (rn_state r)) <=? nowMs then run_fallback (js "cyrinx_deadline_expired") r
        else if negb (bool_decide (ar_adapter result = "cyrinx"%string)) then run_fallback (js "cyrinx_adapter_mismatch") r
        else
          let gate := gate_accept options result (rn_cyrinxGate r) in
          let r := set rn_cyrinxGate (fun _ => gate) r in
          if bool_decide (gd_decision (ga_decision gate) = DRejected)
          then run_fallback (first_reason "cyrinx_gate_failed" (ga_decision gate)) r else r in
      (rn_state r', r')
  | AQuiet =>
      let r' :=
        if negb (bool_decide (ar_adapter result = "quiet"%string)) then run_unqualified (js "quiet_adapter_mismatch") r
        else
          let gate := gate_accept options result (rn_quietGate r) in
          let r := set rn_quietGate (fun _ => gate) r in
          if bool_decide (gd_decision (ga_decision gate) = DRejected)
          then run_unqualified (first_reason "quiet_gate_failed" (ga_decision gate)) r else r in
      (rn_state r', r')
  end.

(** Calls of the run, in any order. *)
Inductive RunCall := RunStart (nowMs : Z) | RunAccept (result : AdapterResult) (nowMs : Z).

Definition run_call (options : GateOptions) (c : RunCall) (r : CyrinxQualificationRun) : CyrinxQualificationRun :=
  match c with
  | RunStart nowMs => run_start nowMs r
  | RunAccept result nowMs => (run_accept options result nowMs r).2
  end.

Definition run_all (options : GateOptions) (calls : list RunCall) (r : CyrinxQualificationRun) : CyrinxQualificationRun :=
  foldl (fun r c => run_call options c r) r calls.

(** ** The selection *)

Fixpoint js_includes (needle s : jsstring) : bool :=
  bool_decide (take (length needle) s = needle) || match s with [] => false | _ :: s' => js_includes needle s' end.

Definition case_size (caseId : jsstring) : Z := if js_includes (js "1536") caseId then 1536 else 256.

Definition in_direction (direction : jsstring) (results : list AdapterResult) : list AdapterResult :=
  List.filter (fun r => bool_decide (ar_direction r = direction)) results.

Definition distinct (ids : list jsstring) : bool := bool_decide (length (remove_dups ids) = length ids).

Definition of_size (size : Z) (results : list AdapterResult) : list AdapterResult :=
  List.filter (fun r => case_size (ar_caseId r) =? size) results.

(** The first direction that does not do. *)
Fixpoint check_directions (directions : list jsstring) (results : list AdapterResult) : option GateDecision :=
  match directions with
  | [] => None
  | direction :: rest =>
      let values := in_direction direction results in
      if negb (distinct (map ar_caseId values)) then Some (mkDecision DUnqualified [js "duplicate_case"])
      else if (zlen (of_size 256 values) <? QUALIFYING_SMALL) || (zlen (of_size 1536 values) <? QUALIFYING_LARGE)
      then Some (mkDecision DHumanNeeded [js "corpus_incomplete"])
      else check_directions rest results
  end.

Definition evaluateSelection (results : list AdapterResult) (expectedHosts : list jsstring) : GateDecision :=
  match expectedHosts with
  | [a; b] =>
      if bool_decide (a = b) then mkDecision DHumanNeeded [js "exact_hosts_required"]
      else match results with
      | [] => mkDecision DHumanNeeded [js "open_air_evidence_required"]
      | first :: _ =>
          if existsb (fun r => negb (bool_decide (ar_evidenceClass r = OpenAir))) results
          then mkDecision DHumanNeeded [js "open_air_evidence_required"]
          else match check_directions VALID_DIRECTIONS results with
          | Some decision => decision
          | None =>
              let profile := ar_profile first in
              if existsb (fun r => negb (bool_decide (cp_codec (ar_profile r) = cp_codec profile))
                                   || negb (bool_decide (cp_name (ar_profile r) = cp_name profile))) results
              then mkDecision DUnqualified [js "profile_mismatch"]
              else if bool_decide (cp_codec profile = "cyrinx"%string) then mkDecision DCyrinx []
              else if bool_decide (cp_codec profile = "quiet"%string) then mkDecision DQuiet []
              else mkDecision DUnqualified [js "unsupported_codec"]
          end
      end
  | _ => mkDecision DHumanNeeded [js "exact_hosts_required"]
  end.

(** ** Lemmas: the session *)

(** A reason belongs to a fallback. *)
Definition ui_session_ok (s : CyrinxQualificationSession) : Prop :=
  is_codec "cyrinx" (uq_state s) || is_codec "idle" (uq_state s) = true -> us_reasonCode (uq_state s) = None.

Lemma apply_snapshot_inv c s s' :
  apply_snapshot c s = Ok s' ->
  s' = s
  \/ (s' = set uq_state (fun _ => c) s /\ is_codec "idle" c = false /\ deadline_valid c = true
      /\ (is_codec "cyrinx" c = true -> us_reasonCode c = None)
      /\ (is_codec "idle" (uq_state s) = false -> reason_given (us_reasonCode (uq_state s)) = true ->
          us_reasonCode c = us_reasonCode (uq_state s))).
Proof.
  unfold apply_snapshot. intros H. result_inv. destruct (is_codec "idle" c) eqn:Ei; result_inv; [by left|right].
  split; [done|]. split; [done|]. bool_split. split; [done|]. split.
  - intros Hc. rewrite Hc in *. cbn in *. unfold has_reason in *. by destruct (us_reasonCode c).
  - intros Hi Hr. rewrite Hi in *. result_inv. rewrite Hr in *. bool_split. cbn in *. by bool_split.
Qed.

Lemma ui_session_call_ok c s : ui_session_ok s -> ui_session_ok (ui_session_call c s).
Proof.
  intros Hs. unfold ui_session_call. destruct c as [c| |].
  - destruct (apply_snapshot c s) as [s'|] eqn:E; [|done].
    apply apply_snapshot_inv in E as [->|(-> & Hi & _ & Hc & _)]; [done|]. unfold ui_session_ok.
    change (uq_state (set uq_state (fun _ => c) s)) with c. by rewrite Hi, orb_false_r.
  - unfold markQuietStarted, require_not. by destruct (negb _).
  - unfold markQuietFailed, require_not. by destruct (negb _).
Qed.

Lemma ui_session_run_ok cs s : ui_session_ok s -> ui_session_ok (ui_session_run cs s).
Proof. revert s. induction cs as [|c cs IH]; intros s Hs; [done|]. by apply IH, ui_session_call_ok. Qed.

(** Once the runner named a reason it stays, and the page never shows Cyrinx
    again. *)
Lemma ui_fallback_stays cs more r :
  let s := ui_session_run cs new_ui_session in
  us_reasonCode (uq_state s) = Some r -> r <> EmptyString ->
  let s' := ui_session_run more s in
  us_reasonCode (uq_state s') = Some r /\ is_codec "cyrinx" (uq_state s') = false.
Proof.
  intros s Hr Hne. assert (Hok : ui_session_ok s) by (by apply ui_session_run_ok). clearbody s.
  assert (Hnot : forall s, ui_session_ok s -> us_reasonCode (uq_state s) = Some r ->
                   is_codec "cyrinx" (uq_state s) = false /\ is_codec "idle" (uq_state s) = false).
  { intros s1 Hs1 E. apply orb_false_elim. apply not_true_is_false. intros Hx. rewrite Hs1 in E by done. done. }
  revert s Hr Hok. induction more as [|c more IH]; intros s Hr Hok; [by split; [|apply Hnot]|].
  cbn. apply IH; [|by apply ui_session_call_ok]. destruct (Hnot s Hok Hr) as [_ Hi].
  unfold ui_session_call. destruct c as [c| |].
  - destruct (apply_snapshot c s) as [s'|] eqn:E; [|done].
    apply apply_snapshot_inv in E as [->|(-> & _ & _ & _ & H)]; [done|].
    change (uq_state (set uq_state (fun _ => c) s)) with c. rewrite H; [done..|].
    rewrite Hr. cbn. by rewrite bool_decide_eq_false_2.
  - unfold markQuietStarted, require_not. by destruct (negb _).
  - unfold markQuietFailed, require_not. by destruct (negb _).
Qed.

(** ** Lemmas: the run *)

(** What the gate asks of one result. *)
Definition admissible (options : GateOptions) (r : AdapterResult) : Prop := truthy (invalidResult r options) = None.

Lemma gate_accept_decision options r g :
  gd_decision (ga_decision g) <> DRejected -> gd_decision (ga_decision g) <> DUnqualified ->
  let g' := gate_accept options r g in
  gd_decision (ga_decision g') <> DUnqualified
  /\ (gd_decision (ga_decision g') <> DRejected ->
       admissible options r /\ (result_identity r ∉ ga_seen g) /\ ga_seen g' = ga_seen g ++ [result_identity r]).
Proof.
  intros H1 H2. unfold gate_accept, admissible. rewrite !bool_decide_eq_false_2 by done. cbn [orb].
  destruct (truthy (invalidResult r options)) eqn:E; [done|]. case_bool_decide; [done|].
  cbn. by destruct (bool_decide (ar_evidenceClass r = OpenAir)).
Qed.

Definition cyrinx_evidence (options : GateOptions) (start : Z) (calls : list (AdapterResult * Z)) : Prop :=
  Forall (fun c => c.2 < start + 5400000 /\ ar_adapter c.1 = "cyrinx"%string /\ admissible options c.1) calls
  /\ NoDup (map (fun c => result_identity c.1) calls).

(** The order in which the codecs follow each other. *)
Definition rank (c : ActiveCodec) : Z := match c with AIdle => 0 | ACyrinx => 1 | AQuiet => 2 | AUnqualified => 3 end.

(** Once started, a run only moves on, to the same deadline. *)
Definition moves_on (r r' : CyrinxQualificationRun) : Prop :=
  rank (ru_activeCodec (rn_state r)) <= rank (ru_activeCodec (rn_state r'))
  /\ (ru_activeCodec (rn_state r) <> AIdle -> ru_deadlineAtMs (rn_state r') = ru_deadlineAtMs (rn_state r)).

#[local] Instance moves_on_refl : Reflexive moves_on.
Proof. split; [lia|done]. Qed.

#[local] Instance moves_on_trans : Transitive moves_on.
Proof.
  intros r1 r2 r3 [H1 H2] [H3 H4]. split; [lia|]. intros Hi. rewrite <- (H2 Hi). apply H4.
  intros E. rewrite E in H1. by destruct (ru_activeCodec (rn_state r1)).
Qed.

Lemma run_call_moves_on options c r : moves_on r (run_call options c r).
Proof.
  destruct c as [now|x now]; cbn [run_call].
  - unfold run_start. case_decide as E; [|done]. split; by rewrite E.
  - unfold run_accept. destruct (ru_activeCodec (rn_state r)) eqn:E; cbn [snd]; [done|..|done].
    all: cbv zeta; repeat case_match; (split; [|done]); rewrite E; unfold run_fallback, run_unqualified, set; cbn -[Z.le]; rewrite ?E; cbn -[Z.le]; lia.
Qed.

Lemma run_all_moves_on options calls r : moves_on r (run_all options calls r).
Proof.
  revert r. induction calls as [|c calls IH]; intros r; [done|]. transitivity (run_call options c r); [apply run_call_moves_on|apply IH].
Qed.

Lemma run_all_app options calls more r : run_all options (calls ++ more) r = run_all options more (run_all options calls r).
Proof. apply foldl_app. Qed.

(** The time of the first start, and the results given since. *)
Fixpoint started_at (calls : list RunCall) : option Z :=
  match calls with [] => None | RunStart now :: _ => Some now | RunAccept _ _ :: rest => started_at rest end.

Fixpoint given (calls : list RunCall) : list (AdapterResult * Z) :=
  match calls with [] => [] | RunStart _ :: rest => given rest | RunAccept x now :: rest => (x, now) :: given rest end.

Fixpoint given_since_start (calls : list RunCall) : list (AdapterResult * Z) :=
  match calls with [] => [] | RunStart _ :: rest => given rest | RunAccept _ _ :: rest => given_since_start rest end.

Lemma run_accept_cyrinx options start seen r x now :
  ru_activeCodec (rn_state r) = ACyrinx -> ru_deadlineAtMs (rn_state r) = Some (start + 5400000) ->
  gd_decision (ga_decision (rn_cyrinxGate r)) <> DRejected ->
  gd_decision (ga_decision (rn_cyrinxGate r)) <> DUnqualified ->
  ga_seen (rn_cyrinxGate r) = map (fun c : AdapterResult * Z => result_identity c.1) seen ->
  cyrinx_evidence options start seen ->
  let r' := (run_accept options x now r).2 in
  ru_deadlineAtMs (rn_state r') = Some (start + 5400000) /\
  (ru_activeCodec (rn_state r') = AQuiet
   \/ (ru_activeCodec (rn_state r') = ACyrinx
       /\ gd_decision (ga_decision (rn_cyrinxGate r')) <> DRejected
       /\ gd_decision (ga_decision (rn_cyrinxGate r')) <> DUnqualified
       /\ ga_seen (rn_cyrinxGate r') = map (fun c : AdapterResult * Z => result_identity c.1) (seen ++ [(x, now)])
       /\ cyrinx_evidence options start (seen ++ [(x, now)]))).
Proof.
  intros Hc Hd Hr Hu Hs [Hall Hnd]. unfold run_accept. rewrite Hc, Hd. cbn [snd default].
  change (id (start + 5400000)) with (start + 5400000).
  destruct (Z.leb_spec (start + 5400000) now); [split; [exact Hd|by left]|].
  destruct (bool_decide_reflect (ar_adapter x = "cyrinx"%string)) as [Ha|]; cbn [negb]; [|split; [exact Hd|by left]].
  destruct (gate_accept_decision options x (rn_cyrinxGate r) Hr Hu) as [H1 H2].
  cbv zeta in H1, H2 |- *. revert H1 H2. generalize (gate_accept options x (rn_cyrinxGate r)). intros gate H1 H2.
  case_bool_decide as Hdec; [split; [exact Hd|by left]|]. destruct (H2 Hdec) as (Had & Hni & Hseen).
  split; [exact Hd|]. right. split; [done|]. split; [done|]. split; [done|]. split.
  - unfold set. cbn. by rewrite Hseen, Hs, map_app.
  - split; [apply Forall_app; split; [done|by apply Forall_singleton]|]. rewrite map_app.
    apply NoDup_app. split; [done|]. split; [|apply NoDup_singleton].
    intros k Hk ->%list_elem_of_singleton. by rewrite Hs in Hni.
Qed.

(** A run on Cyrinx, and what it was given. *)
Lemma run_all_cyrinx options start calls seen r :
  ru_activeCodec (rn_state r) = ACyrinx -> ru_deadlineAtMs (rn_state r) = Some (start + 5400000) ->
  gd_decision (ga_decision (rn_cyrinxGate r)) <> DRejected ->
  gd_decision (ga_decision (rn_cyrinxGate r)) <> DUnqualified ->
  ga_seen (rn_cyrinxGate r) = map (fun c : AdapterResult * Z => result_identity c.1) seen ->
  cyrinx_evidence options start seen ->
  ru_activeCodec (rn_state (run_all options calls r)) = ACyrinx -> cyrinx_evidence options start (seen ++ given calls).
Proof.
  revert seen r. induction calls as [|[now|x now] calls IH]; intros seen r Hc Hd Hr Hu Hs He; cbn [run_all foldl run_call given].
  - by rewrite app_nil_r.
  - unfold run_start. rewrite decide_False by congruence. by apply IH.
  - destruct (run_accept_cyrinx options start seen r x now Hc Hd Hr Hu Hs He) as [Hd' [Hq|H]].
    + intros E. destruct (run_all_moves_on options calls (run_accept options x now r).2) as [Hm _].
      unfold run_all in Hm. rewrite E, Hq in Hm. by destruct Hm.
    + destruct H as (Hc' & Hr' & Hu' & Hs' & He'). rewrite cons_middle, app_assoc. by apply IH.
Qed.

(** Before it is started, a run is as it was made. *)
Lemma run_unstarted options calls :
  match started_at calls with
  | None => run_all options calls new_run = new_run
  | Some start => exists before after, calls = before ++ RunStart start :: after /\ run_all options before new_run = new_run
                    /\ given_since_start calls = given after
  end.
Proof.
  assert (H : forall calls, match started_at calls with
     | None => run_all options calls new_run = new_run
     | Some start => exists before after, calls = before ++ RunStart start :: after /\ run_all options before new_run = new_run
                    /\ given_since_start calls = given after end); [|apply H].
  clear calls. induction calls as [|[now|x now] calls IH]; cbn [started_at]; [done|by exists [], calls|].
  destruct (started_at calls) as [start|]; [|exact IH]. destruct IH as (before & after & -> & Hb & Hg).
  by exists (RunAccept x now :: before), after.
Qed.

(** C25: whatever it is called with - results before and after it is started,
    starts again - a run is idle until it is first started, and its deadline is
    ever after ninety minutes from then; it goes from idle to Cyrinx, from
    Cyrinx to Quiet, and from Quiet to unqualified, and never back; and it is
    still on Cyrinx only if every result given since the start came from the
    Cyrinx adapter, before the deadline, passed every test of the gate, and was
    of a case not seen before. *)
Theorem run_is_one_way options calls more :
  let r := run_all options calls new_run in
  let r' := run_all options (calls ++ more) new_run in
  (ru_activeCodec (rn_state r) = AIdle <-> started_at calls = None)
  /\ ru_deadlineAtMs (rn_state r) = (fun start => start + 5400000) <$> started_at calls
  /\ rank (ru_activeCodec (rn_state r)) <= rank (ru_activeCodec (rn_state r'))
  /\ (ru_activeCodec (rn_state r) = ACyrinx ->
        exists start, started_at calls = Some start /\ cyrinx_evidence options start (given_since_start calls)).
Proof.
  cbv zeta. rewrite run_all_app. assert (Hm : rank (ru_activeCodec (rn_state (run_all options calls new_run)))
    <= rank (ru_activeCodec (rn_state (run_all options more (run_all options calls new_run))))) by apply run_all_moves_on.
  pose proof (run_unstarted options calls) as H. destruct (started_at calls) as [start|].
  - destruct H as (before & after & -> & Hb & Hg). rewrite run_all_app, Hb in *. cbn [run_all foldl run_call] in *.
    destruct (run_all_moves_on options after (run_start start new_run)) as [H1 H2]. change (foldl _ (run_start start new_run) after)
      with (run_all options after (run_start start new_run)) in *.
    split; [split; [|done]; intros E; rewrite E in H1; by destruct H1|]. split; [by apply H2|]. split; [exact Hm|].
    intros Hc. exists start. split; [done|]. rewrite Hg.
    apply (run_all_cyrinx options start after [] (run_start start new_run)); try done. split; [done|apply NoDup_nil_2].
  - rewrite H in *. by split_and!.
Qed.

(** ** The selection *)

Lemma existsb_negb_all {A} (p : A -> bool) l : existsb (fun x => negb (p x)) l = false -> forallb p l = true.
Proof. induction l as [|x l IH]; [done|]. cbn. intros [H1 H2]%orb_false_elim. by rewrite (negb_false_iff (p x)) in H1; rewrite H1, IH. Qed.

Lemma remove_dups_length_NoDup (l : list jsstring) : length (remove_dups l) = length l -> NoDup l.
Proof.
  induction l as [|x l IH]; [intros; apply NoDup_nil_2|]. cbn.
  assert (Hle : forall l : list jsstring, (length (remove_dups l) <= length l)%nat).
  { intros l'. induction l' as [|y l' IH']; [done|]. cbn. case_decide; cbn; lia. }
  specialize (Hle l). case_decide as Hin; cbn; intros H; [lia|]. apply NoDup_cons. split; [done|]. apply IH. lia.
Qed.

(** Enough distinct cases of one direction. *)
Definition direction_covered (results : list AdapterResult) (direction : jsstring) : Prop :=
  let values := in_direction direction results in
  NoDup (map ar_caseId values) /\ QUALIFYING_SMALL <= zlen (of_size 256 values)
  /\ QUALIFYING_LARGE <= zlen (of_size 1536 values).

Lemma check_directions_none directions results :
  check_directions directions results = None -> Forall (direction_covered results) directions.
Proof.
  induction directions as [|d rest IH]; [done|]. cbn.
  destruct (distinct _) eqn:Ed; [|done]. cbn [negb]. destruct (_ || _) eqn:Es; [done|]. intros H.
  constructor; [|by apply IH]. apply orb_false_elim in Es as [H1 H2]. apply Z.ltb_ge in H1, H2.
  split; [|done]. apply bool_decide_eq_true_1 in Ed. by apply remove_dups_length_NoDup.
Qed.

Lemma check_directions_some directions results d :
  check_directions directions results = Some d -> gd_decision d = DUnqualified \/ gd_decision d = DHumanNeeded.
Proof.
  induction directions as [|x rest IH]; [done|]. cbn.
  destruct (negb _); [intros [= <-]; by left|]. destruct (_ || _); [intros [= <-]; by right|done].
Qed.

(** A codec is selected only from open-air results of two different hosts,
    all of that codec and of one profile, which cover each direction with at
    least nineteen small and five large cases, none of them twice. *)
Theorem selection_requires_open_air results hosts codec :
  let d := gd_decision (evaluateSelection results hosts) in
  (d = DCyrinx /\ codec = "cyrinx"%string) \/ (d = DQuiet /\ codec = "quiet"%string) ->
  (exists a b, hosts = [a; b] /\ a <> b)
  /\ Forall (fun r => ar_evidenceClass r = OpenAir /\ cp_codec (ar_profile r) = codec) results
  /\ Forall (direction_covered results) VALID_DIRECTIONS
  /\ (forall r r', r ∈ results -> r' ∈ results -> cp_name (ar_profile r) = cp_name (ar_profile r')).
Proof.
  cbv zeta. unfold evaluateSelection. intros H.
  destruct hosts as [|a [|b [|]]]; try (by destruct H as [[? _]|[? _]]).
  case_bool_decide as Hab; [by destruct H as [[? _]|[? _]]|].
  destruct results as [|first rest]; [by destruct H as [[? _]|[? _]]|].
  destruct (existsb (fun r => negb (bool_decide (ar_evidenceClass r = OpenAir))) (first :: rest)) eqn:Eo;
    [by destruct H as [[? _]|[? _]]|].
  destruct (check_directions VALID_DIRECTIONS (first :: rest)) as [d|] eqn:Ec.
  { apply check_directions_some in Ec. destruct H as [[E _]|[E _]], Ec as [E'|E']; congruence. }
  destruct (existsb (fun r => _ || _) (first :: rest)) eqn:Ep; [by destruct H as [[? _]|[? _]]|].
  apply existsb_negb_all in Eo. rewrite forallb_forall in Eo.
  assert (Hp : forall r, r ∈ first :: rest ->
    cp_codec (ar_profile r) = cp_codec (ar_profile first) /\ cp_name (ar_profile r) = cp_name (ar_profile first)).
  { intros r Hr. apply list_elem_of_In in Hr.
    rewrite <- not_true_iff_false, existsb_exists in Ep.
    destruct (decide (cp_codec (ar_profile r) = cp_codec (ar_profile first))) as [E1|E1],
      (decide (cp_name (ar_profile r) = cp_name (ar_profile first))) as [E2|E2]; [done|..]; destruct Ep; exists r;
      (split; [done|]); repeat case_bool_decide; done. }
  assert (Hcodec : cp_codec (ar_profile first) = codec).
  { case_bool_decide as E1; [|case_bool_decide as E2].
    all: destruct H as [[Hd ->]|[Hd ->]]; cbn in Hd; try discriminate Hd; assumption. }
  split; [by exists a, b|]. split; [|split; [by apply check_directions_none|]].
  - apply Forall_forall. intros r Hr. split; [|by rewrite (proj1 (Hp r Hr))].
    apply list_elem_of_In in Hr. specialize (Eo r Hr). by apply bool_decide_eq_true_1 in Eo.
  - intros r r' Hr Hr'. by rewrite (proj2 (Hp r Hr)), (proj2 (Hp r' Hr')).
Qed.

Definition sample_profile : CodecProfile := mkProfile "quiet" (js "audible-7k-channel-0") true 1357.

Definition sample_result (direction : LiteralDirection) (size : string) (i : nat) : AdapterResult :=
  mkResult "quiet" sample_profile OpenAir 1 (direction_text direction) (js size ++ number_text (Z.of_nat i)) [] true 1
    (d_of_Z 0) (d_of_Z 1000) true true true (mkQueues (d_of_Z 0) (d_of_Z 0) (d_of_Z 0) (d_of_Z 0) (d_of_Z 0)) None.

Definition sample_results : list AdapterResult :=
  concat (map (fun d => map (sample_result d "case-256-") (seq 0 19) ++ map (sample_result d "case-1536-") (seq 0 5))
              [AtoB; BtoA]).

Lemma selection_requires_open_air_witness :
  gd_decision (evaluateSelection sample_results [js "a"; js "b"]) = DQuiet
  /\ Forall (direction_covered sample_results) VALID_DIRECTIONS.
Proof.
  assert (E : gd_decision (evaluateSelection sample_results [js "a"; js "b"]) = DQuiet) by (vm_compute; reflexivity).
  split; [exact E|].
  apply (selection_requires_open_air sample_results [js "a"; js "b"] "quiet"). right. split; [exact E|reflexivity].
Defined.
