(* ===== verification/JsonText.v ===== *)
(** * [JSON.stringify]

    The text of a value: own properties in insertion order, [undefined] left
    out of objects and written as [null] in arrays, strings quoted with the
    escapes of the language.  A number that is no integer below 10^21 is printed
    by a parameter. *)

From stdpp Require Import base list numbers option strings.
From Stdlib Require Import ZArith Lia SpecFloat.
From S2P Require Import Prelude Utf8 Doubles Json Encodings Texts.

Definition hex4 (u : Z) : jsstring :=
  let digit n := if n <? 10 then 48 + n else 87 + n in
  [digit (u / 4096); digit (u / 256 mod 16); digit (u / 16 mod 16); digit (u mod 16)].

Definition is_surrogate (u : Z) : bool := (0xD800 <=? u) && (u <=? 0xDFFF).
Definition is_high (u : Z) : bool := (0xD800 <=? u) && (u <=? 0xDBFF).
Definition is_low (u : Z) : bool := (0xDC00 <=? u) && (u <=? 0xDFFF).

Definition escape_unit (u : Z) : jsstring :=
  if (u =? 34) || (u =? 92) then [92; u]
  else if u =? 8 then js "\b" else if u =? 9 then js "\t" else if u =? 10 then js "\n"
  else if u =? 12 then js "\f" else if u =? 13 then js "\r"
  else if (u <? 32) || is_surrogate u then js "\u" ++ hex4 u
  else [u].

(** A surrogate is escaped unless it is half of a pair. *)
Fixpoint quote_units (s : jsstring) : jsstring :=
  match s with
  | [] => []
  | u :: s' =>
      match s' with
      | v :: s'' => if is_high u && is_low v then u :: v :: quote_units s'' else escape_unit u ++ quote_units s'
      | [] => escape_unit u
      end
  end.

Definition quote (s : jsstring) : jsstring := [34] ++ quote_units s ++ [34].

Fixpoint comma_separated (parts : list jsstring) : jsstring :=
  match parts with [] => [] | [p] => p | p :: rest => p ++ [44] ++ comma_separated rest end.

Section Stringify.
Context (other_number : double -> jsstring).

Definition number_json (x : double) : jsstring :=
  if negb (d_is_finite x) then js "null"
  else match d_integer x with
  | Some z => if Z.abs z <? 10 ^ 21 then number_text z else other_number x
  | None => other_number x
  end.

(** The text of a value, nothing for [undefined]. *)
Fixpoint stringify (v : value) : option jsstring :=
  match v with
  | VUndefined => None
  | VNull => Some (js "null")
  | VBool b => Some (js (if b then "true" else "false"))
  | VNumber x => Some (number_json x)
  | VString s => Some (quote s)
  | VArray items => Some ([91] ++ comma_separated (map (fun item => default (js "null") (stringify item)) items) ++ [93])
  | VObject fields =>
      Some ([123] ++ comma_separated
        ((fix members (l : list (jsstring * value)) : list jsstring :=
            match l with
            | [] => []
            | (key, item) :: l' =>
                match stringify item with
                | Some text => (quote key ++ [58] ++ text) :: members l'
                | None => members l'
                end
            end) fields) ++ [125])
  end.
End Stringify.

Example stringify_object :
  stringify (fun _ => []) (VObject [(js "a", vint 12); (js "b", VUndefined); (js "c", VArray [VUndefined; VBool true])])
  = Some (js "{" ++ [34] ++ js "a" ++ [34] ++ js ":12," ++ [34] ++ js "c" ++ [34] ++ js ":[null,true]}").
Proof. vm_compute. reflexivity. Qed.
