(* ===== verification/Report.v ===== *)
(** * Qualification reports ([packages/bridge/src/report.ts])

    What a machine reports of a qualification, the validation of a report and of
    the evidence of its tunnel preflight, and the selection of a codec from the
    reports of two machines.  A report is read from a file, so it is any value;
    a refusal throws its reason code, reading a property of nothing throws a
    [TypeError]. *)

From stdpp Require Import base list numbers option strings.
From Stdlib Require Import ZArith Lia SpecFloat.
From S2P Require Import Prelude Utf8 Doubles Json Regex Corpus.

Definition MAX_QUEUE_BYTES : Z := 256 * 1024.
Definition MAX_QUEUE_DURATION_MS : Z := 10000.
Definition QUALIFICATION_DEAD_LINK_TIMEOUT_MS : Z := 30000.
Definition CYRINX_DEADLINE_MS : Z := 90 * 60 * 1000.
Definition CYRINX_FALLBACK_REASONS : list string :=
  ["cyrinx_build_failed"; "cyrinx_digital_roundtrip_failed"; "cyrinx_cold_a_to_b_failed"; "cyrinx_cold_b_to_a_failed";
   "cyrinx_corpus_failed"; "cyrinx_deadline_expired"]%string.

Record PinnedCodec := mkCodec {
  pc_id : string; pc_commit : string; pc_profile : string; pc_audible : bool; pc_advertisedMtu : Z }.

Definition QUIET_CODEC : PinnedCodec :=
  mkCodec "quiet" "72782542a41f1b615a02c2ab43a0edb56edb6ce4" "audible-7k-channel-0" true 1357.
Definition CYRINX_CODEC : PinnedCodec :=
  mkCodec "cyrinx" "ddbd0ce4f78963403f96b0100eb49950b544aef8" "bulk-qpsk-r1-2-48k-v1" true 1536.

Definition TUN_EVIDENCE_CHECKS : list string :=
  ["imagePinned"; "tunDevice"; "netAdmin"; "noNewPrivileges"; "notPrivileged"; "sysAdminAbsent"; "hostNetworkAbsent";
   "loopbackPortsOnly"; "interfaceCreated"; "ipv6Assigned"; "cleanupComplete"]%string.

(** [MANIFEST.get(id)] *)
Definition manifest_case (id : jsstring) : option CorpusManifestCase :=
  List.find (fun e => bool_decide (js (cm_id e) = id)) manifest_cases.

(** ** Values *)

(** [value.key] *)
Definition member (v : value) (key : string) : result value :=
  match v with
  | VUndefined | VNull => Throw "TypeError"
  | VObject f => Ok (get key f)
  | _ => Ok VUndefined
  end.

(** [value?.key] *)
Definition opt_member (v : value) (key : string) : value :=
  match v with VObject f => get key f | _ => VUndefined end.

(** [left === right]; two objects read from different places are different. *)
Definition strict_equal (v w : value) : bool :=
  match v, w with
  | VUndefined, VUndefined | VNull, VNull => true
  | VBool a, VBool b => Bool.eqb a b
  | VNumber x, VNumber y => d_eqb x y
  | VString s, VString t => bool_decide (s = t)
  | _, _ => false
  end.

Definition is_truthy (v : value) : bool :=
  match v with
  | VUndefined | VNull => false
  | VBool b => b
  | VNumber x => match x with S754_zero _ | S754_nan => false | _ => true end
  | VString s => negb (bool_decide (s = []))
  | VArray _ | VObject _ => true
  end.

Definition is_one_of (l : list string) (v : value) : bool := existsb (fun s => is_literal s v) l.

(** The text a value is turned into by [RegExp.prototype.test], where that can
    match: a string, or an array of one. *)
Fixpoint tested_text (v : value) : option jsstring :=
  match v with VString s => Some s | VArray [v] => tested_text v | _ => None end.

Definition js_ends_with (suffix : string) (s : jsstring) : bool :=
  bool_decide (drop (length s - length (js suffix)) s = js suffix) && (length (js suffix) <=? length s)%nat.

(** A property name in the text of a reason. *)
Fixpoint ascii_text (s : jsstring) : string :=
  match s with [] => EmptyString | c :: s' => String (Ascii.ascii_of_N (Z.to_N c)) (ascii_text s') end.

Definition when (test : bool) (reason : string) : result unit := require_not test reason.

(** Is every element fine? The first that is not decides. *)
Fixpoint each {A} (check : A -> result unit) (l : list A) : result unit :=
  match l with [] => Ok tt | x :: l' => let? _ := check x in each check l' end.

(** [list.some(test)], where a test may throw. *)
Fixpoint some {A} (test : A -> result bool) (l : list A) : result bool :=
  match l with
  | [] => Ok false
  | x :: l' => let? b := test x in if b : bool then Ok true else some test l'
  end.

Definition qualificationReason (error : string) (otherwise : string) : string :=
  if bool_decide (error = "TypeError"%string) then otherwise else error.

(** ** Assertions *)

Definition is_blank_text (s : jsstring) : bool := forallb is_space s.

Definition nonEmpty (v : value) (reasonCode : string) : result unit :=
  when (match v with VString s => is_blank_text s | _ => true end) reasonCode.

Definition finiteNonNegative (v : value) (reasonCode : string) : result unit :=
  when (match v with VNumber x => negb (d_is_finite x) || d_ltb x (d_of_Z 0) | _ => true end) reasonCode.

Definition integerNonNegative (v : value) (reasonCode : string) : result unit := when (negb (is_count v)) reasonCode.

(** [/^[a-f0-9]{64}$/i] *)
Definition digest (v : value) (reasonCode : string) : result unit :=
  when (match v with VString s => negb (string_of is_hex 64 64 s) | _ => true end) reasonCode.

(** The keys of the object, whatever their order. *)
Definition exactKeys (v : value) (keys : list string) : bool :=
  match v with VObject f => same_keys keys f | _ => false end.

Definition exactTunArray (v : value) (expected : list string) (reasonCode : string) : result unit :=
  when (match v with
        | VArray items => negb ((zlen items =? zlen expected) && forallb (fun p => is_literal p.2 p.1) (combine items expected))
        | _ => true
        end) reasonCode.

(** ** The evidence of the tunnel preflight *)

Definition tun_image_pattern : string := "alpine:3.21.3@sha256:".

(** [/^alpine:3\.21\.3@sha256:[a-f0-9]{64}$/] *)
Definition is_pinned_image (v : value) : bool :=
  match tested_text v with
  | Some s => starts_with tun_image_pattern s
              && string_of is_hex_lower 64 64 (drop (length (js tun_image_pattern)) s)
  | None => false
  end.

(** [/^(127\.0\.0\.1|\[::1\]):/] *)
Definition is_loopback_port (v : value) : bool :=
  match v with VString s => starts_with "127.0.0.1:" s || starts_with "[::1]:" s | _ => false end.

Definition is_text (v : value) : bool := match v with VString s => negb (is_blank_text s) | _ => false end.

Definition array_all (p : value -> bool) (v : value) : bool :=
  match v with VArray items => forallb p items | _ => false end.

Definition object_values (v : value) : list value := match v with VObject f => map snd f | _ => [] end.

Definition validateTunEvidence (evidence : value) : result value :=
  let at_ := opt_member evidence in
  let? _ := when (negb (strict_equal (at_ "schemaVersion"%string) (vint 1))) "tun_schema_unsupported" in
  let? _ := when (negb (is_one_of ["static"; "inspect"; "lifecycle"; "exact_host"]%string (at_ "source"%string))) "tun_source_invalid" in
  let? _ := when (negb (is_one_of ["passed"; "failed"]%string (at_ "status"%string))) "tun_status_invalid" in
  let? _ := when (negb (is_pinned_image (at_ "image"%string))) "tun_image_not_pinned" in
  let? _ := when (negb (is_literal "fips-preflight0" (at_ "interfaceName"%string))
                  || negb (is_literal "fd42:6677:6677::1/64" (at_ "ipv6Address"%string))) "tun_interface_invalid" in
  let authorities := at_ "authorities"%string in
  let? _ := when (negb (exactKeys authorities ["devices"; "capabilities"; "securityOptions"; "privileged"; "networkMode";
                                               "publishedPorts"]%string)) "tun_authorities_incomplete" in
  let? _ := exactTunArray (opt_member authorities "devices") ["/dev/net/tun"%string] "tun_devices_invalid" in
  let? _ := exactTunArray (opt_member authorities "capabilities") ["NET_ADMIN"%string] "tun_capabilities_invalid" in
  let? _ := exactTunArray (opt_member authorities "securityOptions") ["no-new-privileges:true"%string]
              "tun_security_options_invalid" in
  let? _ := when (negb (strict_equal (opt_member authorities "privileged") (VBool false))
                  || negb (is_literal "none" (opt_member authorities "networkMode"))) "tun_authority_too_broad" in
  let? _ := when (negb (array_all is_loopback_port (opt_member authorities "publishedPorts"))) "tun_published_ports_invalid" in
  let checks := at_ "checks"%string in
  let? _ := when (negb (exactKeys checks TUN_EVIDENCE_CHECKS)
                  || existsb (fun check => negb (is_one_of ["passed"; "failed"; "not_run"]%string check))
                       (object_values checks)) "tun_checks_invalid" in
  let? _ := when (negb (array_all is_text (at_ "errors"%string))) "tun_errors_invalid" in
  let authorityChecks := take 8 TUN_EVIDENCE_CHECKS in
  let lifecycleChecks := drop 8 TUN_EVIDENCE_CHECKS in
  let early := is_one_of ["static"; "inspect"]%string (at_ "source"%string) in
  let lifecycle := is_literal "lifecycle" (at_ "source"%string) in
  let required := if early then authorityChecks else if lifecycle then lifecycleChecks else TUN_EVIDENCE_CHECKS in
  let inactive := if early then lifecycleChecks else if lifecycle then authorityChecks else [] in
  let? _ := when (is_literal "passed" (at_ "status"%string)
                  && (existsb (fun check => negb (is_literal "passed" (opt_member checks check))) required
                      || existsb (fun check => negb (is_literal "not_run" (opt_member checks check))) inactive
                      || match at_ "errors"%string with VArray [] => false | _ => true end))
              "tun_passed_status_inconsistent" in
  Ok evidence.

(** ** A machine's report *)

Definition direction_value (d : LiteralDirection) : value := VString (direction_text d).

Definition parse_direction (v : value) : option LiteralDirection :=
  if strict_equal v (direction_value AtoB) then Some AtoB
  else if strict_equal v (direction_value BtoA) then Some BtoA else None.

Definition is_number (v : value) (z : Z) : bool := strict_equal v (vint z).

Definition MACHINE_KEYS : list string := ["hostName"; "os"; "architecture"; "browserVersion"; "commit"]%string.

Definition QUEUE_KEYS : list string :=
  ["captureHighWaterBytes"; "captureHighWaterMs"; "playbackHighWaterBytes"; "playbackHighWaterMs"; "discontinuities"]%string.

Definition legacyAudioKeys : list string :=
  ["contextSampleRate"; "captureSampleRate"; "channels"; "echoCancellation"; "noiseSuppression"; "autoGainControl"]%string.

Definition physicalAudioKeys : list string :=
  (["microphoneLabel"; "contextState"; "inputDeviceSampleRate"; "inputDeviceChannels"]%string ++ legacyAudioKeys)%list.

Definition entries (v : value) : list (jsstring * value) := match v with VObject f => f | _ => [] end.

(** One entry of [report.audio]. *)
Definition validate_audio_entry (e : jsstring * value) : result unit :=
  let reason := ("audio_" +:+ ascii_text e.1 +:+ "_invalid") in
  if js_ends_with "Rate" e.1 || key_in ["channels"; "inputDeviceChannels"]%string e.1 then finiteNonNegative e.2 reason
  else if key_in ["microphoneLabel"; "contextState"]%string e.1 then nonEmpty e.2 reason
  else when (negb (is_bool e.2)) reason.

Definition positive_integer (v : value) : bool :=
  match v with
  | VNumber x => match d_integer x with Some z => 0 <? z | None => false end
  | _ => false
  end.

(** [/^[a-f0-9]{40}$/] *)
Definition is_commit (v : value) : bool :=
  match tested_text v with Some s => string_of is_hex_lower 40 40 s | None => false end.

Definition DEADLINE_KEYS : list string := ["startedAtMs"; "deadlineAtMs"; "elapsedMs"]%string.

(** Are the three times null, stamped, or neither? *)
Definition all_null (deadline : value) : bool := forallb (fun k => is_null (opt_member deadline k)) DEADLINE_KEYS.
Definition all_stamped (deadline : value) : bool := forallb (fun k => negb (is_null (opt_member deadline k))) DEADLINE_KEYS.

Definition is_expired (deadline : value) : bool := CYRINX_DEADLINE_MS <=? count_of (opt_member deadline "elapsedMs").

Definition validate_deadline (deadline : value) : result unit :=
  let? _ := when (negb (exactKeys deadline DEADLINE_KEYS)) "qualification_deadline_invalid" in
  let? _ := when (negb (all_null deadline) && negb (all_stamped deadline)) "qualification_deadline_invalid" in
  if all_stamped deadline then
    let? _ := each (fun k => integerNonNegative (opt_member deadline k) "qualification_deadline_invalid") DEADLINE_KEYS in
    when (negb (count_of (opt_member deadline "deadlineAtMs") - count_of (opt_member deadline "startedAtMs") =? CYRINX_DEADLINE_MS))
      "qualification_deadline_invalid"
  else Ok tt.

Definition validate_fallback (fallback deadline : value) : result unit :=
  let state := opt_member fallback "state" in
  let reasonCode := opt_member fallback "reasonCode" in
  let? _ := when (negb (exactKeys fallback ["codecId"; "state"; "reasonCode"]%string)
                  || negb (is_literal "quiet" (opt_member fallback "codecId"))
                  || negb (is_one_of ["available"; "activated"; "failed"]%string state)) "fallback_state_invalid" in
  let? _ := when (is_literal "available" state && negb (is_null reasonCode)) "fallback_state_invalid" in
  let? _ := when (negb (is_literal "available" state) && negb (is_one_of CYRINX_FALLBACK_REASONS reasonCode))
              "fallback_state_invalid" in
  let? _ := when (negb (is_literal "available" state) && negb (all_stamped deadline)) "fallback_timing_invalid" in
  if all_stamped deadline then
    when (if is_literal "cyrinx_deadline_expired" reasonCode then negb (is_expired deadline) else is_expired deadline)
      "fallback_timing_invalid"
  else Ok tt.

Definition QUALIFICATION_STAGES : list string :=
  ["idle"; "build"; "digital"; "cold-a-to-b"; "cold-b-to-a"; "corpus"; "complete"; "quiet"; "unqualified"]%string.

(** What an open-air report must have besides. *)
Definition validate_physical (report : fields) : result unit :=
  let codec := get "codec" report in
  let? _ := when (negb (is_commit (opt_member (get "machine" report) "commit"))) "build_identity_invalid" in
  let? _ := nonEmpty (opt_member codec "id") "codec_id_required" in
  let? _ := when (negb (is_bool (opt_member codec "audible"))) "codec_audibility_required" in
  let qualification := get "qualification" report in
  let? _ := when (negb (exactKeys qualification ["deadLinkTimeoutMs"; "cyrinxDeadlineMs"; "deadline"; "physicalGate";
                                                 "fallback"; "cyrinx"]%string)
                  || negb (is_number (opt_member qualification "deadLinkTimeoutMs") QUALIFICATION_DEAD_LINK_TIMEOUT_MS)
                  || negb (is_number (opt_member qualification "cyrinxDeadlineMs") CYRINX_DEADLINE_MS))
              "qualification_policy_invalid" in
  let deadline := opt_member qualification "deadline" in
  let? _ := validate_deadline deadline in
  let? _ := when (negb (is_one_of ["pending"; "failed"; "passed"]%string (opt_member qualification "physicalGate")))
              "physical_gate_invalid" in
  let? _ := validate_fallback (opt_member qualification "fallback") deadline in
  let cyrinx := opt_member qualification "cyrinx" in
  when (negb (exactKeys cyrinx ["stage"; "coldReceivePassed"]%string)
        || negb (is_one_of QUALIFICATION_STAGES (opt_member cyrinx "stage"))
        || negb (is_bool (opt_member cyrinx "coldReceivePassed"))) "cyrinx_authority_invalid".

(** One element of [report.results]. *)
Definition validate_result (epoch : value) (physical : bool) (r : value) : result unit :=
  let? resultEpoch := member r "epoch" in
  let? _ := when (negb (strict_equal resultEpoch epoch)) "stale_epoch" in
  let at_ := opt_member r in
  match parse_direction (at_ "direction"%string) with
  | None => Throw "direction_invalid"
  | Some direction =>
      let? _ := nonEmpty (at_ "caseId"%string) "case_id_required" in
      match manifest_case (default [] (as_string (at_ "caseId"%string))) with
      | None => Throw "unknown_case"
      | Some committed =>
          let? _ := when (negb (bool_decide (cm_direction committed = direction))) "manifest_direction_mismatch" in
          let? _ := finiteNonNegative (at_ "acquisitionMs"%string) "acquisition_time_invalid" in
          let? _ := finiteNonNegative (at_ "airtimeMs"%string) "airtime_invalid" in
          let? _ := integerNonNegative (at_ "deliveryCount"%string) "delivery_count_invalid" in
          let? _ := when (negb (is_bool (at_ "bytePerfect"%string))) "byte_perfect_invalid" in
          if physical then
            let? _ := when (negb (is_number (at_ "size"%string) (cm_size committed))) "manifest_size_mismatch" in
            let? _ := when (negb (is_literal (cm_sha256 committed) (at_ "expectedSha256"%string))) "manifest_digest_mismatch" in
            let? _ := (if is_null (at_ "receivedSha256"%string) then Ok tt
                       else digest (at_ "receivedSha256"%string) "received_digest_invalid") in
            let? _ := when (negb (is_bool (at_ "coldAcquired"%string)) || negb (is_bool (at_ "observed"%string))
                            || negb (is_bool (at_ "complete"%string)) || negb (is_bool (at_ "corrupt"%string)))
                        "result_state_incomplete" in
            let? _ := integerNonNegative (at_ "missing"%string) "missing_count_invalid" in
            integerNonNegative (at_ "duplicates"%string) "duplicate_count_invalid"
          else if is_undefined (at_ "digest"%string) then Ok tt else digest (at_ "digest"%string) "digest_invalid"
      end
  end.

Definition is_open_air (report : fields) : bool := is_literal "Open air" (get "evidenceClass" report).

Definition results_of (report : fields) : list value := default [] (as_array (get "results" report)).

Section Reports.
(** Does [Date.parse] understand the text? *)
Context (date_parses : jsstring -> bool).

(** What every report must have. *)
Definition validate_header (report : fields) : result unit :=
  let? _ := when (negb (is_number (get "schemaVersion" report) 1)) "schema_unsupported" in
  let? _ := when (match get "capturedAt" report with VString s => negb (date_parses s) | _ => true end) "captured_at_invalid" in
  let machine := get "machine" report in
  let? _ := when (negb (exactKeys machine MACHINE_KEYS)) "machine_identity_incomplete" in
  let? _ := each (fun e : jsstring * value => nonEmpty e.2 ("machine_" +:+ ascii_text e.1 +:+ "_required")) (entries machine) in
  let? _ := when (negb (is_one_of ["Fixture"; "Loopback"; "Open air"]%string (get "evidenceClass" report))) "evidence_class_invalid" in
  let? _ := integerNonNegative (get "epoch" report) "epoch_invalid" in
  let codec := get "codec" report in
  let? _ := nonEmpty (opt_member codec "commit") "codec_commit_required" in
  let? _ := nonEmpty (opt_member codec "profile") "codec_profile_required" in
  let? _ := when (negb (positive_integer (opt_member codec "advertisedMtu"))) "advertised_mtu_invalid" in
  let audio := get "audio" report in
  let? _ := when (negb (exactKeys audio (if is_open_air report then physicalAudioKeys else legacyAudioKeys))
                  && negb (exactKeys audio physicalAudioKeys)) "audio_evidence_incomplete" in
  let? _ := each validate_audio_entry (entries audio) in
  let queues := get "queues" report in
  let? _ := when (negb (exactKeys queues QUEUE_KEYS)) "queue_evidence_incomplete" in
  let? _ := each (fun e : jsstring * value => finiteNonNegative e.2 ("queue_" +:+ ascii_text e.1 +:+ "_invalid")) (entries queues) in
  let? _ := when (negb (is_bool (get "complete" report))
                  || match get "results" report with VArray _ => false | _ => true end) "report_state_invalid" in
  when (negb (is_undefined (get "reasonCodes" report)) && negb (array_all is_text (get "reasonCodes" report)))
    "reason_codes_invalid".

Definition validateMachineReport (candidate : value) : result fields :=
  match as_object candidate with
  | None => Throw "schema_unsupported"
  | Some report =>
      let? _ := validate_header report in
      let? _ := (if is_open_air report then validate_physical report else Ok tt) in
      let? _ := each (validate_result (get "epoch" report) (is_open_air report)) (results_of report) in
      Ok report
  end.
End Reports.
