(* ===== verification/Isolation.v ===== *)
(** * Isolation attestation ([packages/bridge/src/isolation-attestation.ts])

    The challenge Role A sends and the attestation Role B answers with: its
    validation, its digest, the responder with its replay cache and rate limit,
    and the requester's binding of an answer to its own challenge.  The socket is
    outside: a datagram is its parsed value with what the address filter said. *)

From stdpp Require Import base list numbers option strings.
From Stdlib Require Import ZArith Lia SpecFloat.
From S2P Require Import Prelude Utf8 Doubles Json JsonText Encodings Regex Texts Sha256 Corpus Report.

Definition MAX_BYTES : Z := 1024.
Definition CHALLENGE_BYTES : Z := 32.
Definition WINDOW_MS : Z := 60000.
Definition REPLAY_TTL_MS : Z := 120000.
Definition MAX_REPLAYS : nat := 32.
Definition MAX_PER_MINUTE : Z := 6.

Definition is_base64url (c : Z) : bool := is_upper c || is_lower c || is_digit c || (c =? 45) || (c =? 95).

(** [Buffer.from(text, 'base64url').byteLength], for a text of that alphabet. *)
Definition base64url_length (s : jsstring) : Z := zlen s * 6 / 8.

Definition challenge_ok (s : jsstring) : bool :=
  string_of is_base64url 43 43 s && (base64url_length s =? CHALLENGE_BYTES).

Definition challenge (v : value) : result jsstring :=
  match as_object v with
  | None => Throw "challenge_invalid"
  | Some f =>
      match get "challenge" f with
      | VString s =>
          if negb (zlen (own_keys f) =? 2) || negb (is_number (get "schemaVersion" f) 1) || negb (challenge_ok s)
          then Throw "challenge_invalid" else Ok s
      | _ => Throw "challenge_invalid"
      end
  end.

Definition challengeText (v : value) : result jsstring :=
  match v with
  | VString s => if challenge_ok s then Ok s else Throw "attestation_invalid"
  | _ => Throw "attestation_invalid"
  end.

Definition tested (p : jsstring -> bool) (v : value) : bool :=
  match tested_text v with Some s => p s | None => false end.

(** [Number.isSafeInteger(value)] *)
Definition is_safe (v : value) : bool := match as_integer v with Some _ => true | None => false end.

(** The snapshot itself, when everything in it is as it must be. *)
Definition snapshot (f : fields) (now : Z) : result fields :=
  let transport := get "transport" f in
  let link := get "link" f in
  let observedAtMs := count_of (get "observedAtMs" f) in
  if negb (is_truthy transport) || negb (is_truthy link)
     || negb (tested is_npub (get "expectedPeerPublicKey" f)) || negb (tested is_fips_ipv6 (get "targetIpv6" f))
     || negb (tested (string_of is_hex 40 40) (get "build" f)) || negb (is_count (get "epoch" f))
     || match get "settingsId" f with VString s => bool_decide (s = []) | _ => true end
     || negb (is_safe (get "observedAtMs" f)) || (WINDOW_MS <? now - observedAtMs) || (now + 1000 <? observedAtMs)
     || negb (is_literal "sound" (opt_member transport "type")) || negb (is_literal "active" (opt_member transport "state"))
     || negb (is_true_value (opt_member transport "workerUp")) || negb (is_true_value (opt_member transport "acousticReady"))
     || negb (is_safe (opt_member transport "transportId")) || negb (is_safe (opt_member link "linkId"))
     || negb (strict_equal (opt_member link "peerPublicKey") (get "expectedPeerPublicKey" f))
  then Throw "snapshot_invalid" else Ok f.

Definition ATTESTATION_KEYS : list string :=
  ["schemaVersion"; "challenge"; "expectedPeerPublicKey"; "targetIpv6"; "build"; "epoch"; "settingsId"; "observedAtMs";
   "transport"; "link"; "snapshotDigest"]%string.

Section Attestation.
Context (other_number : double -> jsstring).

(** The text whose digest binds a snapshot to a challenge. *)
Definition canonical (f : fields) (challenge : jsstring) : jsstring :=
  default [] (stringify other_number (VObject [
    (js "build", get "build" f); (js "challenge", VString challenge); (js "epoch", get "epoch" f);
    (js "expectedPeerPublicKey", get "expectedPeerPublicKey" f); (js "link", get "link" f);
    (js "observedAtMs", get "observedAtMs" f); (js "schemaVersion", vint 1); (js "settingsId", get "settingsId" f);
    (js "targetIpv6", get "targetIpv6" f); (js "transport", get "transport" f)])).

Definition snapshotDigest (f : fields) (challenge : jsstring) : jsstring :=
  sha256_hex (utf8_encode (canonical f challenge)).

(** [{ ...base, schemaVersion: 1, challenge, snapshotDigest }] *)
Definition bound (f : fields) (challenge digest : jsstring) : fields :=
  map_set (js "snapshotDigest") (VString digest)
    (map_set (js "challenge") (VString challenge) (map_set (js "schemaVersion") (vint 1) f)).

Definition parseIsolationAttestation (v : value) : result fields :=
  match as_object v with
  | None => Throw "attestation_invalid"
  | Some f =>
      match get "snapshotDigest" f with
      | VString given =>
          reject_if negb (same_keys ATTESTATION_KEYS f) || negb (string_of is_hex_lower 64 64 given) with "attestation_invalid";
          let? base := snapshot f (count_of (get "observedAtMs" f)) in
          let? request := challengeText (get "challenge" f) in
          let digest := snapshotDigest base request in
          reject_if negb (bool_decide (digest = given)) with "attestation_invalid";
          Ok (bound base request digest)
      | _ => Throw "attestation_invalid"
      end
  end.

(** ** The responder *)

Record Responder := mkResponder { re_replay : list (jsstring * Z); re_requests : list Z }.

Definition new_responder : Responder := mkResponder [] [].

(** [while (requests.length > 0 && now - requests[0] > WINDOW_MS) requests.shift()] *)
Fixpoint drop_old (now : Z) (requests : list Z) : list Z :=
  match requests with
  | [] => []
  | at_ :: rest => if WINDOW_MS <? now - at_ then drop_old now rest else requests
  end.

Definition forget_old (now : Z) (replay : list (jsstring * Z)) : list (jsstring * Z) :=
  List.filter (fun p => negb (REPLAY_TTL_MS <? now - p.2)) replay.

(** [attest] up to its [await]: the challenge it goes on with. *)
Definition attest_begin (now : Z) (v : value) (r : Responder) : result jsstring * Responder :=
  match challenge v with
  | Throw e => (Throw e, r)
  | Ok request =>
      let replay := forget_old now (re_replay r) in
      let requests := drop_old now (re_requests r) in
      if MAX_PER_MINUTE <=? zlen requests then (Throw "rate_limited", mkResponder replay requests)
      else if map_has request replay then (Throw "challenge_replayed", mkResponder replay requests)
      else (Ok request, mkResponder (map_set request now replay) (requests ++ [now]))
  end.

Definition drop_last (l : list Z) : list Z := take (length l - 1) l.

Definition respond (request : jsstring) (current : fields) : fields :=
  map_set (js "snapshotDigest") (VString (snapshotDigest current request))
    (foldl (fun f p => map_set p.1 p.2 f) [(js "schemaVersion", vint 1); (js "challenge", VString request)] current).

(** [attest] after its [await]: [taken] is what the snapshot callback gave. *)
Definition attest_settle (now : Z) (request : jsstring) (taken : result fields) (r : Responder) : result fields * Responder :=
  match (let? f := taken in snapshot f now) with
  | Throw e => (Throw e, mkResponder (map_delete request (re_replay r)) (drop_last (re_requests r)))
  | Ok current =>
      let replay := if (MAX_REPLAYS <? length (re_replay r))%nat then drop 1 (re_replay r) else re_replay r in
      let response := respond request current in
      (if MAX_BYTES <? zlen (utf8_encode (default [] (stringify other_number (VObject response))))
       then Throw "attestation_oversize" else Ok response, mkResponder replay (re_requests r))
  end.

(** ** The requester *)

Record RequestOptions := mkRequestOptions {
  ro_expectedPeerPublicKey : jsstring; ro_expectedTargetIpv6 : jsstring; ro_expectedBuild : jsstring;
  ro_expectedEpoch : Z; ro_expectedSettingsId : jsstring; ro_timeoutMs : Z; ro_maxAttempts : Z }.

Definition request_valid (o : RequestOptions) : bool :=
  is_safe_integer (ro_timeoutMs o) && (1 <=? ro_timeoutMs o) && (ro_timeoutMs o <=? 45000)
  && is_safe_integer (ro_maxAttempts o) && (1 <=? ro_maxAttempts o) && (ro_maxAttempts o <=? 2).

Definition is_text_value (s : jsstring) (v : value) : bool := strict_equal v (VString s).

(** The answer to [request], received at [now]. *)
Definition bind_answer (o : RequestOptions) (request : jsstring) (now : Z) (v : value) : result fields :=
  let? f := parseIsolationAttestation v in
  let observedAtMs := count_of (get "observedAtMs" f) in
  reject_if negb (is_text_value request (get "challenge" f))
            || negb (is_text_value (ro_expectedPeerPublicKey o) (get "expectedPeerPublicKey" f))
            || negb (is_text_value (ro_expectedTargetIpv6 o) (get "targetIpv6" f))
            || negb (is_text_value (ro_expectedBuild o) (get "build" f))
            || negb (is_number (get "epoch" f) (ro_expectedEpoch o))
            || negb (is_text_value (ro_expectedSettingsId o) (get "settingsId" f))
            || (WINDOW_MS <? now - observedAtMs) || (now + 1000 <? observedAtMs)
    with "attestation_binding_invalid";
  Ok f.

(** What can happen to the socket of one attempt.  A datagram carries whether
    the size and address filter lets it through, and its parsed body. *)
Inductive AttemptEvent :=
  | AttemptTimeout
  | AttemptTransportError
  | AttemptMessage (admitted : bool) (now : Z) (body : result value).

(** The attempt settles at the first event that settles it. *)
Fixpoint attempt (o : RequestOptions) (request : jsstring) (events : list AttemptEvent) : option (result fields) :=
  match events with
  | [] => None
  | AttemptTimeout :: _ => Some (Throw "attestation_timeout")
  | AttemptTransportError :: _ => Some (Throw "attestation_transport_error")
  | AttemptMessage admitted now body :: rest =>
      if admitted then Some (let? v := body in bind_answer o request now v) else attempt o request rest
  end.

(** The loop of attempts, each with the challenge drawn for it; [None] while an
    attempt has not settled. *)
Fixpoint attempts (o : RequestOptions) (lastError : string) (n : nat) (tries : list (jsstring * list AttemptEvent)) :
    option (result fields) :=
  match n with
  | O => Some (Throw lastError)
  | S n' =>
      match tries with
      | [] => None
      | (request, events) :: rest =>
          match attempt o request events with
          | None => None
          | Some (Ok f) => Some (Ok f)
          | Some (Throw e) => attempts o e n' rest
          end
      end
  end.

Definition requestIsolationAttestation (o : RequestOptions) (tries : list (jsstring * list AttemptEvent)) : option (result fields) :=
  if negb (request_valid o) then Some (Throw "request_invalid")
  else attempts o "attestation_timeout" (Z.to_nat (ro_maxAttempts o)) tries.
End Attestation.
