(* ===== verification/Selection.v ===== *)
(** * Selecting a codec from two reports ([packages/bridge/src/report.ts], lines 229-315) *)

From stdpp Require Import base list numbers option strings.
From Stdlib Require Import ZArith Lia SpecFloat.
From S2P Require Import Prelude Utf8 Doubles Json Regex Corpus Report.

Inductive SelectionDecision := SelCyrinx | SelQuiet | SelUnqualified | SelHumanNeeded.

#[export] Instance SelectionDecision_eq_dec : EqDecision SelectionDecision.
Proof. solve_decision. Defined.

Record SelectionReport := mkSelection {
  sr_expectedHosts : list jsstring; sr_decision : SelectionDecision; sr_reasonCodes : list string;
  sr_reports : fields * fields }.

(** [if (test) add(reasons, reason)] *)
Definition add_if (test : bool) (reason : string) (reasons : list string) : list string :=
  if test && negb (bool_decide (reason ∈ reasons)) then reasons ++ [reason] else reasons.

Definition codec_is (codec : value) (candidate : PinnedCodec) : bool :=
  is_literal (pc_id candidate) (opt_member codec "id") && is_literal (pc_commit candidate) (opt_member codec "commit")
  && is_literal (pc_profile candidate) (opt_member codec "profile")
  && strict_equal (opt_member codec "audible") (VBool (pc_audible candidate))
  && is_number (opt_member codec "advertisedMtu") (pc_advertisedMtu candidate).

Definition exactCodec (codec : value) : option SelectionDecision :=
  if codec_is codec QUIET_CODEC then Some SelQuiet else if codec_is codec CYRINX_CODEC then Some SelCyrinx else None.

(** [Math.ceil(x)] of a finite number. *)
Definition d_ceil (x : double) : Z :=
  match x with
  | S754_finite s m e =>
      let v := if s then Z.neg m else Z.pos m in if 0 <=? e then v * 2 ^ e else - (- v / 2 ^ (- e))
  | _ => 0
  end.

Fixpoint d_insert (x : double) (l : list double) : list double :=
  match l with [] => [x] | y :: l' => if d_ltb x y then x :: l else y :: d_insert x l' end.

Definition d_sort (l : list double) : list double := foldl (fun l x => d_insert x l) [] l.

(** The value below which 95 of 100 lie, infinity of no value. *)
Definition p95 (values : list double) : double :=
  let ordered := d_sort values in
  let index := Z.max 0 (d_ceil (d_mul (d_of_Z (zlen ordered)) (d_ratio 95 100)) - 1) in
  default d_infinity (ordered !! Z.to_nat index).

Definition qualifying (r : value) : bool :=
  let at_ := opt_member r in
  strict_equal (at_ "observed"%string) (VBool true) && strict_equal (at_ "complete"%string) (VBool true)
  && strict_equal (at_ "corrupt"%string) (VBool false) && is_number (at_ "missing"%string) 0
  && is_number (at_ "duplicates"%string) 0 && is_number (at_ "deliveryCount"%string) 1
  && is_truthy (at_ "bytePerfect"%string) && strict_equal (at_ "receivedSha256"%string) (at_ "expectedSha256"%string).

(** A property other than equal to itself: not a number. *)
Definition self_differs (v : value) : bool := match v with VNumber S754_nan => true | _ => false end.

Definition CODEC_KEYS : list string := ["id"; "commit"; "profile"; "audible"; "advertisedMtu"]%string.

Definition codecs_differ (first second : value) : bool :=
  existsb (fun k => self_differs (opt_member first k) || negb (strict_equal (opt_member second k) (opt_member first k)))
    CODEC_KEYS.

Definition nullish (v : value) : bool := is_undefined v || is_null v.

(** [report.qualification?.outer.inner] *)
Definition qualification_field (outer inner : string) (report : fields) : result value :=
  let q := get "qualification" report in
  if nullish q then Ok VUndefined else let? v := member q outer in member v inner.

Definition number_above (limit : Z) (v : value) : bool :=
  match v with VNumber x => d_ltb (d_of_Z limit) x | _ => false end.

Definition number_below (limit : Z) (v : value) : bool :=
  match v with VNumber x => d_ltb x (d_of_Z limit) | _ => false end.

Definition runner_unauthorised (report : fields) : bool :=
  let runner := get "runner" report in
  negb (is_truthy runner)
  || negb (strict_equal (opt_member runner "machineId") (opt_member (get "machine" report) "hostName"))
  || negb (strict_equal (opt_member runner "evidenceClass") (get "evidenceClass" report))
  || negb (is_truthy (opt_member runner "reportTarget")).

Definition audio_unfit (report : fields) : bool :=
  let at_ := opt_member (get "audio" report) in
  negb (is_truthy (at_ "microphoneLabel"%string)) || negb (is_literal "running" (at_ "contextState"%string))
  || (negb (is_number (at_ "inputDeviceSampleRate"%string) 44100) && negb (is_number (at_ "inputDeviceSampleRate"%string) 48000))
  || (negb (is_number (at_ "inputDeviceChannels"%string) 1) && negb (is_number (at_ "inputDeviceChannels"%string) 2))
  || negb (is_number (at_ "contextSampleRate"%string) 48000) || negb (is_number (at_ "captureSampleRate"%string) 48000)
  || negb (is_number (at_ "channels"%string) 1) || is_truthy (at_ "echoCancellation"%string)
  || is_truthy (at_ "noiseSuppression"%string) || is_truthy (at_ "autoGainControl"%string).

Definition queues_over (report : fields) : bool :=
  let at_ := opt_member (get "queues" report) in
  number_above MAX_QUEUE_BYTES (at_ "captureHighWaterBytes"%string) || number_above MAX_QUEUE_BYTES (at_ "playbackHighWaterBytes"%string)
  || number_above MAX_QUEUE_DURATION_MS (at_ "captureHighWaterMs"%string)
  || number_above MAX_QUEUE_DURATION_MS (at_ "playbackHighWaterMs"%string).

(** The tunnel evidence is of the exact host and passed every check; evidence
    that does not validate is as bad. *)
Definition tun_unproven (report : fields) : bool :=
  match validateTunEvidence (opt_member (get "runner" report) "tunEvidence") with
  | Throw _ => true
  | Ok tun =>
      negb (is_literal "exact_host" (opt_member tun "source")) || negb (is_literal "passed" (opt_member tun "status"))
      || existsb (fun check => negb (is_literal "passed" (opt_member (opt_member tun "checks") check))) TUN_EVIDENCE_CHECKS
  end.

Definition fallback_state : fields -> result value := qualification_field "fallback" "state".
Definition fallback_reason : fields -> result value := qualification_field "fallback" "reasonCode".
Definition cyrinx_field (key : string) (report : fields) : value :=
  opt_member (opt_member (get "qualification" report) "cyrinx") key.

(** The reasons about the codec that was run. *)
Definition quiet_reasons (reports : list fields) (reasons : list string) : result (list string) :=
  let? failed := some (fun r => let? state := fallback_state r in Ok (is_literal "failed" state)) reports in
  let reasons := add_if failed "quiet_fallback_failed" reasons in
  let? idle := some (fun r =>
      let? state := fallback_state r in
      if is_literal "available" state then Ok true
      else let? reason := fallback_reason r in Ok (negb (is_truthy reason))) reports in
  let reasons := add_if idle "quiet_fallback_not_activated" reasons in
  let? stray := some (fun r =>
      let? state := fallback_state r in
      let stage := cyrinx_field "stage" r in
      Ok (if is_literal "activated" state then negb (is_literal "quiet" stage)
          else if is_literal "failed" state then negb (is_literal "unqualified" stage) else false)) reports in
  Ok (add_if stray "quiet_stage_authority_required" reasons).

Definition cyrinx_reasons (reports : list fields) (reasons : list string) : result (list string) :=
  let? active := some (fun r =>
      let? state := fallback_state r in
      if negb (is_literal "available" state) then Ok true
      else let? reason := fallback_reason r in Ok (negb (is_null reason))) reports in
  let reasons := add_if active "unexpected_fallback_activation" reasons in
  let reasons := add_if (existsb (fun r => negb (is_literal "complete" (cyrinx_field "stage" r))) reports)
                   "cyrinx_stage_authority_required" reasons in
  Ok (add_if (existsb (fun r => negb (is_true_value (cyrinx_field "coldReceivePassed" r))) reports)
        "cyrinx_cold_authority_required" reasons).

(** Is one of the times of the deadline missing? *)
Definition unstamped (report : fields) : result bool :=
  some (fun key => let? v := qualification_field "deadline" key report in Ok (is_null v)) DEADLINE_KEYS.

Definition has_direction (d : LiteralDirection) (r : value) : bool := strict_equal (opt_member r "direction") (direction_value d).

Definition expected_cases (d : LiteralDirection) : list CorpusManifestCase :=
  List.filter (fun e => bool_decide (cm_direction e = d)) manifest_cases.

Definition is_case (e : CorpusManifestCase) (r : value) : bool := is_literal (cm_id e) (opt_member r "caseId").

Definition good_of_size (size : Z) (good : list value) : list value :=
  List.filter (fun r => is_number (opt_member r "size") size) good.

Section Selection.
(** Does [Date.parse] understand the text?  What JavaScript makes of
    [v > 0] for a [v] that is not a number. *)
Context (date_parses : jsstring -> bool) (coerced_positive : value -> bool).

(** [(v ?? 0) > 0] *)
Definition positive (v : value) : bool :=
  match v with VUndefined | VNull => false | VNumber _ => number_above 0 v | _ => coerced_positive v end.

(** The loop over the results of one direction; [seen] are the cases before. *)
Fixpoint result_reasons (results : list value) (seen : list value) (reasons : list string) : list string :=
  match results with
  | [] => reasons
  | r :: rest =>
      let at_ := opt_member r in
      let observed := is_truthy (at_ "observed"%string) in
      let reasons := add_if (existsb (strict_equal (at_ "caseId"%string)) seen
                             || (observed && (positive (at_ "duplicates"%string) || negb (is_number (at_ "deliveryCount"%string) 1))))
                       "duplicate_case" reasons in
      let reasons := add_if (observed && (negb (strict_equal (at_ "receivedSha256"%string) (at_ "expectedSha256"%string))
                                          || negb (is_truthy (at_ "bytePerfect"%string)) || is_truthy (at_ "corrupt"%string)))
                       "bad_digest" reasons in
      let reasons := add_if (observed && (negb (is_truthy (at_ "complete"%string)) || positive (at_ "missing"%string)))
                       "partial_evidence" reasons in
      result_reasons rest (at_ "caseId"%string :: seen) reasons
  end.

(** The reasons about one report; [d] is the direction its machine receives. *)
Definition report_reasons (cyrinx : bool) (d : LiteralDirection) (report : fields) (reasons : list string) : list string :=
  let results := results_of report in
  let reasons := add_if (existsb (fun r => negb (has_direction d r)) results) "independent_direction_required" reasons in
  let sameDirection := List.filter (has_direction d) results in
  let expectedCases := expected_cases d in
  let reasons := add_if (negb (zlen sameDirection =? zlen expectedCases)
                         || existsb (fun e => negb (existsb (is_case e) sameDirection)) expectedCases)
                   "manifest_cases_missing" reasons in
  let reasons := result_reasons sameDirection [] reasons in
  let good := List.filter qualifying sameDirection in
  let reasons := add_if ((zlen (good_of_size 256 good) <? 19) || (zlen (good_of_size 1536 good) <? 5)) "corpus_incomplete" reasons in
  let reasons := add_if (negb cyrinx && match expectedCases with
                                        | [] => true
                                        | first :: _ => negb (existsb (fun r => is_case first r && is_truthy (opt_member r "coldAcquired")) good)
                                        end) "cold_acquisition_failed" reasons in
  let q := get "qualification" report in
  let airtimes := omap as_number (map (fun r => opt_member r "airtimeMs") good) in
  let reasons := add_if (negb (is_number (opt_member q "deadLinkTimeoutMs") QUALIFICATION_DEAD_LINK_TIMEOUT_MS)
                         || d_leb (d_div (d_of_Z QUALIFICATION_DEAD_LINK_TIMEOUT_MS) (d_of_Z 3)) (p95 airtimes))
                   "airtime_budget_exceeded" reasons in
  add_if (negb (is_literal "passed" (opt_member q "physicalGate")) || negb (is_truthy (get "complete" report)))
    "physical_gate_failed" reasons.

Definition host_is (report : fields) (host : option jsstring) : bool :=
  match host with Some h => strict_equal (opt_member (get "machine" report) "hostName") (VString h) | None => false end.

(** The reasons about hosts, roles, authority, audio, queues and tunnel. *)
Definition machine_reasons (expectedHosts : list jsstring) (a b : fields) : list string :=
  let reports := [a; b] in
  let role r := opt_member (get "runner" r) "role" in
  let reasons := add_if (negb (zlen expectedHosts =? 2) || bool_decide (expectedHosts !! 0%nat = expectedHosts !! 1%nat))
                   "exact_hosts_required" [] in
  let reasons := add_if (negb (host_is a (expectedHosts !! 0%nat)) || negb (host_is b (expectedHosts !! 1%nat)))
                   "ordered_hosts_required" reasons in
  let reasons := add_if (existsb (fun r => negb (is_open_air r)) reports) "non_physical_evidence" reasons in
  let reasons := add_if (negb (is_literal "A" (role a)) || negb (is_literal "B" (role b))) "ordered_roles_required" reasons in
  let reasons := add_if (existsb runner_unauthorised reports) "runner_authority_required" reasons in
  let reasons := add_if (negb (strict_equal (opt_member (get "machine" a) "commit") (opt_member (get "machine" b) "commit")))
                   "build_mismatch" reasons in
  let reasons := add_if (existsb audio_unfit reports) "audio_preflight_failed" reasons in
  let reasons := add_if (existsb queues_over reports) "queue_bound_exceeded" reasons in
  let reasons := add_if (existsb (fun r => negb (is_number (opt_member (get "queues" r) "discontinuities") 0)) reports)
                   "queue_discontinuity" reasons in
  add_if (existsb tun_unproven reports) "exact_host_tun_required" reasons.

Definition selection_reasons (expectedHosts : list jsstring) (a b : fields) : result (option SelectionDecision * list string) :=
  let reports := [a; b] in
  let firstCodec := get "codec" a in
  let selected := exactCodec firstCodec in
  let reasons := machine_reasons expectedHosts a b in
  let reasons := add_if (codecs_differ firstCodec (get "codec" b)) "codec_mismatch" reasons in
  let reasons := add_if (negb (match selected with Some _ => true | None => false end)) "unsupported_codec" reasons in
  let? reasons := (if bool_decide (selected = Some SelQuiet) then quiet_reasons reports reasons else Ok reasons) in
  let? reasons := (if bool_decide (selected = Some SelCyrinx) then cyrinx_reasons reports reasons else Ok reasons) in
  let? missing := some unstamped reports in
  let reasons := add_if missing "cyrinx_deadline_evidence_required" reasons in
  let reasons := add_if (existsb (fun r => negb (is_true_value (opt_member (get "codec" r) "audible"))) reports)
                   "audible_profile_required" reasons in
  let reasons := add_if (existsb (fun r => number_below 1357 (opt_member (get "codec" r) "advertisedMtu")) reports)
                   "minimum_mtu_required" reasons in
  let cyrinx := bool_decide (selected = Some SelCyrinx) in
  let reasons := report_reasons cyrinx BtoA a reasons in
  Ok (selected, report_reasons cyrinx AtoB b reasons).

Definition mergeSelection (expectedHosts : list jsstring) (machineA machineB : value) : result SelectionReport :=
  let? a := validateMachineReport date_parses machineA in
  let? b := validateMachineReport date_parses machineB in
  let? outcome := selection_reasons expectedHosts a b in
  let nonphysical := negb (is_open_air a) || negb (is_open_air b) in
  let decision :=
    if nonphysical then SelHumanNeeded
    else match outcome.2, outcome.1 with [], Some selected => selected | _, _ => SelUnqualified end in
  Ok (mkSelection expectedHosts decision outcome.2 (a, b)).
End Selection.
