(* ===== verification/SelectionProps.v ===== *)
(** * What a selected codec rests on *)

From stdpp Require Import base list numbers option strings.
From Stdlib Require Import ZArith Lia SpecFloat.
From S2P Require Import Prelude Utf8 Doubles Json Regex Corpus Report Selection.

#[local] Opaque manifest_cases.

(** ** Chains of checks *)

Lemma each_ok {A} (check : A -> result unit) l u : each check l = Ok u -> forall x, x ∈ l -> check x = Ok tt.
Proof.
  revert u. induction l as [|y l IH]; cbn; [by intros _ _ x ?%elem_of_nil|]. intros u H. result_inv.
  intros x [->|Hx]%elem_of_cons; [by destruct a|by eapply IH].
Qed.

Lemma add_if_nil test reason l : add_if test reason l = [] -> test = false /\ l = [].
Proof.
  unfold add_if. destruct test; [|done]. cbn [andb]. case_bool_decide as H; cbn; intros E.
  - subst. by apply elem_of_nil in H.
  - by apply app_nil in E as [_ ?].
Qed.

Ltac no_reason :=
  repeat match goal with
  | H : add_if _ _ _ = [] |- _ => apply add_if_nil in H as [? H]
  end.

Lemma result_reasons_nil cp results seen reasons : result_reasons cp results seen reasons = [] -> reasons = [].
Proof.
  revert seen reasons. induction results as [|r rest IH]; intros seen reasons; [done|]. cbn [result_reasons].
  intros H%IH. by no_reason.
Qed.

Lemma existsb_false {A} (p : A -> bool) l : existsb p l = false -> forall x, x ∈ l -> p x = false.
Proof.
  intros H x Hx. apply not_true_is_false. intros E. rewrite <- not_true_iff_false, existsb_exists in H.
  apply H. exists x. by rewrite <- list_elem_of_In.
Qed.

Lemma existsb_negb_false {A} (p : A -> bool) l : existsb (fun x => negb (p x)) l = false -> forall x, x ∈ l -> p x = true.
Proof. intros H x Hx. apply negb_false_iff. by apply (existsb_false _ _ H). Qed.

(** ** The evidence of one machine *)

(** What [report] shows of the machine of [role], which receives direction [d]. *)
Record machine_evidence (role : string) (d : LiteralDirection) (report : fields) : Prop := {
  me_open_air : is_open_air report = true;
  me_role : is_literal role (opt_member (get "runner" report) "role") = true;
  me_authority : runner_unauthorised report = false;
  me_audio : audio_unfit report = false;
  me_queues : queues_over report = false;
  me_tun : exists tun,
    validateTunEvidence (opt_member (get "runner" report) "tunEvidence") = Ok tun
    /\ is_literal "exact_host" (opt_member tun "source") = true /\ is_literal "passed" (opt_member tun "status") = true
    /\ forall check, check ∈ TUN_EVIDENCE_CHECKS -> is_literal "passed" (opt_member (opt_member tun "checks") check) = true;
  me_direction : forall r, r ∈ results_of report -> has_direction d r = true;
  me_cases : zlen (results_of report) = zlen (expected_cases d)
    /\ forall e, e ∈ expected_cases d -> exists r, r ∈ results_of report /\ is_case e r = true;
  me_good : let good := List.filter qualifying (results_of report) in
    19 <= zlen (good_of_size 256 good) /\ 5 <= zlen (good_of_size 1536 good);
  me_digest : forall r, r ∈ results_of report -> qualifying r = true ->
    exists e, manifest_case (default [] (as_string (opt_member r "caseId"))) = Some e /\ cm_direction e = d
              /\ opt_member r "receivedSha256" = vstr (cm_sha256 e);
  me_passed : is_literal "passed" (opt_member (get "qualification" report) "physicalGate") = true
    /\ is_truthy (get "complete" report) = true;
}.

Lemma strict_equal_string v s : strict_equal v (VString s) = true -> v = VString s.
Proof. destruct v; try done. cbn. intros H. bool_split. by subst. Qed.

Lemma parse_direction_has v d d' : parse_direction v = Some d' -> strict_equal v (direction_value d) = true -> d' = d.
Proof.
  unfold parse_direction. intros H E. apply strict_equal_string in E. subst v. destruct d; cbn in H; by injection H as <-.
Qed.

(** A result of an open-air report that qualifies carries the committed digest. *)
Lemma qualifying_digest epoch d r :
  validate_result epoch true r = Ok tt -> has_direction d r = true -> qualifying r = true ->
  exists e, manifest_case (default [] (as_string (opt_member r "caseId"))) = Some e /\ cm_direction e = d
            /\ opt_member r "receivedSha256" = vstr (cm_sha256 e).
Proof.
  unfold validate_result. intros H Hd Hq. result_inv. destruct (parse_direction _) as [d'|] eqn:Ed; [|done].
  result_inv. destruct (manifest_case _) as [e|] eqn:Em; [|done]. exists e. split; [done|]. result_inv.
  unfold when, require_not in *.
  repeat match goal with H : (if ?b then Throw _ else Ok tt) = Ok _ |- _ => destruct b eqn:?; [discriminate H|clear H] end.
  bool_split. split; [by erewrite <- (parse_direction_has _ d d')|].
  match goal with H : is_literal (cm_sha256 e) _ = true |- _ => apply is_literal_inv in H as Hs end.
  unfold qualifying in Hq. bool_split. rewrite Hs in *.
  match goal with H : strict_equal (opt_member r "receivedSha256") _ = true |- _ => by apply strict_equal_string in H end.
Qed.

Lemma filter_all {A} (p : A -> bool) l : (forall x, x ∈ l -> p x = true) -> List.filter p l = l.
Proof.
  induction l as [|x l IH]; intros H; [done|]. cbn. rewrite H by apply list_elem_of_here.
  f_equal. apply IH. intros y Hy. by apply H, list_elem_of_further.
Qed.

(** What the loop over the reports finds in one without a reason against it. *)
Definition report_verdict (d : LiteralDirection) (f : fields) : Prop :=
  (forall r, r ∈ results_of f -> has_direction d r = true)
  /\ (zlen (results_of f) = zlen (expected_cases d)
      /\ forall e, e ∈ expected_cases d -> exists r, r ∈ results_of f /\ is_case e r = true)
  /\ (let good := List.filter qualifying (results_of f) in
      19 <= zlen (good_of_size 256 good) /\ 5 <= zlen (good_of_size 1536 good))
  /\ is_literal "passed" (opt_member (get "qualification" f) "physicalGate") = true
  /\ is_truthy (get "complete" f) = true.

Lemma report_reasons_nil cp cyrinx d f reasons :
  report_reasons cp cyrinx d f reasons = [] -> reasons = [] /\ report_verdict d f.
Proof.
  unfold report_reasons, report_verdict. cbv zeta. intros H. no_reason. apply result_reasons_nil in H. no_reason. split; [done|].
  match goal with E : existsb (fun r => negb (has_direction d r)) _ = false |- _ => pose proof (existsb_negb_false _ _ E) as Hd end.
  rewrite (filter_all _ _ Hd) in *. bool_split. split; [done|]. split; [|done]. split; [done|].
  match goal with E : existsb (fun e => negb (existsb _ _)) _ = false |- _ => pose proof (existsb_negb_false _ _ E) as Hc end.
  intros e He. apply Hc, existsb_exists in He as (r & Hr & Ee). exists r. by rewrite list_elem_of_In.
Qed.

Lemma tun_unproven_false f :
  tun_unproven f = false ->
  exists tun, validateTunEvidence (opt_member (get "runner" f) "tunEvidence") = Ok tun
    /\ is_literal "exact_host" (opt_member tun "source") = true /\ is_literal "passed" (opt_member tun "status") = true
    /\ forall check, check ∈ TUN_EVIDENCE_CHECKS -> is_literal "passed" (opt_member (opt_member tun "checks") check) = true.
Proof.
  unfold tun_unproven. destruct (validateTunEvidence _) as [tun|]; [|done]. intros H. apply orb_false_elim in H as [H Hc].
  bool_split. exists tun. do 3 (split; [done|]). by apply existsb_negb_false.
Qed.

(** The two hosts, in order. *)
Definition hosts_match (hosts : list jsstring) (a b : fields) : Prop :=
  exists ha hb, hosts = [ha; hb] /\ ha <> hb
    /\ opt_member (get "machine" a) "hostName" = VString ha /\ opt_member (get "machine" b) "hostName" = VString hb.

Lemma machine_reasons_nil hosts a b :
  machine_reasons hosts a b = [] ->
  hosts_match hosts a b
  /\ (forall f, f = a \/ f = b -> is_open_air f = true /\ runner_unauthorised f = false /\ audio_unfit f = false
        /\ queues_over f = false /\ tun_unproven f = false)
  /\ is_literal "A" (opt_member (get "runner" a) "role") = true /\ is_literal "B" (opt_member (get "runner" b) "role") = true
  /\ strict_equal (opt_member (get "machine" a) "commit") (opt_member (get "machine" b) "commit") = true.
Proof.
  unfold machine_reasons. cbv zeta. cbn [existsb]. intros H. no_reason. clear H.
  repeat match goal with E : _ || _ = false |- _ => apply orb_false_elim in E as [? ?] end. bool_split.
  split.
  - destruct hosts as [|ha [|hb [|]]]; try (unfold zlen in *; cbn in *; lia). exists ha, hb.
    cbn in *. split; [done|]. split; [congruence|]. by split; apply strict_equal_string.
  - split; [|done]. by intros f [->| ->].
Qed.

Lemma validated_results dp v f :
  validateMachineReport dp v = Ok f ->
  v = VObject f /\ (is_open_air f = true -> forall r, r ∈ results_of f -> validate_result (get "epoch" f) true r = Ok tt).
Proof.
  unfold validateMachineReport. destruct (as_object v) as [f'|] eqn:E; [|done]. intros H. result_inv.
  split; [by apply as_object_inv|]. intros Ho. rewrite Ho in *. by eapply each_ok.
Qed.

Lemma quiet_reasons_nil reports reasons : quiet_reasons reports reasons = Ok [] -> reasons = [].
Proof. unfold quiet_reasons. intros H. result_inv. by no_reason. Qed.

Lemma cyrinx_reasons_nil reports reasons : cyrinx_reasons reports reasons = Ok [] -> reasons = [].
Proof. unfold cyrinx_reasons. intros H. result_inv. by no_reason. Qed.

Lemma selection_reasons_nil cp hosts a b selected :
  selection_reasons cp hosts a b = Ok (selected, []) ->
  selected = exactCodec (get "codec" a) /\ machine_reasons hosts a b = []
  /\ codecs_differ (get "codec" a) (get "codec" b) = false
  /\ exists cyrinx, report_reasons cp cyrinx BtoA a [] = [] /\ report_reasons cp cyrinx AtoB b [] = [].
Proof.
  unfold selection_reasons. intros H. result_inv. split; [done|].
  match goal with E : report_reasons _ _ AtoB b _ = [] |- _ =>
    pose proof (proj1 (report_reasons_nil _ _ _ _ _ E)) as Hb; rewrite Hb in E; pose proof E as Eb end.
  pose proof (proj1 (report_reasons_nil _ _ _ _ _ Hb)) as Ha. rewrite Ha in Hb. no_reason. subst.
  repeat match goal with
  | E : (if ?c then quiet_reasons _ _ else _) = Ok [] |- _ => destruct c; [apply quiet_reasons_nil in E|injection E as E]
  | E : (if ?c then cyrinx_reasons _ _ else _) = Ok [] |- _ => destruct c; [apply cyrinx_reasons_nil in E|injection E as E]
  | E : ?x = [] |- _ => subst x
  end.
  all: no_reason; split; [done|]; split; [done|]; by eexists.
Qed.

(** C26: when two reports select a codec, they are valid and from two different
    hosts in their order and roles, the first names the codec's pinned identity
    and the second the same codec; each is open-air evidence with fit audio,
    bounded queues and the exact host's tunnel passed in every check; each has
    one result for every committed case of the direction it receives, at least
    nineteen small and five large of them flawless, and a flawless result
    received the digest committed for its case. *)
Theorem selected_codec_rests_on_evidence date_parses coerced_positive hosts machineA machineB s :
  mergeSelection date_parses coerced_positive hosts machineA machineB = Ok s ->
  sr_decision s = SelCyrinx \/ sr_decision s = SelQuiet ->
  exists a b,
    validateMachineReport date_parses machineA = Ok a /\ validateMachineReport date_parses machineB = Ok b
    /\ sr_reports s = (a, b) /\ hosts_match hosts a b
    /\ codec_is (get "codec" a) (if decide (sr_decision s = SelCyrinx) then CYRINX_CODEC else QUIET_CODEC) = true
    /\ codecs_differ (get "codec" a) (get "codec" b) = false
    /\ machine_evidence "A" BtoA a /\ machine_evidence "B" AtoB b.
Proof.
  unfold mergeSelection. intros H Hsel. result_inv.
  rename a into fa, a0 into fb, R into Ra, R0 into Rb. exists fa, fb.
  pose proof (validated_results _ _ _ Ra) as [_ Va]. pose proof (validated_results _ _ _ Rb) as [_ Vb].
  do 3 (split; [done|]).
  cbn [sr_decision] in *.
  destruct (negb (is_open_air fa) || negb (is_open_air fb)); [by destruct Hsel|].
  match goal with E : selection_reasons _ _ _ _ = Ok ?o |- _ => destruct o as [selected [|r reasons]]; cbn [fst snd] in * end;
    [|by destruct Hsel].
  match goal with E : selection_reasons _ _ _ _ = _ |- _ => apply selection_reasons_nil in E as (Es & Hm & Hc & cy & Ha & Hb) end.
  apply machine_reasons_nil in Hm as (Hh & Hf & HrA & HrB & _). split; [done|].
  destruct selected as [sel|]; [|by destruct Hsel]. split.
  { unfold exactCodec in Es. destruct (codec_is (get "codec" fa) QUIET_CODEC) eqn:Eq; [injection Es as ->; done|].
    destruct (codec_is (get "codec" fa) CYRINX_CODEC) eqn:Ec; [injection Es as ->; done|done]. }
  split; [done|].
  apply report_reasons_nil in Ha as [_ Ha], Hb as [_ Hb].
  assert (Hev : forall role d f, is_open_air f = true /\ runner_unauthorised f = false /\ audio_unfit f = false
    /\ queues_over f = false /\ tun_unproven f = false -> is_literal role (opt_member (get "runner" f) "role") = true ->
    (is_open_air f = true -> forall r, r ∈ results_of f -> validate_result (get "epoch" f) true r = Ok tt) ->
    report_verdict d f -> machine_evidence role d f).
  { intros role d f (H1 & H2 & H3 & H4 & H5) Hr V (V1 & V2 & V3 & V4).
    refine (Build_machine_evidence role d f H1 Hr H2 H3 H4 (tun_unproven_false f H5) V1 V2 V3 _ V4).
    intros r Hin Hq. exact (qualifying_digest (get "epoch" f) d r (V H1 r Hin) (V1 r Hin) Hq). }
  split; apply Hev; auto.
Qed.

#[local] Transparent manifest_cases.

(** ** A concrete pair of reports *)

Definition obj (l : list (string * value)) : value := VObject (map (fun p => (js p.1, p.2)) l).

Definition sample_tun : value := obj [
  ("schemaVersion", vint 1); ("source", vstr "exact_host"); ("status", vstr "passed");
  ("image", vstr "alpine:3.21.3@sha256:0000000000000000000000000000000000000000000000000000000000000000");
  ("interfaceName", vstr "fips-preflight0"); ("ipv6Address", vstr "fd42:6677:6677::1/64");
  ("authorities", obj [("devices", VArray [vstr "/dev/net/tun"]); ("capabilities", VArray [vstr "NET_ADMIN"]);
    ("securityOptions", VArray [vstr "no-new-privileges:true"]); ("privileged", VBool false);
    ("networkMode", vstr "none"); ("publishedPorts", VArray [vstr "127.0.0.1:8080"])]);
  ("checks", obj (map (fun check => (check, vstr "passed")) TUN_EVIDENCE_CHECKS)); ("errors", VArray [])]%string.

Definition sample_case (e : CorpusManifestCase) : value := obj [
  ("epoch", vint 1); ("direction", direction_value (cm_direction e)); ("caseId", vstr (cm_id e));
  ("size", vint (cm_size e)); ("expectedSha256", vstr (cm_sha256 e)); ("receivedSha256", vstr (cm_sha256 e));
  ("acquisitionMs", vint 100); ("airtimeMs", vint 5000); ("deliveryCount", vint 1); ("bytePerfect", VBool true);
  ("coldAcquired", VBool true); ("observed", VBool true); ("complete", VBool true); ("corrupt", VBool false);
  ("missing", vint 0); ("duplicates", vint 0)]%string.

Definition sample_report (host role : string) (d : LiteralDirection) : value := obj [
  ("schemaVersion", vint 1); ("capturedAt", vstr "2026-01-01T00:00:00.000Z");
  ("machine", obj [("hostName", vstr host); ("os", vstr "macOS"); ("architecture", vstr "arm64");
    ("browserVersion", vstr "Chrome"); ("commit", vstr "0123456789012345678901234567890123456789")]);
  ("evidenceClass", vstr "Open air"); ("epoch", vint 1);
  ("codec", obj [("id", vstr (pc_id QUIET_CODEC)); ("commit", vstr (pc_commit QUIET_CODEC));
    ("profile", vstr (pc_profile QUIET_CODEC)); ("audible", VBool true); ("advertisedMtu", vint 1357)]);
  ("audio", obj [("microphoneLabel", vstr "Built-in"); ("contextState", vstr "running");
    ("inputDeviceSampleRate", vint 48000); ("inputDeviceChannels", vint 1); ("contextSampleRate", vint 48000);
    ("captureSampleRate", vint 48000); ("channels", vint 1); ("echoCancellation", VBool false);
    ("noiseSuppression", VBool false); ("autoGainControl", VBool false)]);
  ("queues", obj (map (fun k => (k, vint 0)) QUEUE_KEYS));
  ("results", VArray (map sample_case (expected_cases d))); ("complete", VBool true);
  ("qualification", obj [("deadLinkTimeoutMs", vint 30000); ("cyrinxDeadlineMs", vint 5400000);
    ("deadline", obj [("startedAtMs", vint 0); ("deadlineAtMs", vint 5400000); ("elapsedMs", vint 60000)]);
    ("physicalGate", vstr "passed");
    ("fallback", obj [("codecId", vstr "quiet"); ("state", vstr "activated"); ("reasonCode", vstr "cyrinx_build_failed")]);
    ("cyrinx", obj [("stage", vstr "quiet"); ("coldReceivePassed", VBool false)])]);
  ("runner", obj [("machineId", vstr host); ("role", vstr role); ("reportTarget", vstr "/tmp/report.json");
    ("evidenceClass", vstr "Open air"); ("tunEvidence", sample_tun)])]%string.

Definition sample_merge : result SelectionReport :=
  mergeSelection (fun _ => true) (fun _ => false) [js "alpha"; js "beta"] (sample_report "alpha" "A" BtoA)
    (sample_report "beta" "B" AtoB).

(** Two reports are not enough when they come from one host. *)
Example one_host_selects_nothing :
  (match mergeSelection (fun _ => true) (fun _ => false) [js "alpha"; js "alpha"] (sample_report "alpha" "A" BtoA)
           (sample_report "alpha" "B" AtoB) with
   | Ok s => (sr_decision s, sr_reasonCodes s) | Throw _ => (SelCyrinx, []) end)
  = (SelUnqualified, ["exact_hosts_required"%string]).
Proof. vm_compute. reflexivity. Qed.

(** A report that is not open-air evidence may leave its qualification empty;
    reading it throws a [TypeError] where reasons are collected. *)
Definition fixture_report : value := match sample_report "alpha" "A" BtoA with
  | VObject f => VObject (map_set (js "evidenceClass") (vstr "Fixture") (map_set (js "qualification") (VObject []) f))
  | v => v end.

Example empty_qualification_throws :
  is_ok (validateMachineReport (fun _ => true) fixture_report) = true
  /\ mergeSelection (fun _ => true) (fun _ => false) [js "alpha"; js "beta"] fixture_report (sample_report "beta" "B" AtoB)
     = Throw "TypeError".
Proof. split; vm_compute; reflexivity. Qed.

Lemma selected_codec_rests_on_evidence_witness :
  exists s, sample_merge = Ok s /\ sr_decision s = SelQuiet /\ hosts_match [js "alpha"; js "beta"] (sr_reports s).1 (sr_reports s).2.
Proof.
  assert (E : exists s, sample_merge = Ok s /\ sr_decision s = SelQuiet).
  { assert (C : match sample_merge with Ok s => bool_decide (sr_decision s = SelQuiet) | Throw _ => false end = true)
      by (vm_compute; reflexivity).
    destruct sample_merge as [s|]; [|discriminate C]. exists s. split; [reflexivity|].
    exact (bool_decide_eq_true_1 _ C). }
  destruct E as (s & E & D). exists s. split; [exact E|]. split; [exact D|].
  destruct (selected_codec_rests_on_evidence (fun _ => true) (fun _ => false) [js "alpha"; js "beta"]
    (sample_report "alpha" "A" BtoA) (sample_report "beta" "B" AtoB) s E (or_intror D)) as (a & b & _ & _ & R & H & _).
  rewrite R. exact H.
Defined.
