(* ===== verification/IsolationProps.v ===== *)
(** * What an accepted attestation proves *)

From stdpp Require Import base list numbers option strings.
From Stdlib Require Import ZArith Lia SpecFloat.
From S2P Require Import Prelude Utf8 Doubles Json JsonText Encodings Regex Texts Sha256 Corpus Report Isolation.

(** ** Objects *)

Section Objects.
Context {K V : Type} `{EqDecision K}.
Implicit Types (m l : list (K * V)).

(** [{ ...m, ...l }] *)
Lemma map_get_spread k m l :
  NoDup l.*1 -> map_get k (foldl (fun f p => map_set p.1 p.2 f) m l) = match map_get k l with Some v => Some v | None => map_get k m end.
Proof.
  revert m. induction l as [|[k1 v1] l IH]; intros m Hl; [done|]. cbn in Hl. apply NoDup_cons in Hl as [Hn Hl].
  cbn [foldl fst snd map_get]. rewrite IH by done. rewrite map_get_set.
  destruct (decide (k = k1)) as [->|]; [|done]. destruct (map_get k1 l) as [v|] eqn:E; [|done].
  exfalso. apply Hn. apply map_get_elem in E. apply list_elem_of_fmap. by exists (k1, v).
Qed.

Lemma length_map_set k v m : length (map_set k v m) = (length m + if map_has k m then 0 else 1)%nat.
Proof.
  unfold map_has. induction m as [|[k1 v1] m IH]; cbn; [done|].
  destruct (decide (k = k1)); cbn; [lia|]. rewrite IH. destruct (map_get k m); lia.
Qed.

Lemma length_spread m l :
  NoDup l.*1 -> (forall k, k ∈ l.*1 -> map_has k m = false) ->
  length (foldl (fun f p => map_set p.1 p.2 f) m l) = (length m + length l)%nat.
Proof.
  revert m. induction l as [|[k1 v1] l IH]; intros m Hl Hm; cbn; [lia|].
  cbn in Hl. apply NoDup_cons in Hl as [Hn Hl]. rewrite IH; [|done|].
  - rewrite length_map_set, (Hm k1) by apply list_elem_of_here. lia.
  - intros k Hk. unfold map_has. rewrite map_get_set. destruct (decide (k = k1)) as [->|]; [done|].
    by apply Hm, list_elem_of_further.
Qed.
End Objects.

Lemma get_set key key' v f : get key (map_set (js key') v f) = if decide (key = key') then v else get key f.
Proof.
  unfold get. rewrite map_get_set. destruct (decide (key = key')) as [->|Hne]; [by rewrite decide_True|].
  rewrite decide_False; [done|]. by intros E%js_inj.
Qed.

(** ** An answer that is accepted *)

Section Accepted.
Context (other_number : double -> jsstring).

(** [f] answers [request] with what the requester expects, and its digest is
    the one of its own content. *)
Record answers (o : RequestOptions) (request : jsstring) (now : Z) (f : fields) : Prop := {
  an_challenge : get "challenge" f = VString request;
  an_digest : get "snapshotDigest" f = VString (snapshotDigest other_number f request);
  an_peer : get "expectedPeerPublicKey" f = VString (ro_expectedPeerPublicKey o);
  an_link : opt_member (get "link" f) "peerPublicKey" = VString (ro_expectedPeerPublicKey o);
  an_target : get "targetIpv6" f = VString (ro_expectedTargetIpv6 o);
  an_build : get "build" f = VString (ro_expectedBuild o);
  an_settings : get "settingsId" f = VString (ro_expectedSettingsId o);
  an_epoch : is_number (get "epoch" f) (ro_expectedEpoch o) = true;
  an_fresh : now - WINDOW_MS <= count_of (get "observedAtMs" f) <= now + 1000;
  an_transport : is_literal "sound" (opt_member (get "transport" f) "type") = true
    /\ is_literal "active" (opt_member (get "transport" f) "state") = true
    /\ is_true_value (opt_member (get "transport" f) "workerUp") = true
    /\ is_true_value (opt_member (get "transport" f) "acousticReady") = true;
}.

Lemma snapshot_ok f now b :
  snapshot f now = Ok b ->
  b = f /\ is_literal "sound" (opt_member (get "transport" f) "type") = true
  /\ is_literal "active" (opt_member (get "transport" f) "state") = true
  /\ is_true_value (opt_member (get "transport" f) "workerUp") = true
  /\ is_true_value (opt_member (get "transport" f) "acousticReady") = true
  /\ strict_equal (opt_member (get "link" f) "peerPublicKey") (get "expectedPeerPublicKey" f) = true.
Proof.
  unfold snapshot. cbv zeta. destruct (_ || _) eqn:E; [done|]. intros [= <-].
  repeat match goal with H : _ || _ = false |- _ => apply orb_false_elim in H as [? ?] end. by bool_split.
Qed.

Lemma is_text_value_inv s v : is_text_value s v = true -> v = VString s.
Proof. unfold is_text_value. destruct v; try done. cbn. intros H. bool_split. by subst. Qed.

Lemma attested_text_same f g request :
  (forall key, (key <> "schemaVersion" /\ key <> "challenge" /\ key <> "snapshotDigest")%string -> get key f = get key g) ->
  canonical other_number f request = canonical other_number g request.
Proof. intros H. unfold canonical. by rewrite !H. Qed.

Lemma get_bound f request digest key :
  (key <> "schemaVersion" /\ key <> "challenge" /\ key <> "snapshotDigest")%string -> get key (bound f request digest) = get key f.
Proof. intros (? & ? & ?). unfold bound. by rewrite !get_set, !decide_False. Qed.

Lemma get_bound_digest f request digest : get "snapshotDigest" (bound f request digest) = VString digest.
Proof. unfold bound. by rewrite get_set. Qed.

Lemma get_bound_challenge f request digest : get "challenge" (bound f request digest) = VString request.
Proof. unfold bound. by rewrite !get_set. Qed.

Lemma bind_answer_sound o request now v f : bind_answer other_number o request now v = Ok f -> answers o request now f.
Proof.
  unfold bind_answer. intros H. result_inv. unfold parseIsolationAttestation in *.
  destruct (as_object v) as [g|]; [|done]. destruct (get "snapshotDigest" g) as [| | | |given| |]; try done. result_inv.
  match goal with E : snapshot g _ = Ok ?b |- _ => apply snapshot_ok in E as (-> & T1 & T2 & T3 & T4 & L) end.
  match goal with |- answers o request now (bound g ?r ?d) => set (h := bound g r d) in *; set (c := r) in * end.
  assert (Hkeep : forall key, (key <> "schemaVersion" /\ key <> "challenge" /\ key <> "snapshotDigest")%string -> get key h = get key g)
    by (intros; by apply get_bound).
  repeat match goal with E : _ || _ = false |- _ => apply orb_false_elim in E as [? ?] end. bool_split.
  repeat match goal with E : is_text_value _ _ = true |- _ => apply is_text_value_inv in E end.
  assert (Hc : get "challenge" h = VString c) by apply get_bound_challenge.
  assert (c = request) as -> by congruence. split; try done; rewrite ?Hkeep in * by done; try done.
  - unfold h. rewrite get_bound_digest. unfold snapshotDigest. do 3 f_equal. apply attested_text_same.
    intros. symmetry. by apply get_bound.
  - match goal with E : get "expectedPeerPublicKey" g = _ |- _ => rewrite E in L end. by apply is_text_value_inv.
  - lia.
Qed.

Lemma attempt_sound o request events f :
  attempt other_number o request events = Some (Ok f) ->
  exists now v, AttemptMessage true now (Ok v) ∈ events /\ answers o request now f.
Proof.
  induction events as [|e events IH]; [done|]. destruct e as [| |admitted now body]; [done|done|]. cbn [attempt].
  destruct admitted.
  - destruct body as [v|]; [|done]. cbn [rbind]. intros [= E]. exists now, v.
    split; [apply list_elem_of_here|by eapply bind_answer_sound].
  - intros H. destruct (IH H) as (now' & v & ? & ?). exists now', v. split; [by apply list_elem_of_further|done].
Qed.

Lemma attempts_sound o lastError n tries f :
  attempts other_number o lastError n tries = Some (Ok f) ->
  exists i request events now v, (i < n)%nat /\ tries !! i = Some (request, events)
    /\ AttemptMessage true now (Ok v) ∈ events /\ answers o request now f.
Proof.
  revert lastError tries. induction n as [|n IH]; intros lastError tries; [done|]. cbn [attempts].
  destruct tries as [|[request events] rest]; [done|]. destruct (attempt _ o request events) as [[g|e]|] eqn:E; [| |done].
  - intros [= ->]. destruct (attempt_sound _ _ _ _ E) as (now & v & ? & ?). exists 0%nat, request, events, now, v.
    split; [lia|]. by split.
  - intros H. destruct (IH _ _ H) as (i & r & ev & now & v & ? & ? & ? & ?). exists (S i), r, ev, now, v.
    split; [lia|]. by split.
Qed.

(** ** The answer of an honest responder *)

Definition SNAPSHOT_KEYS : list string :=
  ["expectedPeerPublicKey"; "targetIpv6"; "build"; "epoch"; "settingsId"; "observedAtMs"; "transport"; "link"]%string.

(** A snapshot is an object with exactly these properties. *)
Definition snapshot_shape (f : fields) : Prop :=
  NoDup (own_keys f) /\ forall k, k ∈ own_keys f <-> k ∈ map js SNAPSHOT_KEYS.

Lemma shape_length f : snapshot_shape f -> length f = 8%nat.
Proof.
  intros [Hn Hk]. unfold own_keys in *. rewrite <- (length_fmap fst). change 8%nat with (length (map js SNAPSHOT_KEYS)).
  apply Permutation_length, NoDup_Permutation; [done| |done].
  apply (bool_decide_unpack _). vm_compute. exact I.
Qed.

Lemma shape_fresh f key : snapshot_shape f -> key ∈ ["schemaVersion"; "challenge"; "snapshotDigest"]%string -> map_get (js key) f = None.
Proof.
  intros [_ Hk] Hin. destruct (map_get (js key) f) as [v|] eqn:E; [|done]. exfalso. apply map_get_elem in E.
  assert (Hj : js key ∈ own_keys f) by (apply list_elem_of_fmap; by exists (js key, v)).
  apply Hk in Hj. rewrite map_fmap in Hj. apply list_elem_of_fmap in Hj as (k & Ejs & Hj). apply js_inj in Ejs as <-.
  apply list_elem_of_In in Hin, Hj. cbn in Hin, Hj. naive_solver.
Qed.

Lemma get_respond f request key :
  snapshot_shape f ->
  get key (respond other_number request f) =
    if decide (key = "snapshotDigest"%string) then VString (snapshotDigest other_number f request)
    else if decide (key = "schemaVersion"%string) then vint 1
    else if decide (key = "challenge"%string) then VString request else get key f.
Proof.
  intros Hf. unfold respond. rewrite get_set. destruct (decide (key = "snapshotDigest"%string)); [done|].
  unfold get. rewrite map_get_spread by apply Hf.
  destruct (decide (key = "schemaVersion"%string)) as [->|H1].
  { rewrite (shape_fresh f); [done|done|apply list_elem_of_In; cbn; tauto]. }
  destruct (decide (key = "challenge"%string)) as [->|H2].
  { rewrite (shape_fresh f); [done|done|apply list_elem_of_In; cbn; tauto]. }
  destruct (map_get (js key) f); [done|]. cbn [map_get].
  rewrite decide_False by (by intros ?%js_inj). by rewrite decide_False by (by intros ?%js_inj).
Qed.
End Accepted.

(** ** The digest's text *)

Lemma length_be_bytes n v : length (be_bytes n v) = n.
Proof. revert v. induction n as [|n IH]; intros v; [done|]. cbn. rewrite length_app, IH. cbn. lia. Qed.

Lemma be_bytes_ok n v : bytes_ok (be_bytes n v).
Proof.
  revert v. induction n as [|n IH]; intros v; cbn; [constructor|]. apply Forall_app. split; [apply IH|].
  apply Forall_singleton. unfold byte_ok. apply Z.mod_pos_bound. lia.
Qed.

Lemma sha256_shape l : length (sha256 l) = 32%nat /\ bytes_ok (sha256 l).
Proof.
  unfold sha256. cbv zeta. set (s := sha_blocks _ _ _). clearbody s. cbn [map concat].
  rewrite !length_app, !length_be_bytes. split; [done|]. unfold bytes_ok. rewrite !Forall_app.
  repeat split; first [apply be_bytes_ok|constructor].
Qed.

Lemma hex_digit_hex v : 0 <= v < 16 -> is_hex_lower (hex_digit v) = true.
Proof.
  intros H. unfold is_hex_lower, is_digit, hex_digit. destruct (Z.ltb_spec v 10).
  - apply orb_true_intro. left. apply andb_true_intro. lia.
  - apply orb_true_intro. right. apply andb_true_intro. lia.
Qed.

Lemma to_hex_shape l : bytes_ok l -> length (to_hex l) = (2 * length l)%nat /\ forallb is_hex_lower (to_hex l) = true.
Proof.
  induction 1 as [|b l Hb _ [IH1 IH2]]; [done|]. unfold byte_ok in Hb. cbn [to_hex length forallb]. split; [lia|].
  rewrite !hex_digit_hex, IH2; [done|apply Z.mod_pos_bound; lia|].
  split; [apply Z.div_pos; lia|apply Z.div_lt_upper_bound; lia].
Qed.

Lemma sha256_hex_shape x : string_of is_hex_lower 64 64 (sha256_hex x) = true.
Proof.
  unfold sha256_hex. destruct (sha256_shape x) as [Hl Hb]. destruct (to_hex_shape _ Hb) as [Hh Hx].
  unfold string_of, zlen. by rewrite Hx, Hh, Hl.
Qed.

#[local] Opaque sha256_hex.

Section Honest.
Context (other_number : double -> jsstring).

(** The snapshot test depends on the properties it reads. *)
Lemma snapshot_transfer f g now :
  snapshot f now = Ok f -> (forall key, key ∈ SNAPSHOT_KEYS -> get key g = get key f) ->
  snapshot g (count_of (get "observedAtMs" g)) = Ok g.
Proof.
  intros H Hg.
  assert (E : forall key, In key SNAPSHOT_KEYS -> get key g = get key f) by (intros; by apply Hg, list_elem_of_In).
  unfold snapshot in *. cbv zeta in *. rewrite !E by (cbn; tauto).
  destruct (_ || _) eqn:Eb in H; [done|]. repeat match goal with H : _ || _ = false |- _ => apply orb_false_elim in H as [? ?] end.
  repeat match goal with H : ?b = false |- context [?b] => rewrite H end.
  rewrite Z.sub_diag. destruct (Z.ltb_spec (count_of (get "observedAtMs" f) + 1000) (count_of (get "observedAtMs" f))); [lia|done].
Qed.

Lemma respond_keys f request :
  snapshot_shape f -> same_keys ATTESTATION_KEYS (respond other_number request f) = true.
Proof.
  intros Hf. pose proof (shape_fresh f) as Hn. assert (Hlen := shape_length f Hf). pose proof Hf as [Hnd Hk].
  unfold same_keys, respond. set (spread := foldl _ _ f).
  assert (Hs : forall key, map_has (js key) spread =
            (bool_decide (key = "schemaVersion"%string) || bool_decide (key = "challenge"%string) || map_has (js key) f)).
  { intros key. unfold map_has, spread. rewrite map_get_spread by done. destruct (map_get (js key) f) eqn:E; [by rewrite orb_true_r|].
    cbn [map_get]. destruct (decide (js key = js "schemaVersion")) as [->%js_inj|N1]; [done|].
    destruct (decide (js key = js "challenge")) as [->%js_inj|N2]; [done|].
    rewrite !bool_decide_eq_false_2; [done|intros ->; done|intros ->; done]. }
  apply andb_true_intro. split.
  - apply Z.eqb_eq. unfold zlen, own_keys. rewrite length_fmap, length_map_set, Hs.
    unfold map_has at 1. rewrite (Hn "snapshotDigest"%string Hf) by (apply list_elem_of_In; cbn; tauto). cbn [bool_decide orb].
    unfold spread. rewrite length_spread; [rewrite Hlen; done|done|].
    intros k Hin. unfold map_has. cbn [map_get]. apply Hk in Hin. rewrite map_fmap in Hin.
    apply list_elem_of_fmap in Hin as (key & -> & Hin). apply list_elem_of_In in Hin.
    rewrite !decide_False; [done| |]; intros ->%js_inj; cbn in Hin; naive_solver.
  - apply forallb_forall. intros key Hin. unfold has, map_has. rewrite map_get_set.
    destruct (decide (js key = js "snapshotDigest")); [done|]. fold (map_has (js key) spread). rewrite Hs.
    destruct (map_has (js key) f) eqn:E; [by rewrite orb_true_r|].
    assert (Hnot : js key ∉ map js SNAPSHOT_KEYS).
    { rewrite <- Hk. unfold own_keys. rewrite <- map_has_keys. by rewrite E. }
    assert (Hns : ~ In key SNAPSHOT_KEYS) by (intros Hin'; apply Hnot, list_elem_of_In, in_map, Hin').
    cbn in Hin, Hns. repeat case_bool_decide; try done. naive_solver.
Qed.

(** A responder's answer to a challenge is accepted by whoever sent it and
    expects what it says, while it is fresh. *)
Lemma honest_answer_accepted o request taken_at now f :
  snapshot_shape f -> snapshot f taken_at = Ok f -> challenge_ok request = true ->
  get "expectedPeerPublicKey" f = VString (ro_expectedPeerPublicKey o) ->
  get "targetIpv6" f = VString (ro_expectedTargetIpv6 o) -> get "build" f = VString (ro_expectedBuild o) ->
  is_number (get "epoch" f) (ro_expectedEpoch o) = true -> get "settingsId" f = VString (ro_expectedSettingsId o) ->
  now - WINDOW_MS <= count_of (get "observedAtMs" f) <= now + 1000 ->
  let response := respond other_number request f in
  exists g, bind_answer other_number o request now (VObject response) = Ok g /\ forall key, key <> "schemaVersion"%string -> get key g = get key response.
Proof.
  intros Hf Hsn Hc H1 H2 H3 H4 H5 H6 response.
  assert (Hget : forall key, In key SNAPSHOT_KEYS -> get key response = get key f).
  { intros key Hin. unfold response. rewrite get_respond by done.
    rewrite !decide_False; [done|..]; intros ->; cbn in Hin; naive_solver. }
  assert (Hdig : get "snapshotDigest" response = VString (snapshotDigest other_number f request))
    by (unfold response; by rewrite get_respond).
  assert (Hch : get "challenge" response = VString request) by (unfold response; by rewrite get_respond).
  assert (Hcan : snapshotDigest other_number response request = snapshotDigest other_number f request).
  { unfold snapshotDigest. do 2 f_equal. apply attested_text_same. intros key (N1 & N2 & N3). unfold response.
    rewrite get_respond by done. by rewrite !decide_False. }
  exists (bound response request (snapshotDigest other_number f request)). split.
  - unfold bind_answer, parseIsolationAttestation. cbn [as_object]. rewrite Hdig.
    unfold response at 1. rewrite respond_keys by done. cbn [negb orb require_not rbind]. fold response.
    unfold snapshotDigest at 1. rewrite sha256_hex_shape. cbn [negb require_not rbind].
    rewrite (snapshot_transfer f) with (now := taken_at); [|done|intros; by apply Hget, list_elem_of_In]. cbn [rbind].
    rewrite Hch. unfold challengeText. rewrite Hc. cbn [rbind]. rewrite Hcan, bool_decide_eq_true_2 by done.
    cbn [negb require_not rbind]. rewrite get_bound_challenge, !get_bound by done. rewrite !Hget by (cbn; tauto).
    rewrite H1, H2, H3, H4, H5. unfold is_text_value. cbn [strict_equal]. rewrite !bool_decide_eq_true_2 by done. cbn [negb orb].
    destruct (Z.ltb_spec WINDOW_MS (now - count_of (get "observedAtMs" f))); [lia|].
    destruct (Z.ltb_spec (now + 1000) (count_of (get "observedAtMs" f))); [lia|]. done.
  - intros key Hne. destruct (decide (key = "snapshotDigest"%string)) as [->|]; [by rewrite get_bound_digest, Hdig|].
    destruct (decide (key = "challenge"%string)) as [->|]; [by rewrite get_bound_challenge, Hch|]. by apply get_bound.
Qed.
End Honest.

(** C28: an attestation is accepted only as the admitted answer to the challenge
    of one of at most two attempts, fresh, with every expected binding, a link
    to the expected peer, an active sound transport, and a digest that is the
    SHA-256 of its own content and that challenge; and what an honest responder
    answers from a valid snapshot with those bindings is accepted while fresh,
    and says what was answered. *)
Theorem attestation_accepted_when_bound other_number o :
  (forall tries f, requestIsolationAttestation other_number o tries = Some (Ok f) ->
     exists i request events now v, (i < 2)%nat /\ tries !! i = Some (request, events)
       /\ AttemptMessage true now (Ok v) ∈ events /\ answers other_number o request now f)
  /\ (forall request taken_at now f rest,
       request_valid o = true -> snapshot_shape f -> snapshot f taken_at = Ok f -> challenge_ok request = true ->
       get "expectedPeerPublicKey" f = VString (ro_expectedPeerPublicKey o) ->
       get "targetIpv6" f = VString (ro_expectedTargetIpv6 o) -> get "build" f = VString (ro_expectedBuild o) ->
       is_number (get "epoch" f) (ro_expectedEpoch o) = true -> get "settingsId" f = VString (ro_expectedSettingsId o) ->
       now - WINDOW_MS <= count_of (get "observedAtMs" f) <= now + 1000 ->
       let response := respond other_number request f in
       exists g, requestIsolationAttestation other_number o ((request, [AttemptMessage true now (Ok (VObject response))]) :: rest)
                 = Some (Ok g)
                 /\ forall key, key <> "schemaVersion"%string -> get key g = get key response).
Proof.
  split.
  - intros tries f. unfold requestIsolationAttestation. destruct (negb (request_valid o)) eqn:E; [done|].
    intros H. apply attempts_sound in H as (i & request & events & now & v & Hi & Ht & He & Ha).
    exists i, request, events, now, v. split; [|by split]. unfold request_valid in E. bool_split. lia.
  - intros request taken_at now f rest Hv Hf Hs Hc H1 H2 H3 H4 H5 H6 response.
    destruct (honest_answer_accepted other_number o request taken_at now f) as (g & Hg & Hk); try done.
    exists g. split; [|exact Hk]. unfold requestIsolationAttestation. rewrite Hv. cbn [negb].
    unfold request_valid in Hv. bool_split. destruct (Z.to_nat (ro_maxAttempts o)) eqn:En; [lia|].
    cbn [attempts attempt rbind]. fold response in Hg. by rewrite Hg.
Qed.

#[local] Transparent sha256_hex.

Definition sample_peer : jsstring := js "npub1f49ke5fkzqev4x7j46uajq92f4zan6kcpty5yvm5c3g6wf2dqanqn7qsy2".

Definition sample_snapshot : fields := [
  (js "expectedPeerPublicKey", VString sample_peer); (js "targetIpv6", vstr "fd46:f688::1");
  (js "build", vstr "0123456789012345678901234567890123456789"); (js "epoch", vint 3); (js "settingsId", vstr "s1");
  (js "observedAtMs", vint 1000);
  (js "transport", VObject [(js "transportId", vint 1); (js "type", vstr "sound"); (js "state", vstr "active");
                            (js "workerUp", VBool true); (js "acousticReady", VBool true)]);
  (js "link", VObject [(js "linkId", vint 7); (js "peerPublicKey", VString sample_peer)])].

Definition sample_options : RequestOptions :=
  mkRequestOptions sample_peer (js "fd46:f688::1") (js "0123456789012345678901234567890123456789") 3 (js "s1") 45000 2.

Definition sample_challenge : jsstring := js "AAAAAAAAAAAAAAAAAAAAAAAAAAAAAAAAAAAAAAAAAAA".

(** The answer through the responder, its state and all. *)
Example responder_answers :
  let '(request, r) := attest_begin 1000 (VObject [(js "schemaVersion", vint 1); (js "challenge", VString sample_challenge)]) new_responder in
  request = Ok sample_challenge
  /\ fst (attest_settle (fun _ => []) 1000 sample_challenge (Ok sample_snapshot) r)
     = Ok (respond (fun _ => []) sample_challenge sample_snapshot)
  /\ fst (attest_begin 1001 (VObject [(js "schemaVersion", vint 1); (js "challenge", VString sample_challenge)]) r)
     = Throw "challenge_replayed".
Proof. vm_compute. done. Qed.

Lemma attestation_accepted_when_bound_witness :
  exists g, requestIsolationAttestation (fun _ => []) sample_options
    [(sample_challenge, [AttemptMessage true 2000 (Ok (VObject (respond (fun _ => []) sample_challenge sample_snapshot)))])]
  = Some (Ok g).
Proof.
  destruct (proj2 (attestation_accepted_when_bound (fun _ => []) sample_options) sample_challenge 1000 2000 sample_snapshot [])
    as (g & H & _).
  - vm_compute. reflexivity.
  - split.
    + apply (bool_decide_unpack _). vm_compute. exact I.
    + intros k. reflexivity.
  - vm_compute. reflexivity.
  - vm_compute. reflexivity.
  - reflexivity.
  - reflexivity.
  - reflexivity.
  - vm_compute. reflexivity.
  - reflexivity.
  - vm_compute. split; discriminate.
  - exists g. exact H.
Defined.

(** ** The rate limit under interleaving *)

Definition numbered_challenge (i : nat) : jsstring := js "AAAAAAAAAAAAAAAAAAAAAAAAAAAAAAAAAAAAAAAAA" ++ [65 + Z.of_nat i; 65].

Definition begin_at (p : Z * nat) (r : Responder) : result jsstring * Responder :=
  attest_begin p.1 (VObject [(js "schemaVersion", vint 1); (js "challenge", VString (numbered_challenge p.2))]) r.

(** Begin and answer at once. *)
Definition answered_at (r : Responder) (p : Z * nat) : Responder :=
  match begin_at p r with
  | (Ok request, r') =>
      snd (attest_settle (fun _ => []) p.1 request
             (Ok (map_set (js "observedAtMs") (vint p.1) sample_snapshot)) r')
  | (Throw _, r') => r'
  end.

(** A failed attempt takes the newest time off the list, not its own: with one
    that fails late, seven challenges are answered within a minute. *)
Example seven_answers_in_a_minute :
  let r1 := snd (begin_at (0, 0%nat) new_responder) in
  let r2 := foldl answered_at r1 [(50000, 1%nat); (50001, 2%nat); (50002, 3%nat); (50003, 4%nat); (50004, 5%nat)] in
  let r3 := snd (attest_settle (fun _ => []) 0 (numbered_challenge 0) (Throw "snapshot_invalid") r2) in
  let r4 := foldl answered_at r3 [(60001, 6%nat); (60002, 7%nat)] in
  re_replay r4 = [(numbered_challenge 1, 50000); (numbered_challenge 2, 50001); (numbered_challenge 3, 50002);
                  (numbered_challenge 4, 50003); (numbered_challenge 5, 50004); (numbered_challenge 6, 60001);
                  (numbered_challenge 7, 60002)]
  /\ fst (begin_at (60003, 8%nat) r4) = Throw "rate_limited".
Proof. vm_compute. done. Qed.
