(* ===== verification/Coroutine.v ===== *)
(** * Asynchronous functions

    An [async] function of the bridge is a coroutine: blocks of code that run to
    their end without interruption, between the points where it awaits.  What is
    awaited settles later, when the machine has gone through other events, and
    the coroutine goes on from the state it finds then. *)

From stdpp Require Import base list numbers option strings.
From Stdlib Require Import ZArith Lia.
From S2P Require Import Prelude.

Section Coroutine.
(** The state, what is awaited, and what a settled promise yields. *)
Context {S W V : Type}.

Inductive co (A : Type) : Type :=
  | CoDone (r : result A)
  | CoDo {X : Type} (m : M S X) (k : result X -> co A)
  | CoAwait (w : W) (k : result V -> co A).
Arguments CoDone {A} r.
Arguments CoDo {A X} m k.
Arguments CoAwait {A} w k.

Definition co_ret {A} (a : A) : co A := CoDone (Ok a).
Definition co_throw {A} (message : string) : co A := CoDone (Throw message).

Fixpoint co_bind {A B} (c : co A) (f : A -> co B) : co B :=
  match c with
  | CoDone (Ok a) => f a
  | CoDone (Throw e) => CoDone (Throw e)
  | CoDo m k => CoDo m (fun r => co_bind (k r) f)
  | CoAwait w k => CoAwait w (fun r => co_bind (k r) f)
  end.

(** [try { c } catch (error) { h(error) }] *)
Fixpoint co_try {A} (c : co A) (h : string -> co A) : co A :=
  match c with
  | CoDone (Ok a) => CoDone (Ok a)
  | CoDone (Throw e) => h e
  | CoDo m k => CoDo m (fun r => co_try (k r) h)
  | CoAwait w k => CoAwait w (fun r => co_try (k r) h)
  end.

(** The result of [c], thrown or not, for code that goes on either way. *)
Fixpoint co_attempt {A} (c : co A) : co (result A) :=
  match c with
  | CoDone r => CoDone (Ok r)
  | CoDo m k => CoDo m (fun r => co_attempt (k r))
  | CoAwait w k => CoAwait w (fun r => co_attempt (k r))
  end.

(** A block of synchronous code. *)
Definition block {A} (m : M S A) : co A := CoDo m (fun r => CoDone r).

(** [await promise] *)
Definition await (w : W) : co V := CoAwait w (fun r => CoDone r).

(** Run to the next [await], or to the end. *)
Fixpoint co_run {A} (c : co A) (s : S) : co A * S :=
  match c with
  | CoDone r => (CoDone r, s)
  | CoDo m k => let p := m s in co_run (k p.1) p.2
  | CoAwait w k => (CoAwait w k, s)
  end.

Lemma co_run_block {A B} (m : M S A) (f : A -> co B) s :
  co_run (co_bind (block m) f) s
  = match m s with (Ok a, s') => co_run (f a) s' | (Throw e, s') => (CoDone (Throw e), s') end.
Proof. cbn. by destruct (m s) as [[a|e] s']. Qed.

Lemma co_run_last {A} (m : M S A) s : co_run (block m) s = (CoDone (m s).1, (m s).2).
Proof. done. Qed.

(** ** Machines

    A state, the coroutines that wait, and the results of those that ended, in
    the order in which they did. *)

Record Machine (A : Type) := mkMachine {
  m_state : S; m_jobs : list (nat * co A); m_next : nat; m_done : list (nat * result A) }.
Arguments mkMachine {A}.
Arguments m_state {A}.
Arguments m_jobs {A}.
Arguments m_next {A}.
Arguments m_done {A}.

Definition machine {A} (s : S) : Machine A := mkMachine s [] 0 [].

(** Let a coroutine run until it waits or ends. *)
Definition proceed {A} (id : nat) (c : co A) (m : Machine A) : Machine A :=
  let p := co_run c (m_state m) in
  match p.1 with
  | CoDone r => mkMachine p.2 (m_jobs m) (m_next m) (m_done m ++ [(id, r)])
  | c' => mkMachine p.2 (m_jobs m ++ [(id, c')]) (m_next m) (m_done m)
  end.

Lemma proceed_done {A} id (c : co A) m r s' :
  co_run c (m_state m) = (CoDone r, s') ->
  proceed id c m = mkMachine s' (m_jobs m) (m_next m) (m_done m ++ [(id, r)]).
Proof. intros H. unfold proceed. by rewrite H. Qed.

Lemma proceed_wait {A} id (c : co A) m w k s' :
  co_run c (m_state m) = (CoAwait w k, s') ->
  proceed id c m = mkMachine s' (m_jobs m ++ [(id, CoAwait w k)]) (m_next m) (m_done m).
Proof. intros H. unfold proceed. by rewrite H. Qed.

(** Call an asynchronous function. *)
Definition launch {A} (c : co A) (m : Machine A) : Machine A :=
  proceed (m_next m) c (mkMachine (m_state m) (m_jobs m) (Datatypes.S (m_next m)) (m_done m)).

Definition without {A} (id : nat) (jobs : list (nat * co A)) : list (nat * co A) :=
  List.filter (fun j => negb (j.1 =? id)%nat) jobs.

(** What the coroutine [id] waits for has settled. *)
Definition resume {A} (id : nat) (r : result V) (m : Machine A) : Machine A :=
  match map_get id (m_jobs m) with
  | Some (CoAwait _ k) => proceed id (k r) (mkMachine (m_state m) (without id (m_jobs m)) (m_next m) (m_done m))
  | _ => m
  end.

(** Synchronous code, for its effect on the state. *)
Definition perform {A B} (f : M S B) (m : Machine A) : Machine A :=
  mkMachine (final f (m_state m)) (m_jobs m) (m_next m) (m_done m).

Lemma without_Forall {A} (P : nat * co A -> Prop) id jobs : Forall P jobs -> Forall P (without id jobs).
Proof.
  rewrite !Forall_forall. intros H j Hj%list_elem_of_In. apply filter_In in Hj as [Hj _]. by apply H, list_elem_of_In.
Qed.

End Coroutine.

Arguments co S W V A : clear implicits.
Arguments CoDone {S W V A} r.
Arguments CoDo {S W V A X} m k.
Arguments CoAwait {S W V A} w k.
Arguments Machine S W V A : clear implicits.
Arguments mkMachine {S W V A}.
Arguments m_state {S W V A}.
Arguments m_jobs {S W V A}.
Arguments m_next {S W V A}.
Arguments m_done {S W V A}.

Declare Scope co_scope.
Delimit Scope co_scope with co.
#[global] Open Scope co_scope.

Notation "'let*' x := c 'in' k" := (co_bind c (fun x => k))
  (at level 10, x name, c at level 100, k at level 200) : co_scope.
Notation "c ;* k" := (co_bind c (fun _ => k))
  (at level 100, k at level 200, right associativity) : co_scope.

(** ** Rely and guarantee

    A coroutine of a program whose states satisfy [I] and move along [R]: its
    blocks keep [I] and move along [R], and at each [await] it allows for any
    moves along [R] that other coroutines make meanwhile. *)

Section Rely.
Context {S W V : Type}.
Context (I : S -> Prop) (R : S -> S -> Prop) `{!Reflexive R, !Transitive R}.

(** A block that, from any good state, keeps [I] and moves along [R]. *)
Definition guards {A} (m : M S A) : Prop := forall s, I s -> wp m (fun _ s' => I s' /\ R s s') s.

Lemma wp_guards {A} (m : M S A) (Q : result A -> S -> Prop) s :
  guards m -> I s -> (forall r s', I s' -> R s s' -> Q r s') -> wp m Q s.
Proof. intros Hm Hs HQ. eapply wp_mono; [by apply Hm|]. intros r s' [Hi Hr]. auto. Qed.

Lemma guards_ret {A} (a : A) : guards (mret a).
Proof using Reflexive0. intros s H. by apply wp_ret. Qed.

Lemma guards_throw {A} e : guards (mthrow (A:=A) e).
Proof using Reflexive0. intros s H. by apply wp_throw. Qed.

Lemma guards_get : guards mget.
Proof using Reflexive0. intros s H. by apply wp_get. Qed.

Lemma guards_lift {A} (r : result A) : guards (mlift r).
Proof using Reflexive0. intros s H. by apply wp_lift. Qed.

Lemma guards_modify f : (forall s, I s -> I (f s) /\ R s (f s)) -> guards (mmodify f).
Proof. intros H s Hs. by apply wp_modify, H. Qed.

(** A first step from a known state, then code that is safe from any. *)
Lemma wp_then {A B} (m : M S A) (f : A -> M S B) s :
  wp m (fun _ s' => I s' /\ R s s') s -> (forall a, guards (f a)) -> wp (mbind m f) (fun _ s' => I s' /\ R s s') s.
Proof using Transitive0.
  intros Hm Hf. apply wp_bind. eapply wp_mono; [apply Hm|]. intros [a|e] s' [Hi Hr]; [|done].
  eapply wp_mono; [by apply Hf|]. intros r s'' [Hi' Hr']. split; [done|by etransitivity].
Qed.

(** Code that reads the state first, of which it is then known to be the state. *)
Lemma guards_read {A} (f : S -> M S A) :
  (forall s, I s -> wp (f s) (fun _ s' => I s' /\ R s s') s) -> guards (mbind mget f).
Proof. intros H s Hs. apply wp_bind, wp_get. by apply H. Qed.

Lemma guards_bind {A B} (m : M S A) (f : A -> M S B) :
  guards m -> (forall a, guards (f a)) -> guards (mbind m f).
Proof using Transitive0.
  intros Hm Hf s Hs. apply wp_then; [by apply Hm|done].
Qed.

Lemma guards_pair {A B C} (m : M S A) (f : A -> M S B) (g : B -> M S C) :
  guards (mbind m f) -> (forall b, guards (g b)) -> guards (mbind m (fun a => mbind (f a) g)).
Proof using Transitive0.
  intros Hm Hg s Hs. apply wp_pair. eapply wp_mono; [by apply Hm|]. intros [b|e] s' [Hi Hr]; [|done].
  eapply wp_mono; [by apply Hg|]. intros r s'' [Hi' Hr']. split; [done|by etransitivity].
Qed.

Lemma guards_try {A} (m : M S A) (h : string -> M S A) :
  guards m -> (forall e, guards (h e)) -> guards (mtry m h).
Proof using Transitive0.
  intros Hm Hf s Hs. apply wp_try. eapply wp_mono; [by apply Hm|]. intros [a|e] s' [Hi Hr]; [done|].
  eapply wp_mono; [by apply Hf|]. intros r s'' [Hi' Hr']. split; [done|by etransitivity].
Qed.

(** [co_safe c Q s]: run from [s], [c] does as above, and ends with [Q]. *)
Fixpoint co_safe {A} (c : co S W V A) (Q : result A -> S -> Prop) (s : S) : Prop :=
  match c with
  | CoDone r => Q r s
  | CoDo m k => wp m (fun r s' => (I s' /\ R s s') /\ co_safe (k r) Q s') s
  | CoAwait _ k => forall r s', I s' -> R s s' -> co_safe (k r) Q s'
  end.

Lemma co_safe_mono {A} (c : co S W V A) (Q Q' : result A -> S -> Prop) s :
  (forall r s', Q r s' -> Q' r s') -> co_safe c Q s -> co_safe c Q' s.
Proof.
  intros HQ. revert s. induction c as [r|X m k IH|w k IH]; intros s; cbn; [apply HQ| |eauto].
  intros H. eapply wp_mono; [apply H|]. intros r s' [Hs Hk]. auto.
Qed.

Lemma co_safe_bind {A B} (c : co S W V A) (f : A -> co S W V B) Q s :
  co_safe c (fun r s' => match r with Ok a => co_safe (f a) Q s' | Throw e => Q (Throw e) s' end) s ->
  co_safe (co_bind c f) Q s.
Proof.
  revert s. induction c as [[a|e]|X m k IH|w k IH]; intros s; cbn; [done|done| |eauto].
  intros H. eapply wp_mono; [apply H|]. intros r s' [Hs Hk]. auto.
Qed.

Lemma co_safe_try {A} (c : co S W V A) (h : string -> co S W V A) Q s :
  co_safe c (fun r s' => match r with Ok a => Q (Ok a) s' | Throw e => co_safe (h e) Q s' end) s ->
  co_safe (co_try c h) Q s.
Proof.
  revert s. induction c as [[a|e]|X m k IH|w k IH]; intros s; cbn; [done|done| |eauto].
  intros H. eapply wp_mono; [apply H|]. intros r s' [Hs Hk]. auto.
Qed.

Lemma co_safe_attempt {A} (c : co S W V A) Q s :
  co_safe c (fun r s' => Q (Ok r) s') s -> co_safe (co_attempt c) Q s.
Proof.
  revert s. induction c as [r|X m k IH|w k IH]; intros s; cbn; [done| |eauto].
  intros H. eapply wp_mono; [apply H|]. intros r s' [Hs Hk]. auto.
Qed.

Lemma co_safe_block {A} (m : M S A) (Q : result A -> S -> Prop) s :
  guards m -> I s -> wp m (fun r s' => I s' -> R s s' -> Q r s') s -> co_safe (block m) Q s.
Proof.
  intros Hm Hs HQ. cbn. eapply wp_mono; [apply wp_and; [by apply Hm|apply HQ]|]. intros r s' [[Hi Hr] H]. auto.
Qed.

(** A coroutine that is safe from any good state. *)
Definition co_guards {A} (c : co S W V A) : Prop :=
  forall s, I s -> co_safe c (fun _ s' => I s' /\ R s s') s.

Lemma co_guards_ret {A} (a : A) : co_guards (co_ret a).
Proof using Reflexive0. by intros s H. Qed.

Lemma co_guards_throw {A} e : co_guards (co_throw (A:=A) e).
Proof using Reflexive0. by intros s H. Qed.

Lemma co_guards_block {A} (m : M S A) : guards m -> co_guards (block m).
Proof. intros Hm s Hs. apply co_safe_block; [done..|]. eapply wp_mono; [by apply Hm|]. by intros r s' H _ _. Qed.

Lemma co_guards_await w : co_guards (await w).
Proof. by intros s Hs r s' Hi Hr. Qed.

(** What follows a safe coroutine starts from a good state, later along [R]. *)
Lemma co_safe_guards {A} (c : co S W V A) (Q : result A -> S -> Prop) s :
  co_guards c -> I s -> (forall r s', I s' -> R s s' -> Q r s') -> co_safe c Q s.
Proof. intros Hc Hs HQ. eapply co_safe_mono; [|by apply Hc]. intros r s' [Hi Hr]. auto. Qed.

Lemma co_guards_bind {A B} (c : co S W V A) (f : A -> co S W V B) :
  co_guards c -> (forall a, co_guards (f a)) -> co_guards (co_bind c f).
Proof using Transitive0.
  intros Hc Hf s Hs. apply co_safe_bind. apply co_safe_guards; [done..|]. intros [a|e] s' Hi Hr; [|done].
  eapply co_safe_mono; [|by apply Hf]. intros r s'' [Hi' Hr']. split; [done|by etransitivity].
Qed.

Lemma co_guards_read {A} (f : S -> co S W V A) :
  (forall s, I s -> co_safe (f s) (fun _ s' => I s' /\ R s s') s) -> co_guards (co_bind (block mget) f).
Proof using Reflexive0. intros H s Hs. cbn. apply wp_get. split; [done|]. by apply H. Qed.

Lemma co_guards_try {A} (c : co S W V A) (h : string -> co S W V A) :
  co_guards c -> (forall e, co_guards (h e)) -> co_guards (co_try c h).
Proof using Transitive0.
  intros Hc Hf s Hs. apply co_safe_try. apply co_safe_guards; [done..|]. intros [a|e] s' Hi Hr; [done|].
  eapply co_safe_mono; [|by apply Hf]. intros r s'' [Hi' Hr']. split; [done|by etransitivity].
Qed.

Lemma co_guards_attempt {A} (c : co S W V A) : co_guards c -> co_guards (co_attempt c).
Proof. intros Hc s Hs. apply co_safe_attempt. eapply co_safe_mono; [|by apply Hc]. done. Qed.

(** ** Machines *)

Lemma co_run_safe {A} (c : co S W V A) s :
  I s -> co_safe c (fun _ _ => True) s ->
  match co_run c s with (c', s') => I s' /\ R s s' /\ co_safe c' (fun _ _ => True) s' end.
Proof using Reflexive0 Transitive0.
  revert s. induction c as [r|X m k IH|w k IH]; cbn; intros s Hs H; [done| |done].
  apply wp_elim in H as [[Hi Hr] Hk]. specialize (IH _ _ Hi Hk). unfold outcome, final in *.
  destruct (m s) as [r s0]; cbn in *. destruct (co_run (k r) s0) as [c' s']. destruct IH as (H1 & H2 & H3).
  split; [done|split; [by etransitivity|done]].
Qed.

(** A job is safe from here on: it waits, or there is nothing left of it. *)
Definition job_safe {A} (s : S) (c : co S W V A) : Prop :=
  match c with CoAwait _ _ => co_safe c (fun _ _ => True) s | _ => True end.

Lemma job_safe_later {A} (c : co S W V A) s s' : R s s' -> job_safe s c -> job_safe s' c.
Proof using Transitive0. destruct c as [r|X m k|w k]; cbn; [done..|]. intros H Hc r s'' Hi Hr. apply Hc; [done|by etransitivity]. Qed.

Definition machine_safe {A} (m : Machine S W V A) : Prop :=
  I (m_state m) /\ Forall (fun j => job_safe (m_state m) j.2) (m_jobs m).

Lemma jobs_later {A} (jobs : list (nat * co S W V A)) s s' :
  R s s' -> Forall (fun j => job_safe s j.2) jobs -> Forall (fun j => job_safe s' j.2) jobs.
Proof using Transitive0. intros H Hj. apply (Forall_impl _ _ _ Hj). intros j. by apply job_safe_later. Qed.

Lemma proceed_safe {A} id (c : co S W V A) m :
  machine_safe m -> co_safe c (fun _ _ => True) (m_state m) ->
  machine_safe (proceed id c m) /\ R (m_state m) (m_state (proceed id c m)).
Proof using Reflexive0 Transitive0.
  intros [Hs Hj] Hc. pose proof (co_run_safe c _ Hs Hc) as H. unfold proceed, machine_safe.
  destruct (co_run c (m_state m)) as [c' s']. cbn. destruct H as (H1 & H2 & H3).
  assert (Hj' : Forall (fun j => job_safe s' j.2) (m_jobs m)) by (eapply jobs_later; eauto).
  destruct c' as [r|X b k|w k]; cbn; (split; [split; [done|]|done]); [done|..];
    (apply Forall_app; split; [done|]); by constructor.
Qed.

Lemma launch_safe {A} (c : co S W V A) m :
  machine_safe m -> co_guards c -> machine_safe (launch c m) /\ R (m_state m) (m_state (launch c m)).
Proof using Reflexive0 Transitive0.
  intros [Hs Hj] Hc. apply (proceed_safe _ c (mkMachine (m_state m) (m_jobs m) (Datatypes.S (m_next m)) (m_done m))); [done|].
  cbn. by apply co_safe_guards.
Qed.

Lemma resume_safe {A} id r (m : Machine S W V A) :
  machine_safe m -> machine_safe (resume id r m) /\ R (m_state m) (m_state (resume id r m)).
Proof using Reflexive0 Transitive0.
  intros [Hs Hj]. unfold resume. destruct (map_get id (m_jobs m)) as [[r'|X b k|w k]|] eqn:E; try done.
  apply (proceed_safe id (k r) (mkMachine (m_state m) (without id (m_jobs m)) (m_next m) (m_done m)));
    [by split; [|apply without_Forall]|].
  apply map_get_elem in E. rewrite Forall_forall in Hj. by apply (Hj _ E).
Qed.

Lemma perform_safe {A B} (f : M S B) (m : Machine S W V A) :
  machine_safe m -> guards f -> machine_safe (perform f m) /\ R (m_state m) (m_state (perform f m)).
Proof using Transitive0.
  intros [Hs Hj] Hf. destruct (wp_elim f _ _ (Hf _ Hs)) as [H1 H2]. split; [split; [done|]|done].
  by eapply jobs_later.
Qed.
End Rely.

(** ** What stays true once it is

    A property that moves along [R] preserve may be assumed on the way. *)

Section Stable.
Context {S W V : Type}.
Context (I : S -> Prop) (R : S -> S -> Prop) (P : S -> Prop).
Context (stable : forall s s', R s s' -> P s -> P s').

Definition both (s : S) : Prop := I s /\ P s.

Lemma guards_both {A} (m : M S A) : guards I R m -> guards both R m.
Proof using stable.
  intros H s [Hs Hp]. eapply wp_mono; [by apply H|]. intros r s' [Hi Hr]. split; [split|]; eauto.
Qed.

Lemma co_safe_both {A} (c : co S W V A) (Q : result A -> S -> Prop) s :
  P s -> co_safe I R c Q s -> co_safe both R c (fun r s' => Q r s' /\ P s') s.
Proof using stable.
  revert s. induction c as [r|X m k IH|w k IH]; intros s Hp; cbn; [done| |].
  - intros H. eapply wp_mono; [apply H|]. intros r s' [[Hi Hr] Hk].
    assert (P s') by eauto. split; [split; [split|]|]; auto.
  - intros H r s' [Hi Hp'] Hr. auto.
Qed.

Lemma co_guards_both {A} (c : co S W V A) : co_guards I R c -> co_guards both R c.
Proof using stable.
  intros H s [Hs Hp]. eapply co_safe_mono; [|apply (co_safe_both c _ s Hp (H s Hs))].
  intros r s' [[Hi Hr] Hp']. by split; [split|].
Qed.

Lemma co_safe_known {A} (c : co S W V A) (Q : result A -> S -> Prop) s :
  P s -> co_safe both R c Q s -> co_safe I R c Q s.
Proof using stable.
  revert s. induction c as [r|X m k IH|w k IH]; intros s Hp; cbn; [done| |].
  - intros H. eapply wp_mono; [apply H|]. intros r s' [[[Hi Hp'] Hr] Hk]. split; [done|]. auto.
  - intros H r s' Hi Hr. assert (P s') by eauto. apply IH; [done|]. by apply H.
Qed.

(** A coroutine that assumes [P], from a state where it holds. *)
Lemma co_guards_known {A} (c : co S W V A) s :
  I s -> P s -> co_guards both R c -> co_safe I R c (fun _ s' => I s' /\ R s s') s.
Proof using stable.
  intros Hs Hp H. apply co_safe_known; [done|]. eapply co_safe_mono; [|by apply H].
  intros r s' [[Hi _] Hr]. done.
Qed.
End Stable.

(** Decompose down to the operations that have lemmas of their own. *)
Ltac guards_step :=
  lazymatch goal with
  | |- guards _ _ (mbind _ _) => apply guards_bind; [exact _|idtac|intros ?]
  | |- guards _ _ (mtry _ _) => apply guards_try; [exact _|idtac|intros ?]
  | |- guards _ _ (mret _) => apply guards_ret; exact _
  | |- guards _ _ mskip => apply guards_ret; exact _
  | |- guards _ _ (mthrow _) => apply guards_throw; exact _
  | |- guards _ _ mget => apply guards_get; exact _
  | |- guards _ _ (mlift _) => apply guards_lift; exact _
  | |- guards _ _ (let x := _ in _) => cbv zeta
  | |- guards _ _ (if ?b then _ else _) => destruct b
  | |- guards _ _ (match ?x with _ => _ end) => destruct x
  | |- co_guards _ _ (co_bind _ _) => apply co_guards_bind; [exact _|idtac|intros ?]
  | |- co_guards _ _ (co_try _ _) => apply co_guards_try; [exact _|idtac|intros ?]
  | |- co_guards _ _ (co_attempt _) => apply co_guards_attempt
  | |- co_guards _ _ (co_ret _) => apply co_guards_ret; exact _
  | |- co_guards _ _ (co_throw _) => apply co_guards_throw; exact _
  | |- co_guards _ _ (await _) => apply co_guards_await
  | |- co_guards _ _ (block _) => apply co_guards_block
  | |- co_guards _ _ (let x := _ in _) => cbv zeta
  | |- co_guards _ _ (if ?b then _ else _) => destruct b
  | |- co_guards _ _ (match ?x with _ => _ end) => destruct x
  end.
