(* ===== verification/Command.v ===== *)
(** * Native commands and codec adapters ([packages/bridge/src/codecs])

    [runPinnedCommand] as the life of one child process: its request, its
    output within caps, its time limit, its abort and the one settlement of its
    promise; the metadata block every Cyrinx batch carries; and the adapters of
    the codec-neutral gate: native, fixture and browser. *)

From stdpp Require Import base list numbers option strings.
From Stdlib Require Import ZArith Lia SpecFloat.
From S2P Require Import Prelude Utf8 Doubles Json Encodings Sha256 Corpus Fwav UiQualification.

Definition CYRINX_QUALIFICATION_WINDOW_MS : Z := 90 * 60 * 1000.
Definition MAX_COMMAND_INPUT_BYTES : Z := 576 * 1024.
Definition MAX_COMMAND_OUTPUT_BYTES : Z := 576 * 1024.
Definition MAX_COMMAND_STDERR_BYTES : Z := 8 * 1024.

Inductive CyrinxCommand := Geometry | Encode | Decode.

(** The text of [stderr] is kept as its bytes: no one reads it. *)
Record CommandResult := mkCommandResult {
  cr_exitCode : Z; cr_stdout : bytes; cr_stderr : bytes; cr_timedOut : bool }.

Record PinnedCommandRequest := mkRequest {
  rq_executable : jsstring; rq_command : CyrinxCommand; rq_payload : bytes; rq_timeoutMs : Z; rq_aborted : bool }.

(** [timeoutMs = 15_000], and a signal that is not aborted. *)
Definition request (executable : jsstring) (command : CyrinxCommand) (payload : bytes) : PinnedCommandRequest :=
  mkRequest executable command payload 15000 false.

Definition CYRINX_PROFILE : CodecProfile := mkProfile "cyrinx" (js "bulk-qpsk-r1-2-48k-v1") true 1536.

(** ** One child process *)

Record ChildProcess := mkChild {
  ch_stdout : list bytes; ch_stderr : list bytes; ch_stdoutBytes : Z; ch_stderrBytes : Z;
  ch_settled : option (result CommandResult); ch_timedOut : bool;
  (* the timer and the abort listener, until [cleanup] *)
  ch_attached : bool;
  ch_kills : nat }.

#[export] Instance eta_ChildProcess : Eta ChildProcess := fun c =>
  mkChild (ch_stdout c) (ch_stderr c) (ch_stdoutBytes c) (ch_stderrBytes c) (ch_settled c) (ch_timedOut c)
    (ch_attached c) (ch_kills c).

Definition spawned : ChildProcess := mkChild [] [] 0 0 None false true 0.

(** What is refused before a process is started. *)
Definition runPinnedCommand (r : PinnedCommandRequest) : result ChildProcess :=
  reject_if (MAX_COMMAND_INPUT_BYTES <? zlen (rq_payload r)) || (rq_timeoutMs r <=? 0) || (30000 <? rq_timeoutMs r)
    with "native command request is invalid";
  reject_if rq_aborted r with "native command aborted";
  Ok spawned.

Definition cleanup (c : ChildProcess) : ChildProcess := set ch_attached (fun _ => false) c.

Definition command_output (code : option Z) (c : ChildProcess) : CommandResult :=
  mkCommandResult (default 1 code) (concat (ch_stdout c)) (concat (ch_stderr c)) (ch_timedOut c).

Definition kill (c : ChildProcess) : ChildProcess := set ch_kills S c.

(** [finish(error)]: every caller passes an error. *)
Definition finish (error : string) (c : ChildProcess) : ChildProcess :=
  match ch_settled c with
  | Some _ => c
  | None => set ch_settled (fun _ => Some (Throw error)) (kill (cleanup c))
  end.

Inductive ChildEvent :=
  | OnError (message : string)
  | OnStdout (chunk : bytes)
  | OnStderr (chunk : bytes)
  | OnClose (code : option Z)
  | OnTimeout
  | OnAbort.

Definition child_event (e : ChildEvent) (c : ChildProcess) : ChildProcess :=
  match e with
  | OnError message => finish message c
  | OnStdout chunk =>
      let c := set ch_stdoutBytes (Z.add (zlen chunk)) c in
      if MAX_COMMAND_OUTPUT_BYTES <? ch_stdoutBytes c then finish "native stdout exceeds cap" c
      else set ch_stdout (fun l => l ++ [chunk]) c
  | OnStderr chunk =>
      let c := set ch_stderrBytes (Z.add (zlen chunk)) c in
      if MAX_COMMAND_STDERR_BYTES <? ch_stderrBytes c then finish "native stderr exceeds cap" c
      else set ch_stderr (fun l => l ++ [chunk]) c
  | OnClose code =>
      match ch_settled c with
      | Some _ => c
      | None => set ch_settled (fun _ => Some (Ok (command_output code c))) (cleanup c)
      end
  | OnTimeout => if ch_attached c then kill (set ch_timedOut (fun _ => true) c) else c
  | OnAbort => if ch_attached c then finish "native command aborted" c else c
  end.

Definition child_run (es : list ChildEvent) (c : ChildProcess) : ChildProcess := foldl (fun c e => child_event e c) c es.

Definition stdout_of (e : ChildEvent) : bytes := match e with OnStdout chunk => chunk | _ => [] end.
Definition stderr_of (e : ChildEvent) : bytes := match e with OnStderr chunk => chunk | _ => [] end.

(** ** Lemmas *)

Lemma child_event_settled e c r : ch_settled c = Some r -> ch_settled (child_event e c) = Some r.
Proof.
  intros H. assert (Hf : forall m c', ch_settled c' = Some r -> finish m c' = c') by (unfold finish; by intros ?? ->).
  destruct e; cbn [child_event]; cbv zeta; rewrite ?H; try done; repeat case_match; rewrite ?Hf; done.
Qed.

Lemma child_run_settled es c r : ch_settled c = Some r -> ch_settled (child_run es c) = Some r.
Proof. revert c. induction es as [|e es IH]; cbn; [done|]. intros c H. by apply IH, child_event_settled. Qed.

(** While it is not settled, a child has kept everything it was handed. *)
Definition child_whole (es : list ChildEvent) (c : ChildProcess) : Prop :=
  concat (ch_stdout c) = concat (map stdout_of es) /\ ch_stdoutBytes c = zlen (concat (ch_stdout c))
  /\ ch_stdoutBytes c <= MAX_COMMAND_OUTPUT_BYTES
  /\ concat (ch_stderr c) = concat (map stderr_of es) /\ ch_stderrBytes c = zlen (concat (ch_stderr c))
  /\ ch_stderrBytes c <= MAX_COMMAND_STDERR_BYTES
  /\ ch_timedOut c = existsb (fun e => match e with OnTimeout => true | _ => false end) es
  /\ ch_attached c = true.

Lemma concat_snoc {A} (l : list (list A)) x : concat (l ++ [x]) = concat l ++ x.
Proof. rewrite concat_app. cbn. by rewrite app_nil_r. Qed.

Lemma finish_settled m c : ch_settled (finish m c) <> None.
Proof. unfold finish. destruct (ch_settled c) eqn:E; [by rewrite E|done]. Qed.

Lemma finish_throws m c r : ch_settled (finish m c) = Some (Ok r) -> ch_settled c = None -> False.
Proof. intros H E. unfold finish in H. by rewrite E in H. Qed.

Lemma child_event_whole es c e :
  child_whole es c -> ch_settled (child_event e c) = None -> child_whole (es ++ [e]) (child_event e c).
Proof.
  intros (H1 & H2 & H3 & H4 & H5 & H6 & H7 & H8). unfold child_whole. rewrite !map_app, existsb_app.
  cbn [map existsb]. rewrite !concat_snoc. unfold zlen in *.
  destruct e as [m|chunk|chunk|code| |]; cbn [child_event stdout_of stderr_of orb]; cbv zeta;
    rewrite ?app_nil_r, ?orb_false_r, ?orb_true_r, ?H8.
  - by intros ?%finish_settled.
  - case_match eqn:E; [by intros ?%finish_settled|]. intros _. unfold set in *; cbn in *. unfold zlen in *. bool_split.
    rewrite concat_snoc, !length_app. split_and!; try done; try congruence; lia.
  - case_match eqn:E; [by intros ?%finish_settled|]. intros _. unfold set in *; cbn in *. unfold zlen in *. bool_split.
    rewrite concat_snoc, !length_app. split_and!; try done; try congruence; lia.
  - by destruct (ch_settled c) eqn:E; [rewrite E|].
  - intros _. by unfold set; cbn.
  - by intros ?%finish_settled.
Qed.

Lemma child_run_whole es : ch_settled (child_run es spawned) = None -> child_whole es (child_run es spawned).
Proof.
  induction es as [|e es IH] using rev_ind; [by unfold child_whole|].
  unfold child_run. rewrite foldl_app. cbn [foldl]. fold (child_run es spawned). intros H.
  destruct (ch_settled (child_run es spawned)) as [r|] eqn:E.
  - rewrite (child_event_settled _ _ _ E) in H. done.
  - by apply child_event_whole; [apply IH|].
Qed.

(** A command that resolves hands over everything its child wrote before it
    closed, within the caps, and says whether its time had run out. *)
Lemma command_output_whole es r : ch_settled (child_run es spawned) = Some (Ok r) ->
  exists before code after, es = before ++ [OnClose code] ++ after
    /\ cr_stdout r = concat (map stdout_of before) /\ zlen (cr_stdout r) <= MAX_COMMAND_OUTPUT_BYTES
    /\ cr_stderr r = concat (map stderr_of before) /\ zlen (cr_stderr r) <= MAX_COMMAND_STDERR_BYTES
    /\ cr_exitCode r = default 1 code
    /\ cr_timedOut r = existsb (fun e => match e with OnTimeout => true | _ => false end) before.
Proof.
  induction es as [|e es IH] using rev_ind; [done|].
  unfold child_run. rewrite foldl_app. cbn [foldl]. fold (child_run es spawned). intros H.
  destruct (ch_settled (child_run es spawned)) as [r'|] eqn:E.
  - rewrite (child_event_settled _ _ _ E) in H. injection H as ->.
    destruct (IH eq_refl) as (before & code & after & -> & Hb). exists before, code, (after ++ [e]).
    by rewrite <- !app_assoc.
  - destruct (child_run_whole es E) as (H1 & H2 & H3 & H4 & H5 & H6 & H7 & H8).
    destruct e as [m|chunk|chunk|code| |]; cbn [child_event] in H; cbv zeta in H; rewrite ?H8 in H.
    1: by destruct (finish_throws _ _ _ H E). 1,2: case_match; [by destruct (finish_throws _ _ _ H E)|by change (ch_settled (child_run es spawned) = Some (Ok r)) in H; rewrite E in H].
    2: by change (ch_settled (child_run es spawned) = Some (Ok r)) in H; rewrite E in H. 2: by destruct (finish_throws _ _ _ H E).
    rewrite E in H. injection H as <-. exists es, code, []. rewrite app_nil_r.
    cbn [command_output cr_stdout cr_stderr cr_exitCode cr_timedOut]. unfold cleanup, set; cbn.
    split_and!; try done; lia.
Qed.

(** ** The metadata of a batch *)

Definition hex_value (c : Z) : Z := if is_digit c then c - 48 else if c <? 97 then c - 55 else c - 87.

(** [Buffer.from(text, 'hex')]: pairs of digits, up to the first that is not one. *)
Fixpoint from_hex (s : jsstring) : bytes :=
  match s with
  | a :: b :: s' => if is_hex a && is_hex b then 16 * hex_value a + hex_value b :: from_hex s' else []
  | _ => []
  end.

Definition METADATA_BYTES : Z := 256.

(** [buffer.write(text, offset, limit, 'utf8')]: whole characters that fit. *)
Fixpoint fitting (limit : nat) (cs : list Z) : bytes :=
  match cs with
  | [] => []
  | c :: cs' =>
      let b := encode_scalar c in
      if (length b <=? limit)%nat then b ++ fitting (limit - length b) cs' else []
  end.

Definition direction_code (d : LiteralDirection) : Z := match d with AtoB => 0 | BtoA => 1 end.

(** The fields of a block, the identifier as its bytes. *)
Definition metadata_block (epoch : Z) (direction : LiteralDirection) (id : bytes) (size : Z) (digest : jsstring) : bytes :=
  write_at 79 (from_hex digest) (write_at 75 (le_bytes 4 size) (write_at 11 id
    (write_at 9 [direction_code direction] (write_at 5 (le_bytes 4 epoch) (write_at 4 [1]
      (write_at 0 (utf8_encode (js "CYRX")) (replicate (Z.to_nat METADATA_BYTES) 0))))))).

(** The length of the payload, the metadata, the payload. *)
Definition encodeRequest (meta payload : bytes) : bytes := le_bytes 4 (zlen payload) ++ meta ++ payload.

(** The result block: its fixed part, the metadata and the payload come back. *)
Definition result_block_matches (body meta payload : bytes) : bool :=
  (zlen body =? 289 + zlen payload)
  && bool_decide (ascii_string (slice body 0 4) = utf8_encode (js "CYRR"))
  && (read_le 1 4 body =? 1) && (read_le 4 5 body =? zlen payload) && (read_le 4 9 body =? 7)
  && (read_le 4 13 body =? 7)
  && bool_decide (slice body 33 289 = meta) && bool_decide (drop 289 body = payload).

(** ** The adapters of the gate *)

Record QualificationCase := mkQualificationCase {
  qa_id : jsstring; qa_direction : LiteralDirection; qa_digest : jsstring; qa_payload : bytes }.

Record QualificationContext := mkContext { ct_epoch : Z; ct_evidenceClass : EvidenceClass }.

Definition no_queues : QueueEvidence :=
  UiQualification.mkQueues (d_of_Z 0) (d_of_Z 0) (d_of_Z 0) (d_of_Z 0) (d_of_Z 0).

Section Adapters.
(** [command.runner]: what the pinned executable answers. *)
Context (run : PinnedCommandRequest -> result CommandResult) (executable : jsstring).

(** The two batches of [qualify], or what it throws. *)
Definition loopback (profile : CodecProfile) (q : QualificationCase) (context : QualificationContext) : result AdapterResult :=
  reject_if (1536 <? zlen (qa_payload q)) || negb (is_digest (qa_digest q)) with "qualification case is invalid";
  reject_if (ct_epoch context <? 0) || (UINT32_MAX <? ct_epoch context) with "RangeError";
  let metadata := metadata_block (ct_epoch context) (qa_direction q) (fitting 64 (scalars (qa_id q)))
                    (zlen (qa_payload q)) (qa_digest q) in
  let? encoded := run (request executable Encode (encodeRequest metadata (qa_payload q))) in
  reject_if negb (cr_exitCode encoded =? 0) || cr_timedOut encoded || negb (zlen (cr_stdout encoded) =? 249856)
    with "native encode failed";
  let? response := run (request executable Decode (cr_stdout encoded)) in
  let body := cr_stdout response in
  reject_if negb (cr_exitCode response =? 0) || cr_timedOut response
            || negb (result_block_matches body metadata (qa_payload q)) with "native decode result is invalid";
  let digest := sha256_hex (drop 289 body) in
  Ok (mkResult (cp_codec profile) profile (ct_evidenceClass context) (ct_epoch context)
        (direction_text (qa_direction q)) (qa_id q) digest (bool_decide (digest = qa_digest q)) 1
        (d_of_Z (read_le 4 17 body)) (d_of_Z (read_le 4 21 body)) false true false no_queues None).

Definition qualify (profile : CodecProfile) (q : QualificationCase) (context : QualificationContext) : AdapterResult :=
  match loopback profile q context with
  | Ok r => r
  | Throw _ =>
      mkResult (cp_codec profile) profile (ct_evidenceClass context) (ct_epoch context)
        (direction_text (qa_direction q)) (qa_id q) (qa_digest q) false 0 (d_of_Z 0) (d_of_Z 0) false false false
        no_queues (Some (js "cyrinx_command_failed"))
  end.
End Adapters.

Definition FIXTURE_PROFILE : CodecProfile := mkProfile "fixture" (js "fixture-loopback") true 1357.

Definition fixture_qualify (q : QualificationCase) (context : QualificationContext) : AdapterResult :=
  let digest := sha256_hex (qa_payload q) in
  mkResult "fixture" FIXTURE_PROFILE (ct_evidenceClass context) (ct_epoch context) (direction_text (qa_direction q))
    (qa_id q) digest (bool_decide (digest = qa_digest q)) 1 (d_of_Z 0) (d_of_Z 0) true true true no_queues None.

Definition QUIET_PROFILE : CodecProfile := mkProfile "quiet" (js "quiet-prebuilt-audible") true 1357.

(** The browser's result under the identity the caller asked for. *)
Definition browser_qualify (profile : CodecProfile) (client : jsstring -> Z -> result AdapterResult)
    (q : QualificationCase) (context : QualificationContext) : result AdapterResult :=
  let? r := client (qa_id q) (ct_epoch context) in
  Ok (mkResult (cp_codec profile) profile (ct_evidenceClass context) (ct_epoch context)
        (direction_text (qa_direction q)) (qa_id q) (ar_digest r) (ar_bytePerfect r) (ar_deliveryCount r)
        (ar_acquisitionMs r) (ar_airtimeMs r) (ar_coldAcquired r) (ar_complete r) (ar_audioPassed r) (ar_queues r)
        (ar_reasonCode r)).

(** [acceptBridgePlaybackFrame]: nothing is queued that was not validated. *)
Definition acceptBridgePlaybackFrame {S Chunk Metrics : Type} (validate : bytes -> Z -> result Chunk)
    (enqueue : Chunk -> M S Metrics) (frame : bytes) (epoch : Z) : M S Metrics :=
  let! chunk := mlift (validate frame epoch) in enqueue chunk.
