(* ===== verification/CyrinxWorker.v ===== *)
(** * The native batch worker ([packages/bridge/src/cyrinx-worker.ts])

    [CyrinxBatchWorker] owns one case at a time: a transmitter has the pinned
    executable encode the payload and hands out one playback frame; a listener
    gathers one contiguous capture window, has it decoded, and reports what came
    back.  Both wait for the executable, and [reset] or a rejection makes what
    comes back late inert. *)

From stdpp Require Import base list numbers option strings.
From Stdlib Require Import ZArith Lia SpecFloat.
From S2P Require Import Prelude Utf8 Doubles Json Sha256 Corpus Fwav Texts Qualification Coroutine UiQualification Command.

Definition CYRINX_FRAME_SAMPLES : Z := 62464.
Definition CYRINX_GUARD_SAMPLES : Z := 14400.
Definition CYRINX_CAPTURE_WINDOW_SAMPLES : Z := 131072.
Definition CYRINX_SAMPLE_RATE : Z := 48000.
Definition PCM_BYTES : Z := CYRINX_FRAME_SAMPLES * 4.

Record CyrinxCase := mkCyrinxCase {
  cc_id : jsstring; cc_direction : LiteralDirection; cc_payload : bytes; cc_digest : jsstring }.

Record CyrinxResult := mkCyrinxResult {
  cx_epoch : Z; cx_direction : LiteralDirection; cx_caseId : jsstring; cx_digest : jsstring;
  cx_acquisitionMs : Z; cx_airtimeMs : Z; cx_complete : bool; cx_corrupt : bool; cx_missing : Z; cx_duplicates : Z;
  cx_deliveryCount : Z; cx_bytePerfect : bool; cx_coldAcquired : bool;
  cx_queues : QueueEvidence }.

Record ActiveCase := mkActive {
  ca_epoch : Z; ca_generation : Z; ca_mode : CyrinxInstructionAction; ca_value : CyrinxCase; ca_metadata : bytes;
  ca_startedAt : Z; ca_chunks : list bytes; ca_samples : Z; ca_decoded : bool; ca_nextSampleIndex : Z;
  ca_pendingBytes : Z; ca_pendingHighWaterBytes : Z; ca_pendingHighWaterMs : double }.

#[export] Instance eta_ActiveCase : Eta ActiveCase := fun a =>
  mkActive (ca_epoch a) (ca_generation a) (ca_mode a) (ca_value a) (ca_metadata a) (ca_startedAt a) (ca_chunks a)
    (ca_samples a) (ca_decoded a) (ca_nextSampleIndex a) (ca_pendingBytes a) (ca_pendingHighWaterBytes a)
    (ca_pendingHighWaterMs a).

(** [/^[A-Za-z0-9._-]{1,64}$/] *)
Definition is_case_char (c : Z) : bool :=
  is_upper c || is_lower c || is_digit c || (c =? 46) || (c =? 95) || (c =? 45).

Definition metadata (input : CyrinxCase) (epoch : Z) : result bytes :=
  reject_if (1536 <? zlen (cc_payload input)) || negb (is_digest (cc_digest input))
            || negb (string_of is_case_char 1 64 (cc_id input)) || (epoch <=? 0) || (0xffffffff <? epoch)
    with "cyrinx case metadata is invalid";
  Ok (metadata_block epoch (cc_direction input) (utf8_encode (cc_id input)) (zlen (cc_payload input)) (cc_digest input)).

(** [Number.isFinite(buffer.readFloatLE(offset))]: the exponent is not all ones. *)
Definition finite_float (offset : nat) (b : bytes) : bool :=
  negb (Z.land (Z.shiftr (read_le 4 offset b) 23) 255 =? 255).

Definition finite_double (offset : nat) (b : bytes) : bool :=
  negb (Z.land (Z.shiftr (read_le 8 offset b) 52) 2047 =? 2047).

Definition finiteFloat32 (samples : bytes) : bool :=
  forallb (fun i => finite_float (4 * i) samples) (seq 0 (length samples / 4)).

Record CyrinxBatchWorker := mkWorker {
  cw_active : option ActiveCase;
  cw_generation : Z;
  cw_epoch : option Z;
  cw_outboundSequence : Z;
  cw_playbackSampleIndex : Z;
  cw_lastCaptureSequence : Z;
  cw_delivered : list jsstring;
  (* the generations whose native work was aborted, and the clock *)
  cw_aborted : list Z;
  cw_now : Z;
}.

#[export] Instance eta_CyrinxBatchWorker : Eta CyrinxBatchWorker := fun w =>
  mkWorker (cw_active w) (cw_generation w) (cw_epoch w) (cw_outboundSequence w) (cw_playbackSampleIndex w)
    (cw_lastCaptureSequence w) (cw_delivered w) (cw_aborted w) (cw_now w).

Definition new_worker (now : Z) : CyrinxBatchWorker := mkWorker None 0 None 0 0 (-1) [] [] now.

(** What a call resolves to: a playback frame, a result, or neither. *)
Inductive WorkerAnswer := Undefined | Playback (frame : bytes) | Received (r : CyrinxResult).

Abbreviation WM := (M CyrinxBatchWorker) (only parsing).
Abbreviation WCo := (co CyrinxBatchWorker PinnedCommandRequest CommandResult) (only parsing).

(** [`${epoch}\u0000${direction}\u0000${id}`] *)
Definition case_identity (value : CyrinxCase) (epoch : Z) : jsstring :=
  number_text epoch ++ [0] ++ direction_text (cc_direction value) ++ [0] ++ cc_id value.

Definition isCurrent (generation : Z) (w : CyrinxBatchWorker) : bool :=
  match cw_active w with Some a => ca_generation a =? generation | None => false end.

Definition clearActive (abort : bool) : WM unit :=
  let! w := mget in
  cw_active <== None;;
  cw_generation <== cw_generation w + 1;;
  match cw_active w with
  | Some a => if abort then cw_aborted <== (cw_aborted w ++ [ca_generation a]) else mskip
  | None => mskip
  end.

Definition reject {A} (reason : string) : WM A := clearActive true;; mthrow reason.

(** [delivered.add(identity)] *)
Definition add_identity (identity : jsstring) (l : list jsstring) : list jsstring :=
  if bool_decide (identity ∈ l) then l else l ++ [identity].

Definition reset : WM unit :=
  clearActive true;;
  cw_epoch <== None;; cw_outboundSequence <== 0;; cw_playbackSampleIndex <== 0;; cw_lastCaptureSequence <== -1;;
  cw_delivered <== [].

Section Worker.
Context (executable : jsstring).

(** ** Transmitting *)

(** [begin] up to its first await: the new case and its metadata. *)
Definition own (value : CyrinxCase) (epoch : Z) (mode : CyrinxInstructionAction) : WM ActiveCase :=
  let! w := mget in
  if match cw_active w with Some _ => true | None => false end then mthrow "cyrinx worker already owns a case"
  else if match cw_epoch w with Some e => negb (e =? epoch) | None => false end
  then mthrow "cyrinx reset is required before changing epoch"
  else
    let! meta := mlift (metadata value epoch) in
    if bool_decide (case_identity value epoch ∈ cw_delivered w) then mthrow "cyrinx_duplicate_case"
    else
      cw_epoch <== Some epoch;;
      cw_generation <== cw_generation w + 1;;
      let active := mkActive epoch (cw_generation w + 1) mode value meta (cw_now w) [] 0 false 0 0 0 (d_of_Z 0) in
      cw_active <== Some active;;
      mret active.

Definition playback_frame (epoch sequence firstSampleIndex : Z) (samples : bytes) : result bytes :=
  let? payload := encodePcmPayload firstSampleIndex samples in
  encodeFrame {| f_type := PCM_PLAYBACK; f_flags := Some CYRINX_PCM_PLAYBACK_FLAG; f_trafficClass := None;
                 f_epoch := epoch; f_sequence := sequence; f_sampleRate := Some CYRINX_SAMPLE_RATE;
                 f_channels := Some 1; f_encoding := Some FLOAT32_LE; f_payload := payload |}.

(** What [begin] does with the answer of the executable. *)
Definition encoded (active : ActiveCase) (response : result CommandResult) : WM WorkerAnswer :=
  let! w := mget in
  if negb (isCurrent (ca_generation active) w) then mthrow "cyrinx_operation_cancelled"
  else match response with
  | Throw _ => reject "cyrinx_encode_failed"
  | Ok r =>
      if cr_timedOut r then reject "cyrinx_process_timeout"
      else if negb (cr_exitCode r =? 0) || negb (zlen (cr_stdout r) =? PCM_BYTES) then reject "cyrinx_encode_failed"
      else
        let! frame := mlift (playback_frame (ca_epoch active) (cw_outboundSequence w) (cw_playbackSampleIndex w) (cr_stdout r)) in
        cw_outboundSequence <== cw_outboundSequence w + 1;;
        cw_playbackSampleIndex <== cw_playbackSampleIndex w + (CYRINX_FRAME_SAMPLES + CYRINX_GUARD_SAMPLES);;
        cw_delivered <== add_identity (case_identity (ca_value active) (ca_epoch active)) (cw_delivered w);;
        clearActive false;;
        mret (Playback frame)
  end.

Definition encode_request (active : ActiveCase) : PinnedCommandRequest :=
  request executable Encode (encodeRequest (ca_metadata active) (cc_payload (ca_value active))).

Definition encode_job (active : ActiveCase) : WCo WorkerAnswer :=
  let* response := co_attempt (await (encode_request active)) in
  block (encoded active response).

Definition begin (value : CyrinxCase) (epoch : Z) (mode : CyrinxInstructionAction) : WCo WorkerAnswer :=
  let* active := block (own value epoch mode) in
  match mode with Listen => co_ret Undefined | Transmit => encode_job active end.

(** ** Listening *)

Definition update_active (f : ActiveCase -> ActiveCase) : WM unit := mmodify (set cw_active (option_map f)).

Definition capture_header_ok (frame : FwavFrame) (active : ActiveCase) : bool :=
  is_message PCM_CAPTURE frame && (default 0 (f_flags frame) =? 0) && (f_epoch frame =? ca_epoch active)
  && (default 0 (f_channels frame) =? 1) && (default 0 (f_sampleRate frame) =? CYRINX_SAMPLE_RATE)
  && (default 0 (f_encoding frame) =? FLOAT32_LE).

(** The bytes that wait for the frame to be taken in. *)
Definition pend (raw : bytes) (a : ActiveCase) : ActiveCase :=
  let pending := ca_pendingBytes a + zlen raw in
  set ca_pendingHighWaterBytes (fun h => Z.max h pending) (set ca_pendingBytes (fun _ => pending) a).

Definition take_in (raw samples : bytes) (a : ActiveCase) : ActiveCase :=
  let sampleCount := zlen samples / 4 in
  let ms := d_mul (d_div (d_of_Z sampleCount) (d_of_Z CYRINX_SAMPLE_RATE)) (d_of_Z 1000) in
  set ca_pendingBytes (fun p => p - zlen raw) (set ca_pendingHighWaterMs (fun h => d_max h ms)
    (set ca_samples (fun n => n + sampleCount) (set ca_chunks (fun l => l ++ [samples])
      (set ca_nextSampleIndex (fun i => i + sampleCount) a)))).

(** [receiveCapture] up to its await: the case whose window is complete. *)
Definition gather (raw : bytes) : WM (option ActiveCase) :=
  let! w := mget in
  match cw_active w with
  | None => mret None
  | Some active =>
      if negb (bool_decide (ca_mode active = Listen)) || ca_decoded active then mret None
      else
        update_active (pend raw);;
        match decodeFrame raw with
        | Throw _ => reject "cyrinx_capture_invalid"
        | Ok frame =>
            if negb (capture_header_ok frame active) then reject "cyrinx_capture_invalid"
            else if f_sequence frame <=? cw_lastCaptureSequence w then reject "cyrinx_capture_replay"
            else match decodePcmPayload (f_payload frame) 1 with
            | Throw _ => reject "cyrinx_capture_invalid"
            | Ok (firstSampleIndex, samples) =>
                let sampleCount := zlen samples / 4 in
                if (sampleCount <=? 0) || negb (finiteFloat32 samples) then reject "cyrinx_capture_invalid"
                else if negb (firstSampleIndex =? ca_nextSampleIndex active) then reject "cyrinx_capture_discontinuity"
                else if CYRINX_CAPTURE_WINDOW_SAMPLES <? ca_samples active + sampleCount then reject "cyrinx_capture_overflow"
                else
                  cw_lastCaptureSequence <== f_sequence frame;;
                  update_active (take_in raw samples);;
                  let! w := mget in
                  match cw_active w with
                  | Some active =>
                      if ca_samples active <? CYRINX_CAPTURE_WINDOW_SAMPLES then mret None
                      else update_active (set ca_decoded (fun _ => true));; mret (Some active)
                  | None => mret None
                  end
            end
        end
  end.

Definition result_of (active : ActiveCase) (now : Z) (body : bytes) : CyrinxResult :=
  let digest := sha256_hex (drop 289 body) in
  let same := bool_decide (digest = cc_digest (ca_value active)) in
  mkCyrinxResult (ca_epoch active) (cc_direction (ca_value active)) (cc_id (ca_value active)) digest
    (Z.max 0 (now - ca_startedAt active)) (read_le 4 21 body) same (negb same) 0 0 1 same true
    (mkQueues (d_of_Z (ca_pendingHighWaterBytes active)) (ca_pendingHighWaterMs active) (d_of_Z 0) (d_of_Z 0) (d_of_Z 0)).

(** What [receiveCapture] does with the answer of the executable.  The case is
    the one it captured: nothing changes a case once it is being decoded. *)
Definition decoded (active : ActiveCase) (response : result CommandResult) : WM WorkerAnswer :=
  let! w := mget in
  if negb (isCurrent (ca_generation active) w) then mret Undefined
  else match response with
  | Throw _ => reject "cyrinx_decode_failed"
  | Ok r =>
      if cr_timedOut r then reject "cyrinx_process_timeout"
      else if negb (cr_exitCode r =? 0) then reject "cyrinx_decode_failed"
      else
        let body := cr_stdout r in
        if negb (result_block_matches body (ca_metadata active) (cc_payload (ca_value active))) || negb (finite_double 25 body)
        then reject "cyrinx_native_result_invalid"
        else
          cw_delivered <== add_identity (case_identity (ca_value active) (ca_epoch active)) (cw_delivered w);;
          clearActive false;;
          mret (Received (result_of active (cw_now w) body))
  end.

Definition decode_request (active : ActiveCase) : PinnedCommandRequest :=
  request executable Decode (take (Z.to_nat (CYRINX_CAPTURE_WINDOW_SAMPLES * 4)) (concat (ca_chunks active))).

Definition decode_job (active : ActiveCase) : WCo WorkerAnswer :=
  let* response := co_attempt (await (decode_request active)) in
  block (decoded active response).

Definition receiveCapture (raw : bytes) : WCo WorkerAnswer :=
  let* window := block (gather raw) in
  match window with None => co_ret Undefined | Some active => decode_job active end.

(** ** Every sequence of calls and answers *)

Abbreviation WorkerMachine := (Machine CyrinxBatchWorker PinnedCommandRequest CommandResult WorkerAnswer) (only parsing).

Inductive WorkerEvent :=
  | WkBegin (value : CyrinxCase) (epoch : Z) (mode : CyrinxInstructionAction)
  | WkCapture (raw : bytes)
  | WkAnswer (job : nat) (r : result CommandResult)
  | WkReset
  | WkClock (now : Z).

Definition worker_event (e : WorkerEvent) (m : WorkerMachine) : WorkerMachine :=
  match e with
  | WkBegin value epoch mode => launch (begin value epoch mode) m
  | WkCapture raw => launch (receiveCapture raw) m
  | WkAnswer job r => resume job r m
  | WkReset => perform reset m
  | WkClock now => perform (cw_now <== now) m
  end.

Definition worker_run (es : list WorkerEvent) (m : WorkerMachine) : WorkerMachine :=
  foldl (fun m e => worker_event e m) m es.
End Worker.
