(* ===== verification/CyrinxWorkerProps.v ===== *)
(** * What the native batch worker promises ([packages/bridge/src/cyrinx-worker.ts])

    An abstract contract of the worker: which case it owns, the samples it has
    heard, the cases it has delivered and the frames it has played; and the proof
    that the worker, with everything it leaves waiting, implements it. *)

From stdpp Require Import base list numbers option strings.
From Stdlib Require Import ZArith Lia SpecFloat.
From S2P Require Import Prelude Utf8 Doubles Json Sha256 Corpus Fwav Texts Qualification Coroutine UiQualification Command CyrinxWorker.

#[local] Opaque sha256_hex decode_request decodeFrame finiteFloat32 d_mul d_div d_of_Z.

(** ** The contract *)

Record Owned := mkOwned { ow_mode : CyrinxInstructionAction; ow_value : CyrinxCase; ow_epoch : Z; ow_heard : bytes }.

Record Contract := mkContract {
  k_epoch : option Z; k_owned : option Owned; k_delivered : list jsstring; k_played : Z }.

Definition fresh_contract : Contract := mkContract None None [] 0.

(** Neither a frame nor a result. *)
Definition silent (r : result WorkerAnswer) : Prop :=
  match r with Ok Undefined | Throw _ => True | _ => False end.

(** The [n]th playback frame of an epoch: its number, the samples of one modem
    frame, at the sample the frames and guards before it end. *)
Definition is_playback (epoch n : Z) (frame : bytes) : Prop :=
  exists f samples, decodeFrame frame = Ok f /\ f_type f = PCM_PLAYBACK /\ f_epoch f = epoch /\ f_sequence f = n
    /\ zlen samples = PCM_BYTES
    /\ f_payload f = le_bytes 8 (n * (CYRINX_FRAME_SAMPLES + CYRINX_GUARD_SAMPLES)) ++ samples.

(** A result is of the case that is owned, and its digest is that of the very
    payload the case has. *)
Definition is_result (o : Owned) (r : CyrinxResult) : Prop :=
  cx_epoch r = ow_epoch o /\ cx_direction r = cc_direction (ow_value o) /\ cx_caseId r = cc_id (ow_value o)
  /\ cx_digest r = sha256_hex (cc_payload (ow_value o)) /\ cx_deliveryCount r = 1 /\ cx_duplicates r = 0
  /\ cx_missing r = 0 /\ cx_corrupt r = negb (cx_complete r) /\ cx_bytePerfect r = cx_complete r
  /\ (cx_complete r = true <-> sha256_hex (cc_payload (ow_value o)) = cc_digest (ow_value o)).

(** A capture frame of the epoch, that starts where what was heard ends. *)
Definition is_capture (o : Owned) (raw samples : bytes) : Prop :=
  exists f, decodeFrame raw = Ok f /\ f_type f = PCM_CAPTURE /\ f_epoch f = ow_epoch o
    /\ decodePcmPayload (f_payload f) 1 = Ok (zlen (ow_heard o) / 4, samples) /\ finiteFloat32 samples = true
    /\ zlen (ow_heard o) + zlen samples <= 4 * CYRINX_CAPTURE_WINDOW_SAMPLES.

Definition owned_identity (o : Owned) : jsstring := case_identity (ow_value o) (ow_epoch o).

Definition hear (samples : bytes) (o : Owned) : Owned :=
  mkOwned (ow_mode o) (ow_value o) (ow_epoch o) (ow_heard o ++ samples).

(** One step, with what calls resolve to in it. *)
Inductive contract_step (k : Contract) : list (result WorkerAnswer) -> Contract -> Prop :=
  | KNothing answers : Forall silent answers -> contract_step k answers k
  | KOwn answers mode value epoch :
      k_owned k = None -> (k_epoch k = None \/ k_epoch k = Some epoch) ->
      case_identity value epoch ∉ k_delivered k -> Forall silent answers ->
      contract_step k answers
        (mkContract (Some epoch) (Some (mkOwned mode value epoch [])) (k_delivered k) (k_played k))
  | KHear answers o raw samples :
      k_owned k = Some o -> ow_mode o = Listen -> is_capture o raw samples -> Forall silent answers ->
      contract_step k answers (mkContract (k_epoch k) (Some (hear samples o)) (k_delivered k) (k_played k))
  | KPlay o frame :
      k_owned k = Some o -> ow_mode o = Transmit -> is_playback (ow_epoch o) (k_played k) frame ->
      owned_identity o ∉ k_delivered k ->
      contract_step k [Ok (Playback frame)]
        (mkContract (k_epoch k) None (k_delivered k ++ [owned_identity o]) (k_played k + 1))
  | KReceive o r :
      k_owned k = Some o -> ow_mode o = Listen -> zlen (ow_heard o) = 4 * CYRINX_CAPTURE_WINDOW_SAMPLES ->
      is_result o r -> owned_identity o ∉ k_delivered k ->
      contract_step k [Ok (Received r)]
        (mkContract (k_epoch k) None (k_delivered k ++ [owned_identity o]) (k_played k))
  | KFail o reason :
      k_owned k = Some o ->
      contract_step k [Throw reason] (mkContract (k_epoch k) None (k_delivered k) (k_played k))
  | KReset : contract_step k [] fresh_contract.

(** ** The worker, seen through the contract *)

Definition owned_of (a : ActiveCase) : Owned := mkOwned (ca_mode a) (ca_value a) (ca_epoch a) (concat (ca_chunks a)).

Definition contract_of (w : CyrinxBatchWorker) : Contract :=
  mkContract (cw_epoch w) (owned_of <$> cw_active w) (cw_delivered w) (cw_outboundSequence w).

Record active_ok (w : CyrinxBatchWorker) (a : ActiveCase) : Prop := {
  ao_generation : ca_generation a = cw_generation w;
  ao_identity : case_identity (ca_value a) (ca_epoch a) ∉ cw_delivered w;
  ao_samples : zlen (concat (ca_chunks a)) = 4 * ca_samples a;
  ao_index : ca_nextSampleIndex a = ca_samples a;
  ao_window : ca_samples a <= CYRINX_CAPTURE_WINDOW_SAMPLES;
}.

Record worker_ok (w : CyrinxBatchWorker) : Prop := {
  wo_active : forall a, cw_active w = Some a -> active_ok w a;
  wo_played : 0 <= cw_outboundSequence w
              /\ cw_playbackSampleIndex w = cw_outboundSequence w * (CYRINX_FRAME_SAMPLES + CYRINX_GUARD_SAMPLES);
}.

(** The case a coroutine waits for: late, or the one owned now. *)
Definition still (w : CyrinxBatchWorker) (mode : CyrinxInstructionAction) (a : ActiveCase) : Prop :=
  ca_mode a = mode /\ ca_generation a <= cw_generation w
  /\ forall b, cw_active w = Some b -> ca_generation b = ca_generation a ->
       owned_of b = owned_of a /\ ca_samples b = ca_samples a
       /\ (mode = Listen -> ca_decoded b = true /\ ca_samples a = CYRINX_CAPTURE_WINDOW_SAMPLES).

Section Refinement.
Context (executable : jsstring).

Definition job_ok (w : CyrinxBatchWorker) (c : co CyrinxBatchWorker PinnedCommandRequest CommandResult WorkerAnswer) : Prop :=
  (exists a, c = encode_job executable a /\ still w Transmit a)
  \/ (exists a, c = decode_job executable a /\ still w Listen a).

Abbreviation WorkerMachine := (Machine CyrinxBatchWorker PinnedCommandRequest CommandResult WorkerAnswer) (only parsing).

Implicit Types (m : WorkerMachine).

Record machine_ok (m : WorkerMachine) : Prop := {
  mo_worker : worker_ok (m_state m);
  mo_jobs : Forall (fun j => job_ok (m_state m) j.2) (m_jobs m);
}.

(** One event is one step of the contract. *)
Definition implements (m m' : WorkerMachine) : Prop :=
  machine_ok m' /\ exists answers, map snd (m_done m') = map snd (m_done m) ++ answers
    /\ contract_step (contract_of (m_state m)) answers (contract_of (m_state m')).

(** ** The blocks *)

Definition cleared (abort : bool) (w : CyrinxBatchWorker) : CyrinxBatchWorker := final (clearActive abort) w.

Lemma cleared_contract abort w :
  contract_of (cleared abort w) = mkContract (cw_epoch w) None (cw_delivered w) (cw_outboundSequence w).
Proof. unfold cleared, clearActive, final, mbind. cbn. destruct (cw_active w), abort; done. Qed.

Lemma cleared_fields abort w :
  cw_active (cleared abort w) = None /\ cw_generation (cleared abort w) = cw_generation w + 1
  /\ cw_epoch (cleared abort w) = cw_epoch w /\ cw_delivered (cleared abort w) = cw_delivered w
  /\ cw_outboundSequence (cleared abort w) = cw_outboundSequence w
  /\ cw_playbackSampleIndex (cleared abort w) = cw_playbackSampleIndex w.
Proof. unfold cleared, clearActive, final, mbind. cbn. destruct (cw_active w), abort; done. Qed.

Lemma clearActive_runs abort w : clearActive abort w = (Ok tt, cleared abort w).
Proof. unfold cleared, clearActive, final, mbind. cbn. destruct (cw_active w), abort; done. Qed.

Lemma reject_runs {A} reason w : reject (A:=A) reason w = (Throw reason, cleared true w).
Proof. unfold reject, mbind. by rewrite clearActive_runs. Qed.

Lemma cleared_ok abort w : worker_ok w -> worker_ok (cleared abort w).
Proof.
  intros [Ha Hp]. destruct (cleared_fields abort w) as (H1 & H2 & H3 & H4 & H5 & H6).
  split; [by rewrite H1|by rewrite H5, H6].
Qed.

Lemma still_cleared abort w mode a : still w mode a -> still (cleared abort w) mode a.
Proof.
  intros (H1 & H2 & _). destruct (cleared_fields abort w) as (E1 & E2 & _). unfold still. rewrite E1, E2.
  split_and!; [done|lia|done].
Qed.

Lemma job_cleared abort w c : job_ok w c -> job_ok (cleared abort w) c.
Proof. intros [(a & -> & H)|(a & -> & H)]; [left|right]; eauto using still_cleared. Qed.

Lemma own_cases value epoch mode w :
  (exists reason, own value epoch mode w = (Throw reason, w))
  \/ exists a, own value epoch mode w
       = (Ok a, set cw_active (fun _ => Some a) (set cw_generation (fun g => g + 1) (set cw_epoch (fun _ => Some epoch) w)))
     /\ owned_of a = mkOwned mode value epoch [] /\ ca_generation a = cw_generation w + 1 /\ ca_samples a = 0
     /\ ca_nextSampleIndex a = 0 /\ ca_mode a = mode
     /\ cw_active w = None /\ (cw_epoch w = None \/ cw_epoch w = Some epoch)
     /\ case_identity value epoch ∉ cw_delivered w.
Proof.
  unfold own, mbind, mget, mlift, mthrow. destruct (cw_active w) as [b|] eqn:Ha; [eauto|].
  destruct (cw_epoch w) as [e|] eqn:He; [destruct (negb (e =? epoch)) eqn:Hne; [eauto|]|];
    (destruct (metadata value epoch) as [meta|m]; [|eauto]); case_bool_decide as Hd; eauto;
    right; eexists; (split; [by rewrite <- ?Ha|]); bool_split; split_and!; auto; subst; auto.
Qed.

Lemma playback_frame_spec epoch n samples frame :
  0 <= n -> zlen samples = PCM_BYTES ->
  playback_frame epoch n (n * (CYRINX_FRAME_SAMPLES + CYRINX_GUARD_SAMPLES)) samples = Ok frame ->
  is_playback epoch n frame.
Proof.
  intros Hn Hlen H. unfold playback_frame in H. result_inv. unfold encodePcmPayload in R. result_inv.
  pose proof (frame_decode _ _ H) as Hd.
  destruct (validateFrame _) as [v|e] eqn:Hv; [|unfold encodeFrame in H; by rewrite Hv in H].
  pose proof (validateFrame_shape _ _ Hv) as ->. eexists _, samples. split; [exact Hd|]. by cbn.
Qed.

Lemma encoded_cases a r w : worker_ok w ->
  (encoded a r w = (Throw "cyrinx_operation_cancelled", w) /\ isCurrent (ca_generation a) w = false)
  \/ isCurrent (ca_generation a) w = true
     /\ ((exists reason, encoded a r w = (Throw reason, w)) \/ (exists reason, encoded a r w = (Throw reason, cleared true w))
         \/ exists frame, encoded a r w
              = (Ok (Playback frame),
                 cleared false (set cw_delivered (add_identity (case_identity (ca_value a) (ca_epoch a)))
                   (set cw_playbackSampleIndex (fun i => i + (CYRINX_FRAME_SAMPLES + CYRINX_GUARD_SAMPLES))
                     (set cw_outboundSequence (fun n => n + 1) w))))
            /\ is_playback (ca_epoch a) (cw_outboundSequence w) frame).
Proof.
  intros Hw. destruct (wo_played _ Hw) as [Hn Hi].
  unfold encoded, mbind, mget, mlift. destruct (isCurrent _ w) eqn:Hc; cbn [negb]; [right|by left]. split; [done|].
  destruct r as [r|e]; [|rewrite reject_runs; eauto]. destruct (cr_timedOut r); [rewrite reject_runs; eauto|].
  destruct (_ || _) eqn:Hb; [rewrite reject_runs; eauto|]. bool_split.
  destruct (playback_frame _ _ _ _) as [frame|e] eqn:Hf; [|eauto]. right; right. exists frame.
  rewrite Hi in Hf. split; [|by eapply playback_frame_spec]. unfold mmodify; cbv beta iota; by rewrite clearActive_runs.
Qed.

Lemma decodePcm_aligned payload index samples :
  decodePcmPayload payload 1 = Ok (index, samples) -> zlen samples = 4 * (zlen samples / 4) /\ 0 < zlen samples.
Proof.
  unfold decodePcmPayload, PCM_SAMPLE_INDEX_BYTES, zlen. intros H. result_inv. bool_split. rewrite length_drop.
  replace (4 * 1) with 4 in * by lia. rewrite Nat2Z.inj_sub by lia.
  pose proof (Z.div_mod (Z.of_nat (length payload) - 8) 4). change (Z.of_nat 8) with 8. lia.
Qed.

Lemma capture_header_inv frame a : capture_header_ok frame a = true -> f_type frame = PCM_CAPTURE /\ f_epoch frame = ca_epoch a.
Proof. unfold capture_header_ok, is_message. intros H. bool_split. done. Qed.

(** The case [b] is the case [a] after it heard [samples]. *)
Definition heard_more (a b : ActiveCase) (raw samples : bytes) : Prop :=
  owned_of b = hear samples (owned_of a) /\ ca_generation b = ca_generation a
  /\ ca_samples b = ca_samples a + zlen samples / 4 /\ ca_nextSampleIndex b = ca_samples b
  /\ zlen samples = 4 * (zlen samples / 4) /\ 0 < zlen samples
  /\ ca_samples b <= CYRINX_CAPTURE_WINDOW_SAMPLES /\ is_capture (owned_of a) raw samples
  /\ ca_mode b = Listen.

Lemma gather_cases raw w : worker_ok w ->
  gather raw w = (Ok None, w)
  \/ exists a, cw_active w = Some a /\ ca_mode a = Listen /\ ca_decoded a = false
     /\ ((exists reason b, gather raw w = (Throw reason, cleared true (set cw_active (fun _ => Some b) w)))
         \/ exists b n samples, heard_more a b raw samples
            /\ let w' := set cw_active (fun _ => Some b) (set cw_lastCaptureSequence (fun _ => n) w) in
               (gather raw w = (Ok None, w')
                \/ gather raw w = (Ok (Some b), set cw_active (option_map (set ca_decoded (fun _ => true))) w')
                   /\ ca_samples b = CYRINX_CAPTURE_WINDOW_SAMPLES)).
Proof.
  intros Hw. unfold gather, mbind, mget, mlift, mret, update_active, mmodify.
  destruct (cw_active w) as [a|] eqn:Ha; [|by left]. pose proof (wo_active _ Hw _ Ha) as [_ _ Hs Hi _].
  destruct (_ || _) eqn:Hm; [by left|]. bool_split. right. exists a. split_and!; try done.
  assert (Hr : forall reason, exists reason' b, reject (A:=option ActiveCase) reason (set cw_active (option_map (pend raw)) w)
    = (Throw reason', cleared true (set cw_active (fun _ => Some b) w))).
  { intros reason. exists reason, (pend raw a). rewrite reject_runs. do 2 f_equal. unfold set; cbn. by rewrite Ha. }
  destruct (decodeFrame raw) as [frame|] eqn:Hd; [|by left; apply Hr].
  destruct (capture_header_ok frame a) eqn:Hh; cbn [negb]; [|by left; apply Hr].
  destruct (_ <=? _); [by left; apply Hr|].
  destruct (decodePcmPayload _ _) as [[index samples]|] eqn:Hp; [|by left; apply Hr].
  destruct (_ || _) eqn:Hf; [by left; apply Hr|]. destruct (negb (index =? _)) eqn:Hx; [by left; apply Hr|].
  destruct (_ <? ca_samples a + _) eqn:Hl; [by left; apply Hr|]. bool_split. right.
  apply capture_header_inv in Hh as [Ht He]. destruct (decodePcm_aligned _ _ _ Hp) as [Hal Hpos].
  exists (take_in raw samples (pend raw a)), (f_sequence frame), samples. split.
  { unfold heard_more. split.
    { change (mkOwned (ca_mode a) (ca_value a) (ca_epoch a) (concat (ca_chunks a ++ [samples])) = hear samples (owned_of a)).
      by rewrite concat_snoc. }
    split; [reflexivity|]. split; [reflexivity|].
    split; [change (ca_nextSampleIndex a + zlen samples / 4 = ca_samples a + zlen samples / 4); by rewrite Hi|].
    split; [exact Hal|]. split; [exact Hpos|].
    split; [change (ca_samples a + zlen samples / 4 <= CYRINX_CAPTURE_WINDOW_SAMPLES); lia|]. split; [|assumption].
    exists frame. split; [exact Hd|]. split; [exact Ht|]. split; [exact He|].
    change (ow_heard (owned_of a)) with (concat (ca_chunks a)). rewrite Hs.
    split; [rewrite Z.mul_comm, Z.div_mul, <- Hi by lia; subst index; exact Hp|]. split; [assumption|]. lia. }
  assert (Hw' : set cw_active (option_map (take_in raw samples)) (set cw_lastCaptureSequence (fun _ => f_sequence frame)
      (set cw_active (option_map (pend raw)) w))
    = set cw_active (fun _ => Some (take_in raw samples (pend raw a))) (set cw_lastCaptureSequence (fun _ => f_sequence frame) w)).
  { unfold set at 1 2 3 4 5; cbn -[take_in pend]. by rewrite Ha. }
  cbv beta iota. rewrite Hw'. change (cw_active (set cw_active (fun _ => Some (take_in raw samples (pend raw a))) _))
    with (Some (take_in raw samples (pend raw a))). cbv beta iota.
  case_match eqn:Hfull; [by left|right]; bool_split. split; [done|].
  change (ca_samples (take_in raw samples (pend raw a))) with (ca_samples a + zlen samples / 4) in *. lia.
Qed.

Lemma result_block_payload body meta payload :
  result_block_matches body meta payload = true -> drop 289 body = payload.
Proof. unfold result_block_matches. intros [_ H%bool_decide_eq_true]%andb_prop. exact H. Qed.

Lemma decoded_cases a r w :
  (decoded a r w = (Ok Undefined, w) /\ isCurrent (ca_generation a) w = false)
  \/ isCurrent (ca_generation a) w = true
     /\ ((exists reason, decoded a r w = (Throw reason, cleared true w))
         \/ exists result, decoded a r w
              = (Ok (Received result),
                 cleared false (set cw_delivered (add_identity (case_identity (ca_value a) (ca_epoch a))) w))
            /\ is_result (owned_of a) result).
Proof.
  unfold decoded, mbind, mget. destruct (isCurrent _ w) eqn:Hc; cbn [negb]; [right|by left]. split; [done|].
  destruct r as [r|e]; [|rewrite reject_runs; eauto]. destruct (cr_timedOut r); [rewrite reject_runs; eauto|].
  destruct (negb (cr_exitCode r =? 0)); [rewrite reject_runs; eauto|].
  destruct (_ || _) eqn:Hb; [rewrite reject_runs; eauto|]. apply orb_false_elim in Hb as [Hb%negb_false_iff _].
  apply result_block_payload in Hb. right. eexists. split.
  { unfold mmodify; cbv beta iota. rewrite clearActive_runs. reflexivity. }
  unfold is_result, result_of, owned_of; cbn -[sha256_hex]. rewrite Hb. split_and!; try done; apply bool_decide_eq_true.
Qed.

(** ** The events *)

Lemma add_identity_new i l : i ∉ l -> add_identity i l = l ++ [i].
Proof. intros H. unfold add_identity. by rewrite bool_decide_eq_false_2. Qed.

(** A case that is current is the one owned, as the coroutine knows it. *)
Lemma current_owned w mode a : still w mode a -> isCurrent (ca_generation a) w = true ->
  exists b, cw_active w = Some b /\ owned_of b = owned_of a /\ ca_samples b = ca_samples a
    /\ (mode = Listen -> ca_decoded b = true /\ ca_samples a = CYRINX_CAPTURE_WINDOW_SAMPLES).
Proof.
  intros (H1 & H2 & H3) Hc. unfold isCurrent in Hc. destruct (cw_active w) as [b|]; [|done]. bool_split. eauto.
Qed.

(** The end of a case that was delivered. *)
Lemma delivered_ok w w' : worker_ok w -> cw_active w' = cw_active w -> 
  0 <= cw_outboundSequence w' ->
  cw_playbackSampleIndex w' = cw_outboundSequence w' * (CYRINX_FRAME_SAMPLES + CYRINX_GUARD_SAMPLES) ->
  worker_ok (cleared false w').
Proof.
  intros Hw Ha Hn Hi. destruct (cleared_fields false w') as (H1 & H2 & H3 & H4 & H5 & H6).
  split; [by rewrite H1|by rewrite H5, H6].
Qed.

(** What a coroutine waits for is late once the case is over. *)
Lemma still_over w w' mode a : still w mode a -> cw_active w' = None -> cw_generation w <= cw_generation w' -> still w' mode a.
Proof. intros (H1 & H2 & _) Hn Hg. unfold still. rewrite Hn. split_and!; [done|lia|done]. Qed.

Lemma jobs_mono {A} (P Q : A -> Prop) (jobs : list (nat * A)) :
  (forall c, P c -> Q c) -> Forall (fun j => P j.2) jobs -> Forall (fun j => Q j.2) jobs.
Proof. intros H HF. eapply Forall_impl; [exact HF|]. intros []; cbn; auto. Qed.

Lemma job_over w w' c : job_ok w c -> cw_active w' = None -> cw_generation w <= cw_generation w' -> job_ok w' c.
Proof. intros [(a & -> & H)|(a & -> & H)] Hn Hg; [left|right]; eauto using still_over. Qed.

(** A step that resolves nothing, or one call. *)
Lemma implements_quiet m m' :
  machine_ok m' -> m_done m' = m_done m ->
  contract_step (contract_of (m_state m)) [] (contract_of (m_state m')) -> implements m m'.
Proof. intros Hm Hd Hs. split; [done|]. exists []. by rewrite Hd, app_nil_r. Qed.

Lemma implements_answer m m' id r :
  machine_ok m' -> m_done m' = m_done m ++ [(id, r)] ->
  contract_step (contract_of (m_state m)) [r] (contract_of (m_state m')) -> implements m m'.
Proof. intros Hm Hd Hs. split; [done|]. exists [r]. by rewrite Hd, map_app. Qed.

Lemma machine_done m s' jobs next done : worker_ok s' -> Forall (fun j => job_ok s' j.2) jobs ->
  machine_ok (mkMachine s' jobs next (m_done m ++ done)).
Proof. by split. Qed.

(** A refusal changes nothing; a rejection gives the case up. *)
Lemma refused_implements m id c jobs next reason :
  machine_ok m -> Forall (fun j => job_ok (m_state m) j.2) jobs ->
  co_run c (m_state m) = (CoDone (Throw reason), m_state m) ->
  implements m (proceed id c (mkMachine (m_state m) jobs next (m_done m))).
Proof.
  intros [Hw Hj] Hjobs Hc. rewrite (proceed_done _ _ (mkMachine (m_state m) jobs next (m_done m)) _ _ Hc). eapply implements_answer; [by split|done|].
  constructor. by constructor.
Qed.

Lemma undefined_implements m id c jobs next :
  machine_ok m -> Forall (fun j => job_ok (m_state m) j.2) jobs ->
  co_run c (m_state m) = (CoDone (Ok Undefined), m_state m) ->
  implements m (proceed id c (mkMachine (m_state m) jobs next (m_done m))).
Proof.
  intros [Hw Hj] Hjobs Hc. rewrite (proceed_done _ _ (mkMachine (m_state m) jobs next (m_done m)) _ _ Hc). eapply implements_answer; [by split|done|].
  constructor. by constructor.
Qed.

Lemma contract_owned w a : cw_active w = Some a -> k_owned (contract_of w) = Some (owned_of a).
Proof. intros H. cbn. by rewrite H. Qed.

Lemma rejected_implements m id c jobs next reason a b :
  machine_ok m -> Forall (fun j => job_ok (m_state m) j.2) jobs -> cw_active (m_state m) = Some a ->
  co_run c (m_state m) = (CoDone (Throw reason), cleared true (set cw_active (fun _ => Some b) (m_state m))) ->
  implements m (proceed id c (mkMachine (m_state m) jobs next (m_done m))).
Proof.
  intros [Hw Hj] Hjobs Ha Hc. rewrite (proceed_done _ _ (mkMachine (m_state m) jobs next (m_done m)) _ _ Hc).
  set (w' := set cw_active (fun _ => Some b) (m_state m)).
  destruct (cleared_fields true w') as (E1 & E2 & E3 & E4 & E5 & E6).
  eapply implements_answer; [|done|].
  - split; [split; cbn [m_state]; [by rewrite E1|rewrite E5, E6; apply (wo_played _ Hw)]|]. cbn [m_state m_jobs].
    eapply jobs_mono; [|exact Hjobs]. intros c' Hc'. eapply job_over; [exact Hc'|exact E1|]. rewrite E2. unfold w', set; cbn. lia.
  - cbn [m_state]. rewrite cleared_contract. eapply (KFail (contract_of (m_state m))). by apply contract_owned.
Qed.

(** ** [begin] *)

Lemma begin_implements value epoch mode m :
  machine_ok m -> implements m (launch (begin executable value epoch mode) m).
Proof.
  intros Hm. pose proof Hm as [Hw Hj]. unfold launch. set (m1 := mkMachine _ _ _ _).
  assert (Hrun : co_run (begin executable value epoch mode) (m_state m)
    = match own value epoch mode (m_state m) with
      | (Ok a, s') => co_run (match mode with Listen => co_ret Undefined | Transmit => encode_job executable a end) s'
      | (Throw e, s') => (CoDone (Throw e), s') end) by apply co_run_block.
  destruct (own_cases value epoch mode (m_state m)) as [[reason E]|(a & E & Ho & Hg & Hs & Hx & Hmo & Hna & He & Hi)];
    rewrite E in Hrun; [by eapply refused_implements|].
  set (s' := set cw_active _ _) in *.
  assert (Hok : worker_ok s').
  { split; [|apply (wo_played _ Hw)]. intros a' [= <-]. unfold owned_of in Ho. injection Ho as _ Hv Hep Hch.
    split; unfold s', set; cbn; rewrite ?Hv, ?Hep, ?Hch, ?Hs, ?Hg; done. }
  assert (Hjobs : Forall (fun j => job_ok s' j.2) (m_jobs m)).
  { eapply jobs_mono; [|exact Hj]. intros c [(b & -> & H1 & H2 & H3)|(b & -> & H1 & H2 & H3)]; [left|right];
      exists b; (split; [done|]); unfold still; (split; [done|]); (split; [unfold s', set; cbn; lia|]); intros a' [= <-] Hga; lia. }
  assert (Hstep : forall answers, Forall silent answers -> contract_step (contract_of (m_state m)) answers (contract_of s')).
  { intros answers Hsil. replace (contract_of s') with (mkContract (Some epoch) (Some (mkOwned mode value epoch []))
      (k_delivered (contract_of (m_state m))) (k_played (contract_of (m_state m)))) by (rewrite <- Ho; reflexivity).
    constructor; [cbn; by rewrite Hna|done..]. }
  destruct mode; cbn [co_run co_ret] in Hrun.
  - rewrite (proceed_wait _ _ m1 _ _ _ Hrun). eapply implements_quiet; [|done|by apply Hstep].
    split; [done|]. cbn [m_state m_jobs m1]. apply Forall_app. split; [done|]. constructor; [|done]. cbn [snd].
    left. exists a. split; [reflexivity|]. unfold still. split; [done|]. split; [unfold s', set; cbn; lia|].
    intros a' [= <-] _. by split_and!.
  - rewrite (proceed_done _ _ m1 _ _ Hrun). eapply implements_answer; [by split|done|]. apply Hstep. by constructor.
Qed.

(** ** [receiveCapture] *)

(** While a case listens on, nothing waits for it. *)
Lemma job_listening w w' a b c :
  job_ok w c -> cw_active w = Some a -> ca_mode a = Listen -> ca_decoded a = false ->
  cw_active w' = Some b -> ca_generation b = ca_generation a -> cw_generation w' = cw_generation w -> job_ok w' c.
Proof.
  intros Hc Ha Hm Hd Hb Hg Hw. destruct Hc as [(j & -> & H1 & H2 & H3)|(j & -> & H1 & H2 & H3)]; [left|right];
    exists j; (split; [done|]); (split; [done|]); (split; [by rewrite Hw|]); intros b' Hb' Hj;
    rewrite Hb in Hb'; injection Hb' as <-; destruct (H3 a Ha ltac:(congruence)) as (Ho & _ & Hl).
  - unfold owned_of in Ho. injection Ho as Hmj _ _ _. congruence.
  - destruct (Hl eq_refl). congruence.
Qed.

Lemma capture_implements raw m : machine_ok m -> implements m (launch (receiveCapture executable raw) m).
Proof.
  intros Hm. pose proof Hm as [Hw Hj]. unfold launch. set (m1 := mkMachine _ _ _ _).
  assert (Hrun : co_run (receiveCapture executable raw) (m_state m)
    = match gather raw (m_state m) with
      | (Ok window, s') => co_run (match window with None => co_ret Undefined | Some a => decode_job executable a end) s'
      | (Throw e, s') => (CoDone (Throw e), s') end) by apply co_run_block.
  destruct (gather_cases raw _ Hw) as [E|(a & Ha & Hmo & Hde & [(reason & b & E)|(b & n & samples & Hh & HE)])];
    [rewrite E in Hrun; by apply undefined_implements|rewrite E in Hrun; by eapply rejected_implements|].
  cbv zeta in HE. set (s' := set cw_active (fun _ => Some b) _) in HE. pose proof (wo_active _ Hw _ Ha) as [Ag Ai As Ax Aw].
  destruct Hh as (Ho & Hg & Hs & Hx & Hal & Hpos & Hwin & Hcap & Hml).
  assert (Hid : ca_value b = ca_value a /\ ca_epoch b = ca_epoch a /\ concat (ca_chunks b) = concat (ca_chunks a) ++ samples)
    by (unfold owned_of, hear in Ho; by injection Ho).
  destruct Hid as (Hv & Hep & Hch).
  assert (Hok : forall b' w', cw_active w' = Some b' -> owned_of b' = owned_of b -> ca_generation b' = ca_generation b ->
      ca_samples b' = ca_samples b -> ca_nextSampleIndex b' = ca_nextSampleIndex b -> cw_generation w' = cw_generation (m_state m) ->
      cw_delivered w' = cw_delivered (m_state m) -> cw_outboundSequence w' = cw_outboundSequence (m_state m) ->
      cw_playbackSampleIndex w' = cw_playbackSampleIndex (m_state m) -> worker_ok w').
  { intros b' w' Hb' Hob Hgb Hsb Hxb Hgw Hdw Hnw Hiw. split; [|rewrite Hnw, Hiw; apply (wo_played _ Hw)].
    intros b'' Hb''. rewrite Hb' in Hb''. injection Hb'' as <-. unfold owned_of in Hob. injection Hob as _ Hv' Hep' Hch'.
    split; rewrite ?Hv', ?Hep', ?Hv, ?Hep, ?Hgb, ?Hsb, ?Hxb, ?Hgw, ?Hdw; try done; try congruence.
    rewrite Hch', Hch. unfold zlen in *. rewrite length_app. lia. }
  assert (Hstep : forall answers w', Forall silent answers -> cw_epoch w' = cw_epoch (m_state m) ->
      owned_of <$> cw_active w' = Some (owned_of b) -> cw_delivered w' = cw_delivered (m_state m) ->
      cw_outboundSequence w' = cw_outboundSequence (m_state m) ->
      contract_step (contract_of (m_state m)) answers (contract_of w')).
  { intros answers w' Hsil E1 E2 E3 E4. unfold contract_of at 2. rewrite E1, E2, E3, E4, Ho.
    eapply (KHear (contract_of (m_state m))); [by apply contract_owned|done|exact Hcap|done]. }
  destruct HE as [E|[E Hfull]]; rewrite E in Hrun; cbn [co_run co_ret] in Hrun.
  - rewrite (proceed_done _ _ m1 _ _ Hrun). eapply implements_answer; [|done|by apply Hstep; [constructor|..]].
    split; cbn [m_state m_jobs m1]; [by eapply Hok|]. eapply jobs_mono; [|exact Hj].
    intros c Hc. by eapply job_listening.
  - rewrite (proceed_wait _ _ m1 _ _ _ Hrun). eapply implements_quiet; [|done|by apply Hstep].
    set (s'' := set cw_active _ s') in *. assert (Hs'' : cw_active s'' = Some (set ca_decoded (fun _ => true) b)) by done.
    split; cbn [m_state m_jobs m1]; [by eapply Hok|]. apply Forall_app. split.
    + eapply jobs_mono; [|exact Hj]. intros c Hc. by eapply job_listening.
    + constructor; [|done]. right. exists b. split; [reflexivity|]. split; [done|]. split; [by rewrite Hg, Ag|].
      rewrite Hs''. intros b' [= <-] _. by split_and!.
Qed.

(** ** Answers of the executable *)

Lemma resume_job id c m : map_get id (m_jobs m) = Some c -> machine_ok m ->
  job_ok (m_state m) c /\ Forall (fun j => job_ok (m_state m) j.2) (without id (m_jobs m)).
Proof.
  intros H [_ Hj]. split; [|by apply without_Forall]. apply map_get_elem in H. rewrite Forall_forall in Hj. by apply (Hj _ H).
Qed.

(** A case that was delivered: it is remembered, and no longer owned. *)
Lemma delivered_implements m id c jobs a b answer w' :
  machine_ok m -> Forall (fun j => job_ok (m_state m) j.2) jobs ->
  cw_active (m_state m) = Some b -> owned_of b = owned_of a ->
  co_run c (m_state m) = (CoDone (Ok answer), cleared false w') ->
  cw_delivered w' = add_identity (case_identity (ca_value a) (ca_epoch a)) (cw_delivered (m_state m)) ->
  cw_epoch w' = cw_epoch (m_state m) -> cw_generation w' = cw_generation (m_state m) ->
  0 <= cw_outboundSequence w' ->
  cw_playbackSampleIndex w' = cw_outboundSequence w' * (CYRINX_FRAME_SAMPLES + CYRINX_GUARD_SAMPLES) ->
  (owned_identity (owned_of a) ∉ cw_delivered (m_state m) ->
   contract_step (contract_of (m_state m)) [Ok answer]
     (mkContract (cw_epoch (m_state m)) None (cw_delivered (m_state m) ++ [owned_identity (owned_of a)]) (cw_outboundSequence w'))) ->
  implements m (proceed id c (mkMachine (m_state m) jobs (m_next m) (m_done m))).
Proof.
  intros [Hw Hj] Hjobs Hb Ho Hc Hd He Hg Hn Hi Hstep.
  rewrite (proceed_done _ _ (mkMachine (m_state m) jobs (m_next m) (m_done m)) _ _ Hc).
  destruct (cleared_fields false w') as (E1 & E2 & E3 & E4 & E5 & E6).
  assert (Hni : owned_identity (owned_of a) ∉ cw_delivered (m_state m)).
  { rewrite <- Ho. apply (ao_identity _ _ (wo_active _ Hw _ Hb)). }
  eapply implements_answer; [|done|].
  - split; cbn [m_state m_jobs]; [split; [by rewrite E1|by rewrite E5, E6]|].
    eapply jobs_mono; [|exact Hjobs]. intros c' Hc'. eapply job_over; [exact Hc'|exact E1|]. rewrite E2, Hg. lia.
  - cbn [m_state]. rewrite cleared_contract, Hd, He, add_identity_new; [by apply Hstep|exact Hni].
Qed.

Lemma answer_implements id r m : machine_ok m -> implements m (resume id r m).
Proof.
  intros Hm. pose proof Hm as [Hw Hj]. unfold resume. destruct (map_get id (m_jobs m)) as [c|] eqn:E.
  2: by eapply implements_quiet; [| |constructor].
  destruct (resume_job _ _ _ E Hm) as [Hc Hrest]. destruct Hc as [(a & -> & Hst)|(a & -> & Hst)]; cbn [encode_job decode_job].
  - set (c := block (encoded a r) : co CyrinxBatchWorker PinnedCommandRequest CommandResult WorkerAnswer).
    change (implements m (proceed id c (mkMachine (m_state m) (without id (m_jobs m)) (m_next m) (m_done m)))).
    destruct (encoded_cases a r _ Hw) as [[Ee _]|[Hcur [[reason Ee]|[[reason Ee]|(frame & Ee & Hf)]]]].
    1,2: eapply refused_implements; [done|done|]; unfold c; rewrite co_run_last, Ee; reflexivity.
    all: destruct (current_owned _ _ _ Hst Hcur) as (b & Hb & Ho & Hs & _).
    + eapply (rejected_implements m id c _ _ reason b b); [done|done|done|]. unfold c. rewrite co_run_last, Ee. cbn. repeat f_equal.
      unfold set. destruct (m_state m); cbn in *. by subst.
    + match type of Ee with _ = (_, cleared _ ?w) => apply (delivered_implements m id c _ a b (Playback frame) w) end; try done;
        [unfold c; rewrite co_run_last, Ee; reflexivity|unfold set; cbn; destruct (wo_played _ Hw); lia
        |unfold set; cbn [cw_playbackSampleIndex cw_outboundSequence]; destruct (wo_played _ Hw) as [_ ->]; lia|].
      intros Hni. eapply (KPlay (contract_of (m_state m)) (owned_of a)); [cbn; rewrite Hb; cbn; by rewrite Ho|apply Hst|exact Hf|exact Hni].
  - set (c := block (decoded a r) : co CyrinxBatchWorker PinnedCommandRequest CommandResult WorkerAnswer).
    change (implements m (proceed id c (mkMachine (m_state m) (without id (m_jobs m)) (m_next m) (m_done m)))).
    destruct (decoded_cases a r (m_state m)) as [[Ee _]|[Hcur [[reason Ee]|(res & Ee & Hr)]]].
    { eapply undefined_implements; [done|done|]. unfold c. by rewrite co_run_last, Ee. }
    all: destruct (current_owned _ _ _ Hst Hcur) as (b & Hb & Ho & Hs & Hl); destruct (Hl eq_refl) as [_ Hfull].
    + eapply (rejected_implements m id c _ _ reason b b); [done|done|done|]. unfold c. rewrite co_run_last, Ee. cbn. repeat f_equal.
      unfold set. destruct (m_state m); cbn in *. by subst.
    + match type of Ee with _ = (_, cleared _ ?w) => apply (delivered_implements m id c _ a b (Received res) w) end; try done;
        [unfold c; rewrite co_run_last, Ee; reflexivity|apply (wo_played _ Hw)|apply (wo_played _ Hw)|].
      intros Hni. eapply (KReceive (contract_of (m_state m)) (owned_of a)); [cbn; rewrite Hb; cbn; by rewrite Ho|apply Hst| |exact Hr|exact Hni].
      pose proof (ao_samples _ _ (wo_active _ Hw _ Hb)) as Has. rewrite <- Ho. cbn [owned_of ow_heard]. lia.
Qed.

Lemma reset_implements m : machine_ok m -> implements m (perform reset m).
Proof.
  intros [Hw Hj]. unfold perform.
  assert (Hr : final reset (m_state m) = set cw_delivered (fun _ => []) (set cw_lastCaptureSequence (fun _ => -1)
    (set cw_playbackSampleIndex (fun _ => 0) (set cw_outboundSequence (fun _ => 0) (set cw_epoch (fun _ => None)
      (cleared true (m_state m))))))).
  { unfold final, reset, mbind at 1. rewrite clearActive_runs. reflexivity. }
  rewrite Hr. destruct (cleared_fields true (m_state m)) as (E1 & E2 & _). set (w' := set cw_delivered _ _).
  assert (Hn : cw_active w' = None) by exact E1.
  eapply implements_quiet; [|done|].
  - split; cbn [m_state m_jobs]; [split; [by rewrite Hn|done]|]. eapply jobs_mono; [|exact Hj]. intros c Hc.
    eapply job_over; [exact Hc|exact Hn|]. change (cw_generation w') with (cw_generation (cleared true (m_state m))). lia.
  - cbn [m_state]. replace (contract_of w') with fresh_contract; [constructor|]. unfold contract_of. by rewrite Hn.
Qed.

Lemma clock_implements now m : machine_ok m -> implements m (perform (cw_now <== now) m).
Proof.
  intros [Hw Hj]. unfold perform. set (w' := final _ _).
  eapply implements_quiet; [|done|by constructor].
  split; cbn [m_state m_jobs]; [split; [intros a Ha; by destruct (wo_active _ Hw a Ha)|apply (wo_played _ Hw)]|].
  eapply jobs_mono; [|exact Hj]. intros c [(a & -> & H)|(a & -> & H)]; [left|right]; by exists a.
Qed.

Lemma event_implements e m : machine_ok m -> implements m (worker_event executable e m).
Proof.
  destruct e; cbn [worker_event].
  - apply begin_implements.
  - apply capture_implements.
  - apply answer_implements.
  - apply reset_implements.
  - apply clock_implements.
Qed.
End Refinement.

(** Steps one after the other, with all the calls that were resolved. *)
Inductive contract_run (k : Contract) : list (result WorkerAnswer) -> Contract -> Prop :=
  | RunNone : contract_run k [] k
  | RunStep answers answers' k' k'' :
      contract_run k answers k' -> contract_step k' answers' k'' -> contract_run k (answers ++ answers') k''.

Lemma contract_step_delivers_once k answers k' :
  contract_step k answers k' -> NoDup (k_delivered k) -> NoDup (k_delivered k').
Proof.
  intros H Hn. destruct H; cbn; try done; try apply NoDup_nil_2; apply NoDup_app; (split; [done|]);
    (split; [|apply NoDup_singleton]); by intros x Hx ->%list_elem_of_singleton.
Qed.

Lemma contract_run_delivers_once k answers k' :
  contract_run k answers k' -> NoDup (k_delivered k) -> NoDup (k_delivered k').
Proof. induction 1; [done|]. intros. eapply contract_step_delivers_once; eauto. Qed.

Lemma new_worker_ok now : machine_ok [] (machine (new_worker now)).
Proof. by split. Qed.

Lemma run_implements executable es : forall m answers,
  machine_ok executable m -> contract_run fresh_contract answers (contract_of (m_state m)) ->
  map snd (m_done m) = answers ->
  let m' := worker_run executable es m in
  contract_run fresh_contract (map snd (m_done m')) (contract_of (m_state m')).
Proof.
  induction es as [|e es IH]; intros m answers Hm Hr Ha; cbn [worker_run foldl]; [by rewrite Ha|].
  destruct (event_implements executable e m Hm) as (Hm' & answers' & Hd & Hs).
  eapply (IH _ (answers ++ answers')); [done|by eapply RunStep|by rewrite Hd, Ha].
Qed.

(** C29: whatever is called and whatever the executable answers, early, late or
    never, the worker implements its contract: it owns at most one case, of one
    epoch until it is reset; a listener hears the capture frames of that epoch
    without a gap, up to one window; a call resolves to a frame or a result only
    for the case owned at that moment, the frame being the next of the epoch
    with the samples of one modem frame, the result being that of the very
    payload, after a whole window; a case delivered is never owned again; and
    what comes back after the case was given up or the worker reset resolves to
    neither. *)
Theorem worker_refines_contract executable es now :
  let m := worker_run executable es (machine (new_worker now)) in
  contract_run fresh_contract (map snd (m_done m)) (contract_of (m_state m)) /\ NoDup (cw_delivered (m_state m)).
Proof.
  intros m. assert (H : contract_run fresh_contract (map snd (m_done m)) (contract_of (m_state m))).
  { eapply run_implements; [by split|constructor|done]. }
  split; [done|]. apply (contract_run_delivers_once _ _ _ H), NoDup_nil_2.
Qed.

(** A transmitter plays one frame, once. *)
Definition sample_case : CyrinxCase :=
  mkCyrinxCase (js "cold-a-to-b") AtoB [1; 2; 3] (js "039058c6f2c0cb492c533b0a4d14ef77cc0f78abccced5287d84a1a2011cfb81").

Example transmit_once :
  let samples := replicate (Z.to_nat PCM_BYTES) 0 in
  let m := worker_run [] [WkBegin sample_case 1 Transmit; WkAnswer 0 (Ok (mkCommandResult 0 samples [] false));
                          WkBegin sample_case 1 Transmit] (machine (new_worker 0)) in
  map (fun r => match r with Ok (Playback frame) => zlen frame | _ => 0 end) (map snd (m_done m)) = [249896; 0]
  /\ (last (map snd (m_done m))) = Some (Throw "cyrinx_duplicate_case").
Proof. vm_compute. split; reflexivity. Qed.
