(* ===== verification/BridgeState.v ===== *)
(** * The bridge's state ([packages/bridge/src/server.ts])

    What [createBridgeServer] keeps between events: its endpoints and their
    connections, the packet and media queues, the packet that awaits the
    browser's admission, the acoustic readiness, the qualification session with
    the results and reasons gathered for the report, and the reports still to be
    written; and, of the world around it, the sockets, the timers, the clock, and
    a log of what was sent. *)

From stdpp Require Import base list numbers option strings.
From Stdlib Require Import ZArith Lia SpecFloat.
From S2P Require Import Prelude Utf8 Doubles Json Corpus Fwav UiQualification Qualification Report Coroutine CyrinxWorker.

Definition HEADER_BYTES : Z := 32.
Definition MAX_QUEUE_AGE_MS : Z := 5000.

(** ** Configuration *)

Record PacketQueueLimits := mkLimits { pl_maxItems : Z; pl_maxBytes : Z; pl_maxAgeMs : Z }.

Definition DEFAULT_PACKET_QUEUE_LIMITS : PacketQueueLimits := mkLimits 32 MAX_MESSAGE_BYTES MAX_QUEUE_AGE_MS.

(** A limit: an integer, positive and not above the maximum. *)
Definition limit (name : string) (maximum : option Z) (v : value) : result Z :=
  match v with
  | VNumber x =>
      match d_safe_integer x with
      | Some n =>
          if (n <=? 0) || match maximum with Some m => m <? n | None => false end
          then Throw ("packet_queue_" +:+ name +:+ "_invalid")%string else Ok n
      | None => Throw ("packet_queue_" +:+ name +:+ "_invalid")%string
      end
  | _ => Throw ("packet_queue_" +:+ name +:+ "_invalid")%string
  end.

(** [packetLimits]: the defaults, overridden by the options given; their type
    has no other keys. *)
Definition packetLimits (input : fields) : result PacketQueueLimits :=
  let given name (fallback : Z) := if has name input then get name input else vint fallback in
  let? maxItems := limit "maxItems" None (given "maxItems"%string (pl_maxItems DEFAULT_PACKET_QUEUE_LIMITS)) in
  let? maxBytes := limit "maxBytes" (Some MAX_MESSAGE_BYTES) (given "maxBytes"%string (pl_maxBytes DEFAULT_PACKET_QUEUE_LIMITS)) in
  let? maxAgeMs := limit "maxAgeMs" (Some 600000) (given "maxAgeMs"%string (pl_maxAgeMs DEFAULT_PACKET_QUEUE_LIMITS)) in
  Ok (mkLimits maxItems maxBytes maxAgeMs).

(** What the runner says of a qualification. *)
Record Qualification := mkQualification {
  ql_startedAtMs : option Z; ql_deadlineAtMs : option Z; ql_elapsedMs : option Z; ql_physicalGate : string;
  ql_fallbackState : FallbackState; ql_reasonCode : option CyrinxFallbackReason;
  ql_stage : CyrinxStage; ql_coldReceivePassed : bool }.

Record RunnerQualificationConfig := mkConfig {
  cf_machineId : jsstring; cf_role : Role; cf_reportTarget : jsstring; cf_evidenceClass : EvidenceClass;
  cf_codec : PinnedCodec; cf_qualification : Qualification }.

Record RunnerReportAuthority := mkAuthority {
  ra_tunEvidence : value; ra_commit : jsstring; ra_os : jsstring; ra_architecture : jsstring }.

Record BridgeOptions := mkOptions {
  bo_config : option RunnerQualificationConfig; bo_authority : option RunnerReportAuthority;
  bo_limits : PacketQueueLimits;
  (* are there a native worker, a build and a digital gate? *)
  bo_worker : bool; bo_build : bool; bo_digital : bool }.

(** ** Queues *)

(** An entry is an object: [qe_id] tells it from any other. *)
Record QueueEntry := mkEntry { qe_id : nat; qe_frame : FwavFrame; qe_enqueuedAt : Z }.

Record Queue := mkQueue { qu_frames : list QueueEntry; qu_bytes : Z; qu_overflowed : bool }.

#[export] Instance eta_Queue : Eta Queue := fun q => mkQueue (qu_frames q) (qu_bytes q) (qu_overflowed q).

Definition empty_queue : Queue := mkQueue [] 0 false.

Inductive PacketDirection := BrowserToFips | FipsToBrowser.

#[export] Instance PacketDirection_eq_dec : EqDecision PacketDirection.
Proof. solve_decision. Defined.

Inductive PacketQueueHealth := HNotConnected | HWaiting | HReady | HOverflow | HRejected.

Inductive EndpointState := ENotConnected | EReady | EDisconnected.

Record PendingBrowserAdmission := mkPending {
  pb_entry : QueueEntry; pb_owner : nat; pb_attempts : Z; pb_retryTimer : option nat }.

#[export] Instance eta_PendingBrowserAdmission : Eta PendingBrowserAdmission := fun p =>
  mkPending (pb_entry p) (pb_owner p) (pb_attempts p) (pb_retryTimer p).

(** ** Connections *)

Inductive ErrorOrigin := OriginCyrinx | OriginQuiet | OriginOther.

#[export] Instance ErrorOrigin_eq_dec : EqDecision ErrorOrigin.
Proof. solve_decision. Defined.

Record BrowserConnectionState := mkConnection {
  bc_mustResetBeforeUse : bool; bc_errorOrigins : list (Z * ErrorOrigin); bc_preemptedControls : list Z;
  bc_receivedEpoch : Z; bc_highestReceivedSequence : Z; bc_acousticCapability : bytes;
  bc_acousticCapabilityUsed : bool }.

#[export] Instance eta_BrowserConnectionState : Eta BrowserConnectionState := fun c =>
  mkConnection (bc_mustResetBeforeUse c) (bc_errorOrigins c) (bc_preemptedControls c) (bc_receivedEpoch c)
    (bc_highestReceivedSequence c) (bc_acousticCapability c) (bc_acousticCapabilityUsed c).

(** ** What the browser reports *)

Record BrowserAudio := mkAudio {
  au_browserVersion : jsstring; au_microphoneLabel : jsstring; au_contextState : jsstring;
  au_inputDeviceSampleRate : double; au_inputDeviceChannels : double; au_contextSampleRate : double;
  au_captureSampleRate : double; au_channels : double; au_echoCancellation : bool; au_noiseSuppression : bool;
  au_autoGainControl : bool }.

(** [digest] and [receivedSha256] are one field: they are always equal. *)
Record BrowserResult := mkBrowserResult {
  rs_epoch : Z; rs_caseId : jsstring; rs_receivedSha256 : option jsstring; rs_acquisitionMs : double;
  rs_airtimeMs : double; rs_deliveryCount : double; rs_bytePerfect : bool; rs_coldAcquired : bool; rs_complete : bool;
  rs_corrupt : bool; rs_missing : double; rs_duplicates : double; rs_queues : QueueEvidence }.

(** ** What the bridge sends *)

Inductive Outgoing :=
  | OutFrame (socket : nat) (raw : bytes)
  | OutCapability (socket : nat) (epoch : Z) (capability : bytes)
  | OutSession (socket : nat) (snapshot : CyrinxSessionSnapshot)
  | OutCyrinxResult (socket : nat) (epoch : Z) (caseId : jsstring) (direction : LiteralDirection) (cold : bool)
  | OutResultAccepted (socket : nat) (caseId : jsstring) (epoch : Z)
  | OutLoopbackReport (socket : nat)
  | OutClose (socket : nat) (code : string)
  | OutReport (report : value)
  | OutWorkerReset
  | OutTimer (handle : nat) (delayMs : Z).

Inductive TimerKind := RetryAdmission | CyrinxExpiry.

(** A report that waits for its turn to be written. *)
Record WriteTask := mkWrite { wt_generation : Z; wt_report : value; wt_announce : bool }.

(** What [refreshState] copied of the queues: their lengths, and the length
    and the bytes of the two packet queues. *)
Record PublishedQueues := mkPublished {
  pq_counts : list (MessageType * Z); pq_toFips : Z * Z; pq_toBrowser : Z * Z }.

(** ** The state *)

Record Bridge := mkBridge {
  (* [state] *)
  b_epoch : Z;
  b_rejectedFrames : Z;
  b_overflowedQueues : list string;
  b_discontinuities : Z;
  b_stampedResults : list (jsstring * Z);
  b_toFipsPackets : Z;
  b_toBrowserPackets : Z;
  b_toFipsHealth : PacketQueueHealth;
  b_toBrowserHealth : PacketQueueHealth;
  b_browserReadiness : bool;
  b_fipsReadiness : bool;
  b_browserEndpoint : EndpointState;
  b_fipsEndpoint : EndpointState;
  b_lastAcceptedAtMs : option Z;
  b_lastError : option string;
  b_acousticReady : bool;
  b_published : PublishedQueues;
  (* the variables of the closure *)
  b_queues : list (MessageType * Queue);
  b_toFips : Queue;
  b_toBrowser : Queue;
  b_audio : option BrowserAudio;
  b_generation : Z;
  b_results : list (jsstring * BrowserResult);
  b_failureReasons : list string;
  b_localAudioPreflight : bool;
  b_owner : option nat;
  b_fipsOwner : option nat;
  b_epochClaimed : bool;
  b_reconnectAllowed : bool;
  b_reconnectRequiresReset : bool;
  b_pending : option PendingBrowserAdmission;
  b_readinessProof : option bytes;
  b_operation : Z;
  b_settle : option nat;
  b_shuttingDown : bool;
  b_expiryTimer : option nat;
  b_session : option CyrinxQualificationSession;
  b_writes : list WriteTask;
  b_writing : option WriteTask;
  b_microtasks : nat;
  (* objects: the connection and the sequence tracker of each socket *)
  b_clients : list nat;
  b_connections : list (nat * BrowserConnectionState);
  b_browserConnections : list nat;
  b_trackers : list (nat * Z);
  b_liveTrackers : list nat;
  b_fipsSockets : list nat;
  b_closed : list nat;
  (* the world *)
  b_now : Z;
  b_open : list nat;
  b_broken : list nat;
  b_timers : list (nat * TimerKind);
  b_next : nat;
  b_out : list Outgoing;
}.

#[export] Instance eta_Bridge : Eta Bridge := fun b =>
  mkBridge (b_epoch b) (b_rejectedFrames b) (b_overflowedQueues b) (b_discontinuities b) (b_stampedResults b)
    (b_toFipsPackets b) (b_toBrowserPackets b) (b_toFipsHealth b) (b_toBrowserHealth b) (b_browserReadiness b)
    (b_fipsReadiness b) (b_browserEndpoint b) (b_fipsEndpoint b) (b_lastAcceptedAtMs b) (b_lastError b)
    (b_acousticReady b) (b_published b) (b_queues b) (b_toFips b) (b_toBrowser b) (b_audio b) (b_generation b) (b_results b)
    (b_failureReasons b) (b_localAudioPreflight b) (b_owner b) (b_fipsOwner b) (b_epochClaimed b)
    (b_reconnectAllowed b) (b_reconnectRequiresReset b) (b_pending b) (b_readinessProof b) (b_operation b)
    (b_settle b) (b_shuttingDown b) (b_expiryTimer b) (b_session b) (b_writes b) (b_writing b) (b_microtasks b) (b_clients b) (b_connections b)
    (b_browserConnections b) (b_trackers b) (b_liveTrackers b) (b_fipsSockets b) (b_closed b) (b_now b) (b_open b) (b_broken b) (b_timers b)
    (b_next b) (b_out b).

Abbreviation BM := (M Bridge) (only parsing).

(** The types of messages that have a media queue. *)
Definition QUEUED_TYPES : list MessageType :=
  [PCM_CAPTURE; PCM_PLAYBACK; QUALIFICATION_CASE; QUALIFICATION_RESULT; ERROR; RESET].

Definition new_bridge (options : BridgeOptions) (now : Z) : Bridge :=
  mkBridge 1 0 [] 0 [] 0 0 HNotConnected HNotConnected false false ENotConnected ENotConnected None None false
    (mkPublished [] (0, 0) (0, 0))
    (map (fun type => (type, empty_queue)) QUEUED_TYPES) empty_queue empty_queue None 1 [] [] false None None false false false
    None None 1 None false None ((fun c => new_session (cf_role c)) <$> bo_config options) [] None 0
    [] [] [] [] [] [] [] now [] [] [] 0 [].

(** ** Errors

    A [BridgeInputError] is its reason code; any other error carries a mark that
    no reason code has. *)

Definition foreign_mark : string := "Error: ".

Definition foreign {A} (r : result A) : result A :=
  match r with Ok a => Ok a | Throw e => Throw (foreign_mark +:+ e)%string end.

Definition is_bridge_error (e : string) : bool := negb (String.prefix foreign_mark e).

(** [/^[a-z0-9_]{1,80}$/] *)
Definition is_code (e : string) : bool := string_of (fun c => is_lower c || is_digit c || (c =? 95)) 1 80 (js e).

Definition safeBridgeError (e : string) : string :=
  if is_bridge_error e && is_code e then e else "invalid_fwav_message".

(** ** Sockets, timers and the log *)

Definition log (o : Outgoing) : BM unit := mmodify (set b_out (fun l => l ++ [o])).

Definition is_open (socket : nat) (b : Bridge) : bool := bool_decide (socket ∈ b_open b).

(** [socket.send]: it throws on a socket that is broken. *)
Definition send (socket : nat) (o : Outgoing) : BM unit :=
  let! b := mget in
  if bool_decide (socket ∈ b_broken b) then mthrow (foreign_mark +:+ "send")%string else log o.

Definition send_frame (socket : nat) (frame : FwavFrame) : BM unit :=
  let! raw := mlift (foreign (encodeFrame frame)) in send socket (OutFrame socket raw).

Definition set_timer (kind : TimerKind) (delayMs : Z) : BM nat :=
  let! b := mget in
  b_next <== S (b_next b);;
  b_timers <== (b_timers b ++ [(b_next b, kind)]);;
  log (OutTimer (b_next b) delayMs);;
  mret (b_next b).

Definition clear_timer (handle : nat) : BM unit := mmodify (set b_timers (map_delete handle)).

(** ** Lists as sets and maps *)

Definition add {A} `{EqDecision A} (x : A) (l : list A) : list A := if bool_decide (x ∈ l) then l else l ++ [x].
Definition remove {A} `{EqDecision A} (x : A) (l : list A) : list A := List.filter (fun y => negb (bool_decide (y = x))) l.

Definition addReason (reason : string) : BM unit := mmodify (set b_failureReasons (add reason)).

Definition no_connection : BrowserConnectionState := mkConnection false [] [] 0 (-1) [] false.

Definition connection (socket : nat) (b : Bridge) : BrowserConnectionState :=
  default no_connection (map_get socket (b_connections b)).

Definition update_connection (socket : nat) (f : BrowserConnectionState -> BrowserConnectionState) : BM unit :=
  mmodify (fun b => set b_connections (map_set socket (f (connection socket b))) b).

Definition last_sequence (socket : nat) (b : Bridge) : Z := default (-1) (map_get socket (b_trackers b)).
Definition set_sequence (socket : nat) (n : Z) : BM unit := mmodify (set b_trackers (map_set socket n)).

Definition owns (socket : nat) (b : Bridge) : bool := bool_decide (b_owner b = Some socket).
