(* ===== verification/BridgePackets.v ===== *)
(** * Packets between the browser and the FIPS daemon
    ([packages/bridge/src/server.ts], lines 484-690)

    The bounded queues in both directions, the one packet that awaits the
    browser's admission, and the acoustic readiness the daemon is told of. *)

From stdpp Require Import base list numbers option strings.
From Stdlib Require Import ZArith Lia SpecFloat.
From S2P Require Import Prelude Utf8 Doubles Json Corpus Fwav UiQualification Qualification Report Coroutine CyrinxWorker BridgeState.

Section Packets.
Context (options : BridgeOptions).
(** [randomBytes(16)], the [n]th time. *)
Context (randomBytes : nat -> bytes).

Definition frame_bytes (frame : FwavFrame) : Z := zlen (f_payload frame) + HEADER_BYTES.

Definition entry_bytes (e : QueueEntry) : Z := frame_bytes (qe_frame e).

Definition packet_queue (direction : PacketDirection) (b : Bridge) : Queue :=
  match direction with BrowserToFips => b_toFips b | FipsToBrowser => b_toBrowser b end.

Definition update_queue (direction : PacketDirection) (f : Queue -> Queue) : BM unit :=
  match direction with
  | BrowserToFips => mmodify (set b_toFips f)
  | FipsToBrowser => mmodify (set b_toBrowser f)
  end.

Definition set_health (direction : PacketDirection) (h : PacketQueueHealth) : BM unit :=
  match direction with BrowserToFips => b_toFipsHealth <== h | FipsToBrowser => b_toBrowserHealth <== h end.

Definition packetQueueName (direction : PacketDirection) : string :=
  match direction with BrowserToFips => "FIPS_PACKET_TO_FIPS" | FipsToBrowser => "FIPS_PACKET_TO_BROWSER" end.

Definition queueName (type : MessageType) : string :=
  match type with
  | HELLO => "HELLO" | AUDIO_SETTINGS => "AUDIO_SETTINGS" | PCM_CAPTURE => "PCM_CAPTURE" | PCM_PLAYBACK => "PCM_PLAYBACK"
  | QUALIFICATION_CASE => "QUALIFICATION_CASE" | QUALIFICATION_RESULT => "QUALIFICATION_RESULT" | ERROR => "ERROR"
  | RESET => "RESET" | FIPS_PACKET => "FIPS_PACKET" | BROWSER_ARM => "BROWSER_ARM" | BROWSER_DISARM => "BROWSER_DISARM"
  | ACOUSTIC_READY => "ACOUSTIC_READY" | ACOUSTIC_DISARM => "ACOUSTIC_DISARM"
  | FIPS_PACKET_ADMISSION => "FIPS_PACKET_ADMISSION"
  end.

Definition acoustic (type : MessageType) : bool :=
  bool_decide (type = PCM_CAPTURE) || bool_decide (type = PCM_PLAYBACK).

(** The length and the bytes of a packet queue, as they are published. *)
Definition measure (q : Queue) : Z * Z := (zlen (qu_frames q), qu_bytes q).

Definition refreshState : BM unit :=
  mmodify (fun b => set b_published
    (fun _ => mkPublished (map (fun p => (p.1, zlen (qu_frames p.2))) (b_queues b)) (measure (b_toFips b)) (measure (b_toBrowser b))) b).

Definition clearPendingBrowserAdmission : BM unit :=
  let! b := mget in
  match b_pending b with
  | Some p => match pb_retryTimer p with Some handle => clear_timer handle | None => mskip end
  | None => mskip
  end;;
  b_pending <== None.

Definition clearQueues : BM unit :=
  clearPendingBrowserAdmission;;
  mmodify (set b_queues (map (fun p => (p.1, empty_queue))));;
  b_toFips <== empty_queue;;
  b_toBrowser <== empty_queue;;
  refreshState.

(** Drop the entries at the front that are too old; [dropped] runs for each. *)
Fixpoint expire_front (maxAge now : Z) (shift : BM unit) (dropped : QueueEntry -> BM unit) (frames : list QueueEntry) : BM unit :=
  match frames with
  | [] => mskip
  | e :: rest =>
      if maxAge <? now - qe_enqueuedAt e
      then shift;; dropped e;; expire_front maxAge now shift dropped rest
      else mskip
  end.

(** The first entry leaves the queue, and takes its bytes along. *)
Definition shift_queue (q : Queue) : Queue :=
  match qu_frames q with
  | [] => q
  | e :: rest => mkQueue rest (qu_bytes q - entry_bytes e) (qu_overflowed q)
  end.

Definition push_queue (e : QueueEntry) (q : Queue) : Queue :=
  mkQueue (qu_frames q ++ [e]) (qu_bytes q + entry_bytes e) (qu_overflowed q).

Definition overflow_queue : Queue -> Queue := set qu_overflowed (fun _ => true).

(** ** Media and control messages *)

Definition update_media (type : MessageType) (f : Queue -> Queue) : BM unit :=
  mmodify (set b_queues (map (fun p => if bool_decide (p.1 = type) then (p.1, f p.2) else p))).

Definition note_discontinuity (type : MessageType) : BM unit :=
  if acoustic type then mmodify (set b_discontinuities (fun n => n + 1)) else mskip.

(** A new entry of a queue. *)
Definition new_entry (frame : FwavFrame) : BM QueueEntry :=
  let! b := mget in
  b_next <== S (b_next b);;
  mret (mkEntry (b_next b) frame (b_now b)).

Definition enqueue (frame : FwavFrame) : BM unit :=
  let! b := mget in
  let type := f_type frame in
  match map_get type (b_queues b) with
  | None => mskip
  | Some queue =>
      expire_front MAX_QUEUE_AGE_MS (b_now b) (update_media type shift_queue) (fun _ => note_discontinuity type) (qu_frames queue);;
      let! b := mget in
      if MAX_MESSAGE_BYTES <? default 0 (qu_bytes <$> map_get type (b_queues b)) + frame_bytes frame then
        update_media type overflow_queue;;
        mmodify (set b_overflowedQueues (add (queueName type)));;
        note_discontinuity type;;
        mthrow ("FWAV " +:+ queueName type +:+ " queue overflow")%string
      else
        let! e := new_entry frame in
        update_media type (push_queue e);;
        refreshState
  end.

(** ** Packets *)

Definition maxAge : Z := pl_maxAgeMs (bo_limits options).

(** [pendingBrowserAdmission?.entry === entry] *)
Definition is_pending (e : QueueEntry) (b : Bridge) : bool :=
  match b_pending b with Some p => (qe_id (pb_entry p) =? qe_id e)%nat | None => false end.

Definition expire_packet (e : QueueEntry) : BM unit :=
  let! b := mget in
  (if is_pending e b then clearPendingBrowserAdmission else mskip);;
  b_lastError <== Some (safeBridgeError "fips_packet_queue_expired").

Definition enqueuePacket (direction : PacketDirection) (frame : FwavFrame) : BM unit :=
  let! b := mget in
  expire_front maxAge (b_now b) (update_queue direction shift_queue) expire_packet (qu_frames (packet_queue direction b));;
  let! b := mget in
  let queue := packet_queue direction b in
  if (pl_maxItems (bo_limits options) <=? zlen (qu_frames queue))
     || (pl_maxBytes (bo_limits options) <? qu_bytes queue + frame_bytes frame) then
    update_queue direction overflow_queue;;
    mmodify (set b_overflowedQueues (add (packetQueueName direction)));;
    set_health direction HOverflow;;
    mthrow "fips_packet_queue_overflow"
  else
    set_health direction HWaiting;;
    let! e := new_entry frame in
    update_queue direction (push_queue e);;
    refreshState.

(** One packet after the other to the daemon: a packet it cannot be sent to is
    gone. *)
Fixpoint flush_frames (target : nat) (frames : list QueueEntry) : BM unit :=
  match frames with
  | [] => refreshState
  | e :: rest =>
      update_queue BrowserToFips shift_queue;;
      let! sent := mtry (send_frame target (qe_frame e);; mret true) (fun _ => mret false) in
      if negb sent then
        b_lastError <== Some (safeBridgeError "fips_destination_unavailable");;
        set_health BrowserToFips HRejected;;
        refreshState
      else
        let! b := mget in
        b_toFipsPackets <== b_toFipsPackets b + 1;;
        b_lastAcceptedAtMs <== Some (b_now b);;
        set_health BrowserToFips HReady;;
        flush_frames target rest
  end.

(** The owner of the browser's side, where it may be used. *)
Definition owner_must_reset (b : Bridge) : bool :=
  match b_owner b with Some s => bc_mustResetBeforeUse (connection s b) | None => false end.

Definition flushPacketQueue (direction : PacketDirection) : BM unit :=
  let! b := mget in
  match (match direction with BrowserToFips => b_fipsOwner b | FipsToBrowser => b_owner b end) with
  | None => mskip
  | Some target =>
      if negb (is_open target b) then mskip
      else match direction with
      | BrowserToFips => flush_frames target (qu_frames (b_toFips b))
      | FipsToBrowser =>
          if owner_must_reset b then mskip
          else match b_pending b with
          | Some _ => mskip
          | None =>
              match qu_frames (b_toBrowser b) with
              | [] => refreshState
              | e :: _ =>
                  let! sent := mtry (send_frame target (qe_frame e);; mret true) (fun _ => mret false) in
                  if negb sent then
                    b_lastError <== Some (safeBridgeError "browser_destination_unavailable");;
                    set_health FipsToBrowser HRejected;;
                    refreshState
                  else
                    b_pending <== Some (mkPending e target 1 None);;
                    set_health FipsToBrowser HWaiting;;
                    refreshState
              end
          end
      end
  end.

(** The retry timer's callback. *)
Definition retryBrowserAdmission : BM unit :=
  let! b := mget in
  match b_pending b with
  | None => mskip
  | Some p =>
      if negb (bool_decide (b_owner b = Some (pb_owner p))) || negb (f_epoch (qe_frame (pb_entry p)) =? b_epoch b) then mskip
      else
        b_pending <== Some (set pb_retryTimer (fun _ => None) p);;
        if negb (is_open (pb_owner p) b) then mskip
        else
          mtry (send_frame (pb_owner p) (qe_frame (pb_entry p)))
            (fun _ => b_lastError <== Some (safeBridgeError "browser_destination_unavailable");;
                      set_health FipsToBrowser HRejected;;
                      refreshState)
  end.

Definition control_frame (type : MessageType) (epoch sequence : Z) (payload : bytes) : FwavFrame :=
  {| f_type := type; f_flags := None; f_trafficClass := None; f_epoch := epoch; f_sequence := sequence;
     f_sampleRate := None; f_channels := None; f_encoding := None; f_payload := payload |}.

(** The open socket of the daemon. *)
Definition open_fips (b : Bridge) : option nat :=
  match b_fipsOwner b with Some s => if is_open s b then Some s else None | None => None end.

Definition notifyFipsPacketAdmission (packet : FwavFrame) (answer : Z) : BM unit :=
  let! b := mget in
  match open_fips b with
  | None => mskip
  | Some s =>
      mtry (send_frame s (control_frame FIPS_PACKET_ADMISSION (f_epoch packet) (f_sequence packet) [answer]))
        (fun _ => b_lastError <== Some (safeBridgeError "fips_destination_unavailable"))
  end.

(** [queue.frames[0] === entry] *)
Definition at_head (e : QueueEntry) (b : Bridge) : bool :=
  match qu_frames (b_toBrowser b) with h :: _ => (qe_id h =? qe_id e)%nat | [] => false end.

Definition acceptBrowserAdmission (socket : nat) (frame : FwavFrame) : BM unit :=
  let! b := mget in
  match b_pending b with
  | None => mskip
  | Some p =>
      if negb (pb_owner p =? socket)%nat || negb (owns socket b) || negb (f_epoch frame =? b_epoch b) then mskip
      else
        let packet := qe_frame (pb_entry p) in
        if negb (f_sequence frame =? f_sequence packet) then
          if f_sequence frame <? f_sequence packet then mskip else mthrow "fips_packet_admission_stale_or_unowned"
        else
          let! answer := mlift (foreign (decodeFipsPacketAdmission (f_payload frame))) in
          if answer =? FIPS_PACKET_ADMISSION_ACCEPTED then
            if negb (at_head (pb_entry p) b) then
              clearPendingBrowserAdmission;; refreshState;; flushPacketQueue FipsToBrowser
            else
              update_queue FipsToBrowser shift_queue;;
              clearPendingBrowserAdmission;;
              mmodify (set b_toBrowserPackets (fun n => n + 1));;
              notifyFipsPacketAdmission packet answer;;
              b_lastAcceptedAtMs <== Some (b_now b);;
              let! b := mget in
              set_health FipsToBrowser (match qu_frames (b_toBrowser b) with [] => HReady | _ => HWaiting end);;
              refreshState;;
              flushPacketQueue FipsToBrowser
          else
            (if pb_attempts p =? 1 then notifyFipsPacketAdmission packet answer else mskip);;
            if maxAge <? b_now b - qe_enqueuedAt (pb_entry p) then
              if negb (at_head (pb_entry p) b) then mthrow "fips_packet_admission_queue_mismatch"
              else
                update_queue FipsToBrowser shift_queue;;
                clearPendingBrowserAdmission;;
                set_health FipsToBrowser HRejected;;
                b_lastError <== Some (safeBridgeError "fips_packet_queue_expired");;
                refreshState;;
                flushPacketQueue FipsToBrowser
            else
              let! handle := set_timer RetryAdmission 250 in
              b_pending <== Some (mkPending (pb_entry p) (pb_owner p) (pb_attempts p + 1) (Some handle));;
              set_health FipsToBrowser HWaiting;;
              refreshState
  end.

Definition packetDestinationReady (direction : PacketDirection) (b : Bridge) : bool :=
  match (match direction with BrowserToFips => b_fipsOwner b | FipsToBrowser => b_owner b end) with
  | Some target => is_open target b
  | None => false
  end.

(** ** Acoustic readiness *)

Definition notifyFipsBrowserState (armed : bool) : BM unit :=
  let! b := mget in
  match open_fips b, b_readinessProof b with
  | Some s, Some proof =>
      let payload := if armed then proof else drop (length proof - Z.to_nat ACOUSTIC_DISARM_CAPABILITY_BYTES) proof in
      send_frame s (control_frame (if armed then BROWSER_ARM else BROWSER_DISARM) (b_epoch b) 0 payload)
  | _, _ => mskip
  end.

Definition issueAcousticCapability (socket : nat) : BM unit :=
  let! b := mget in
  let capability := randomBytes (b_next b) in
  b_next <== S (b_next b);;
  update_connection socket (fun c => set bc_acousticCapability (fun _ => capability) (set bc_acousticCapabilityUsed (fun _ => false) c));;
  if is_open socket b then send socket (OutCapability socket (b_epoch b) capability) else mskip.

Definition disarmAcousticSession : BM unit :=
  let! b := mget in
  if negb (b_acousticReady b) then mskip
  else
    b_acousticReady <== false;;
    notifyFipsBrowserState false;;
    b_readinessProof <== None;;
    b_browserReadiness <== false;;
    b_fipsReadiness <== false;;
    clearQueues.

(** The readiness proof replays the accepted one, but for its heartbeat. *)
Definition same_authority (payload proof : bytes) : bool :=
  bool_decide (take 40 payload = take 40 proof) && bool_decide (drop 48 payload = drop 48 proof).

Definition heartbeat_fresh (heartbeatAtMs nowMs : Z) : bool :=
  (heartbeatAtMs <=? nowMs) && (nowMs - heartbeatAtMs <=? ACOUSTIC_READINESS_FRESHNESS_MS).

(** ACOUSTIC_READY and ACOUSTIC_DISARM. *)
Definition acousticControl (socket : nat) (frame : FwavFrame) : BM unit :=
  let! b := mget in
  if negb (f_sequence frame =? 0) || negb (default 0 (f_flags frame) =? 0) then mthrow "acoustic_control_invalid"
  else if is_message ACOUSTIC_READY frame then
    let! proof := mlift (foreign (decodeAcousticReadinessProof (f_payload frame))) in
    if b_acousticReady b
       && match b_readinessProof b with Some accepted => same_authority (f_payload frame) accepted | None => false end
    then mskip
    else if negb (heartbeat_fresh (rp_heartbeatAtMs proof) (b_now b)) || bc_acousticCapabilityUsed (connection socket b)
            || negb (bool_decide (rp_capability proof = bc_acousticCapability (connection socket b)))
    then mthrow "acoustic_readiness_proof_invalid"
    else if b_acousticReady b then mskip
    else
      update_connection socket (set bc_acousticCapabilityUsed (fun _ => true));;
      b_readinessProof <== Some (f_payload frame);;
      b_acousticReady <== true;;
      notifyFipsBrowserState true
  else
    match b_readinessProof b with
    | None => mthrow "acoustic_disarm_capability_invalid"
    | Some _ =>
        if negb (bool_decide (f_payload frame = bc_acousticCapability (connection socket b)))
        then mthrow "acoustic_disarm_capability_invalid"
        else disarmAcousticSession;; issueAcousticCapability socket
    end.

Definition rejectSocket (socket : nat) (e : string) : BM unit :=
  let code := safeBridgeError e in
  mmodify (set b_rejectedFrames (fun n => n + 1));;
  b_lastError <== Some code;;
  mmodify (set b_open (remove socket));;
  log (OutClose socket code).
End Packets.
