(* ===== verification/BridgeReport.v ===== *)
(** * The bridge's report ([packages/bridge/src/server.ts], lines 180-285 and 755-897)

    What the browser may put into a report, parsed and refused field by field,
    and [buildReport]: the machine report of the results gathered so far under
    the runner's authority. *)

From stdpp Require Import base list numbers option strings.
From Stdlib Require Import ZArith Lia SpecFloat.
From S2P Require Import Prelude Utf8 Doubles Json Regex Corpus Fwav UiQualification Qualification Report Selection Coroutine CyrinxWorker BridgeState.

(** ** Control payloads *)

Definition forbidden_keys : list string :=
  ["machineId"; "role"; "reportTarget"; "report"; "tunEvidence"; "tunEvidenceSource"; "evidenceMode"; "evidenceClass";
   "hostIdentity"; "buildCommit"; "codec"; "qualification"; "deadLinkTimeoutMs"; "cyrinxDeadlineMs"; "deadline";
   "fallback"; "stage"; "terminal"; "instruction"]%string.

(** Has some object inside the value a key with the property? *)
Fixpoint has_key (p : jsstring -> bool) (v : value) : bool :=
  match v with
  | VArray items => existsb (has_key p) items
  | VObject f => (fix members (l : list (jsstring * value)) : bool :=
      match l with [] => false | (key, child) :: l' => p key || has_key p child || members l' end) f
  | _ => false
  end.

Definition hasForbiddenAuthority (v : value) : bool := has_key (key_in forbidden_keys) v.

(** [toLowerCase], as far as it yields a letter of ASCII: the Kelvin sign is a k. *)
Definition lower_unit (u : Z) : Z := if is_upper u then u + 32 else if u =? 0x212A then 107 else u.

Definition hasPacketBulk (v : value) : bool :=
  has_key (fun key => key_in ["packet"; "packets"; "base64"; "binary"; "payload"; "frame"]%string (map lower_unit key)) v.

Section Payloads.
(** [JSON.parse(buffer.toString('utf8'))], nothing for a syntax error. *)
Context (json_parse : bytes -> option value).

Definition parseJsonPayload (frame : FwavFrame) : result fields :=
  reject_if 16 * 1024 <? zlen (f_payload frame) with "control_payload_too_large";
  match f_payload frame with
  | [] => Ok []
  | payload =>
      match json_parse payload with
      | None => Throw "control_payload_invalid_json"
      | Some v => match as_object v with Some f => Ok f | None => Throw "control_payload_not_object" end
      end
  end.
End Payloads.

Definition asBoolean (v : value) (name : string) : result bool :=
  match v with VBool b => Ok b | _ => Throw name end.

(** An integer that is not negative, safe or not. *)
Definition asInteger (v : value) (name : string) : result double :=
  match v with
  | VNumber x => match d_integer x with Some z => if z <? 0 then Throw name else Ok x | None => Throw name end
  | _ => Throw name
  end.

Definition asText (v : value) (name : string) : result jsstring :=
  match v with VString s => if is_blank_text s then Throw name else Ok s | _ => Throw name end.

Definition AUDIO_KEYS : list string :=
  ["browserVersion"; "microphoneLabel"; "contextState"; "inputDeviceSampleRate"; "inputDeviceChannels";
   "contextSampleRate"; "captureSampleRate"; "channels"; "echoCancellation"; "noiseSuppression"; "autoGainControl"]%string.

Definition parseBrowserAudio (payload : fields) : result BrowserAudio :=
  reject_if negb (same_keys AUDIO_KEYS payload) with "audio_settings_shape_invalid";
  let? browserVersion := asText (get "browserVersion" payload) "browser_version_invalid" in
  let? microphoneLabel := asText (get "microphoneLabel" payload) "microphone_label_invalid" in
  let? contextState := asText (get "contextState" payload) "audio_context_state_invalid" in
  let? inputRate := asInteger (get "inputDeviceSampleRate" payload) "input_device_sample_rate_invalid" in
  let? inputChannels := asInteger (get "inputDeviceChannels" payload) "input_device_channels_invalid" in
  let? contextRate := asInteger (get "contextSampleRate" payload) "context_sample_rate_invalid" in
  let? captureRate := asInteger (get "captureSampleRate" payload) "capture_sample_rate_invalid" in
  let? channels := asInteger (get "channels" payload) "channels_invalid" in
  let? echo := asBoolean (get "echoCancellation" payload) "echo_cancellation_invalid" in
  let? noise := asBoolean (get "noiseSuppression" payload) "noise_suppression_invalid" in
  let? gain := asBoolean (get "autoGainControl" payload) "auto_gain_control_invalid" in
  Ok (mkAudio browserVersion microphoneLabel contextState inputRate inputChannels contextRate captureRate channels echo
        noise gain).

Definition parseQueues (v : value) : result QueueEvidence :=
  match as_object v with
  | None => Throw "queue_evidence_shape_invalid"
  | Some f =>
      reject_if negb (same_keys QUEUE_KEYS f) with "queue_evidence_shape_invalid";
      let? captureBytes := asInteger (get "captureHighWaterBytes" f) "capture_queue_bytes_invalid" in
      let? captureMs := asInteger (get "captureHighWaterMs" f) "capture_queue_time_invalid" in
      let? playbackBytes := asInteger (get "playbackHighWaterBytes" f) "playback_queue_bytes_invalid" in
      let? playbackMs := asInteger (get "playbackHighWaterMs" f) "playback_queue_time_invalid" in
      let? discontinuities := asInteger (get "discontinuities" f) "queue_discontinuities_invalid" in
      Ok (mkQueues captureBytes captureMs playbackBytes playbackMs discontinuities)
  end.

Definition RESULT_KEYS : list string :=
  ["caseId"; "digest"; "acquisitionMs"; "airtimeMs"; "deliveryCount"; "bytePerfect"; "coldAcquired"; "complete";
   "corrupt"; "missing"; "duplicates"; "queues"]%string.

(** The digest the browser received: null, or 64 hexadecimal digits. *)
Definition received_digest (v : value) : result (option jsstring) :=
  match v with
  | VNull => Ok None
  | VString s => if string_of is_hex 64 64 s then Ok (Some s) else Throw "received_digest_invalid"
  | _ => Throw "received_digest_invalid"
  end.

Definition parseBrowserResult (payload : fields) (epoch : Z) : result BrowserResult :=
  reject_if negb (same_keys RESULT_KEYS payload) with "qualification_result_shape_invalid";
  let? complete := asBoolean (get "complete" payload) "complete_flag_invalid" in
  let? received := received_digest (get "digest" payload) in
  reject_if complete && match received with None => true | Some _ => false end with "complete_result_digest_missing";
  let? caseId := asText (get "caseId" payload) "case_id_invalid" in
  let? acquisitionMs := asInteger (get "acquisitionMs" payload) "acquisition_time_invalid" in
  let? airtimeMs := asInteger (get "airtimeMs" payload) "airtime_invalid" in
  let? deliveryCount := asInteger (get "deliveryCount" payload) "delivery_count_invalid" in
  let? bytePerfect := asBoolean (get "bytePerfect" payload) "byte_perfect_invalid" in
  let? coldAcquired := asBoolean (get "coldAcquired" payload) "cold_acquisition_invalid" in
  let? corrupt := asBoolean (get "corrupt" payload) "corrupt_flag_invalid" in
  let? missing := asInteger (get "missing" payload) "missing_count_invalid" in
  let? duplicates := asInteger (get "duplicates" payload) "duplicate_count_invalid" in
  let? queues := parseQueues (get "queues" payload) in
  Ok (mkBrowserResult epoch caseId received acquisitionMs airtimeMs deliveryCount bytePerfect coldAcquired complete
        corrupt missing duplicates queues).

(** ** The texts of a report *)

Definition reason_code (r : CyrinxFallbackReason) : string :=
  match r with
  | BuildFailed => "cyrinx_build_failed" | DigitalRoundtripFailed => "cyrinx_digital_roundtrip_failed"
  | ColdAToBFailed => "cyrinx_cold_a_to_b_failed" | ColdBToAFailed => "cyrinx_cold_b_to_a_failed"
  | CorpusFailed => "cyrinx_corpus_failed" | DeadlineExpired => "cyrinx_deadline_expired"
  end.

Definition stage_text (s : CyrinxStage) : string :=
  match s with
  | StIdle => "idle" | StBuild => "build" | StDigital => "digital" | StColdAToB => "cold-a-to-b"
  | StColdBToA => "cold-b-to-a" | StCorpus => "corpus" | StComplete => "complete" | StQuiet => "quiet"
  | StUnqualified => "unqualified"
  end.

Definition fallback_text (s : FallbackState) : string :=
  match s with Available => "available" | Activated => "activated" | FallbackFailed => "failed" end.

Definition class_text (c : EvidenceClass) : string :=
  match c with Fixture => "Fixture" | Loopback => "Loopback" | OpenAir => "Open air" end.

Definition role_text (r : Role) : string := match r with RoleA => "A" | RoleB => "B" end.

Definition opt_time (t : option Z) : value := match t with Some t => vint t | None => VNull end.

Definition obj (l : list (string * value)) : value := VObject (map (fun p => (js p.1, p.2)) l).

(** ** The authority *)

Definition open_air (c : RunnerQualificationConfig) : bool :=
  match cf_evidenceClass c with OpenAir => true | _ => false end.

(** The codec, the qualification and the snapshot a report is made under. *)
Definition authority_of (c : RunnerQualificationConfig) (s : CyrinxSessionSnapshot) (cold : bool) :
    PinnedCodec * Qualification :=
  match ss_codec s with
  | CodecIdle => (cf_codec c, cf_qualification c)
  | _ =>
      (match ss_codec s with CodecCyrinx => CYRINX_CODEC | _ => QUIET_CODEC end,
       mkQualification (ss_startedAtMs s) (ss_deadlineAtMs s) (ss_elapsedMs s)
         (if open_air c then "pending" else "not_physical") (ss_fallbackState s) (ss_reasonCode s) (ss_stage s) cold)
  end.

(** ** The results *)

(** The direction a machine receives. *)
Definition expectedDirection (role : Role) : LiteralDirection := match role with RoleA => BtoA | RoleB => AtoB end.

Definition expectedCorpus (role : Role) : list CorpusManifestCase := expected_cases (expectedDirection role).

(** One element of [canonicalResults]: the case as committed, with what was
    observed of it. *)
Record MachineResult := mkMachineResult {
  mr_entry : CorpusManifestCase; mr_received : option jsstring; mr_acquisitionMs : double; mr_airtimeMs : double;
  mr_deliveryCount : double; mr_bytePerfect : bool; mr_coldAcquired : bool; mr_observed : bool; mr_complete : bool;
  mr_corrupt : bool; mr_missing : double; mr_duplicates : double }.

Definition zero : double := d_of_Z 0.

Definition canonical_result (results : list (jsstring * BrowserResult)) (entry : CorpusManifestCase) : MachineResult :=
  match map_get (js (cm_id entry)) results with
  | Some r =>
      mkMachineResult entry (rs_receivedSha256 r) (rs_acquisitionMs r) (rs_airtimeMs r) (rs_deliveryCount r)
        (rs_bytePerfect r) (rs_coldAcquired r) true (rs_complete r) (rs_corrupt r) (rs_missing r) (rs_duplicates r)
  | None => mkMachineResult entry None zero zero zero false false false false false (d_of_Z 1) zero
  end.

Definition canonicalResults (role : Role) (results : list (jsstring * BrowserResult)) : list MachineResult :=
  map (canonical_result results) (expectedCorpus role).

Definition received_expected (m : MachineResult) : bool :=
  bool_decide (mr_received m = Some (js (cm_sha256 (mr_entry m)))).

Definition good_result (m : MachineResult) : bool :=
  mr_observed m && mr_complete m && negb (mr_corrupt m) && d_eqb (mr_missing m) zero && d_eqb (mr_duplicates m) zero
  && d_eqb (mr_deliveryCount m) (d_of_Z 1) && mr_bytePerfect m && received_expected m.

Definition result_value (epoch : Z) (m : MachineResult) : value :=
  let entry := mr_entry m in
  obj [("epoch", vint epoch); ("direction", direction_value (cm_direction entry)); ("caseId", vstr (cm_id entry));
       ("size", vint (cm_size entry)); ("expectedSha256", vstr (cm_sha256 entry));
       ("receivedSha256", match mr_received m with Some s => VString s | None => VNull end);
       ("acquisitionMs", VNumber (mr_acquisitionMs m)); ("airtimeMs", VNumber (mr_airtimeMs m));
       ("deliveryCount", VNumber (mr_deliveryCount m)); ("bytePerfect", VBool (mr_bytePerfect m));
       ("coldAcquired", VBool (mr_coldAcquired m)); ("observed", VBool (mr_observed m));
       ("complete", VBool (mr_complete m)); ("corrupt", VBool (mr_corrupt m)); ("missing", VNumber (mr_missing m));
       ("duplicates", VNumber (mr_duplicates m))]%string.

(** ** The queues *)

Definition max_queues (q r : QueueEvidence) : QueueEvidence :=
  mkQueues (d_max (qe_captureHighWaterBytes q) (qe_captureHighWaterBytes r))
    (d_max (qe_captureHighWaterMs q) (qe_captureHighWaterMs r))
    (d_max (qe_playbackHighWaterBytes q) (qe_playbackHighWaterBytes r))
    (d_max (qe_playbackHighWaterMs q) (qe_playbackHighWaterMs r))
    (d_max (qe_discontinuities q) (qe_discontinuities r)).

Definition queuesEvidence (discontinuities : Z) (results : list BrowserResult) : QueueEvidence :=
  foldl (fun q r => max_queues q (rs_queues r)) (mkQueues zero zero zero zero (d_of_Z discontinuities)) results.

Definition queue_bound_exceeded (q : QueueEvidence) : bool :=
  d_ltb (d_of_Z MAX_QUEUE_BYTES) (qe_captureHighWaterBytes q) || d_ltb (d_of_Z MAX_QUEUE_BYTES) (qe_playbackHighWaterBytes q)
  || d_ltb (d_of_Z MAX_QUEUE_DURATION_MS) (qe_captureHighWaterMs q)
  || d_ltb (d_of_Z MAX_QUEUE_DURATION_MS) (qe_playbackHighWaterMs q).

Definition queues_value (q : QueueEvidence) : value :=
  obj [("captureHighWaterBytes", VNumber (qe_captureHighWaterBytes q)); ("captureHighWaterMs", VNumber (qe_captureHighWaterMs q));
       ("playbackHighWaterBytes", VNumber (qe_playbackHighWaterBytes q)); ("playbackHighWaterMs", VNumber (qe_playbackHighWaterMs q));
       ("discontinuities", VNumber (qe_discontinuities q))]%string.

(** ** The audio *)

Definition is_rate (x : double) (z : Z) : bool := d_eqb x (d_of_Z z).

Definition audio_passed (a : option BrowserAudio) : bool :=
  match a with
  | None => false
  | Some a =>
      negb (bool_decide (au_microphoneLabel a = [])) && bool_decide (au_contextState a = js "running")
      && (is_rate (au_inputDeviceSampleRate a) 44100 || is_rate (au_inputDeviceSampleRate a) 48000)
      && (is_rate (au_inputDeviceChannels a) 1 || is_rate (au_inputDeviceChannels a) 2)
      && is_rate (au_contextSampleRate a) 48000 && is_rate (au_captureSampleRate a) 48000 && is_rate (au_channels a) 1
      && negb (au_echoCancellation a) && negb (au_noiseSuppression a) && negb (au_autoGainControl a)
  end.

Definition no_audio : BrowserAudio :=
  mkAudio (js "Unavailable") (js "Unavailable") (js "unavailable") zero zero zero zero zero false false false.

Definition audio_value (a : BrowserAudio) : value :=
  obj [("microphoneLabel", VString (au_microphoneLabel a)); ("contextState", VString (au_contextState a));
       ("inputDeviceSampleRate", VNumber (au_inputDeviceSampleRate a)); ("inputDeviceChannels", VNumber (au_inputDeviceChannels a));
       ("contextSampleRate", VNumber (au_contextSampleRate a)); ("captureSampleRate", VNumber (au_captureSampleRate a));
       ("channels", VNumber (au_channels a)); ("echoCancellation", VBool (au_echoCancellation a));
       ("noiseSuppression", VBool (au_noiseSuppression a)); ("autoGainControl", VBool (au_autoGainControl a))]%string.

(** ** The reasons *)

Definition of_case_size (size : Z) (l : list MachineResult) : Z :=
  zlen (List.filter (fun m => cm_size (mr_entry m) =? size) l).

(** [if (test) reasons.add(reason)] *)
Definition add_when (test : bool) (reason : string) (reasons : list string) : list string :=
  if test then add reason reasons else reasons.

Definition observed_reasons (reasons : list string) (m : MachineResult) : list string :=
  if negb (mr_observed m) then reasons
  else
    let reasons := add_when (d_ltb zero (mr_duplicates m) || negb (d_eqb (mr_deliveryCount m) (d_of_Z 1))) "duplicate_case" reasons in
    let reasons := add_when (negb (received_expected m) || negb (mr_bytePerfect m) || mr_corrupt m) "bad_digest" reasons in
    add_when (negb (mr_complete m) || d_ltb zero (mr_missing m)) "partial_evidence" reasons.

(** [reasons.has(reason)] *)
Definition has_reason (reasons : list string) (reason : string) : bool := bool_decide (reason ∈ reasons).

Definition CORPUS_REASONS : list string :=
  ["corpus_incomplete"; "bad_digest"; "duplicate_case"; "partial_evidence"; "airtime_budget_exceeded";
   "cold_acquisition_failed"; "queue_bound_exceeded"; "queue_discontinuity"]%string.

Section Build.
(** [new Date().toISOString()] *)
Context (capturedAt : jsstring).
Context (config : RunnerQualificationConfig) (authority : RunnerReportAuthority).

(** Whether the machine acquired the first case cold. *)
Definition cold_receive_passed (codec : CyrinxSessionCodec) (sessionCold : bool) (good : list MachineResult) : bool :=
  match codec with
  | CodecCyrinx => sessionCold
  | _ => match head (expectedCorpus (cf_role config)) with
         | Some cold => existsb (fun m => bool_decide (cm_id (mr_entry m) = cm_id cold) && mr_coldAcquired m) good
         | None => false
         end
  end.

Definition report_reasons (failureReasons : list string) (snapshot : CyrinxSessionSnapshot) (passed cold : bool)
    (queues : QueueEvidence) (results good : list MachineResult) : list string :=
  let some_good := match good with [] => false | _ => true end in
  let reasons := failureReasons in
  let reasons := match ss_reasonCode snapshot with Some r => add (reason_code r) reasons | None => reasons end in
  let reasons := add_when (negb passed) "audio_preflight_failed" reasons in
  let reasons := add_when ((of_case_size 256 good <? 19) || (of_case_size 1536 good <? 5)) "corpus_incomplete" reasons in
  let reasons := add_when (some_good && negb cold) "cold_acquisition_failed" reasons in
  let reasons := add_when (some_good && d_leb (d_of_Z 10000) (p95 (map mr_airtimeMs good))) "airtime_budget_exceeded" reasons in
  let reasons := add_when (queue_bound_exceeded queues) "queue_bound_exceeded" reasons in
  let reasons := add_when (d_ltb zero (qe_discontinuities queues)) "queue_discontinuity" reasons in
  foldl observed_reasons reasons results.

Definition stageAuthorityPassed (snapshot : CyrinxSessionSnapshot) (sessionCold cold : bool) : bool :=
  match ss_codec snapshot with
  | CodecCyrinx => bool_decide (ss_stage snapshot = StComplete) && sessionCold
  | CodecQuiet => bool_decide (ss_fallbackState snapshot = Activated) && cold
  | _ => negb (open_air config)
  end.

Definition physical_gate (snapshot : CyrinxSessionSnapshot) (complete stagePassed evidenceFailed : bool) : string :=
  if negb (open_air config) then "not_physical"
  else if complete && stagePassed then "passed"
  else if bool_decide (ss_codec snapshot = CodecUnqualified) || evidenceFailed then "failed"
  else "pending".

Definition codec_value (c : PinnedCodec) : value :=
  obj [("id", vstr (pc_id c)); ("commit", vstr (pc_commit c)); ("profile", vstr (pc_profile c));
       ("audible", VBool (pc_audible c)); ("advertisedMtu", vint (pc_advertisedMtu c))]%string.

Definition qualification_value (q : Qualification) (gate : string) : value :=
  obj [("deadLinkTimeoutMs", vint QUALIFICATION_DEAD_LINK_TIMEOUT_MS); ("cyrinxDeadlineMs", vint Report.CYRINX_DEADLINE_MS);
       ("deadline", obj [("startedAtMs", opt_time (ql_startedAtMs q)); ("deadlineAtMs", opt_time (ql_deadlineAtMs q));
                         ("elapsedMs", opt_time (ql_elapsedMs q))]);
       ("physicalGate", vstr gate);
       ("fallback", obj [("codecId", vstr "quiet"); ("state", vstr (fallback_text (ql_fallbackState q)));
                         ("reasonCode", match ql_reasonCode q with Some r => vstr (reason_code r) | None => VNull end)]);
       ("cyrinx", obj [("stage", vstr (stage_text (ql_stage q))); ("coldReceivePassed", VBool (ql_coldReceivePassed q))])]%string.

(** The report of a snapshot of the session and of what was gathered. *)
Definition report_of (epoch discontinuities : Z) (audio : option BrowserAudio) (failureReasons : list string)
    (gathered : list (jsstring * BrowserResult)) (snapshot : CyrinxSessionSnapshot) (sessionCold : bool) : value :=
  let (codec, qualification) := authority_of config snapshot sessionCold in
  let results := canonicalResults (cf_role config) gathered in
  let queues := queuesEvidence discontinuities (map snd gathered) in
  let good := List.filter good_result results in
  let passed := audio_passed audio in
  let cold := cold_receive_passed (ss_codec snapshot) sessionCold good in
  let reasons := report_reasons failureReasons snapshot passed cold queues results good in
  let corpusComplete := negb (existsb (has_reason reasons) CORPUS_REASONS) && passed in
  let stagePassed := stageAuthorityPassed snapshot sessionCold cold in
  let complete := corpusComplete && (negb (open_air config) || stagePassed) in
  let evidenceFailed := (24 <=? zlen gathered) && negb corpusComplete in
  obj [("schemaVersion", vint 1); ("capturedAt", VString capturedAt);
       ("machine", obj [("hostName", VString (cf_machineId config)); ("os", VString (ra_os authority));
                        ("architecture", VString (ra_architecture authority));
                        ("browserVersion", VString (default (js "Unavailable") (au_browserVersion <$> audio)));
                        ("commit", VString (ra_commit authority))]);
       ("evidenceClass", vstr (class_text (cf_evidenceClass config))); ("epoch", vint epoch); ("codec", codec_value codec);
       ("audio", audio_value (default no_audio audio)); ("queues", queues_value queues);
       ("results", VArray (map (result_value epoch) results)); ("complete", VBool complete);
       ("reasonCodes", VArray (map vstr reasons));
       ("qualification", qualification_value qualification (physical_gate snapshot complete stagePassed evidenceFailed));
       ("runner", obj [("machineId", VString (cf_machineId config)); ("role", vstr (role_text (cf_role config)));
                       ("reportTarget", VString (cf_reportTarget config));
                       ("evidenceClass", vstr (class_text (cf_evidenceClass config)));
                       ("tunEvidence", ra_tunEvidence authority)])]%string.
End Build.
