(* ===== verification/Bridge.v ===== *)
(** * The bridge's handlers ([packages/bridge/src/server.ts], lines 690-754 and 898-1513)

    Persisting the report, the fallbacks and the expiry of a Cyrinx run, the run
    itself, the handling of every frame of the browser, the daemon's packets, the
    connections, and the machine that interleaves all of them. *)

From stdpp Require Import base list numbers option strings.
From Stdlib Require Import ZArith Lia SpecFloat.
From S2P Require Import Prelude Utf8 Doubles Json Corpus Fwav UiQualification Qualification Report Selection Coroutine CyrinxWorker BridgeState BridgePackets BridgeReport.

(** What a coroutine of the bridge waits for. *)
Inductive Awaited :=
  | AwTurn
  | AwWrite
  | AwLoopbackReport
  | AwBuild
  | AwDigital
  | AwSettle (delayMs : Z)
  | AwBegin (value : CyrinxQualificationCase) (epoch : Z) (mode : CyrinxInstructionAction)
  | AwCapture (raw : bytes).

Inductive Answer :=
  | AnDone
  | AnAborted
  | AnFlag (b : bool)
  | AnPlayback (frame : option bytes)
  | AnResult (r : option CyrinxResult).

Abbreviation BCo := (co Bridge Awaited Answer) (only parsing).

(** Something other than a boolean is no reason to go on. *)
Definition flag_of (a : Answer) : bool := match a with AnFlag b => b | _ => false end.
Definition playback_of (a : Answer) : option bytes := match a with AnPlayback f => f | _ => None end.
Definition result_in (a : Answer) : option CyrinxResult := match a with AnResult r => r | _ => None end.
Definition aborted (a : Answer) : bool := match a with AnAborted => true | _ => false end.

(** Awaiting what has settled already lets other code run. *)
Definition turn : BCo unit := let* _ := co_attempt (await AwTurn) in co_ret tt.

(** [await f()] *)
Definition called {A} (c : BCo A) : BCo A :=
  let* r := co_attempt c in
  turn;*
  match r with Ok a => co_ret a | Throw e => co_throw e end.

Section Handlers.
Context (options : BridgeOptions).
Context (randomBytes : nat -> bytes).
Context (iso_date : nat -> jsstring).
Context (json_parse : bytes -> option value).

(** ** The session *)

Definition in_session {A} (otherwise : A) (m : M CyrinxQualificationSession A) : BM A := fun b =>
  match b_session b with
  | None => (Ok otherwise, b)
  | Some s => let (r, s') := m s in (foreign r, set b_session (fun _ => Some s') b)
  end.

Context (cases : list CyrinxQualificationCase).

Definition session_codec (b : Bridge) : option CyrinxSessionCodec := qs_codec <$> b_session b.
Definition is_codec (c : CyrinxSessionCodec) (b : Bridge) : bool := bool_decide (session_codec b = Some c).
Definition fallbackReason (b : Bridge) : option CyrinxFallbackReason :=
  match b_session b with Some s => qs_fallbackReason s | None => None end.

Definition note_fallback : BM unit :=
  let! b := mget in
  match fallbackReason b with Some r => addReason (reason_code r) | None => mskip end.

Definition clearCyrinxTimer : BM unit :=
  let! b := mget in
  match b_expiryTimer b with Some handle => clear_timer handle | None => mskip end;;
  b_expiryTimer <== None.

(** The operation's signal is aborted when its number is no longer the current. *)
Definition abortCyrinxOperation : BM unit :=
  mmodify (set b_operation (fun n => n + 1));;
  b_settle <== None;;
  if bo_worker options then log OutWorkerReset else mskip.

Definition next_generation : BM unit := mmodify (set b_generation (fun n => n + 1)).

Definition settleExpiry (nowMs : Z) : BM bool :=
  let! expired := in_session false (expire nowMs) in
  if expired then
    next_generation;; abortCyrinxOperation;; clearCyrinxTimer;;
    addReason (reason_code DeadlineExpired);;
    mret true
  else mret false.

Definition sessionSnapshot (nowMs : Z) : BM (option CyrinxSessionSnapshot) :=
  let! b := mget in
  in_session None (let! s := snapshot cases (b_epoch b) nowMs in mret (Some s)).

(** ** Reports *)

Definition buildReport (nowMs : Z) : BM (option value) :=
  match bo_config options, bo_authority options with
  | Some config, Some authority =>
      let! snapshot := sessionSnapshot nowMs in
      match snapshot with
      | None => mret None
      | Some snapshot =>
          let! b := mget in
          let cold := match b_session b with Some s => qs_coldReceivePassed s | None => false end in
          b_next <== S (b_next b);;
          mret (Some (report_of (iso_date (b_next b)) config authority (b_epoch b) (b_discontinuities b) (b_audio b)
                        (b_failureReasons b) (b_results b) snapshot cold))
      end
  | _, _ => mret None
  end.

(** The report is built now and written in its turn; is there one? *)
Definition persist (expectedGeneration : option Z) : BM bool :=
  let! b := mget in
  let! expired := settleExpiry (b_now b) in
  let! b := mget in
  let reportGeneration := if expired then b_generation b else default (b_generation b) expectedGeneration in
  let! report := buildReport (b_now b) in
  match report with
  | None => (if expired then mmodify (set b_microtasks S) else mskip);; mret false
  | Some report => mmodify (set b_writes (fun l => l ++ [mkWrite reportGeneration report expired]));; mret true
  end.

(** The wait for the promise [persist] returned. *)
Definition report_written (queued : bool) : BCo unit :=
  if queued then let* _ := await AwWrite in co_ret tt else turn.

(** [await persist(generation)] *)
Definition persisted (expectedGeneration : option Z) : BCo unit :=
  let* queued := block (persist expectedGeneration) in report_written queued.

Definition persist_current : BCo unit :=
  let* b := block mget in persisted (Some (b_generation b)).

Fixpoint to_clients (message : nat -> BM unit) (clients : list nat) : BM unit :=
  match clients with
  | [] => mskip
  | client :: rest =>
      let! b := mget in
      (if is_open client b then message client else mskip);; to_clients message rest
  end.

Definition broadcast (message : nat -> Outgoing) : BM unit :=
  let! b := mget in to_clients (fun client => send client (message client)) (b_clients b).

Definition broadcastSession : BM unit :=
  let! b := mget in
  let! snapshot := sessionSnapshot (b_now b) in
  match snapshot with Some s => broadcast (fun client => OutSession client s) | None => mskip end.

(** The next report's turn to be written: only one of the current generation
    is. *)
Definition start_write : BM unit :=
  let! b := mget in
  match b_writing b, b_writes b with
  | None, task :: rest =>
      b_writes <== rest;;
      if wt_generation task =? b_generation b then b_writing <== Some task;; log (OutReport (wt_report task)) else mskip
  | _, _ => mskip
  end.

Definition end_write (written : bool) : BM unit :=
  let! b := mget in
  match b_writing b with
  | None => mskip
  | Some task =>
      b_writing <== None;;
      if written && wt_announce task && (wt_generation task =? b_generation b) then broadcastSession else mskip
  end.

(** ** Fallbacks *)

Definition transitionCurrentFallback (alreadyPreempted : bool) : BM bool :=
  let! b := mget in
  if negb (is_codec CodecCyrinx b) then mret false
  else
    let! changed := in_session false (failCurrent (b_now b)) in
    if negb changed then mret false
    else
      next_generation;;
      (if alreadyPreempted then mskip else abortCyrinxOperation);;
      clearCyrinxTimer;;
      note_fallback;;
      mret true.

Definition activateCurrentFallback (alreadyPreempted : bool) : BCo bool :=
  let* changed := block (transitionCurrentFallback alreadyPreempted) in
  if negb changed then co_ret false
  else persist_current;* block broadcastSession;* co_ret true.

Definition expireCyrinxAt (nowMs : Z) : BCo bool :=
  let* expired := block (settleExpiry nowMs) in
  if negb expired then co_ret false
  else persist_current;* block broadcastSession;* co_ret true.

(** [await expireCyrinx()], the clock read at the call. *)
Definition expireCyrinx : BCo bool :=
  let* b := block mget in called (expireCyrinxAt (b_now b)).

Definition forceExpireCyrinx : BCo bool :=
  let* forced := block (let! b := mget in
                        let! forced := in_session false (forceDeadlineExpiry (b_now b)) in
                        if negb forced then mret false
                        else next_generation;; abortCyrinxOperation;; clearCyrinxTimer;;
                             addReason (reason_code DeadlineExpired);; mret true) in
  if negb forced then co_ret false
  else persist_current;* block broadcastSession;* co_ret true.

(** [cyrinxSummary]: whether the codec is still Cyrinx, the first reason, and
    the deadline. *)
Definition cyrinxSummary : BM (bool * option CyrinxFallbackReason * Z) :=
  let! b := mget in
  let! snapshot := sessionSnapshot (b_now b) in
  match snapshot with
  | None => mthrow "cyrinx authority is unavailable"
  | Some s =>
      match ss_deadlineAtMs s with
      | None => mthrow "cyrinx deadline is unavailable"
      | Some deadline => mret (bool_decide (ss_codec s = CodecCyrinx), ss_reasonCode s, deadline)
      end
  end.

(** ** Reset *)

Definition reset_frame (acknowledge : bool) (epoch : Z) : FwavFrame :=
  {| f_type := RESET; f_flags := if acknowledge then Some RESET_ACK_FLAG else None; f_trafficClass := None;
     f_epoch := epoch; f_sequence := 0; f_sampleRate := None; f_channels := None; f_encoding := None; f_payload := [] |}.

Definition reset_connection (epoch : Z) (c : BrowserConnectionState) : BrowserConnectionState :=
  set bc_mustResetBeforeUse (fun _ => false) (set bc_receivedEpoch (fun _ => epoch)
    (set bc_highestReceivedSequence (fun _ => -1) (set bc_errorOrigins (fun _ => [])
      (set bc_preemptedControls (fun _ => []) c)))).

(** What the RESET's own connection has received of the new epoch. *)
Definition reset_connection_received (epoch : Z) (c : BrowserConnectionState) : BrowserConnectionState :=
  set bc_receivedEpoch (fun _ => epoch) (set bc_highestReceivedSequence (fun _ => -1)
    (set bc_errorOrigins (fun _ => []) (set bc_preemptedControls (fun _ => []) c))).

(** [reset] up to its await. *)
Definition reset_now (alreadyPreempted : bool) : BM unit :=
  let! b := mget in
  if UINT32_MAX <=? b_epoch b then mthrow "epoch_exhausted"
  else
    disarmAcousticSession;;
    let! failed := in_session false (operatorReset (b_now b)) in
    (if failed then note_fallback else mskip);;
    clearCyrinxTimer;;
    (if alreadyPreempted then mskip else abortCyrinxOperation);;
    next_generation;;
    b_epoch <== b_epoch b + 1;;
    b_audio <== None;; b_results <== [];; b_failureReasons <== [];;
    note_fallback;;
    b_stampedResults <== [];; b_overflowedQueues <== [];; b_discontinuities <== 0;; b_rejectedFrames <== 0;;
    b_toFipsPackets <== 0;; b_toBrowserPackets <== 0;; b_browserReadiness <== false;; b_fipsReadiness <== false;;
    b_lastError <== None;; b_localAudioPreflight <== false;; b_acousticReady <== false;;
    b_lastAcceptedAtMs <== None;;
    b_toFipsHealth <== HNotConnected;; b_toBrowserHealth <== HNotConnected;;
    mmodify (fun b => set b_trackers (map (fun p => if bool_decide (p.1 ∈ b_liveTrackers b) then (p.1, -1) else p)) b);;
    mmodify (fun b => set b_connections (map (fun p =>
      if bool_decide (p.1 ∈ b_browserConnections b) then (p.1, reset_connection (b_epoch b) p.2) else p)) b);;
    clearQueues;;
    b_reconnectAllowed <== true;;
    b_reconnectRequiresReset <== false.

Definition announce_reset : BM Z :=
  let! b := mget in
  let! acknowledgement := mlift (foreign (encodeFrame (reset_frame true (b_epoch b)))) in
  let! worker := mlift (foreign (encodeFrame (reset_frame false (b_epoch b)))) in
  broadcast (fun client => OutFrame client (if bool_decide (b_fipsOwner b = Some client) then worker else acknowledgement));;
  broadcastSession;;
  let! b := mget in
  mret (b_epoch b).

Definition reset (alreadyPreempted : bool) : BCo Z :=
  block (reset_now alreadyPreempted);*
  persist_current;*
  block announce_reset.

(** ** A Cyrinx run *)

(** Is the operation still the current one, and the codec Cyrinx? *)
Definition still_running (operation : Z) (b : Bridge) : bool :=
  (operation =? b_operation b) && is_codec CodecCyrinx b.

Definition same_operation (generation operation : Z) (b : Bridge) : bool :=
  (generation =? b_generation b) && still_running operation b.

(** The checks after a wait: an expired deadline, or another operation. *)
Definition checkpoint (operation : Z) : BCo bool :=
  let* b := block mget in
  if negb (still_running operation b) then co_ret false
  else
    let* expired := called (expireCyrinxAt (b_now b)) in
    if expired then co_ret false
    else let* b := block mget in co_ret (still_running operation b).

(** One gate of the run: its work, the session's progress, the report. *)
Definition gate (operation : Z) (work : Awaited) (progress : Z -> M CyrinxQualificationSession unit) : BCo bool :=
  let* b := block mget in
  let* answer := (if operation =? b_operation b then await work else co_ret AnAborted) in
  let* b := block mget in
  if aborted answer || negb (still_running operation b) then co_ret false
  else
    let* expired := called (expireCyrinxAt (b_now b)) in
    if expired then co_ret false
    else
      block (in_session tt (progress (b_now b)));*
      persisted None;*
      let* alive := checkpoint operation in
      if alive then block broadcastSession;* co_ret true else co_ret false.

Definition run_gates (operation : Z) : BCo bool :=
  let* built := gate operation (if bo_build options then AwBuild else AwTurn) completeBuild in
  if built then gate operation (if bo_digital options then AwDigital else AwTurn) completeDigital else co_ret false.

Definition fall_back (operation : Z) : BCo unit :=
  let* b := block mget in
  if still_running operation b then let* _ := called (activateCurrentFallback false) in co_ret tt else co_ret tt.

Definition startCyrinx : BCo (bool * option CyrinxFallbackReason * Z) :=
  let* b := block mget in
  match b_session b with
  | None => co_throw "cyrinx authority is unavailable"
  | Some _ =>
      let* started := block (in_session false (start (b_now b))) in
      if negb started then expireCyrinx;* block cyrinxSummary
      else
        let* b := block mget in
        let operation := b_operation b in
        block (let! handle := set_timer CyrinxExpiry Qualification.CYRINX_DEADLINE_MS in b_expiryTimer <== Some handle);*
        persisted None;*
        let* alive := checkpoint operation in
        if negb alive then block cyrinxSummary
        else
          block broadcastSession;*
          let* early := co_try (let* through := run_gates operation in
                                if through then co_ret None else let* s := block cyrinxSummary in co_ret (Some s))
                               (fun _ => fall_back operation;* co_ret None) in
          match early with Some summary => co_ret summary | None => block cyrinxSummary end
  end.

(** ** Instructions *)

Definition text_direction (v : value) : option LiteralDirection := parse_direction v.

Definition instructionRequest (payload : fields) (action : string) : result (jsstring * LiteralDirection) :=
  reject_if negb (same_keys ["action"; "caseId"; "direction"]%string payload) || negb (is_literal action (get "action" payload))
    with "qualification_instruction_shape_invalid";
  match text_direction (get "direction" payload) with
  | None => Throw "qualification_instruction_direction_invalid"
  | Some direction =>
      let? caseId := asText (get "caseId" payload) "qualification_instruction_case_invalid" in
      Ok (caseId, direction)
  end.

Definition forwardPlayback (encoded : bytes) : BM unit :=
  let! frame := mlift (foreign (decodeFrame encoded)) in
  let! b := mget in
  if negb (is_message PCM_PLAYBACK frame) then mthrow "bridge only forwards PCM_PLAYBACK frames"
  else if negb (f_epoch frame =? b_epoch b) then mthrow "bridge rejects stale PCM playback epoch"
  else broadcast (fun client => OutFrame client encoded).

Definition fall_back_if (generation operation : Z) : BCo unit :=
  let* b := block mget in
  if same_operation generation operation b then let* _ := called (activateCurrentFallback false) in co_ret tt else co_ret tt.

(** After a wait: the same generation and operation, before the deadline. *)
Definition unexpired (generation operation : Z) : BCo bool :=
  let* b := block mget in
  if negb (same_operation generation operation b) then co_ret false
  else
    let* expired := called (expireCyrinxAt (b_now b)) in
    if expired then co_ret false
    else let* b := block mget in co_ret (same_operation generation operation b).

Definition acceptCyrinxInstruction (payload : fields) : BCo unit :=
  let* b := block mget in
  if negb (is_codec CodecCyrinx b) || negb (bo_worker options) then co_throw "cyrinx_instruction_unavailable"
  else
    let acceptedAt := b_now b in
    let* expired := called (expireCyrinxAt acceptedAt) in
    if expired then co_ret tt
    else
      let* request := block (mlift (instructionRequest payload "accept_cyrinx_instruction")) in
      let* accepted := block (in_session None (let! a := acceptInstruction cases request.1 request.2 acceptedAt in mret (Some a))) in
      match accepted with
      | None => co_ret tt
      | Some (value, mode) =>
          let* b := block mget in
          let generation := b_generation b in
          let operation := b_operation b in
          co_try (let* answer := await (AwBegin value (b_epoch b) mode) in
                  let playback := playback_of answer in
                  let* going := unexpired generation operation in
                  if negb going then co_ret tt
                  else match mode, playback with
                  | Transmit, None => co_throw "cyrinx_transmit_playback_missing"
                  | Transmit, Some frame => block (forwardPlayback frame)
                  | Listen, Some _ => co_throw "cyrinx_listener_created_playback"
                  | Listen, None => co_ret tt
                  end)
                 (fun _ => fall_back_if generation operation)
      end.

(** The controller of a settling time: only its own is cleared afterwards. *)
Definition begin_settle : BM nat :=
  let! b := mget in
  b_next <== S (b_next b);;
  b_settle <== Some (b_next b);;
  mret (b_next b).

(** Wait for the settling time of the current case: was it not aborted? *)
Definition settle (mode : CyrinxInstructionAction) : BCo bool :=
  let* b := block mget in
  let* remaining := block (in_session 0 (caseSettleRemaining mode (b_now b))) in
  if remaining <=? 0 then turn;* co_ret true
  else
    let* id := block begin_settle in
    let* answer := co_attempt (await (AwSettle remaining)) in
    block (let! b := mget in if bool_decide (b_settle b = Some id) then b_settle <== None else mskip);*
    match answer with Ok a => co_ret (flag_of a) | Throw e => co_throw e end.

(** [settle], a failure of which ends the case: may the handler go on? *)
Definition settled_or_fallback (mode : CyrinxInstructionAction) (generation operation : Z) : BCo bool :=
  co_try (settle mode) (fun _ => fall_back_if generation operation;* co_ret false).

(** The end of a case: completed, reported, acknowledged. *)
Definition finish_case (mode : CyrinxInstructionAction) (completedAt generation operation : Z) : BCo bool :=
  block (in_session tt (completeAccepted cases mode completedAt));*
  persisted (Some generation);*
  let* going := unexpired generation operation in
  if negb going then co_ret false
  else
    block (in_session tt acknowledgeAcceptedCompletion;;
           let! b := mget in
           if match b_session b with Some s => terminal s | None => false end then clearCyrinxTimer else mskip);*
    co_ret true.

Definition current_case (b : Bridge) : option CyrinxQualificationCase :=
  match b_session b with Some s => currentCase cases s | None => None end.

Definition completeCyrinxPlayback (payload : fields) : BCo unit :=
  let* b := block mget in
  if negb (is_codec CodecCyrinx b) then co_throw "cyrinx_instruction_unavailable"
  else
    let* request := block (mlift (instructionRequest payload "playback_complete")) in
    let matches := match current_case b with
                   | Some c => bool_decide (qc_id c = request.1) && bool_decide (qc_direction c = request.2)
                   | None => false
                   end in
    if negb matches then co_throw "qualification_instruction_mismatch"
    else
      let generation := b_generation b in
      let operation := b_operation b in
      let* settled := settled_or_fallback Transmit generation operation in
      if negb settled then co_ret tt
      else
        let* completed := block mget in
        let* going := unexpired generation operation in
        if negb going then co_ret tt
        else
          let* done := finish_case Transmit (b_now completed) generation operation in
          if done then block broadcastSession else co_ret tt.

(** Does the native result answer for the current case? *)
Definition native_matches (r : CyrinxResult) (c : CyrinxQualificationCase) (b : Bridge) : bool :=
  (cx_epoch r =? b_epoch b) && bool_decide (cx_direction r = qc_direction c) && bool_decide (cx_caseId r = qc_id c)
  && bool_decide (cx_digest r = qc_digest c) && cx_complete r && negb (cx_corrupt r) && (cx_missing r =? 0)
  && (cx_duplicates r =? 0) && (cx_deliveryCount r =? 1) && cx_bytePerfect r.

Definition native_result (epoch : Z) (r : CyrinxResult) (c : CyrinxQualificationCase) : BrowserResult :=
  mkBrowserResult epoch (qc_id c) (Some (cx_digest r)) (d_of_Z (cx_acquisitionMs r)) (d_of_Z (cx_airtimeMs r))
    (d_of_Z (cx_deliveryCount r)) (cx_bytePerfect r) false (cx_complete r) (cx_corrupt r) (d_of_Z (cx_missing r))
    (d_of_Z (cx_duplicates r)) (cx_queues r).

(** The committed case of an identifier, in the direction the machine receives. *)
Definition expected_case (caseId : jsstring) : bool :=
  match bo_config options with
  | Some config => existsb (fun e => bool_decide (js (cm_id e) = caseId)) (expectedCorpus (cf_role config))
  | None => existsb (fun e => bool_decide (js (cm_id e) = caseId)) (expected_cases AtoB)
  end.

Definition stamp (caseId : jsstring) : BM unit :=
  mmodify (fun b => set b_stampedResults (fun l => l ++ [(caseId, b_epoch b)]) b).

Definition acceptCyrinxCapture (socket : nat) (encoded : bytes) : BCo unit :=
  let* b := block mget in
  if negb (is_codec CodecCyrinx b) then co_ret tt
  else
    let* expired := expireCyrinx in
    let* b := block mget in
    if expired || negb (match b_session b with Some s => canReceiveCapture s | None => false end) || negb (bo_worker options)
    then co_ret tt
    else
      let generation := b_generation b in
      let operation := b_operation b in
      let* answer := co_attempt (await (AwCapture encoded)) in
      match answer with
      | Throw _ => fall_back_if generation operation
      | Ok a =>
          match result_in a with
          | None => co_ret tt
          | Some r =>
              let* going := unexpired generation operation in
              if negb going then co_ret tt
              else
                let* b := block mget in
                match current_case b with
                | None => let* _ := called (activateCurrentFallback false) in co_ret tt
                | Some current =>
                    if negb (native_matches r current b) then let* _ := called (activateCurrentFallback false) in co_ret tt
                    else
                      let* settled := settled_or_fallback Listen generation operation in
                      if negb settled then co_ret tt
                      else
                        let* completed := block mget in
                        let* going := unexpired generation operation in
                        if negb going then co_ret tt
                        else
                          let* kept := (if qc_cold current then co_ret true
                                        else if negb (expected_case (qc_id current))
                                        then let* _ := called (activateCurrentFallback false) in co_ret false
                                        else
                                          let* b := block mget in
                                          if map_has (qc_id current) (b_results b) then
                                            block (addReason "duplicate_case");*
                                            let* _ := called (activateCurrentFallback false) in co_ret false
                                          else
                                            block (mmodify (set b_results (map_set (qc_id current) (native_result (b_epoch b) r current)));;
                                                   stamp (qc_id current));*
                                            co_ret true) in
                          if negb kept then co_ret tt
                          else
                            let* done := finish_case Listen (b_now completed) generation operation in
                            if negb done then co_ret tt
                            else
                              block (let! b := mget in
                                     (if is_open socket b
                                      then send socket (OutCyrinxResult socket (b_epoch b) (qc_id current) (qc_direction current) (qc_cold current))
                                      else mskip);;
                                     broadcastSession)
                end
          end
      end.

(** ** Frames of the browser *)

Definition is_control (type : MessageType) : bool :=
  bool_decide (type = QUALIFICATION_CASE) || bool_decide (type = QUALIFICATION_RESULT) || bool_decide (type = ERROR).

Definition origin_of (b : Bridge) : ErrorOrigin :=
  if is_codec CodecCyrinx b then OriginCyrinx else if is_codec CodecQuiet b then OriginQuiet else OriginOther.

(** [preemptedControls.delete(sequence)]: was it there? *)
Definition take_preempted (socket : nat) (sequence : Z) : BM bool :=
  let! b := mget in
  update_connection socket (set bc_preemptedControls (remove sequence));;
  mret (bool_decide (sequence ∈ bc_preemptedControls (connection socket b))).

(** RESET and ERROR take effect as they arrive, before the frames that wait. *)
Definition preemptUrgentControl (socket : nat) (isBinary : bool) (raw : bytes) : BCo unit :=
  if negb isBinary then co_ret tt
  else
    co_try
      (let* urgent := block (mlift (decodeFrame raw)) in
       let* b := block mget in
       if negb (f_epoch urgent =? b_epoch b) then co_ret tt
       else
         block (if bc_receivedEpoch (connection socket b) =? f_epoch urgent then mskip
                else update_connection socket (fun c => set bc_receivedEpoch (fun _ => f_epoch urgent)
                                                          (set bc_highestReceivedSequence (fun _ => -1) c)));*
         let* b := block mget in
         if f_sequence urgent <=? bc_highestReceivedSequence (connection socket b) then co_ret tt
         else
           block (update_connection socket (set bc_highestReceivedSequence (fun _ => f_sequence urgent)));*
           if is_message RESET urgent then
             if negb (zlen (f_payload urgent) =? 0) || negb (default 0 (f_flags urgent) =? 0) then co_ret tt
             else if is_codec CodecCyrinx b then
               block (update_connection socket (set bc_preemptedControls (add (f_sequence urgent)));;
                      abortCyrinxOperation;;
                      let! _ := transitionCurrentFallback true in mskip)
             else co_ret tt
           else if is_message ERROR urgent then
             let* payload := block (mlift (parseJsonPayload json_parse urgent)) in
             if hasForbiddenAuthority (VObject payload) then co_ret tt
             else
               let origin := origin_of b in
               block (update_connection socket (set bc_errorOrigins (map_set (f_sequence urgent) origin)));*
               match origin with
               | OriginCyrinx =>
                   block (update_connection socket (set bc_preemptedControls (add (f_sequence urgent)));; abortCyrinxOperation);*
                   let* _ := co_attempt (activateCurrentFallback true) in co_ret tt
               | _ => co_ret tt
               end
           else co_ret tt)
      (fun _ => co_ret tt).

(** A RESET of the browser. *)
Definition handle_reset (socket : nat) (frame : FwavFrame) : BCo unit :=
  if default 0 (f_flags frame) =? RESET_ACK_FLAG then co_throw "reset_ack_not_accepted"
  else if negb (zlen (f_payload frame) =? 0) || negb (default 0 (f_flags frame) =? 0) then co_throw "reset_payload_not_empty"
  else
    let* alreadyPreempted := block (take_preempted socket (f_sequence frame)) in
    block (update_connection socket (set bc_mustResetBeforeUse (fun _ => false)));*
    let* before := block mget in
    (* the call of [reset] runs up to its await; what it throws then comes with the await *)
    let* reset_so_far := co_attempt (block (reset_now alreadyPreempted)) in
    let* b := block mget in
    (if b_epoch b =? b_epoch before then co_ret tt
     else block (update_connection socket (reset_connection_received (b_epoch b))));*
    match reset_so_far with
    | Throw e => co_throw e
    | Ok _ =>
        let* _ := called (persist_current;* block announce_reset) in
        block (set_sequence socket (-1));*
        let* b := block mget in
        if owns socket b && negb (bc_mustResetBeforeUse (connection socket b)) && (f_epoch frame + 1 =? b_epoch b)
        then block (flushPacketQueue FipsToBrowser) else co_ret tt
    end.

(** An ERROR of the browser. *)
Definition handle_error (socket : nat) (frame : FwavFrame) : BCo unit :=
  block (disarmAcousticSession;; issueAcousticCapability randomBytes socket);*
  let* b := block mget in
  let origin := default (origin_of b) (map_get (f_sequence frame) (bc_errorOrigins (connection socket b))) in
  block (update_connection socket (set bc_errorOrigins (map_delete (f_sequence frame))));*
  let* alreadyPreempted := block (take_preempted socket (f_sequence frame)) in
  let* b := block mget in
  match origin with
  | OriginCyrinx =>
      if is_codec CodecCyrinx b then let* _ := called (activateCurrentFallback alreadyPreempted) in co_ret tt else co_ret tt
  | OriginQuiet =>
      if is_codec CodecQuiet b && match b_session b with Some s => bool_decide (qs_fallbackState s = Activated) | None => false end then
        let* marked := block (in_session false markQuietFailed) in
        if marked then
          block (next_generation;; abortCyrinxOperation);*
          persist_current;*
          block broadcastSession
        else co_ret tt
      else co_ret tt
  | OriginOther => co_ret tt
  end.

(** A result of the browser, checked against the committed corpus. *)
Definition check_result (config : RunnerQualificationConfig) (payload : fields) (epoch : Z) (b : Bridge) : result BrowserResult :=
  let? r := parseBrowserResult payload epoch in
  reject_if negb (expected_case (rs_caseId r)) with "unknown_case";
  reject_if rs_coldAcquired r
            && (negb (match head (expectedCorpus (cf_role config)) with
                      | Some e => bool_decide (rs_caseId r = js (cm_id e)) | None => false end)
                || negb (zlen (b_results b) =? 0))
    with "quiet_cold_case_invalid";
  Ok r.

(** One more delivery of a case that was delivered. *)
Definition delivered_again (r : BrowserResult) : BrowserResult :=
  mkBrowserResult (rs_epoch r) (rs_caseId r) (rs_receivedSha256 r) (rs_acquisitionMs r) (rs_airtimeMs r)
    (d_max (d_of_Z 2) (d_add (rs_deliveryCount r) (d_of_Z 1))) (rs_bytePerfect r) (rs_coldAcquired r) (rs_complete r)
    (rs_corrupt r) (rs_missing r) (d_add (rs_duplicates r) (d_of_Z 1)) (rs_queues r).

(** A QUALIFICATION_RESULT: does the frame go on to its queue? *)
Definition handle_result (config : RunnerQualificationConfig) (socket : nat) (frame : FwavFrame) (payload : fields) : BCo bool :=
  let* b := block mget in
  if is_codec CodecCyrinx b || is_codec CodecUnqualified b then co_throw "browser_result_forbidden_during_cyrinx"
  else
    match check_result config payload (f_epoch frame) b with
    | Throw e =>
        block (addReason (if is_bridge_error e then e else "qualification_result_invalid"));*
        persisted None;* co_throw e
    | Ok r =>
        match map_get (rs_caseId r) (b_results b) with
        | Some existing =>
            block (mmodify (set b_results (map_set (rs_caseId r) (delivered_again existing)));; addReason "duplicate_case");*
            persisted None;* co_throw "duplicate_case"
        | None =>
            block (mmodify (set b_results (map_set (rs_caseId r) r));; stamp (rs_caseId r));*
            let generation := b_generation b in
            persisted (Some generation);*
            let* b := block mget in
            if negb (generation =? b_generation b) || negb (f_epoch frame =? b_epoch b) then co_ret false
            else block (send socket (OutResultAccepted socket (rs_caseId r) (f_epoch frame)));* co_ret true
        end
    end.

(** QUALIFICATION_CASE, QUALIFICATION_RESULT and ERROR: does the frame go on to
    its queue? *)
Definition handle_control (socket : nat) (frame : FwavFrame) : BCo bool :=
  let* payload := block (mlift (parseJsonPayload json_parse frame)) in
  if hasPacketBulk (VObject payload) then co_throw "control_payload_contains_packet_data"
  else if hasForbiddenAuthority (VObject payload) then co_throw "browser_authority_forbidden"
  else
    let action name := is_message QUALIFICATION_CASE frame && is_literal name (get "action" payload) in
    if action "start_cyrinx"%string && (zlen payload =? 1) then let* _ := called startCyrinx in co_ret false
    else if action "accept_cyrinx_instruction"%string then called (acceptCyrinxInstruction payload);* co_ret false
    else if action "playback_complete"%string then called (completeCyrinxPlayback payload);* co_ret false
    else if is_message ERROR frame then handle_error socket frame;* co_ret false
    else match bo_config options with
    | Some config => if is_message QUALIFICATION_RESULT frame then handle_result config socket frame payload else co_ret true
    | None => co_ret true
    end.

Definition handle_audio (socket : nat) (frame : FwavFrame) : BCo unit :=
  (match bo_config options with
   | Some _ =>
       let* payload := block (mlift (parseJsonPayload json_parse frame)) in
       if hasForbiddenAuthority (VObject payload) then co_throw "browser_authority_forbidden"
       else
         block (let! audio := mlift (parseBrowserAudio payload) in b_audio <== Some audio);*
         persisted None
   | None => co_ret tt
   end);*
  block (b_localAudioPreflight <== true);*
  let* _ := await AwLoopbackReport in
  block (send socket (OutLoopbackReport socket)).

(** The frame after the checks every frame goes through. *)
Definition dispatch (socket : nat) (encoded : bytes) (frame : FwavFrame) : BCo unit :=
  if is_message FIPS_PACKET_ADMISSION frame then block (acceptBrowserAdmission options socket frame)
  else if is_message ACOUSTIC_READY frame || is_message ACOUSTIC_DISARM frame
  then block (acousticControl randomBytes socket frame)
  else
    let* b := block mget in
    if f_sequence frame <=? last_sequence socket b then co_throw "stale_or_duplicate_frame"
    else
      block (set_sequence socket (f_sequence frame));*
      if is_message HELLO frame then
        if negb (zlen (f_payload frame) =? 0) || negb (default 0 (f_flags frame) =? 0)
        then co_throw "acoustic_capability_request_invalid" else block (issueAcousticCapability randomBytes socket)
      else
        let* _ := expireCyrinx in
        if is_message RESET frame then handle_reset socket frame
        else if is_message FIPS_PACKET frame then
          block (let! b := mget in
                 if negb (packetDestinationReady BrowserToFips b) then
                   set_health BrowserToFips HNotConnected;; mthrow "fips_destination_unavailable"
                 else
                   enqueuePacket options BrowserToFips frame;;
                   flushPacketQueue BrowserToFips;;
                   b_fipsReadiness <== true)
        else
          let* b := block mget in
          if is_message PCM_CAPTURE frame && is_codec CodecCyrinx b then called (acceptCyrinxCapture socket encoded)
          else
            let* on := (if is_control (f_type frame) then handle_control socket frame else co_ret true) in
            if negb on then co_ret tt
            else if is_message AUDIO_SETTINGS frame then handle_audio socket frame
            else block (enqueue frame).

Definition checked_frame (socket : nat) (isBinary : bool) (encoded : bytes) : BM FwavFrame :=
  if negb isBinary then mthrow "binary_frames_required"
  else
    let! frame := mlift (foreign (decodeFrame encoded)) in
    let! b := mget in
    if negb (f_epoch frame =? b_epoch b) then mthrow "stale_or_duplicate_frame"
    else if bc_mustResetBeforeUse (connection socket b) && negb (is_message RESET frame) then mthrow "recovery_reset_required"
    else mret frame.

Definition handleFrame (socket : nat) (isBinary : bool) (encoded : bytes) : BCo unit :=
  co_try (let* frame := block (checked_frame socket isBinary encoded) in dispatch socket encoded frame)
    (fun e =>
      (match bo_config options with
       | Some _ =>
           if is_bridge_error e then
             (* what [persist] throws before it returns a promise is not caught *)
             let* queued := block (addReason e;; persist None) in
             let* _ := co_attempt (report_written queued) in co_ret tt
           else co_ret tt
       | None => co_ret tt
       end);*
      block (rejectSocket socket e)).

(** ** The daemon's packets *)

Definition fips_message (socket : nat) (isBinary : bool) (raw : bytes) : BM unit :=
  mtry (if negb isBinary then mthrow "binary_frames_required"
        else
          let! frame := mlift (foreign (decodeFrame raw)) in
          let! b := mget in
          if negb (is_message FIPS_PACKET frame) then mthrow "fips_endpoint_requires_fips_packet"
          else if negb (f_epoch frame =? b_epoch b) || (f_sequence frame <=? last_sequence socket b)
          then mthrow "stale_or_duplicate_frame"
          else
            set_sequence socket (f_sequence frame);;
            if negb (packetDestinationReady FipsToBrowser b) then
              set_health FipsToBrowser HNotConnected;; mthrow "browser_destination_unavailable"
            else
              enqueuePacket options FipsToBrowser frame;;
              flushPacketQueue FipsToBrowser;;
              b_browserReadiness <== true)
    (rejectSocket socket).

(** ** Connections *)

Definition new_connection (b : Bridge) : BrowserConnectionState :=
  mkConnection (b_epochClaimed b && b_reconnectAllowed b && b_reconnectRequiresReset b) [] [] (b_epoch b) (-1)
    (repeat 0 (Z.to_nat ACOUSTIC_DISARM_CAPABILITY_BYTES)) false.

(** A socket that was just accepted; [refused] when the side has its owner. *)
Definition connect_browser (socket : nat) : BM bool :=
  let! b := mget in
  if match b_owner b with Some s => is_open s b | None => false end || (b_epochClaimed b && negb (b_reconnectAllowed b)) then
    rejectSocket socket "browser_endpoint_already_owned";; mret false
  else
    let connection := new_connection b in
    b_owner <== Some socket;;
    mmodify (set b_connections (map_set socket connection));;
    b_epochClaimed <== true;;
    b_reconnectAllowed <== false;;
    mmodify (set b_clients (add socket));;
    mmodify (set b_browserConnections (add socket));;
    b_browserEndpoint <== EReady;;
    (if bc_mustResetBeforeUse connection then mskip else flushPacketQueue FipsToBrowser);;
    set_sequence socket (-1);;
    mmodify (set b_liveTrackers (add socket));;
    mret true.

(** What a new browser is sent. *)
Definition greet (socket : nat) : BCo unit :=
  let* expired := expireCyrinx in
  if expired then co_ret tt
  else block (let! b := mget in
              let! snapshot := sessionSnapshot (b_now b) in
              match snapshot with
              | Some s => if is_open socket b then send socket (OutSession socket s) else mskip
              | None => mskip
              end).

Definition connect_fips (socket : nat) : BM unit :=
  let! b := mget in
  if match b_fipsOwner b with Some s => is_open s b | None => false end then
    rejectSocket socket "fips_endpoint_already_owned"
  else
    b_fipsOwner <== Some socket;;
    mmodify (set b_clients (add socket));;
    mmodify (set b_fipsSockets (add socket));;
    b_fipsEndpoint <== EReady;;
    set_sequence socket (-1);;
    mmodify (set b_liveTrackers (add socket));;
    flushPacketQueue BrowserToFips;;
    let! b := mget in
    if b_acousticReady b then notifyFipsBrowserState true else mskip.

Definition forget_client (socket : nat) : BM unit :=
  mmodify (set b_clients (remove socket));;
  mmodify (set b_liveTrackers (remove socket)).

Definition fips_closed (socket : nat) : BM unit :=
  forget_client socket;;
  let! b := mget in
  if bool_decide (b_fipsOwner b = Some socket) then b_fipsOwner <== None;; b_fipsEndpoint <== EDisconnected else mskip.

(** The browser's socket has closed: does the Cyrinx run fall back? *)
Definition browser_closed (socket : nat) : BM bool :=
  forget_client socket;;
  mmodify (set b_browserConnections (remove socket));;
  let! b := mget in
  if negb (owns socket b) then mret false
  else
    clearPendingBrowserAdmission;;
    b_owner <== None;;
    b_browserEndpoint <== EDisconnected;;
    b_localAudioPreflight <== false;;
    disarmAcousticSession;;
    let! b := mget in
    if b_shuttingDown b then mret false
    else if negb (bc_mustResetBeforeUse (connection socket b)) && b_reconnectAllowed b then mret false
    else
      b_reconnectAllowed <== true;;
      b_reconnectRequiresReset <== true;;
      mret (negb (bc_mustResetBeforeUse (connection socket b)) && is_codec CodecCyrinx b).

(** [close], up to its waits. *)
Definition close : BM unit :=
  b_shuttingDown <== true;;
  clearCyrinxTimer;;
  abortCyrinxOperation;;
  mmodify (fun b => set b_open (List.filter (fun s => negb (bool_decide (s ∈ b_clients b)))) b).

(** ** The machine *)

Inductive Event :=
  | EClock (now : Z)
  | EConnectBrowser
  | EConnectFips
  | EBreak (socket : nat)
  | EClosing (socket : nat)
  | EClosed (socket : nat)
  | EMessage (socket : nat) (isBinary : bool) (raw : bytes)
  | EProcess (socket : nat)
  | EResume (job : nat) (answer : result Answer)
  | ETimer (handle : nat)
  | EWriterStart
  | EWriterDone (written : bool)
  | EMicrotask
  | EReset
  | EStart
  | EPlayback (encoded : bytes)
  | EClose.

(** The program: the bridge and its coroutines, the messages each socket has
    yet to process, and the coroutine that processes a socket's message. *)
Record Program := mkProgram {
  pg_machine : Machine Bridge Awaited Answer unit;
  pg_inbox : list (nat * (bool * bytes));
  pg_processing : list (nat * nat);
}.

Definition pg_bridge (p : Program) : Bridge := m_state (pg_machine p).

Definition on_machine (f : Machine Bridge Awaited Answer unit -> Machine Bridge Awaited Answer unit) (p : Program) : Program :=
  mkProgram (f (pg_machine p)) (pg_inbox p) (pg_processing p).

Definition as_job {A} (c : BCo A) : BCo unit := let* _ := c in co_ret tt.

(** A socket is handled as a browser's where it has a connection. *)
Definition is_browser (socket : nat) (b : Bridge) : bool := map_has socket (b_connections b).
Definition is_fips (socket : nat) (b : Bridge) : bool := bool_decide (socket ∈ b_fipsSockets b).

Definition heard (socket : nat) (b : Bridge) : bool :=
  (is_browser socket b || is_fips socket b) && negb (bool_decide (socket ∈ b_closed b)).

(** The end of [processing]: the last message was handled and the handler did
    not throw. *)
Definition settled (socket : nat) (p : Program) : bool :=
  match map_get socket (pg_processing p) with
  | None => true
  | Some job => match map_get job (m_done (pg_machine p)) with Some (Ok _) => true | _ => false end
  end.

Definition first_message (socket : nat) (p : Program) : option (bool * bytes) := map_get socket (pg_inbox p).

Fixpoint drop_first (socket : nat) (inbox : list (nat * (bool * bytes))) : list (nat * (bool * bytes)) :=
  match inbox with
  | [] => []
  | m :: rest => if (m.1 =? socket)%nat then rest else m :: drop_first socket rest
  end.

Definition handler (socket : nat) (isBinary : bool) (raw : bytes) (b : Bridge) : BCo unit :=
  if is_fips socket b then block (fips_message socket isBinary raw) else handleFrame socket isBinary raw.

Definition new_socket : BM nat :=
  let! b := mget in
  b_next <== S (b_next b);;
  mmodify (set b_open (add (b_next b)));;
  mret (b_next b).

(** An exception that no handler catches ends the process; the machine goes on,
    so what holds of all its states holds up to there. *)
Definition step (e : Event) (p : Program) : Program :=
  let b := pg_bridge p in
  match e with
  | EClock now => on_machine (perform (b_now <== now)) p
  | EConnectBrowser =>
      on_machine (launch (let* socket := block new_socket in
                          let* accepted := block (connect_browser socket) in
                          if accepted then greet socket else co_ret tt)) p
  | EConnectFips => on_machine (perform (let! socket := new_socket in connect_fips socket)) p
  | EBreak socket => on_machine (perform (mmodify (set b_broken (add socket)))) p
  | EClosing socket => on_machine (perform (mmodify (set b_open (remove socket)))) p
  | EClosed socket =>
      if negb (heard socket b) then p
      else
        on_machine (launch (block (mmodify (set b_open (remove socket));; mmodify (set b_closed (add socket)));*
                            if is_fips socket b then block (fips_closed socket)
                            else let* falls := block (browser_closed socket) in
                                 if falls then as_job (activateCurrentFallback false) else co_ret tt)) p
  | EMessage socket isBinary raw =>
      if negb (heard socket b) then p
      else
        let p' := if is_fips socket b then p else on_machine (launch (preemptUrgentControl socket isBinary raw)) p in
        mkProgram (pg_machine p') (pg_inbox p' ++ [(socket, (isBinary, raw))]) (pg_processing p')
  | EProcess socket =>
      match first_message socket p with
      | Some m =>
          if negb (settled socket p) then p
          else mkProgram (launch (handler socket m.1 m.2 b) (pg_machine p)) (drop_first socket (pg_inbox p))
                 (map_set socket (m_next (pg_machine p)) (pg_processing p))
      | None => p
      end
  | EResume job answer => on_machine (resume job answer) p
  | ETimer handle =>
      match map_get handle (b_timers b) with
      | None => p
      | Some RetryAdmission => on_machine (perform (clear_timer handle;; retryBrowserAdmission)) p
      | Some CyrinxExpiry => on_machine (launch (block (clear_timer handle);* as_job forceExpireCyrinx)) p
      end
  | EWriterStart => on_machine (perform start_write) p
  | EWriterDone written => on_machine (perform (end_write written)) p
  | EMicrotask =>
      if (b_microtasks b =? 0)%nat then p
      else on_machine (perform (mmodify (set b_microtasks Nat.pred);; broadcastSession)) p
  | EReset => on_machine (launch (as_job (reset false))) p
  | EStart => on_machine (launch (as_job startCyrinx)) p
  | EPlayback encoded => on_machine (perform (forwardPlayback encoded)) p
  | EClose => on_machine (perform close) p
  end.

(** [createBridgeServer] persists the first report where it can. *)
Definition boot (now : Z) : Program :=
  let m := machine (new_bridge options now) in
  mkProgram (match bo_config options, bo_authority options with
             | Some _, Some _ => launch (persisted None) m
             | _, _ => m
             end) [] [].

Definition run (events : list Event) (p : Program) : Program := fold_left (fun p e => step e p) events p.

(** The program after these events, created at the time [now]. *)
Definition reached (now : Z) (events : list Event) : Program := run events (boot now).
End Handlers.
