(* ===== verification/BridgeInv.v ===== *)
(** * The bridge's invariant, and the packet operations that keep it

    Every state of the bridge keeps its queues within their limits and the
    packet that awaits admission at the head of its queue; it moves the session
    by calls of its methods only; it queues no report of a generation to come,
    and one of the present generation is of the present epoch; and, as long as
    the random generator does not repeat itself, a capability it handed out
    answers for one readiness proof. *)

From stdpp Require Import base list numbers option strings.
From Stdlib Require Import ZArith Lia SpecFloat.
From S2P Require Import Prelude Utf8 Doubles Json Corpus Fwav UiQualification Qualification Report Selection Coroutine CyrinxWorker BridgeState BridgePackets BridgeReport Bridge.

(** ** The parts of the invariant *)

(** The bytes a queue accounts for are those of its entries, within a bound. *)
Definition queue_fits (maxBytes : Z) (q : Queue) : Prop :=
  qu_bytes q = foldr (fun e n => entry_bytes e + n) 0 (qu_frames q) /\ qu_bytes q <= maxBytes.

Definition packet_queue_fits (limits : PacketQueueLimits) (q : Queue) : Prop :=
  queue_fits (pl_maxBytes limits) q /\ zlen (qu_frames q) <= pl_maxItems limits
  /\ Forall (fun e => f_type (qe_frame e) = FIPS_PACKET) (qu_frames q).

(** The queues of media: one for each type that has one. *)
Definition media_fits (queues : list (MessageType * Queue)) : Prop :=
  queues.*1 = QUEUED_TYPES /\ Forall (fun p => queue_fits MAX_MESSAGE_BYTES p.2) queues.

(** What awaits admission is the head of its queue. *)
Definition pending_is_head (pending : option PendingBrowserAdmission) (q : Queue) : Prop :=
  match pending with
  | Some p => exists rest, qu_frames q = pb_entry p :: rest
  | None => True
  end.

(** The epoch a report states. *)
Definition report_epoch (report : value) : value :=
  match as_object report with Some f => get "epoch" f | None => VUndefined end.

Definition write_ok (generation epoch : Z) (task : WriteTask) : Prop :=
  wt_generation task <= generation /\ (wt_generation task = generation -> report_epoch (wt_report task) = vint epoch).

(** A readiness proof the daemon was armed with: the payload of a frame sent. *)
Definition armed_with (proof : bytes) (out : list Outgoing) : Prop :=
  exists socket raw frame, OutFrame socket raw ∈ out /\ decodeFrame raw = Ok frame
    /\ f_type frame = BROWSER_ARM /\ f_payload frame = proof.

Definition capability_of (proof : bytes) : bytes := slice proof 48 64.

(** The proofs on whose authority the daemon was, or is to be, armed. *)
Definition spent (proof : bytes) (accepted : option bytes) (out : list Outgoing) : Prop :=
  armed_with proof out \/ accepted = Some proof.

(** Of the first [n] draws no two are the same. *)
Definition unrepeated (randomBytes : nat -> bytes) (n : nat) : Prop :=
  forall i j, (i < n)%nat -> (j < n)%nat -> randomBytes i = randomBytes j -> i = j.

Lemma unrepeated_fewer randomBytes n n' : (n <= n')%nat -> unrepeated randomBytes n' -> unrepeated randomBytes n.
Proof. intros Hn H i j Hi Hj. apply H; lia. Qed.

Section Inv.
Context (options : BridgeOptions) (randomBytes : nat -> bytes) (cases : list CyrinxQualificationCase).

Definition held (socket : nat) (connections : list (nat * BrowserConnectionState)) : BrowserConnectionState :=
  default no_connection (map_get socket connections).

(** A capability drawn so far, or none: the zeros a connection starts with. *)
Definition drawn (next : nat) (capability : bytes) : Prop :=
  all_zero capability = true \/ exists n, (n < next)%nat /\ capability = randomBytes n.

(** While no draw repeats an earlier one: capabilities are drawn by the bridge, each for one connection; one that a
    proof was accepted on is drawn, used, and no other proof's. *)
Definition capabilities_ok (next : nat) (connections : list (nat * BrowserConnectionState)) (accepted : option bytes)
    (out : list Outgoing) : Prop :=
  unrepeated randomBytes next ->
  (forall s, drawn next (bc_acousticCapability (held s connections)))
  /\ (forall s s', bc_acousticCapability (held s connections) = bc_acousticCapability (held s' connections) ->
        s = s' \/ all_zero (bc_acousticCapability (held s connections)) = true)
  /\ (forall proof, spent proof accepted out ->
        all_zero (capability_of proof) = false /\ drawn next (capability_of proof)
        /\ forall s, bc_acousticCapability (held s connections) = capability_of proof ->
             bc_acousticCapabilityUsed (held s connections) = true)
  /\ (forall proof proof', spent proof accepted out -> spent proof' accepted out ->
        capability_of proof = capability_of proof' -> proof = proof').

(** The session is the one the bridge was created with, moved by calls of its
    methods. *)
Definition session_reached (session : option CyrinxQualificationSession) : Prop :=
  match bo_config options with
  | Some config => exists cs, session = Some (calls cases cs (new_session (cf_role config)))
  | None => session = None
  end.

Definition bridge_ok (b : Bridge) : Prop :=
  packet_queue_fits (bo_limits options) (b_toFips b)
  /\ (packet_queue_fits (bo_limits options) (b_toBrowser b) /\ pending_is_head (b_pending b) (b_toBrowser b))
  /\ media_fits (b_queues b)
  /\ (1 <= b_epoch b <= UINT32_MAX /\ Forall (write_ok (b_generation b) (b_epoch b)) (b_writes b))
  /\ session_reached (b_session b)
  /\ capabilities_ok (b_next b) (b_connections b) (b_readinessProof b) (b_out b).

(** The generation only grows, and an epoch lasts at least a generation. *)
Definition later (b b' : Bridge) : Prop :=
  b_generation b <= b_generation b' /\ (b_generation b' = b_generation b -> b_epoch b' = b_epoch b).

#[export] Instance later_refl : Reflexive later.
Proof. intros b. split; [lia|done]. Qed.

#[export] Instance later_trans : Transitive later.
Proof. intros b b' b'' [H1 H2] [H3 H4]. split; lia. Qed.

Abbreviation safe := (guards bridge_ok later).

(** ** Assignments *)

(** What the invariant says nothing of. *)
Lemma safe_frame f : (forall b, bridge_ok b -> bridge_ok (f b) /\ (b_generation (f b), b_epoch (f b)) = (b_generation b, b_epoch b)) -> safe (mmodify f).
Proof.
  intros H. apply guards_modify. intros b Hb. destruct (H b Hb) as [H1 [= H2 H3]]. split; [done|]. unfold later. rewrite H2, H3. by split.
Qed.
(** ** Queues *)

Lemma media_fits_map f queues :
  media_fits queues -> (forall p, p ∈ queues -> queue_fits MAX_MESSAGE_BYTES p.2 -> queue_fits MAX_MESSAGE_BYTES (f p)) ->
  media_fits (map (fun p => (p.1, f p)) queues).
Proof.
  intros [H1 H2] Hf. split.
  - rewrite <- H1. clear. induction queues as [|p l IH]; cbn; by f_equal.
  - apply Forall_map, Forall_forall. intros p Hp. rewrite Forall_forall in H2. apply Hf; [done|]. by apply H2.
Qed.

Lemma media_fits_update type f queues :
  media_fits queues ->
  (forall q, map_get type queues = Some q -> queue_fits MAX_MESSAGE_BYTES q -> queue_fits MAX_MESSAGE_BYTES (f q)) ->
  media_fits (map (fun p => if bool_decide (p.1 = type) then (p.1, f p.2) else p) queues).
Proof.
  intros Hq Hf. assert (NoDup queues.*1) as Hnd by (rewrite (proj1 Hq); apply (bool_decide_unpack _); done).
  replace (map _ queues) with (map (fun p => (p.1, if bool_decide (p.1 = type) then f p.2 else p.2)) queues)
    by (apply map_ext; intros [t q]; cbn; by destruct (bool_decide _)).
  apply media_fits_map; [done|]. intros [t q] Hin H. cbn in *. destruct (bool_decide_reflect (t = type)) as [->|]; [|done].
  apply Hf; [by apply map_get_In|done].
Qed.

Lemma entry_bytes_pos e : 32 <= entry_bytes e.
Proof. unfold entry_bytes, frame_bytes, HEADER_BYTES, zlen. lia. Qed.

Lemma queue_fits_empty n : 0 <= n -> queue_fits n empty_queue.
Proof. by split. Qed.

Lemma queue_fits_shift n q : queue_fits n q -> queue_fits n (shift_queue q).
Proof.
  unfold queue_fits, shift_queue. destruct (qu_frames q) as [|e rest] eqn:E; [by rewrite E|]. cbn. intros [H1 H2].
  pose proof (entry_bytes_pos e). lia.
Qed.

Lemma queue_fits_overflow n q : queue_fits n q -> queue_fits n (overflow_queue q).
Proof. done. Qed.

Lemma total_app l e :
  foldr (fun e n => entry_bytes e + n) 0 (l ++ [e]) = foldr (fun e n => entry_bytes e + n) 0 l + entry_bytes e.
Proof. induction l as [|x l IH]; cbn; [lia|]. rewrite IH. lia. Qed.

Lemma queue_fits_push n e q : queue_fits n q -> qu_bytes q + entry_bytes e <= n -> queue_fits n (push_queue e q).
Proof. unfold queue_fits, push_queue. cbn. rewrite total_app. intros [-> H] H'. by split. Qed.

Lemma packet_fits_shift limits q : packet_queue_fits limits q -> packet_queue_fits limits (shift_queue q).
Proof.
  intros (H1 & H2 & H3). split; [by apply queue_fits_shift|]. unfold shift_queue.
  destruct (qu_frames q) as [|e rest] eqn:E; [by rewrite E|]. cbn. split; [unfold zlen in *; cbn in H2; lia|].
  by inversion H3.
Qed.

Lemma packet_fits_push limits e q :
  packet_queue_fits limits q -> f_type (qe_frame e) = FIPS_PACKET -> qu_bytes q + entry_bytes e <= pl_maxBytes limits ->
  zlen (qu_frames q) < pl_maxItems limits -> packet_queue_fits limits (push_queue e q).
Proof.
  intros (H1 & H2 & H3) Ht Hb Hn. split; [by apply queue_fits_push|]. cbn. split.
  - unfold zlen in *. rewrite length_app. cbn. lia.
  - apply Forall_app. split; [done|]. by constructor.
Qed.

Lemma pending_push pending e q : pending_is_head pending q -> pending_is_head pending (push_queue e q).
Proof. destruct pending as [p|]; [|done]. intros [rest H]. exists (rest ++ [e]). cbn. by rewrite H. Qed.

(** ** Capabilities *)

Lemma drawn_later next next' c : (next <= next')%nat -> drawn next c -> drawn next' c.
Proof. intros H [Hz|(n & Hn & ->)]; [by left|]. right. exists n. split; [lia|done]. Qed.

Lemma capabilities_later next next' conns accepted out :
  (next <= next')%nat -> capabilities_ok next conns accepted out -> capabilities_ok next' conns accepted out.
Proof.
  intros Hn H Hinj. destruct (H (unrepeated_fewer _ _ _ Hn Hinj)) as (H1 & H2 & H3 & H4). split; [|split; [|split]]; [eauto using drawn_later..| |done].
  intros proof Hp. destruct (H3 proof Hp) as (Hz & Hd & Hu). eauto using drawn_later.
Qed.

(** Fewer proofs to answer for. *)
Lemma capabilities_spent next conns accepted out accepted' out' :
  (forall proof, spent proof accepted' out' -> spent proof accepted out) ->
  capabilities_ok next conns accepted out -> capabilities_ok next conns accepted' out'.
Proof. intros H H' Hinj. destruct (H' Hinj) as (H1 & H2 & H3 & H4). split; [|split; [|split]]; auto. Qed.

(** Connections with the same capabilities, used alike. *)
Definition same_authority_of (c c' : BrowserConnectionState) : Prop :=
  bc_acousticCapability c' = bc_acousticCapability c /\ bc_acousticCapabilityUsed c' = bc_acousticCapabilityUsed c.

Lemma capabilities_connections next conns conns' accepted out :
  (forall s, same_authority_of (held s conns) (held s conns')) ->
  capabilities_ok next conns accepted out -> capabilities_ok next conns' accepted out.
Proof.
  intros H H' Hinj. destruct (H' Hinj) as (H1 & H2 & H3 & H4). split; [|split; [|split]]; [| | |done].
  - intros s. destruct (H s) as [-> _]. apply H1.
  - intros s s'. destruct (H s) as [-> _], (H s') as [-> _]. apply H2.
  - intros proof Hp. destruct (H3 proof Hp) as (Hz & Hd & Hu). split; [done|split; [done|]]. intros s.
    destruct (H s) as [-> ->]. apply Hu.
Qed.

Lemma held_set socket c conns s : held s (map_set socket c conns) = if decide (s = socket) then c else held s conns.
Proof. unfold held. rewrite map_get_set. by destruct (decide (s = socket)). Qed.
End Inv.

(** An assignment to a field the invariant does not mention: by computation. *)
Ltac frame :=
  apply safe_frame; intros ? Hframe; split; [exact Hframe|reflexivity].

Section Safe.
Context (options : BridgeOptions) (randomBytes : nat -> bytes) (cases : list CyrinxQualificationCase).
Context (limits_positive : 0 <= pl_maxBytes (bo_limits options) /\ 0 <= pl_maxItems (bo_limits options)).

Abbreviation ok := (bridge_ok options randomBytes cases).
Abbreviation safe := (guards ok later).

(** ** The log *)

Lemma armed_log proof o out :
  armed_with proof (out ++ [o]) ->
  armed_with proof out \/ exists socket raw frame, o = OutFrame socket raw /\ decodeFrame raw = Ok frame
                           /\ f_type frame = BROWSER_ARM /\ f_payload frame = proof.
Proof.
  intros (socket & raw & frame & Hin & H). apply elem_of_app in Hin as [Hin|Hin%list_elem_of_singleton].
  - left. by exists socket, raw, frame.
  - right. by exists socket, raw, frame.
Qed.

Lemma armed_more proof o out : armed_with proof out -> armed_with proof (out ++ [o]).
Proof. intros (socket & raw & frame & Hin & H). exists socket, raw, frame. split; [|done]. apply elem_of_app. by left. Qed.

(** What may be logged: a frame that arms only what was to be armed. *)
Definition harmless (accepted : option bytes) (o : Outgoing) : Prop :=
  forall socket raw frame, o = OutFrame socket raw -> decodeFrame raw = Ok frame -> f_type frame = BROWSER_ARM ->
    accepted = Some (f_payload frame).

Lemma wp_log o b : ok b -> harmless (b_readinessProof b) o -> wp (log o) (fun _ b' => ok b' /\ later b b') b.
Proof.
  intros (H1 & H2 & H3 & H4 & H5 & H6) Ho. apply wp_modify. split; [|apply (later_refl b)].
  split; [exact H1|]. split; [exact H2|]. split; [exact H3|]. split; [exact H4|]. split; [exact H5|].
  apply (capabilities_spent randomBytes _ _ (b_readinessProof b) (b_out b)); [|exact H6].
  intros proof [Ha|Ha]; [|by right]. apply armed_log in Ha as [Ha|(socket & raw & frame & -> & Hd & Ht & Hp)]; [by left|].
  right. rewrite <- Hp. by apply (Ho socket raw).
Qed.

Lemma safe_log o : (forall accepted, harmless accepted o) -> safe (log o).
Proof. intros H b Hb. by apply wp_log. Qed.

Lemma harmless_other accepted o : (forall socket raw, o <> OutFrame socket raw) -> harmless accepted o.
Proof. intros H socket raw frame ->. by destruct (H socket raw). Qed.

(** A frame sent is decoded as it was encoded. *)
Lemma decoded_sent frame raw frame' :
  encodeFrame frame = Ok raw -> decodeFrame raw = Ok frame' -> f_type frame' = f_type frame /\ f_payload frame' = f_payload frame.
Proof. intros H H'. rewrite (frame_decode _ _ H) in H'. by rewrite (validateFrame_shape _ _ H'). Qed.

Lemma safe_send socket o : (forall accepted, harmless accepted o) -> safe (send socket o).
Proof. intros H. unfold send. repeat guards_step. by apply safe_log. Qed.

Lemma wp_send_frame socket frame b :
  ok b -> (f_type frame = BROWSER_ARM -> b_readinessProof b = Some (f_payload frame)) ->
  wp (send_frame socket frame) (fun _ b' => ok b' /\ later b b') b.
Proof.
  intros Hb Hf. unfold send_frame. apply wp_bind, wp_lift. destruct (encodeFrame frame) as [raw|e] eqn:E; cbn; [|by split].
  unfold send. apply wp_bind, wp_get. destruct (bool_decide _); [by apply wp_throw|]. apply wp_log; [done|].
  intros s raw' frame' [= <- <-] Hd Ht. destruct (decoded_sent _ _ _ E Hd) as [Ht' Hp]. rewrite Hp. apply Hf. by rewrite <- Ht'.
Qed.

Lemma safe_send_frame socket frame : f_type frame <> BROWSER_ARM -> safe (send_frame socket frame).
Proof. intros H b Hb. by apply wp_send_frame. Qed.

(** ** Small operations *)

Lemma wp_next b : ok b -> wp (b_next <== S (b_next b)) (fun _ b' => ok b' /\ later b b') b.
Proof.
  intros (H1 & H2 & H3 & H4 & H5 & H6). apply wp_modify. split; [|apply (later_refl b)].
  split; [exact H1|]. split; [exact H2|]. split; [exact H3|]. split; [exact H4|]. split; [exact H5|].
  apply (capabilities_later _ (b_next b)); [unfold set; cbn; lia|exact H6].
Qed.

Lemma safe_set_timer kind delay : safe (set_timer kind delay).
Proof.
  apply guards_read. intros b Hb. apply wp_then; [exact _|by apply wp_next|intros _].
  guards_step; [frame|]. repeat guards_step. apply safe_log. intros ?. by apply harmless_other.
Qed.

Lemma safe_clear_timer handle : safe (clear_timer handle).
Proof. frame. Qed.

Lemma safe_addReason reason : safe (addReason reason).
Proof. frame. Qed.

Lemma safe_refreshState : safe refreshState.
Proof. frame. Qed.

Lemma safe_set_sequence socket n : safe (set_sequence socket n).
Proof. frame. Qed.

(** What happens to a connection leaves its capability alone. *)
Lemma safe_update_connection socket f : (forall c, same_authority_of c (f c)) -> safe (update_connection socket f).
Proof.
  intros Hf. apply safe_frame. intros b (H1 & H2 & H3 & H4 & H5 & H6). split; [|reflexivity].
  split; [exact H1|]. split; [exact H2|]. split; [exact H3|]. split; [exact H4|]. split; [exact H5|].
  refine (capabilities_connections _ _ (b_connections b) _ _ _ _ H6). intros s.
  change (same_authority_of (held s (b_connections b))
            (held s (map_set socket (f (held socket (b_connections b))) (b_connections b)))). rewrite held_set.
  destruct (decide (s = socket)) as [->|]; [apply Hf|by split].
Qed.

(** ** Queues *)

Lemma safe_pending_none : safe (b_pending <== None).
Proof. apply safe_frame. intros b (H1 & [H2 _] & H). split; [exact (conj H1 (conj (conj H2 I) H))|reflexivity]. Qed.

(** The operation, and what it leaves of the two packet queues. *)
Lemma wp_clear_pending b : ok b ->
  wp clearPendingBrowserAdmission
    (fun _ b' => (ok b' /\ later b b') /\ b_pending b' = None /\ b_toBrowser b' = b_toBrowser b /\ b_toFips b' = b_toFips b) b.
Proof.
  intros (H1 & [H2 _] & H). unfold clearPendingBrowserAdmission. apply wp_bind, wp_get.
  destruct (b_pending b) as [[e o a [h|]]|]; apply wp_bind; [apply wp_modify|apply wp_ret..]; apply wp_modify;
    (split; [split; [exact (conj H1 (conj (conj H2 I) H))|apply (later_refl b)]|done]).
Qed.

Lemma safe_clear_pending : safe clearPendingBrowserAdmission.
Proof. intros b Hb. eapply wp_mono; [by apply wp_clear_pending|]. by intros r b' [H _]. Qed.

Lemma wp_clearQueues b : ok b ->
  wp clearQueues (fun _ b' => (ok b' /\ later b b')) b.
Proof.
  intros Hb. unfold clearQueues. apply wp_bind. eapply wp_mono; [by apply wp_clear_pending|].
  intros [[]|e] b1 [[Hb1 Hl] (Hp & _ & _)]; [|done]. apply wp_bind, wp_modify, wp_bind, wp_modify, wp_bind, wp_modify.
  destruct Hb1 as (H1 & [H2 _] & H3 & H). destruct limits_positive as [Hn Hm].
  assert (Hempty : packet_queue_fits (bo_limits options) empty_queue) by (split; [by apply queue_fits_empty|by split]).
  apply wp_modify. split; [|exact Hl]. refine (conj Hempty (conj (conj Hempty _) (conj _ H))).
  - unfold set; cbn. by rewrite Hp.
  - apply (media_fits_map (fun _ => empty_queue) (b_queues b1) H3). intros p _ _. by apply queue_fits_empty.
Qed.

Lemma safe_clearQueues : safe clearQueues.
Proof. intros b. apply wp_clearQueues. Qed.

Lemma safe_update_media type f : (forall q, queue_fits MAX_MESSAGE_BYTES q -> queue_fits MAX_MESSAGE_BYTES (f q)) -> safe (update_media type f).
Proof.
  intros Hf. apply safe_frame. intros b (H1 & H2 & H3 & H). split; [|reflexivity]. refine (conj H1 (conj H2 (conj _ H))).
  apply (media_fits_update type f (b_queues b) H3). auto.
Qed.

Lemma safe_new_entry frame : safe (new_entry frame).
Proof. apply guards_read. intros b Hb. apply wp_then; [exact _|by apply wp_next|intros _]. guards_step. Qed.

Lemma safe_expire_front maxAge now shift dropped frames :
  safe shift -> (forall e, safe (dropped e)) -> safe (expire_front maxAge now shift dropped frames).
Proof. intros Hs Hd. induction frames as [|e rest IH]; cbn; repeat guards_step; auto. Qed.

(** A queue of media takes a frame in only where it fits. *)
Lemma safe_enqueue frame : safe (enqueue frame).
Proof.
  unfold enqueue. guards_step; [guards_step|]. cbv zeta. destruct (map_get _ _) as [queue|] eqn:E; [|guards_step].
  guards_step; [apply safe_expire_front; [apply safe_update_media; auto using queue_fits_shift|
                  intros ?; unfold note_discontinuity; repeat guards_step; frame]|].
  apply guards_read. intros b Hb. destruct (_ <? _) eqn:Et.
  - assert (safe (update_media (f_type frame) overflow_queue;;
                  mmodify (set b_overflowedQueues (add (queueName (f_type frame))));;
                  note_discontinuity (f_type frame);;
                  mthrow (A:=unit) ("FWAV " +:+ queueName (f_type frame) +:+ " queue overflow")%string)) as Hsafe; [|by apply Hsafe].
    guards_step; [by apply safe_update_media|]. guards_step; [frame|].
    guards_step; [unfold note_discontinuity; guards_step; [frame|guards_step]|guards_step].
  - apply Z.ltb_ge in Et. unfold new_entry. apply wp_bind, wp_bind, wp_get, wp_bind, wp_modify, wp_ret, wp_bind, wp_modify.
    destruct Hb as (H1 & H2 & H3 & H4 & H5 & H6). apply wp_modify. split; [|apply (later_refl b)].
    refine (conj H1 (conj H2 (conj _ (conj H4 (conj H5 _))))).
    + apply (media_fits_update (f_type frame) (push_queue (mkEntry (b_next b) frame (b_now b))) (b_queues b) H3).
      intros q Hq Hfit. rewrite Hq in Et. by apply queue_fits_push.
    + apply (capabilities_later _ (b_next b)); [unfold set; cbn; lia|exact H6].
Qed.

(** ** Packet queues *)

(** Packets to the daemon: any change that fits. *)
Lemma safe_to_fips f : (forall q, packet_queue_fits (bo_limits options) q -> packet_queue_fits (bo_limits options) (f q)) ->
  safe (update_queue BrowserToFips f).
Proof. intros Hf. apply safe_frame. intros b (H1 & H). split; [exact (conj (Hf _ H1) H)|reflexivity]. Qed.

Lemma safe_overflow direction : safe (update_queue direction overflow_queue).
Proof. destruct direction; frame. Qed.

Lemma safe_set_health direction h : safe (set_health direction h).
Proof. destruct direction; frame. Qed.

(** The head leaves the queue to the browser once it awaits nothing. *)
Lemma wp_shift_browser b : ok b -> b_pending b = None ->
  wp (update_queue FipsToBrowser shift_queue) (fun _ b' => ok b' /\ later b b') b.
Proof.
  intros (H1 & [H2 _] & H) Hp. apply wp_modify. split; [|apply (later_refl b)].
  refine (conj H1 (conj (conj (packet_fits_shift _ _ H2) _) H)). unfold set; cbn. by rewrite Hp.
Qed.

(** ... or stops to await its admission right after. *)
Lemma wp_shift_head b : ok b ->
  wp (update_queue FipsToBrowser shift_queue;; clearPendingBrowserAdmission) (fun _ b' => ok b' /\ later b b') b.
Proof.
  intros (H1 & [H2 _] & H). apply wp_bind, wp_modify. unfold clearPendingBrowserAdmission. apply wp_bind, wp_get.
  set (b1 := set b_toBrowser shift_queue b). destruct (b_pending b1) as [[e o a [h|]]|];
    apply wp_bind; [apply wp_modify|apply wp_ret..]; apply wp_modify;
    (split; [|apply (later_refl b)]); exact (conj H1 (conj (conj (packet_fits_shift _ _ H2) I) H)).
Qed.

(** An entry that has waited too long goes, with what it awaited. *)
Lemma wp_expire_one direction e rest b : ok b -> qu_frames (packet_queue direction b) = e :: rest ->
  wp (update_queue direction shift_queue;; expire_packet e)
    (fun _ b' => (ok b' /\ later b b') /\ qu_frames (packet_queue direction b') = rest) b.
Proof.
  intros Hb Hq. destruct direction; cbn in Hq; apply wp_bind, wp_modify; unfold expire_packet; apply wp_bind, wp_get.
  - set (b1 := set b_toFips shift_queue b).
    assert (Hb1 : ok b1) by (destruct Hb as (H1 & H); exact (conj (packet_fits_shift _ _ H1) H)).
    assert (Hq1 : qu_frames (b_toFips b1) = rest) by (change (qu_frames (shift_queue (b_toFips b)) = rest); unfold shift_queue; by rewrite Hq).
    apply wp_bind. destruct (is_pending e b1); [|apply wp_ret, wp_modify; split; [split; [exact Hb1|apply (later_refl b)]|exact Hq1]].
    eapply wp_mono; [by apply wp_clear_pending|]. intros [[]|err] b2 [[Hb2 Hl] (_ & _ & Hf)]; [|split; [split; [exact Hb2|exact Hl]|]].
    + apply wp_modify. split; [split; [exact Hb2|exact Hl]|]. change (qu_frames (b_toFips b2) = rest). by rewrite Hf.
    + change (qu_frames (b_toFips b2) = rest). by rewrite Hf.
  - set (b1 := set b_toBrowser shift_queue b).
    assert (Hq1 : qu_frames (b_toBrowser b1) = rest) by (change (qu_frames (shift_queue (b_toBrowser b)) = rest); unfold shift_queue; by rewrite Hq).
    destruct Hb as (H1 & [H2 Hp] & H). apply wp_bind. unfold is_pending. change (b_pending b1) with (b_pending b).
    destruct (b_pending b) as [[e' o a h]|] eqn:Ep; cbn [pb_entry].
    + destruct Hp as [rest' Hp]. rewrite Hq in Hp. injection Hp as -> ->. cbn [pb_entry]. rewrite Nat.eqb_refl.
      unfold clearPendingBrowserAdmission. apply wp_bind, wp_get. change (b_pending b1) with (b_pending b). rewrite Ep. cbn [pb_retryTimer].
      destruct h; apply wp_bind; [apply wp_modify|apply wp_ret]; apply wp_modify, wp_modify;
        (split; [split; [exact (conj H1 (conj (conj (packet_fits_shift _ _ H2) I) H))|apply (later_refl b)]|exact Hq1]).
    + apply wp_ret, wp_modify. split; [split; [|apply (later_refl b)]|exact Hq1].
      refine (conj H1 (conj (conj (packet_fits_shift _ _ H2) _) H)). unfold b1, set; cbn. by rewrite Ep.
Qed.

Lemma wp_expire_packets direction now frames b : ok b -> qu_frames (packet_queue direction b) = frames ->
  wp (expire_front (maxAge options) now (update_queue direction shift_queue) expire_packet frames)
    (fun _ b' => ok b' /\ later b b') b.
Proof.
  revert b. induction frames as [|e rest IH]; intros b Hb Hq; cbn; [by apply wp_ret|].
  destruct (_ <? _); [|by apply wp_ret]. apply wp_pair. eapply wp_mono; [by apply wp_expire_one|].
  intros [[]|err] b' [[Hb' Hl] Hq']; [|done]. eapply wp_mono; [by apply IH|]. intros r b'' [Hb'' Hl'].
  split; [done|by etransitivity].
Qed.

Lemma safe_enqueuePacket direction frame : f_type frame = FIPS_PACKET -> safe (enqueuePacket options direction frame).
Proof.
  intros Ht. apply guards_read. intros b Hb. apply wp_then; [exact _|by apply wp_expire_packets|intros _].
  apply guards_read. clear b Hb. intros b Hb. cbv zeta. destruct (_ || _) eqn:E.
  - assert (safe (update_queue direction overflow_queue;; mmodify (set b_overflowedQueues (add (packetQueueName direction)));;
                  set_health direction HOverflow;; mthrow (A:=unit) "fips_packet_queue_overflow"%string)) as H; [|by apply H].
    guards_step; [apply safe_overflow|]. guards_step; [frame|]. guards_step; [apply safe_set_health|guards_step].
  - bool_split. unfold new_entry.
    assert (Hpush : forall e q, qe_frame e = frame -> packet_queue_fits (bo_limits options) q ->
              qu_bytes q = qu_bytes (packet_queue direction b) -> zlen (qu_frames q) = zlen (qu_frames (packet_queue direction b)) ->
              packet_queue_fits (bo_limits options) (push_queue e q)).
    { intros e q He Hq Hqb Hqn. apply packet_fits_push; [done|by rewrite He|unfold entry_bytes; rewrite He; lia|lia]. }
    destruct Hb as (H1 & [H2 Hp] & H3 & H4 & H5 & H6).
    assert (H6' : capabilities_ok randomBytes (S (b_next b)) (b_connections b) (b_readinessProof b) (b_out b))
      by (apply (capabilities_later _ (b_next b)); [lia|done]).
    destruct direction; apply wp_bind, wp_modify, wp_bind, wp_bind, wp_get, wp_bind, wp_modify, wp_ret, wp_bind, wp_modify, wp_modify;
      (split; [|apply (later_refl b)]).
    + exact (conj (Hpush (mkEntry (b_next b) frame (b_now b)) _ eq_refl H1 eq_refl eq_refl) (conj (conj H2 Hp) (conj H3 (conj H4 (conj H5 H6'))))).
    + exact (conj H1 (conj (conj (Hpush (mkEntry (b_next b) frame (b_now b)) _ eq_refl H2 eq_refl eq_refl) (pending_push _ _ _ Hp)) (conj H3 (conj H4 (conj H5 H6'))))).
Qed.

(** ** Sending packets on *)

Lemma safe_last_error v : safe (b_lastError <== v).
Proof. frame. Qed.

Lemma safe_flush_frames target frames :
  Forall (fun e => f_type (qe_frame e) = FIPS_PACKET) frames -> safe (flush_frames target frames).
Proof.
  induction 1 as [|e rest He Hrest IH]; cbn -[update_queue set_health]; [apply safe_refreshState|].
  guards_step; [apply safe_to_fips, packet_fits_shift|].
  guards_step; [guards_step; [guards_step; [apply safe_send_frame; by rewrite He|guards_step]|guards_step]|].
  guards_step.
  - guards_step; [apply safe_last_error|]. guards_step; [apply safe_set_health|apply safe_refreshState].
  - guards_step; [guards_step|]. do 2 (guards_step; [frame|]). guards_step; [apply safe_set_health|apply IH].
Qed.

(** Sending touches nothing but the log. *)
Lemma wp_send_log socket frame b :
  wp (send_frame socket frame) (fun _ b' => exists l, b' = set b_out (fun out => out ++ l) b) b.
Proof.
  assert (H : b = set b_out (fun out => out ++ []) b) by (destruct b; unfold set; cbn; by rewrite app_nil_r).
  unfold send_frame. apply wp_bind, wp_lift. destruct (foreign _); [|by exists []].
  unfold send. apply wp_bind, wp_get. destruct (bool_decide _); [apply wp_throw; by exists []|]. apply wp_modify. by eexists.
Qed.

Lemma safe_flushPacketQueue direction : safe (flushPacketQueue direction).
Proof.
  apply guards_read. intros b Hb.
  destruct (match direction with BrowserToFips => b_fipsOwner b | FipsToBrowser => b_owner b end) as [target|]; [|by apply wp_ret].
  destruct (negb _); [by apply wp_ret|]. destruct direction.
  - apply safe_flush_frames; [|done]. apply Hb.
  - destruct (owner_must_reset b); [by apply wp_ret|]. destruct (b_pending b) eqn:Ep; [by apply wp_ret|].
    destruct (qu_frames (b_toBrowser b)) as [|e rest] eqn:Eq; [by apply safe_refreshState|].
    assert (He : f_type (qe_frame e) = FIPS_PACKET).
    { destruct Hb as (_ & [(_ & _ & H) _] & _). rewrite Eq in H. by inversion H. }
    apply wp_bind, wp_try, wp_bind.
    eapply wp_mono; [apply wp_and; [apply (wp_send_frame _ _ _ Hb); by rewrite He|apply wp_send_log]|].
    intros r b' [[(H1 & [H2 _] & H) Hl] [out ->]].
    assert (Hrejected : safe (b_lastError <== Some (safeBridgeError "browser_destination_unavailable"%string);;
                             set_health FipsToBrowser HRejected;; refreshState))
      by (guards_step; [apply safe_last_error|]; guards_step; [apply safe_set_health|apply safe_refreshState]).
    destruct r as [[]|err]; apply wp_ret; cbv [negb].
    + apply wp_bind, wp_modify, wp_bind, wp_modify, wp_modify. split; [|exact Hl].
      refine (conj H1 (conj (conj H2 _) H)). exists rest. exact Eq.
    + apply wp_guards with (I := ok) (R := later); [done| |].
      * refine (conj H1 (conj (conj H2 _) H)). change (pending_is_head (b_pending b) (b_toBrowser b)). by rewrite Ep.
      * intros r' b'' Hb'' Hl'. split; [done|]. by etransitivity.
Qed.

Lemma safe_retryBrowserAdmission : safe retryBrowserAdmission.
Proof.
  apply guards_read. intros b Hb. destruct (b_pending b) as [p|] eqn:Ep; [|by apply wp_ret].
  destruct (_ || _); [by apply wp_ret|].
  assert (f_type (qe_frame (pb_entry p)) = FIPS_PACKET) as Ht.
  { destruct Hb as (_ & [(_ & _ & H) Hp] & _). rewrite Ep in Hp. destruct Hp as [rest Hp]. rewrite Hp in H. by inversion H. }
  apply wp_then; [exact _| |intros _].
  - destruct Hb as (H1 & [H2 Hp] & H). apply wp_modify. split; [|apply (later_refl b)].
    refine (conj H1 (conj (conj H2 _) H)). unfold set; cbn. rewrite Ep in Hp. exact Hp.
  - guards_step; [guards_step|]. guards_step; [apply safe_send_frame; by rewrite Ht|].
    guards_step; [apply safe_last_error|]. guards_step; [apply safe_set_health|apply safe_refreshState].
Qed.

Lemma safe_notifyFipsPacketAdmission packet answer : safe (notifyFipsPacketAdmission packet answer).
Proof.
  unfold notifyFipsPacketAdmission. repeat guards_step; [by apply safe_send_frame|apply safe_last_error].
Qed.

(** The queue to the browser stays as it is. *)
Definition same_to_browser (b b' : Bridge) : Prop := b_toBrowser b' = b_toBrowser b.

#[local] Instance same_to_browser_refl : Reflexive same_to_browser.
Proof. done. Qed.
#[local] Instance same_to_browser_trans : Transitive same_to_browser.
Proof. unfold same_to_browser. congruence. Qed.

Ltac same_queue := repeat (moves_step || (apply moves_modify; reflexivity)).

Lemma notify_same_to_browser packet answer : moves same_to_browser (notifyFipsPacketAdmission packet answer).
Proof. unfold notifyFipsPacketAdmission, send_frame, send, log. same_queue. Qed.

Lemma set_timer_same_to_browser kind delay : moves same_to_browser (set_timer kind delay).
Proof. unfold set_timer, log. same_queue. Qed.

Lemma safe_acceptBrowserAdmission socket frame : safe (acceptBrowserAdmission options socket frame).
Proof.
  apply guards_read. intros b Hb. destruct (b_pending b) as [p|] eqn:Ep; [|by apply wp_ret].
  destruct (_ || _); [by apply wp_ret|]. cbv zeta. destruct (negb _).
  { destruct (_ <? _); [by apply wp_ret|by apply wp_throw]. }
  apply wp_bind, wp_lift. destruct (foreign _) as [answer|e]; [|by split].
  assert (Hrest : safe (set_health FipsToBrowser HRejected;; b_lastError <== Some (safeBridgeError "fips_packet_queue_expired"%string);;
                        refreshState;; flushPacketQueue FipsToBrowser)).
  { guards_step; [apply safe_set_health|]. guards_step; [apply safe_last_error|].
    guards_step; [apply safe_refreshState|apply safe_flushPacketQueue]. }
  destruct (_ =? _).
  - destruct (negb _).
    + apply wp_then; [exact _|by apply safe_clear_pending|intros _].
      guards_step; [apply safe_refreshState|apply safe_flushPacketQueue].
    + apply wp_pair. eapply wp_mono; [by apply wp_shift_head|]. intros [[]|err] b' [Hb' Hl]; [|done].
      apply wp_guards with (I := ok) (R := later); [|done|intros; split; [done|by etransitivity]].
      guards_step; [frame|]. guards_step; [apply safe_notifyFipsPacketAdmission|]. guards_step; [frame|].
      guards_step; [guards_step|]. guards_step; [apply safe_set_health|].
      guards_step; [apply safe_refreshState|apply safe_flushPacketQueue].
  - set (m := if pb_attempts p =? 1 then notifyFipsPacketAdmission (qe_frame (pb_entry p)) answer else mskip).
    assert (Hm : safe m) by (unfold m; guards_step; [apply safe_notifyFipsPacketAdmission|guards_step]).
    assert (Hq : moves same_to_browser m) by (unfold m; moves_step; [apply notify_same_to_browser|moves_step]).
    apply wp_bind. eapply wp_mono; [apply wp_and; [by apply Hm|by apply Hq]|]. intros [[]|err] b1 [[Hb1 Hl1] Hq1]; [|done].
    destruct (_ <? _).
    + destruct (negb _); [by apply wp_throw|]. apply wp_pair. eapply wp_mono; [by apply wp_shift_head|].
      intros [[]|err] b' [Hb' Hl]; [|by split; [|etransitivity]].
      apply wp_guards with (I := ok) (R := later); [done..|intros; split; [done|]]. by do 2 (etransitivity; [eassumption|]).
    + apply wp_bind. eapply wp_mono; [apply wp_and; [by apply safe_set_timer|apply set_timer_same_to_browser]|].
      intros [h|err] b2 [[Hb2 Hl2] Hq2]; [|by split; [|etransitivity]].
      assert (Hl : later b b2) by by etransitivity. unfold same_to_browser in *.
      apply wp_bind, wp_modify, wp_bind, wp_modify, wp_modify. split; [|exact Hl].
      destruct Hb as (_ & [_ Hp] & _), Hb2 as (H1 & [H2 _] & H). refine (conj H1 (conj (conj H2 _) H)).
      rewrite Ep in Hp. destruct Hp as [rest Hp]. exists rest. change (qu_frames (b_toBrowser b2) = pb_entry p :: rest). congruence.
Qed.

(** ** Acoustic readiness *)

Lemma safe_notifyFipsBrowserState armed : safe (notifyFipsBrowserState armed).
Proof.
  apply guards_read. intros b Hb. destruct (open_fips b) as [s|]; [|by apply wp_ret].
  destruct (b_readinessProof b) as [proof|] eqn:Ep; [|by apply wp_ret]. apply wp_send_frame; [done|].
  destruct armed; [|done]. intros _. by rewrite Ep.
Qed.

(** A proof less to answer for. *)
Lemma safe_drop_proof : safe (b_readinessProof <== None).
Proof.
  apply safe_frame. intros b (H1 & H2 & H3 & H4 & H5 & H6). split; [|reflexivity].
  refine (conj H1 (conj H2 (conj H3 (conj H4 (conj H5 _))))).
  refine (capabilities_spent _ _ _ (b_readinessProof b) (b_out b) _ _ _ H6). intros proof [H|H]; [by left|discriminate H].
Qed.

Lemma safe_disarmAcousticSession : safe disarmAcousticSession.
Proof.
  unfold disarmAcousticSession. guards_step; [guards_step|]. guards_step; [guards_step|]. guards_step; [frame|].
  guards_step; [apply safe_notifyFipsBrowserState|]. guards_step; [apply safe_drop_proof|].
  do 2 (guards_step; [frame|]). apply safe_clearQueues.
Qed.

Lemma capabilities_issue next conns accepted out socket c :
  capabilities_ok randomBytes next conns accepted out ->
  bc_acousticCapability c = randomBytes next ->
  capabilities_ok randomBytes (S next) (map_set socket c conns) accepted out.
Proof.
  intros H Hc Hinj. destruct (H (unrepeated_fewer _ next (S next) ltac:(lia) Hinj)) as (H1 & H2 & H3 & H4).
  assert (Hfresh : forall capability, drawn randomBytes next capability -> capability = randomBytes next -> all_zero capability = true).
  { intros capability [Hz|(n & Hn & ->)] E; [done|]. apply Hinj in E; lia. }
  split; [|split; [|split]]; [| | |done].
  - intros s. rewrite held_set. destruct (decide (s = socket)) as [->|]; [|by eapply drawn_later; [|apply H1]; lia].
    right. exists next. split; [lia|done].
  - intros s s'. rewrite !held_set. destruct (decide (s = socket)) as [->|], (decide (s' = socket)) as [->|]; [by left| | |apply H2].
    + rewrite Hc. intros E. right. rewrite E. by apply Hfresh; [apply H1|].
    + rewrite Hc. intros E. right. by apply Hfresh; [apply H1|].
  - intros proof Hp. destruct (H3 proof Hp) as (Hz & Hd & Hu). split; [done|split; [by eapply drawn_later; [|apply Hd]; lia|]].
    intros s. rewrite held_set. destruct (decide (s = socket)) as [->|]; [|apply Hu]. rewrite Hc. intros E.
    rewrite (Hfresh _ Hd) in Hz; [done|by symmetry].
Qed.

Lemma safe_issueAcousticCapability socket : safe (issueAcousticCapability randomBytes socket).
Proof.
  apply guards_read. intros b (H1 & H2 & H3 & H4 & H5 & H6). cbv zeta.
  apply wp_bind, wp_modify, wp_bind, wp_modify.
  match goal with |- wp _ _ ?s => assert (Hb' : ok s) end.
  { refine (conj H1 (conj H2 (conj H3 (conj H4 (conj H5 _))))). by apply capabilities_issue. }
  destruct (is_open socket b); [|by apply wp_ret; split; [|apply (later_refl b)]].
  eapply wp_mono; [apply safe_send; [|exact Hb']|]; [intros accepted; by apply harmless_other|].
  intros r b' [Hok Hl]. split; [exact Hok|exact Hl].
Qed.

Lemma capabilities_accept next conns accepted out socket payload proof :
  capabilities_ok randomBytes next conns accepted out ->
  decodeAcousticReadinessProof payload = Ok proof ->
  rp_capability proof = bc_acousticCapability (held socket conns) ->
  bc_acousticCapabilityUsed (held socket conns) = false ->
  capabilities_ok randomBytes next (map_set socket (set bc_acousticCapabilityUsed (fun _ => true) (held socket conns)) conns)
    (Some payload) out.
Proof.
  intros H Hd Hc Hu Hinj. destruct (H Hinj) as (H1 & H2 & H3 & H4).
  assert (Hcap : capability_of payload = rp_capability proof /\ all_zero (capability_of payload) = false).
  { unfold decodeAcousticReadinessProof in Hd. result_inv. bool_split. by split. }
  destruct Hcap as [Hcap Hz].
  assert (Hold : forall q, spent q (Some payload) out -> q = payload \/ armed_with q out) by (intros q [Hq|Hq]; [by right|left; congruence]).
  assert (Hne : forall q, armed_with q out -> capability_of q <> capability_of payload).
  { intros q Hq E. destruct (H3 q) as (_ & _ & Hu'); [by left|]. rewrite (Hu' socket) in Hu; congruence. }
  assert (Hcaps : forall s, bc_acousticCapability (held s (map_set socket (set bc_acousticCapabilityUsed (fun _ => true) (held socket conns)) conns))
                    = bc_acousticCapability (held s conns)).
  { intros s. rewrite held_set. by destruct (decide (s = socket)) as [->|]. }
  split; [|split; [|split]].
  - intros s. rewrite Hcaps. apply H1.
  - intros s s'. rewrite !Hcaps. apply H2.
  - intros q Hq. destruct (Hold q Hq) as [->|Ha].
    + split; [done|split; [rewrite Hcap, Hc; apply H1|]]. intros s. rewrite Hcaps, held_set.
      destruct (decide (s = socket)) as [->|]; [done|]. rewrite Hcap, Hc. intros E. destruct (H2 s socket E) as [->|Hz']; [done|]. congruence.
    + destruct (H3 q) as (Hzq & Hdq & Huq); [by left|]. split; [done|split; [done|]]. intros s. rewrite Hcaps, held_set. intros E.
      destruct (decide (s = socket)) as [->|]; [done|]. by apply Huq.
  - intros q q' Hq Hq' E. destruct (Hold q Hq) as [->|Ha], (Hold q' Hq') as [->|Ha']; [done| | |].
    + by destruct (Hne q' Ha').
    + by destruct (Hne q Ha).
    + apply H4; [by left..|done].
Qed.

(** A proof is accepted on the unused capability of its connection only. *)
Lemma safe_acousticControl socket frame : safe (acousticControl randomBytes socket frame).
Proof.
  apply guards_read. intros b Hb. destruct (_ || _); [by apply wp_throw|]. destruct (is_message ACOUSTIC_READY frame).
  - apply wp_bind, wp_lift. destruct (decodeAcousticReadinessProof (f_payload frame)) as [proof|e] eqn:Ed; cbn [foreign]; [|by split].
    destruct (_ && _); [by apply wp_ret|]. destruct (_ || _) eqn:E; [by apply wp_throw|]. destruct (b_acousticReady b); [by apply wp_ret|].
    bool_split. apply wp_bind, wp_modify, wp_bind, wp_modify, wp_bind, wp_modify.
    match goal with |- wp _ _ ?s => assert (Hb' : ok s) end.
    { destruct Hb as (K1 & K2 & K3 & K4 & K5 & K6). refine (conj K1 (conj K2 (conj K3 (conj K4 (conj K5 _))))).
      by apply (capabilities_accept _ _ _ _ _ _ _ K6 Ed). }
    eapply wp_mono; [apply (safe_notifyFipsBrowserState true _ Hb')|]. intros r b' [Hok Hl]. split; [exact Hok|exact Hl].
  - destruct (b_readinessProof b); [|by apply wp_throw]. destruct (negb _); [by apply wp_throw|].
    apply wp_then; [exact _|by apply safe_disarmAcousticSession|intros _]. apply safe_issueAcousticCapability.
Qed.

Lemma safe_rejectSocket socket e : safe (rejectSocket socket e).
Proof.
  unfold rejectSocket. cbv zeta. do 3 (guards_step; [frame|]). apply safe_log. intros ?. by apply harmless_other.
Qed.
End Safe.
