(* ===== verification/BridgeSafe.v ===== *)
(** * The bridge's invariant: its handlers

    Every handler of [Bridge.v], run from a state that satisfies the invariant of
    [BridgeInv.v] and interrupted wherever it awaits, keeps the invariant. *)

From stdpp Require Import base list numbers option strings.
From Stdlib Require Import ZArith Lia SpecFloat.
From S2P Require Import Prelude Utf8 Doubles Json Corpus Fwav UiQualification Qualification Report Selection Coroutine CyrinxWorker BridgeState BridgePackets BridgeReport Bridge BridgeInv.

Create HintDb bridge.

Section Safe.
Context (options : BridgeOptions) (randomBytes : nat -> bytes) (iso_date : nat -> jsstring)
  (json_parse : bytes -> option value) (cases : list CyrinxQualificationCase).
Context (limits_positive : 0 <= pl_maxBytes (bo_limits options) /\ 0 <= pl_maxItems (bo_limits options)).

Abbreviation ok := (bridge_ok options randomBytes cases).
Abbreviation safe := (guards ok later).
Abbreviation co_ok := (co_guards ok later).

(** ** The session moves by its methods *)

Definition scripted {A} (m : M CyrinxQualificationSession A) : Prop :=
  forall s, exists cs, final m s = calls cases cs s.

Lemma final_ignore {A} (m : M CyrinxQualificationSession A) s : final (ignore m) s = final m s.
Proof. unfold ignore, final, mbind. by destruct (m s) as [[a|e] s']. Qed.

Lemma scripted_call c : scripted (call cases c).
Proof. intros s. by exists [c]. Qed.

Lemma scripted_ignored {A} c (m : M CyrinxQualificationSession A) : call cases c = ignore m -> scripted m.
Proof. intros H s. exists [c]. cbn. by rewrite H, final_ignore. Qed.

Lemma scripted_some {A} (m : M CyrinxQualificationSession A) : scripted m -> scripted (let! a := m in mret (Some a)).
Proof. intros H s. destruct (H s) as [cs Hcs]. exists cs. rewrite <- Hcs. unfold final, mbind. by destruct (m s) as [[a|e] s']. Qed.

(** The bridge after a computation of its session. *)
Lemma wp_in_session {A} (otherwise : A) m (Q : result A -> Bridge -> Prop) b :
  match b_session b with
  | None => Q (Ok otherwise) b
  | Some s => Q (foreign (outcome m s)) (set b_session (fun _ => Some (final m s)) b)
  end -> wp (in_session otherwise m) Q b.
Proof.
  intros H. apply wp_run. unfold in_session, outcome, final in *. destruct (b_session b) as [s|]; [|done].
  destruct (m s) as [r s']. exact H.
Qed.

Lemma wp_in_session_of {A} (otherwise : A) m (Q : result A -> Bridge -> Prop) b s :
  b_session b = Some s -> wp m (fun r s' => Q (foreign r) (set b_session (fun _ => Some s') b)) s ->
  wp (in_session otherwise m) Q b.
Proof. intros E H%wp_elim. apply wp_in_session. by rewrite E. Qed.

Lemma safe_in_session {A} (otherwise : A) m : scripted m -> safe (in_session otherwise m).
Proof.
  intros Hm b Hb. apply wp_in_session. destruct (b_session b) as [s|] eqn:Es; [|done].
  destruct Hb as (H1 & H2 & H3 & H4 & H5 & H6). split; [|apply (later_refl b)].
  refine (conj H1 (conj H2 (conj H3 (conj H4 (conj _ H6))))). unfold session_reached in *. rewrite Es in H5.
  destruct (bo_config options) as [config|]; [|done]. destruct H5 as [cs [= ->]]. destruct (Hm (calls cases cs (new_session (cf_role config)))) as [cs' Hcs].
  exists (cs ++ cs'). change (Some (final m (calls cases cs (new_session (cf_role config)))) = Some (calls cases (cs ++ cs') (new_session (cf_role config)))).
  rewrite Hcs. unfold calls. by rewrite foldl_app.
Qed.

Lemma scripted_expire now : scripted (expire now).
Proof. by apply (scripted_ignored (CExpire now)). Qed.
Lemma scripted_start now : scripted (start now).
Proof. by apply (scripted_ignored (CStart now)). Qed.
Lemma scripted_completeBuild now : scripted (completeBuild now).
Proof. apply (scripted_call (CCompleteBuild now)). Qed.
Lemma scripted_completeDigital now : scripted (completeDigital now).
Proof. apply (scripted_call (CCompleteDigital now)). Qed.
Lemma scripted_acceptInstruction caseId direction now : scripted (acceptInstruction cases caseId direction now).
Proof. by apply (scripted_ignored (CAcceptInstruction caseId direction now)). Qed.
Lemma scripted_caseSettleRemaining mode now : scripted (caseSettleRemaining mode now).
Proof. by apply (scripted_ignored (CSettleRemaining mode now)). Qed.
Lemma scripted_completeAccepted mode now : scripted (completeAccepted cases mode now).
Proof. apply (scripted_call (CCompleteAccepted mode now)). Qed.
Lemma scripted_acknowledge : scripted acknowledgeAcceptedCompletion.
Proof. apply (scripted_call CAcknowledge). Qed.
Lemma scripted_operatorReset now : scripted (operatorReset now).
Proof. by apply (scripted_ignored (COperatorReset now)). Qed.
Lemma scripted_forceDeadlineExpiry now : scripted (forceDeadlineExpiry now).
Proof. by apply (scripted_ignored (CForceDeadlineExpiry now)). Qed.
Lemma scripted_failCurrent now : scripted (failCurrent now).
Proof. by apply (scripted_ignored (CFailCurrent now)). Qed.
Lemma scripted_markQuietFailed : scripted markQuietFailed.
Proof. by apply (scripted_ignored CMarkQuietFailed). Qed.
Lemma scripted_snapshot epoch now : scripted (snapshot cases epoch now).
Proof. by apply (scripted_ignored (CSnapshot epoch now)). Qed.

#[local] Hint Resolve safe_in_session scripted_some scripted_expire scripted_start scripted_completeBuild scripted_completeDigital
  scripted_acceptInstruction scripted_caseSettleRemaining scripted_completeAccepted scripted_acknowledge
  scripted_operatorReset scripted_forceDeadlineExpiry scripted_failCurrent scripted_markQuietFailed scripted_snapshot : bridge.
#[local] Hint Resolve safe_clear_timer safe_addReason safe_refreshState safe_set_sequence safe_set_timer safe_clear_pending
  safe_clearQueues safe_enqueue safe_enqueuePacket safe_flushPacketQueue safe_retryBrowserAdmission safe_set_health
  safe_last_error safe_acceptBrowserAdmission safe_disarmAcousticSession safe_issueAcousticCapability safe_acousticControl
  safe_rejectSocket safe_notifyFipsBrowserState safe_log safe_send safe_send_frame safe_update_connection : bridge.

(** What is sent that is not a frame arms nothing. *)
Lemma harmless_notice o accepted : match o with OutFrame _ _ => False | _ => True end -> harmless accepted o.
Proof. destruct o; intros H; [done|..]; by apply harmless_other. Qed.

#[local] Hint Extern 1 (forall accepted, harmless accepted _) => intros ?; apply harmless_notice; exact I : bridge.
#[local] Hint Extern 3 (safe (mmodify _)) => frame : bridge.

(** Decompose, and let the lemmas above answer for the operations. *)
Ltac handled := repeat first [guards_step | solve [eauto 3 with bridge nocore]].

(** ** Reports *)

Lemma safe_note_fallback : safe note_fallback.
Proof. unfold note_fallback. handled. Qed.

Lemma safe_clearCyrinxTimer : safe clearCyrinxTimer.
Proof. unfold clearCyrinxTimer. handled. Qed.

Lemma safe_abortCyrinxOperation : safe (abortCyrinxOperation options).
Proof. unfold abortCyrinxOperation. handled. Qed.

(** What was queued for writing is of an earlier generation. *)
Lemma earlier_writes generation epoch epoch' writes :
  Forall (write_ok generation epoch) writes -> Forall (write_ok (generation + 1) epoch') writes.
Proof. intros H. apply (Forall_impl _ _ _ H). intros t [Hg _]. split; lia. Qed.

Lemma safe_next_generation : safe next_generation.
Proof.
  apply guards_modify. intros b (H1 & H2 & H3 & [He Hw] & H5 & H6).
  split; [|split; [unfold set; cbn; lia|intros Hg; unfold set in Hg; cbn in Hg; lia]].
  exact (conj H1 (conj H2 (conj H3 (conj (conj He (earlier_writes _ _ _ _ Hw)) (conj H5 H6))))).
Qed.

(** A new epoch begins in a new generation. *)
Lemma safe_next_epoch epoch : 1 <= epoch <= UINT32_MAX -> safe (next_generation;; b_epoch <== epoch).
Proof.
  intros He b (H1 & H2 & H3 & [_ Hw] & H5 & H6). apply wp_bind, wp_modify, wp_modify.
  split; [|split; [unfold set; cbn; lia|intros Hg; unfold set in Hg; cbn in Hg; lia]].
  exact (conj H1 (conj H2 (conj H3 (conj (conj He (earlier_writes _ _ _ _ Hw)) (conj H5 H6))))).
Qed.

#[local] Hint Resolve safe_note_fallback safe_clearCyrinxTimer safe_abortCyrinxOperation safe_next_generation : bridge.

Lemma safe_settleExpiry now : safe (settleExpiry options now).
Proof. unfold settleExpiry. handled. Qed.

Lemma safe_sessionSnapshot now : safe (sessionSnapshot cases now).
Proof. unfold sessionSnapshot. handled. Qed.

#[local] Hint Resolve safe_settleExpiry safe_sessionSnapshot : bridge.

Lemma report_of_epoch date config authority epoch discontinuities audio reasons results snapshot cold :
  report_epoch (report_of date config authority epoch discontinuities audio reasons results snapshot cold) = vint epoch.
Proof. unfold report_of. destruct (authority_of config snapshot cold) as [codec qualification]. reflexivity. Qed.

(** The report built states the epoch in force. *)
Lemma wp_buildReport now b : ok b ->
  wp (buildReport options iso_date cases now)
    (fun r b' => (ok b' /\ later b b') /\ match r with Ok (Some report) => report_epoch report = vint (b_epoch b') | _ => True end) b.
Proof.
  intros Hb. unfold buildReport. destruct (bo_config options) as [config|]; [|by apply wp_ret].
  destruct (bo_authority options) as [authority|]; [|by apply wp_ret]. apply wp_bind.
  eapply wp_mono; [by apply safe_sessionSnapshot|]. intros [[snapshot|]|e] b1 [Hb1 Hl]; [|by apply wp_ret|done].
  apply wp_bind, wp_get. cbv zeta.
  destruct (wp_elim _ _ _ (wp_next options randomBytes cases b1 Hb1)) as [Hb2 Hl2].
  apply wp_bind, wp_modify, wp_ret. split; [split; [exact Hb2|exact Hl]|].
  unfold set; cbn. apply report_of_epoch.
Qed.

(** A report is queued for the present generation or an earlier one. *)
Lemma wp_persist expected b : ok b -> default (b_generation b) expected <= b_generation b ->
  wp (persist options iso_date cases expected) (fun _ b' => ok b' /\ later b b') b.
Proof.
  intros Hb Hg. apply wp_bind, wp_get, wp_bind. eapply wp_mono; [by apply safe_settleExpiry|].
  intros [expired|e] b1 [Hb1 Hl1]; [|done]. apply wp_bind, wp_get, wp_bind.
  eapply wp_mono; [by apply wp_buildReport|]. intros [[report|]|e] b2 [[Hb2 Hl2] Hr].
  - set (generation := if expired then b_generation b1 else default (b_generation b1) expected).
    assert (Hgen : generation <= b_generation b2).
    { destruct Hl1 as [Hg1 _], Hl2 as [Hg2 _]. unfold generation. destruct expired, expected; cbn in *; lia. }
    apply wp_bind, wp_modify, wp_ret. split; [|by etransitivity].
    destruct Hb2 as (H1 & H2 & H3 & [H4 Hw] & H). refine (conj H1 (conj H2 (conj H3 (conj (conj H4 _) H)))).
    change (Forall (write_ok (b_generation b2) (b_epoch b2)) (b_writes b2 ++ [mkWrite generation report expired])).
    apply Forall_app. split; [done|]. constructor; [|done]. by split.
  - apply wp_bind. destruct expired; [apply wp_modify|apply wp_ret]; apply wp_ret; (split; [exact Hb2|]);
      (transitivity b1; [done|exact Hl2]).
  - split; [done|by etransitivity].
Qed.

Lemma safe_persist_none : safe (persist options iso_date cases None).
Proof. intros b Hb. by apply wp_persist. Qed.

#[local] Hint Resolve safe_persist_none : bridge.

Lemma co_turn : co_ok turn.
Proof. unfold turn. repeat guards_step. Qed.

#[local] Hint Resolve co_turn : bridge.

Lemma co_report_written queued : co_ok (report_written queued).
Proof. unfold report_written. handled. Qed.

#[local] Hint Resolve co_report_written : bridge.

Lemma co_called {A} (c : BCo A) : co_ok c -> co_ok (called c).
Proof. intros H. unfold called. handled. Qed.

Lemma co_persisted_none : co_ok (persisted options iso_date cases None).
Proof. unfold persisted. handled. Qed.

Lemma co_persist_current : co_ok (persist_current options iso_date cases).
Proof.
  apply co_guards_read; [exact _|]. intros b Hb. unfold persisted. apply co_safe_bind. cbn.
  eapply wp_mono; [apply (wp_persist (Some (b_generation b)) b Hb); cbn; lia|]. intros r b' [Hb' Hl].
  split; [done|]. destruct r as [queued|e]; [|done]. eapply co_safe_mono; [|by apply co_report_written].
  intros r b'' [Hb'' Hl']. split; [done|by etransitivity].
Qed.

#[local] Hint Resolve co_called co_persisted_none co_persist_current : bridge.

Lemma safe_to_clients message clients : (forall client, safe (message client)) -> safe (to_clients message clients).
Proof. intros H. induction clients; cbn; handled. Qed.

Lemma safe_broadcast message : (forall client accepted, harmless accepted (message client)) -> safe (broadcast message).
Proof. intros H. unfold broadcast. guards_step; [guards_step|]. apply safe_to_clients. intros client. by apply safe_send. Qed.

Lemma safe_broadcastSession : safe (broadcastSession cases).
Proof. unfold broadcastSession. handled. apply safe_broadcast. intros client accepted. by apply harmless_notice. Qed.

#[local] Hint Resolve safe_broadcastSession : bridge.

Lemma safe_start_write : safe start_write.
Proof.
  apply guards_read. intros b Hb. destruct (b_writing b); [by apply wp_ret|]. destruct (b_writes b) as [|task rest] eqn:Ew; [by apply wp_ret|].
  apply wp_then; [exact _| |intros _; handled].
  destruct Hb as (H1 & H2 & H3 & [H4 Hw] & H). apply wp_modify. split; [|apply (later_refl b)].
  refine (conj H1 (conj H2 (conj H3 (conj (conj H4 _) H)))). rewrite Ew in Hw. by inversion Hw.
Qed.

Lemma safe_end_write written : safe (end_write cases written).
Proof. unfold end_write. handled. Qed.

(** ** Fallbacks *)

Lemma safe_transitionCurrentFallback preempted : safe (transitionCurrentFallback options preempted).
Proof. unfold transitionCurrentFallback. handled. Qed.

#[local] Hint Resolve safe_transitionCurrentFallback : bridge.

Lemma co_activateCurrentFallback preempted : co_ok (activateCurrentFallback options iso_date cases preempted).
Proof. unfold activateCurrentFallback. handled. Qed.

Lemma co_expireCyrinxAt now : co_ok (expireCyrinxAt options iso_date cases now).
Proof. unfold expireCyrinxAt. handled. Qed.

#[local] Hint Resolve co_activateCurrentFallback co_expireCyrinxAt : bridge.

Lemma co_expireCyrinx : co_ok (expireCyrinx options iso_date cases).
Proof. unfold expireCyrinx. handled. Qed.

Lemma co_forceExpireCyrinx : co_ok (forceExpireCyrinx options iso_date cases).
Proof. unfold forceExpireCyrinx. handled. Qed.

Lemma safe_cyrinxSummary : safe (cyrinxSummary cases).
Proof. unfold cyrinxSummary. handled. Qed.

#[local] Hint Resolve co_expireCyrinx co_forceExpireCyrinx safe_cyrinxSummary : bridge.

(** ** Reset *)

Lemma held_map f (P : nat -> bool) conns s :
  (forall c, same_authority_of c (f c)) ->
  same_authority_of (held s conns) (held s (map (fun p => if P p.1 then (p.1, f p.2) else p) conns)).
Proof.
  intros Hf. unfold held. induction conns as [|[k c] conns IH]; cbn; [by split|].
  destruct (P k); cbn; destruct (decide (s = k)); try done; try (apply Hf); by split.
Qed.

Lemma safe_reset_now preempted : safe (reset_now options preempted).
Proof.
  apply guards_read. intros b Hb. destruct (_ <=? _) eqn:E; [by apply wp_throw|]. apply Z.leb_gt in E.
  assert (He : 1 <= b_epoch b + 1 <= UINT32_MAX) by (destruct Hb as (_ & _ & _ & [He _] & _); lia).
  match goal with |- wp ?m _ _ => assert (Hm : safe m); [|by apply Hm] end.
  do 4 (guards_step; [handled|]). guards_step; [handled|].
  apply guards_pair; [exact _|by apply safe_next_epoch|intros _].
  handled. apply safe_frame. clear b Hb E He. intros b (H1 & H2 & H3 & H4 & H5 & H6). split; [|reflexivity].
  refine (conj H1 (conj H2 (conj H3 (conj H4 (conj H5 _))))). refine (capabilities_connections _ _ (b_connections b) _ _ _ _ H6).
  intros s. apply (held_map (reset_connection (b_epoch b)) (fun k => @bool_decide (k ∈ b_browserConnections b) (decide_rel elem_of k (b_browserConnections b))) (b_connections b) s).
  by split.
Qed.

(** An encoded frame that does not arm. *)
Lemma harmless_encoded frame raw socket accepted :
  encodeFrame frame = Ok raw -> f_type frame <> BROWSER_ARM -> harmless accepted (OutFrame socket raw).
Proof. intros H Ht s raw' frame' [= <- <-] Hd Ha. destruct (decoded_sent _ _ _ H Hd) as [E _]. congruence. Qed.

Lemma safe_announce_reset : safe (announce_reset cases).
Proof.
  apply guards_read. intros b Hb. apply wp_bind, wp_lift.
  destruct (encodeFrame (reset_frame true (b_epoch b))) as [ack|e] eqn:Ea; cbn [foreign]; [|by split].
  apply wp_bind, wp_lift. destruct (encodeFrame (reset_frame false (b_epoch b))) as [worker|e] eqn:Ew; cbn [foreign]; [|by split].
  apply wp_then; [exact _| |intros _; handled]. apply safe_broadcast; [|done]. intros client accepted.
  destruct (bool_decide _); by eapply harmless_encoded.
Qed.

#[local] Hint Resolve safe_reset_now safe_announce_reset : bridge.

Lemma co_reset preempted : co_ok (reset options iso_date cases preempted).
Proof. unfold reset. handled. Qed.

(** ** A Cyrinx run *)

Lemma co_checkpoint operation : co_ok (checkpoint options iso_date cases operation).
Proof. unfold checkpoint. handled. Qed.

#[local] Hint Resolve co_checkpoint : bridge.

Lemma co_gate operation work progress :
  (forall now, scripted (progress now)) -> co_ok (gate options iso_date cases operation work progress).
Proof. intros H. unfold gate. handled. Qed.

#[local] Hint Resolve co_gate : bridge.

Lemma co_run_gates operation : co_ok (run_gates options iso_date cases operation).
Proof. unfold run_gates. handled. Qed.

Lemma co_fall_back operation : co_ok (fall_back options iso_date cases operation).
Proof. unfold fall_back. handled. Qed.

#[local] Hint Resolve co_run_gates co_fall_back : bridge.

Lemma co_startCyrinx : co_ok (startCyrinx options iso_date cases).
Proof. unfold startCyrinx. handled. Qed.

(** ** Instructions *)

Lemma safe_forwardPlayback encoded : safe (forwardPlayback encoded).
Proof.
  intros b Hb. unfold forwardPlayback. apply wp_bind, wp_lift. destruct (decodeFrame encoded) as [frame|e] eqn:E; cbn [foreign]; [|by split].
  apply wp_bind, wp_get. destruct (is_message PCM_PLAYBACK frame) eqn:Et; cbv [negb]; [|by apply wp_throw].
  destruct (f_epoch frame =? b_epoch b); [|by apply wp_throw]. apply safe_broadcast; [|done]. intros client accepted s raw frame' [= <- <-] Hd Ha. unfold is_message in Et. bool_split. congruence.
Qed.

Lemma co_fall_back_if generation operation : co_ok (fall_back_if options iso_date cases generation operation).
Proof. unfold fall_back_if. handled. Qed.

Lemma co_unexpired generation operation : co_ok (unexpired options iso_date cases generation operation).
Proof. unfold unexpired. handled. Qed.

#[local] Hint Resolve safe_forwardPlayback co_fall_back_if co_unexpired : bridge.

Lemma co_acceptCyrinxInstruction payload : co_ok (acceptCyrinxInstruction options iso_date cases payload).
Proof. unfold acceptCyrinxInstruction. handled. Qed.

Lemma safe_begin_settle : safe begin_settle.
Proof. apply guards_read. intros b Hb. apply wp_then; [exact _|by apply wp_next|intros _; handled]. Qed.

#[local] Hint Resolve safe_begin_settle : bridge.

Lemma co_settle mode : co_ok (settle mode).
Proof. unfold settle. handled. Qed.

#[local] Hint Resolve co_settle : bridge.

Lemma co_settled_or_fallback mode generation operation :
  co_ok (settled_or_fallback options iso_date cases mode generation operation).
Proof. unfold settled_or_fallback. handled. Qed.

#[local] Hint Resolve co_settled_or_fallback : bridge.

(** ** Code that remembers the generation it began in *)

Definition since (generation : Z) (b : Bridge) : Prop := generation <= b_generation b.

Lemma since_stable generation b b' : later b b' -> since generation b -> since generation b'.
Proof. intros [H _]. unfold since. lia. Qed.

Abbreviation co_since generation := (co_guards (both ok (since generation)) later).

Lemma co_both {A} generation (c : BCo A) : co_ok c -> co_since generation c.
Proof. apply co_guards_both, since_stable. Qed.

Lemma safe_both {A} generation (m : BM A) : safe m -> guards (both ok (since generation)) later m.
Proof. apply guards_both, since_stable. Qed.

Lemma co_persisted_since generation : co_since generation (persisted options iso_date cases (Some generation)).
Proof.
  unfold persisted. guards_step; [guards_step|apply co_both, co_report_written].
  intros b [Hb Hg]. eapply wp_mono; [by apply wp_persist|]. intros r b' [Hb' Hl].
  split; [split; [done|by eapply since_stable]|done].
Qed.

#[local] Hint Resolve co_persisted_since : bridge.

Ltac handled_since :=
  repeat first [guards_step | solve [eauto 2 with bridge nocore] | apply co_both; solve [handled] | apply safe_both; solve [handled]].

(** What follows a read of the generation. *)
Lemma co_remember {A} (f : Bridge -> BCo A) : (forall b, co_since (b_generation b) (f b)) -> co_ok (co_bind (block mget) f).
Proof.
  intros H. apply co_guards_read; [exact _|]. intros b Hb.
  apply (co_guards_known _ _ (since (b_generation b))); [apply since_stable|done|unfold since; lia|apply H].
Qed.

Lemma co_finish_case mode completedAt generation operation :
  co_since generation (finish_case options iso_date cases mode completedAt generation operation).
Proof. unfold finish_case. handled_since. Qed.

#[local] Hint Resolve co_finish_case : bridge.

Lemma co_completeCyrinxPlayback payload : co_ok (completeCyrinxPlayback options iso_date cases payload).
Proof. unfold completeCyrinxPlayback. apply co_remember. intros b. handled_since. Qed.

Lemma safe_stamp caseId : safe (stamp caseId).
Proof. frame. Qed.

#[local] Hint Resolve safe_stamp : bridge.

Lemma co_acceptCyrinxCapture socket encoded : co_ok (acceptCyrinxCapture options iso_date cases socket encoded).
Proof.
  unfold acceptCyrinxCapture. guards_step; [handled|]. guards_step; [handled|]. guards_step; [handled|].
  apply co_remember. intros b. handled_since.
Qed.

(** ** Frames of the browser *)

Lemma safe_take_preempted socket sequence : safe (take_preempted socket sequence).
Proof. unfold take_preempted. handled. by apply safe_update_connection. Qed.

#[local] Hint Resolve safe_take_preempted : bridge.
#[local] Hint Extern 2 (safe (update_connection _ _)) => by apply safe_update_connection : bridge.

Lemma co_preemptUrgentControl socket isBinary raw :
  co_ok (preemptUrgentControl options iso_date json_parse cases socket isBinary raw).
Proof. unfold preemptUrgentControl. handled. Qed.

Lemma co_handle_reset socket frame : co_ok (handle_reset options iso_date cases socket frame).
Proof. unfold handle_reset. handled. apply co_called. handled. Qed.

Lemma co_handle_error socket frame : co_ok (handle_error options randomBytes iso_date cases socket frame).
Proof. unfold handle_error. handled. Qed.

Lemma co_handle_result config socket frame payload :
  co_ok (handle_result options iso_date cases config socket frame payload).
Proof. unfold handle_result. apply co_remember. intros b. handled_since. Qed.

#[local] Hint Resolve co_startCyrinx co_acceptCyrinxInstruction co_completeCyrinxPlayback co_acceptCyrinxCapture
  co_handle_reset co_handle_error co_handle_result : bridge.

Lemma co_handle_control socket frame : co_ok (handle_control options randomBytes iso_date json_parse cases socket frame).
Proof. unfold handle_control. handled. Qed.

Lemma co_handle_audio socket frame : co_ok (handle_audio options iso_date json_parse cases socket frame).
Proof. unfold handle_audio. handled. Qed.

#[local] Hint Resolve co_handle_control co_handle_audio : bridge.

Lemma is_message_type type frame : is_message type frame = true -> f_type frame = type.
Proof. unfold is_message. by intros ?%bool_decide_eq_true_1. Qed.

Lemma co_dispatch socket encoded frame : co_ok (dispatch options randomBytes iso_date json_parse cases socket encoded frame).
Proof.
  unfold dispatch. destruct (is_message FIPS_PACKET frame) eqn:E; handled.
  apply safe_enqueuePacket; [done..|]. by apply is_message_type.
Qed.

#[local] Hint Resolve co_dispatch : bridge.

Lemma co_handleFrame socket isBinary encoded :
  co_ok (handleFrame options randomBytes iso_date json_parse cases socket isBinary encoded).
Proof. unfold handleFrame, checked_frame. handled. Qed.

(** ** The daemon's packets *)

Lemma safe_fips_message socket isBinary raw : safe (fips_message options socket isBinary raw).
Proof.
  unfold fips_message. guards_step; [|handled]. guards_step; [guards_step|]. do 2 (guards_step; [guards_step|]).
  destruct (is_message FIPS_PACKET _) eqn:E; cbv [negb]; handled. apply safe_enqueuePacket; [done..|]. by apply is_message_type.
Qed.

(** ** Connections *)

Lemma capabilities_new next conns accepted out socket c :
  capabilities_ok randomBytes next conns accepted out -> all_zero (bc_acousticCapability c) = true ->
  capabilities_ok randomBytes next (map_set socket c conns) accepted out.
Proof.
  intros H Hc Hinj. destruct (H Hinj) as (H1 & H2 & H3 & H4). split; [|split; [|split]]; [| | |done].
  - intros s. rewrite held_set. destruct (decide (s = socket)); [by left|apply H1].
  - intros s s'. rewrite !held_set. destruct (decide (s = socket)) as [->|], (decide (s' = socket)) as [->|]; [by left| | |apply H2].
    + intros E. by right.
    + intros E. right. by rewrite E.
  - intros proof Hp. destruct (H3 proof Hp) as (Hz & Hd & Hu). split; [done|split; [done|]]. intros s. rewrite held_set.
    destruct (decide (s = socket)) as [->|]; [|apply Hu]. intros E. by rewrite <- E, Hc in Hz.
Qed.

Lemma safe_connection socket c : all_zero (bc_acousticCapability c) = true -> safe (mmodify (set b_connections (map_set socket c))).
Proof.
  intros Hc. apply safe_frame. intros b (H1 & H2 & H3 & H4 & H5 & H6). split; [|reflexivity].
  refine (conj H1 (conj H2 (conj H3 (conj H4 (conj H5 _))))). by apply capabilities_new.
Qed.

Lemma safe_connect_browser socket : safe (connect_browser socket).
Proof. unfold connect_browser. handled. by apply safe_connection. Qed.

Lemma co_greet socket : co_ok (greet options iso_date cases socket).
Proof. unfold greet. handled. Qed.

Lemma safe_connect_fips socket : safe (connect_fips socket).
Proof. unfold connect_fips. handled. Qed.

Lemma safe_new_socket : safe new_socket.
Proof. apply guards_read. intros b Hb. apply wp_then; [exact _|by apply wp_next|intros _; handled]. Qed.

Lemma safe_forget_client socket : safe (forget_client socket).
Proof. unfold forget_client. handled. Qed.

#[local] Hint Resolve co_handleFrame safe_fips_message safe_connect_browser co_greet safe_connect_fips safe_new_socket safe_forget_client
  safe_start_write safe_end_write co_preemptUrgentControl co_reset : bridge.

Lemma safe_fips_closed socket : safe (fips_closed socket).
Proof. unfold fips_closed. handled. Qed.

Lemma safe_browser_closed socket : safe (browser_closed socket).
Proof. unfold browser_closed. handled. Qed.

Lemma safe_close : safe (close options).
Proof. unfold close. handled. Qed.

#[local] Hint Resolve safe_fips_closed safe_browser_closed safe_close : bridge.

(** ** The machine *)

Definition program_ok (p : Program) : Prop := machine_safe ok later (pg_machine p).

Lemma co_as_job {A} (c : BCo A) : co_ok c -> co_ok (as_job c).
Proof. intros H. unfold as_job. handled. Qed.

#[local] Hint Resolve co_as_job : bridge.

(** From a program that keeps the invariant to one that does, later on. *)
Definition goes_on (p p' : Program) : Prop := program_ok p' /\ later (pg_bridge p) (pg_bridge p').

Lemma goes_on_still p : program_ok p -> goes_on p p.
Proof. by split. Qed.

Lemma launch_ok (c : BCo unit) p :
  program_ok p -> co_ok c -> machine_safe ok later (launch c (pg_machine p)) /\ later (pg_bridge p) (m_state (launch c (pg_machine p))).
Proof. intros Hp Hc. by apply (launch_safe ok later c (pg_machine p)). Qed.

Lemma perform_ok {A} (m : BM A) p : program_ok p -> safe m -> goes_on p (on_machine (perform m) p).
Proof. intros Hp Hm. by apply (perform_safe ok later m (pg_machine p)). Qed.

Lemma step_goes_on e p : program_ok p -> goes_on p (step options randomBytes iso_date json_parse cases e p).
Proof.
  intros Hp. destruct e; cbn [step].
  1: apply perform_ok; [done|handled].
  - apply launch_ok; [done|]. handled.
  - apply perform_ok; [done|handled].
  - apply perform_ok; [done|handled].
  - apply perform_ok; [done|handled].
  - destruct (negb _); [by apply goes_on_still|]. apply launch_ok; [done|]. handled.
  - destruct (negb _); [by apply goes_on_still|]. cbv zeta. destruct (is_fips _ _); [split; [exact Hp|apply (later_refl (pg_bridge p))]|]. apply launch_ok; [done|]. handled.
  - destruct (first_message socket p); [|by apply goes_on_still]. destruct (negb _); [by apply goes_on_still|]. apply launch_ok; [done|]. unfold handler. handled.
  - by apply (resume_safe ok later job answer (pg_machine p)).
  - destruct (map_get handle _) as [[]|]; [| |by apply goes_on_still]; [apply perform_ok|apply launch_ok]; [done| |done|]; handled.
  - apply perform_ok; [done|handled].
  - apply perform_ok; [done|handled].
  - destruct (_ =? _)%nat; [by apply goes_on_still|]. apply perform_ok; [done|handled].
  - apply launch_ok; [done|]. handled.
  - apply launch_ok; [done|]. handled.
  - apply perform_ok; [done|handled].
  - apply perform_ok; [done|handled].
Qed.

Lemma run_goes_on events p : program_ok p -> goes_on p (run options randomBytes iso_date json_parse cases events p).
Proof.
  revert p. induction events as [|e events IH]; intros p Hp; [by apply goes_on_still|].
  destruct (step_goes_on e p Hp) as [Hp' Hl]. destruct (IH _ Hp') as [Hp'' Hl']. split; [exact Hp''|]. by etransitivity.
Qed.
End Safe.
