(* ===== verification/BridgeRun.v ===== *)
(** * The bridge, executed

    Two concrete runs: a browser and a daemon that arm the sound link and pass a
    packet, and a qualification that falls back to Quiet and passes. *)

From stdpp Require Import base list numbers option strings.
From Stdlib Require Import ZArith Lia SpecFloat.
From S2P Require Import Prelude Utf8 Doubles Json Corpus Fwav UiQualification Qualification Report Selection Coroutine CyrinxWorker BridgeState BridgePackets BridgeReport Bridge.

(** ** The environment *)

Definition sample_limits : PacketQueueLimits :=
  match packetLimits [] with Ok l => l | Throw _ => DEFAULT_PACKET_QUEUE_LIMITS end.

(** Draws of sixteen bytes, that do not repeat before they must. *)
Definition sample_random (n : nat) : bytes := le_bytes 16 (Z.of_nat n + 1).

Definition sample_date (n : nat) : jsstring := js "2026-01-01T00:00:00.000Z".

Definition sample_cases : list CyrinxQualificationCase := [mkCase (js "cold-ab") AtoB [] [] 256 true].

Definition raw_frame (type : MessageType) (sequence : Z) (payload : bytes) : bytes :=
  match encodeFrame (control_frame type 1 sequence payload) with Ok raw => raw | Throw _ => [] end.

(** ** Arming *)

Definition link_options : BridgeOptions := mkOptions None None sample_limits false false false.

Definition sample_proof : bytes := le_bytes 8 9 ++ repeat 1 32 ++ le_bytes 8 500 ++ sample_random 2.

(** The daemon is socket 0, the browser socket 1; the browser asks for its
    capability, proves readiness, and is sent a packet. *)
Definition link_events : list Event :=
  [EConnectFips; EConnectBrowser;
   EMessage 1 true (raw_frame HELLO 0 []); EProcess 1;
   EMessage 1 true (raw_frame ACOUSTIC_READY 0 sample_proof); EProcess 1;
   EMessage 0 true (raw_frame FIPS_PACKET 4 [69; 0]); EProcess 0].

Abbreviation link_program := (reached link_options sample_random sample_date (fun _ => None) sample_cases 1000 link_events).

(** ** A qualification *)

Definition sample_config : RunnerQualificationConfig :=
  mkConfig (js "host-a") RoleA (js "reports/a.json") OpenAir CYRINX_CODEC
    (mkQualification None None None "pending" Available None StIdle false).

Definition sample_authority : RunnerReportAuthority := mkAuthority VNull (js "commit") (js "linux") (js "x64").

Definition run_options : BridgeOptions := mkOptions (Some sample_config) (Some sample_authority) sample_limits true true true.

Definition sample_audio : value :=
  obj [("browserVersion", vstr "b"); ("microphoneLabel", vstr "m"); ("contextState", vstr "running");
       ("inputDeviceSampleRate", vint 48000); ("inputDeviceChannels", vint 1); ("contextSampleRate", vint 48000);
       ("captureSampleRate", vint 48000); ("channels", vint 1); ("echoCancellation", VBool false);
       ("noiseSuppression", VBool false); ("autoGainControl", VBool false)]%string.

Definition sample_queues : value :=
  obj [("captureHighWaterBytes", vint 0); ("captureHighWaterMs", vint 0); ("playbackHighWaterBytes", vint 0);
       ("playbackHighWaterMs", vint 0); ("discontinuities", vint 0)]%string.

(** The browser's result of the [n]th committed case, received as it was sent. *)
Definition sample_result (n : nat) : option value :=
  entry ← expectedCorpus RoleA !! n;
  Some (obj [("caseId", vstr (cm_id entry)); ("digest", vstr (cm_sha256 entry)); ("acquisitionMs", vint 100);
             ("airtimeMs", vint 900); ("deliveryCount", vint 1); ("bytePerfect", VBool true);
             ("coldAcquired", VBool (n =? 0)%nat); ("complete", VBool true); ("corrupt", VBool false);
             ("missing", vint 0); ("duplicates", vint 0); ("queues", sample_queues)]%string).

(** Payloads are numbered: the audio settings and the results. *)
Definition sample_parse (raw : bytes) : option value :=
  match raw with [255] => Some sample_audio | [n] => sample_result (Z.to_nat n) | _ => None end.

(** The browser is socket [s]; its message is the job after that of its
    preemption; the job waits twice. *)
Definition deliver (s : nat) (waits : nat) (job : nat) (raw : bytes) : list Event :=
  [EMessage s true raw; EProcess s] ++ repeat (EResume job (Ok AnDone)) waits.

Definition results_events (s count job : nat) : list Event :=
  flat_map (fun n => deliver s 2 (job + 2 * n + 1) (raw_frame QUALIFICATION_RESULT (Z.of_nat n + 2) [Z.of_nat n])) (seq 0 count).

Abbreviation run_program := (reached run_options sample_random sample_date sample_parse sample_cases 1000).

(** The run starts and its time runs out; then the audio settings and the results. *)
Definition run_events (count : nat) : list Event :=
  [EConnectBrowser; EStart; ETimer 2] ++ deliver 1 3 5 (raw_frame AUDIO_SETTINGS 1 [255]) ++ results_events 1 count 6.

Abbreviation run_bridge := (pg_bridge (run_program (run_events 25))).

(** The report of the run. *)
Definition run_report : value :=
  match outcome (buildReport run_options sample_date sample_cases 2000) run_bridge with Ok (Some report) => report | _ => VNull end.
