(* ===== verification/BridgeProps.v ===== *)
(** * What the bridge guarantees

    Whatever arrives, in whatever order, and however its coroutines interleave:
    its queues stay within their limits, a capability arms the daemon for one
    proof, a report is written in the generation and the epoch it was queued for
    or not at all, and a report that passes was earned. *)

From stdpp Require Import base list numbers option strings.
From Stdlib Require Import ZArith Lia SpecFloat.
From S2P Require Import Prelude Utf8 Doubles Json Texts Corpus Fwav UiQualification Qualification QualificationProps Report Selection Coroutine CyrinxWorker BridgeState BridgePackets BridgeReport Bridge BridgeInv BridgeSafe BridgeRun.

Lemma limit_positive name maximum v n : limit name maximum v = Ok n -> 0 < n.
Proof.
  unfold limit. destruct v; try done. destruct (d_safe_integer n0) as [z|]; [|done].
  destruct (z <=? 0) eqn:E; cbn [orb]; [done|]. apply Z.leb_gt in E. destruct maximum as [m|]; [destruct (m <? z)|]; by intros [= <-].
Qed.

Lemma packetLimits_positive input limits :
  packetLimits input = Ok limits -> 0 <= pl_maxBytes limits /\ 0 <= pl_maxItems limits.
Proof.
  unfold packetLimits. cbv zeta. destruct (limit "maxItems" _ _) as [items|] eqn:E1; [|done].
  destruct (limit "maxBytes" _ _) as [bytes|] eqn:E2; [|done]. destruct (limit "maxAgeMs" _ _) as [age|]; [|done].
  intros [= <-]. apply limit_positive in E1, E2. cbn. lia.
Qed.

Section Reachable.
Context (options : BridgeOptions) (randomBytes : nat -> bytes) (iso_date : nat -> jsstring)
  (json_parse : bytes -> option value) (cases : list CyrinxQualificationCase).

Context (limits_positive : 0 <= pl_maxBytes (bo_limits options) /\ 0 <= pl_maxItems (bo_limits options)).

Lemma new_bridge_ok now : bridge_ok options randomBytes cases (new_bridge options now).
Proof.
  assert (Hq : packet_queue_fits (bo_limits options) empty_queue).
  { destruct limits_positive. split; [by apply queue_fits_empty|]. by split. }
  split; [exact Hq|]. split; [by split|]. split; [|split; [|split]].
  - split; [reflexivity|]. cbn. repeat constructor; cbn; unfold MAX_MESSAGE_BYTES; lia.
  - split; [cbn; unfold UINT32_MAX; lia|constructor].
  - unfold session_reached. cbn. destruct (bo_config options); cbn; [by exists []|done].
  - intros Hinj. split; [|split; [|split]]; cbn.
    + intros s. by left.
    + intros s s' _. by right.
    + intros proof [(? & ? & ? & H & _)|H]; [by apply elem_of_nil in H|done].
    + intros proof proof' [(? & ? & ? & H & _)|H]; [by apply elem_of_nil in H|done].
Qed.

Lemma reached_program now events : program_ok options randomBytes cases (reached options randomBytes iso_date json_parse cases now events).
Proof.
  unfold reached. apply run_goes_on; [done|]. unfold boot.
  assert (Hm : machine_safe (bridge_ok options randomBytes cases) later (machine (A:=unit) (W:=Awaited) (V:=Answer) (new_bridge options now)))
    by (split; [apply new_bridge_ok|constructor]).
  destruct (bo_config options); [|exact Hm]. destruct (bo_authority options); [|exact Hm].
  apply launch_safe; [exact _..|done|]. by apply co_persisted_none.
Qed.

Lemma reached_ok now events : bridge_ok options randomBytes cases (pg_bridge (reached options randomBytes iso_date json_parse cases now events)).
Proof. apply reached_program. Qed.
End Reachable.

(** C30: the queues stay within the limits the bridge was created with, whatever
    it is sent and whoever reads: no more packets and no more bytes in either
    direction, no more than one message's size of each kind of media, the bytes
    accounted for being those queued; and the packet a browser was sent and has
    not admitted is the head of its queue, so it is the only one outstanding. *)
Theorem bridge_queues_bounded input options randomBytes iso_date json_parse cases now events :
  packetLimits input = Ok (bo_limits options) ->
  let b := pg_bridge (reached options randomBytes iso_date json_parse cases now events) in
  (forall direction, let q := packet_queue direction b in
     zlen (qu_frames q) <= pl_maxItems (bo_limits options) /\ qu_bytes q <= pl_maxBytes (bo_limits options)
     /\ qu_bytes q = foldr (fun e n => entry_bytes e + n) 0 (qu_frames q))
  /\ Forall (fun p => qu_bytes p.2 <= MAX_MESSAGE_BYTES
        /\ qu_bytes p.2 = foldr (fun e n => entry_bytes e + n) 0 (qu_frames p.2)) (b_queues b)
  /\ (forall p, b_pending b = Some p -> head (qu_frames (b_toBrowser b)) = Some (pb_entry p)).
Proof.
  intros Hl b. pose proof (packetLimits_positive _ _ Hl) as Hpos.
  destruct (reached_ok options randomBytes iso_date json_parse cases Hpos now events) as (H1 & [H2 Hp] & [_ H3] & _).
  fold b in H1, H2, Hp, H3. split; [|split].
  - intros []; cbn zeta; [destruct H1 as ([Ht Hb] & Hn & _)|destruct H2 as ([Ht Hb] & Hn & _)]; done.
  - apply (Forall_impl _ _ _ H3). intros p [Ht Hb]. done.
  - intros p E. rewrite E in Hp. destruct Hp as [rest ->]. done.
Qed.

Lemma bridge_queues_bounded_witness :
  let b := pg_bridge link_program in
  packetLimits [] = Ok (bo_limits link_options) /\ (length (qu_frames (b_toBrowser b)) = 1%nat)
  /\ exists p, b_pending b = Some p /\ head (qu_frames (b_toBrowser b)) = Some (pb_entry p).
Proof.
  split; [by vm_compute|]. split; [by vm_compute|].
  pose proof (bridge_queues_bounded [] link_options sample_random sample_date (fun _ => None) sample_cases 1000 link_events
                ltac:(by vm_compute)) as H. cbv zeta in H. destruct H as (_ & _ & H).
  set (q := pg_bridge _) in *. assert (Hp : is_some (b_pending q) = true) by (by vm_compute). clearbody q.
  destruct (b_pending q) as [p|]; [|done]. exists p. split; [done|by apply H].
Defined.

(** C31: while the generator has not drawn the same capability twice, the daemon
    is armed only with a readiness proof on a capability the bridge drew, and on
    each capability with one proof only, however often the daemon reconnects and
    is armed again.  ([randomBytes n] is what the generator gives when the
    bridge's counter stands at [n].) *)
Theorem armed_on_one_capability input options randomBytes iso_date json_parse cases now events :
  packetLimits input = Ok (bo_limits options) ->
  let b := pg_bridge (reached options randomBytes iso_date json_parse cases now events) in
  unrepeated randomBytes (b_next b) ->
  forall proof, armed_with proof (b_out b) ->
    (exists n, (n < b_next b)%nat /\ capability_of proof = randomBytes n)
    /\ forall proof', armed_with proof' (b_out b) -> capability_of proof' = capability_of proof -> proof' = proof.
Proof.
  intros Hl b Hfresh proof Hp. pose proof (packetLimits_positive _ _ Hl) as Hpos.
  destruct (reached_ok options randomBytes iso_date json_parse cases Hpos now events) as (_ & _ & _ & _ & _ & H).
  destruct (H Hfresh) as (_ & _ & H3 & H4). split.
  - destruct (H3 proof) as (Hz & [Hd|(n & Hn & E)] & _); [by left|congruence|by exists n].
  - intros proof' Hp' E. apply H4; [by left..|done].
Qed.

Lemma sample_random_unrepeated n : (n < 1000)%nat -> unrepeated sample_random n.
Proof.
  intros Hn i j Hi Hj E. apply (f_equal le_value) in E. unfold sample_random in E.
  rewrite !le_value_le_bytes, !Z.mod_small in E by (cbn; lia). lia.
Qed.

Lemma link_armed : armed_with sample_proof (b_out (pg_bridge link_program)).
Proof.
  exists 0%nat, (raw_frame BROWSER_ARM 0 sample_proof), (with_defaults (control_frame BROWSER_ARM 1 0 sample_proof)).
  split; [apply list_elem_of_In; vm_compute; tauto|]. by vm_compute.
Qed.

Lemma armed_on_one_capability_witness :
  armed_with sample_proof (b_out (pg_bridge link_program))
  /\ exists n, (n < b_next (pg_bridge link_program))%nat /\ capability_of sample_proof = sample_random n.
Proof.
  pose proof link_armed as Ha. split; [exact Ha|].
  assert (Hn : unrepeated sample_random (b_next (pg_bridge link_program))) by (apply sample_random_unrepeated; apply Nat.ltb_lt; vm_compute; reflexivity).
  pose proof (armed_on_one_capability [] link_options sample_random sample_date (fun _ => None) sample_cases 1000 link_events
                ltac:(by vm_compute) Hn) as H. cbv zeta in H.
  exact (proj1 (H sample_proof Ha)).
Defined.

(** ** Generations *)

Section Generations.
Context (options : BridgeOptions) (randomBytes : nat -> bytes) (iso_date : nat -> jsstring)
  (json_parse : bytes -> option value) (cases : list CyrinxQualificationCase).

(** The generation and the reports queued stay as they are. *)
Definition same_generation (b b' : Bridge) : Prop := (b_generation b', b_writes b') = (b_generation b, b_writes b).

#[local] Instance same_generation_refl : Reflexive same_generation.
Proof. done. Qed.
#[local] Instance same_generation_trans : Transitive same_generation.
Proof. unfold same_generation. congruence. Qed.

Lemma same_in_session {A} (otherwise : A) m : moves same_generation (in_session otherwise m).
Proof. intros b. apply wp_in_session. by destruct (b_session b). Qed.

Ltac same := repeat first [apply same_in_session | moves_step | apply moves_modify; reflexivity].

Lemma same_expired : moves same_generation (abortCyrinxOperation options;; clearCyrinxTimer;; addReason (reason_code DeadlineExpired);; mret true).
Proof. unfold abortCyrinxOperation, log, clearCyrinxTimer, clear_timer, addReason. same. Qed.

(** A deadline that passes begins a new generation. *)
Lemma wp_settleExpiry now b :
  wp (settleExpiry options now) (fun r b' => b_writes b' = b_writes b
    /\ b_generation b' = b_generation b + match r with Ok true => 1 | _ => 0 end) b.
Proof.
  unfold settleExpiry. apply wp_bind, (wp_moves same_generation); [apply same_in_session|].
  intros [[]|e] b1 [= Hg Hw]; [|apply wp_ret; split; [done|lia]|split; [done|lia]].
  apply wp_bind, wp_modify. eapply wp_mono; [apply wp_and; [apply same_expired|]|].
  { instantiate (1 := fun r _ => r = Ok true). unfold abortCyrinxOperation, log, clearCyrinxTimer, clear_timer, addReason.
    apply wp_run. unfold outcome, mbind, mget, mret, mmodify. by destruct (bo_worker options); cbn; destruct (b_expiryTimer _). }
  intros r b2 [[= Hg2 Hw2] ->]. rewrite Hg2, Hw2. unfold set; cbn. rewrite Hg, Hw. split; [done|lia].
Qed.

(** So does a fallback. *)
Lemma wp_fallback preempted b :
  wp (transitionCurrentFallback options preempted) (fun r b' => r = Ok true -> b_generation b' = b_generation b + 1) b.
Proof.
  unfold transitionCurrentFallback. apply wp_bind, wp_get. destruct (negb _); [by apply wp_ret|].
  apply wp_bind, (wp_moves same_generation); [apply same_in_session|]. intros [changed|e] b1 [= Hg Hw]; [|done].
  destruct (negb changed); [by apply wp_ret|]. apply wp_bind, wp_modify.
  match goal with |- wp ?m _ _ => assert (Hm : moves same_generation m) end.
  { unfold abortCyrinxOperation, log, clearCyrinxTimer, clear_timer, note_fallback, addReason. same. }
  apply (wp_moves _ _ _ _ Hm). intros r b2 [= Hg2 _] _. rewrite Hg2. unfold set; cbn. by rewrite Hg.
Qed.

(** A report is queued for the generation its maker names, or for the one that
    has just begun as the deadline passed. *)
Lemma wp_queued expected b :
  wp (persist options iso_date cases expected) (fun r b' => r = Ok true -> exists task, b_writes b' = b_writes b ++ [task]
    /\ wt_generation task = if wt_announce task then b_generation b' else default (b_generation b) expected) b.
Proof.
  apply wp_bind, wp_get, wp_bind. eapply wp_mono; [apply wp_settleExpiry|]. intros [expired|e] b1 [Hw Hg]; [|done].
  apply wp_bind, wp_get, wp_bind. assert (Hb : moves same_generation (buildReport options iso_date cases (b_now b1)))
    by (unfold buildReport, sessionSnapshot; same).
  apply (wp_moves _ _ _ _ Hb). intros [[report|]|e] b2 [= Hg2 Hw2]; [| |done].
  - apply wp_bind, wp_modify, wp_ret. intros _. exists (mkWrite (if expired then b_generation b1 else default (b_generation b1) expected) report expired).
    unfold set; cbn. rewrite Hw2, Hw. split; [done|]. destruct expired; [by rewrite Hg2|]. by replace (b_generation b1) with (b_generation b) by lia.
  - apply wp_bind. destruct expired; [apply wp_modify|apply wp_ret]; by apply wp_ret.
Qed.

Context (limits_positive : 0 <= pl_maxBytes (bo_limits options) /\ 0 <= pl_maxItems (bo_limits options)).

Abbreviation at_ := (reached options randomBytes iso_date json_parse cases).

#[local] Instance WriteTask_eq_dec : EqDecision WriteTask.
Proof. solve_decision. Defined.

(** Up to an event since which the report has been queued. *)
Lemma queued_since now task events :
  task ∈ b_writes (pg_bridge (at_ now events)) ->
  exists before after, events = before ++ after
    /\ (before = [] \/ exists earlier e, before = earlier ++ [e] /\ task ∉ b_writes (pg_bridge (at_ now earlier)))
    /\ forall some more, after = some ++ more -> task ∈ b_writes (pg_bridge (at_ now (before ++ some))).
Proof.
  induction events as [|e events IH] using rev_ind; intros Hin.
  - exists [], []. split; [done|]. split; [by left|]. by intros [|] [|] [=].
  - destruct (decide (task ∈ b_writes (pg_bridge (at_ now events)))) as [Hp|Hp].
    + destruct (IH Hp) as (before & after & -> & Hb & Ha). exists before, (after ++ [e]). rewrite app_assoc. split; [done|]. split; [done|].
      intros some more E. destruct more as [|m more _] using rev_ind.
      * rewrite app_nil_r in E. subst some. by rewrite app_assoc.
      * rewrite app_assoc in E. apply app_inj_tail in E as [E _]. by eapply Ha.
    + exists (events ++ [e]), []. rewrite app_nil_r. split; [done|]. split; [right; eauto|].
      intros some more E. symmetry in E. apply app_nil in E as [-> _]. by rewrite app_nil_r.
Qed.

(** A report of the present generation was queued in it, and in this epoch. *)
Lemma queued_lately now before some more task :
  let b := pg_bridge (at_ now (before ++ some)) in
  let b' := pg_bridge (at_ now (before ++ some ++ more)) in
  task ∈ b_writes b -> wt_generation task = b_generation b' -> b_generation b = b_generation b' /\ b_epoch b = b_epoch b'.
Proof.
  intros b b' Hin Hg. pose proof (reached_program options randomBytes iso_date json_parse cases limits_positive now (before ++ some)) as Hp.
  assert (Hb' : later b b').
  { unfold b', reached. rewrite app_assoc. unfold run. rewrite fold_left_app. by apply run_goes_on. }
  destruct Hp as [(_ & _ & _ & [_ Hw] & _) _]. rewrite Forall_forall in Hw. destruct (Hw task Hin) as [Ht _].
  change (wt_generation task <= b_generation b) in Ht. destruct Hb' as [Hl He]. assert (b_generation b' = b_generation b) by lia. by rewrite He.
Qed.
End Generations.

(** C32: a report is queued for the generation its maker names, which is the one
    it began in, or for the one that began as the deadline passed; a fallback
    and a deadline that passes each begin a new generation, and so does a new
    epoch; and a report is handed to the writer only as the head of the queue,
    in the generation it was queued for, which has lasted, with the epoch the
    report states, since the event that queued it. *)
Theorem written_reports_are_current input options randomBytes iso_date json_parse cases now events report :
  packetLimits input = Ok (bo_limits options) ->
  let at_ := fun events => pg_bridge (reached options randomBytes iso_date json_parse cases now events) in
  ((forall expected b, outcome (persist options iso_date cases expected) b = Ok true ->
      exists task, let b' := final (persist options iso_date cases expected) b in
        b_writes b' = b_writes b ++ [task]
        /\ wt_generation task = if wt_announce task then b_generation b' else default (b_generation b) expected)
   /\ (forall nowMs b, outcome (settleExpiry options nowMs) b = Ok true ->
          b_generation (final (settleExpiry options nowMs) b) = b_generation b + 1)
   /\ (forall preempted b, outcome (transitionCurrentFallback options preempted) b = Ok true ->
          b_generation (final (transitionCurrentFallback options preempted) b) = b_generation b + 1)
   /\ (forall more, b_epoch (at_ (events ++ more)) <> b_epoch (at_ events) -> b_generation (at_ events) < b_generation (at_ (events ++ more))))
  /\ (b_out (at_ (events ++ [EWriterStart])) = b_out (at_ events) ++ [OutReport report] ->
       exists task rest, b_writes (at_ events) = task :: rest /\ wt_report task = report
         /\ exists before after, events = before ++ after
              /\ (before = [] \/ exists earlier e, before = earlier ++ [e] /\ task ∉ b_writes (at_ earlier))
              /\ forall some more, after = some ++ more ->
                   task ∈ b_writes (at_ (before ++ some)) /\ b_generation (at_ (before ++ some)) = wt_generation task
                   /\ report_epoch report = vint (b_epoch (at_ (before ++ some)))).
Proof.
  intros Hl at_. pose proof (packetLimits_positive _ _ Hl) as Hpos. split; [split_and!|].
  - intros expected b E. exact (wp_elim _ _ _ (wp_queued options iso_date cases expected b) E).
  - intros nowMs b E. destruct (wp_elim _ _ _ (wp_settleExpiry options nowMs b)) as [_ H]. by rewrite E in H.
  - intros preempted b E. exact (wp_elim _ _ _ (wp_fallback options preempted b) E).
  - intros more Hne. assert (later (at_ events) (at_ (events ++ more))) as [Hg He].
    { unfold at_, reached, run. rewrite fold_left_app.
      apply (run_goes_on options randomBytes iso_date json_parse cases Hpos), reached_program, Hpos. }
    destruct (Z.eq_dec (b_generation (at_ (events ++ more))) (b_generation (at_ events))) as [E|]; [|lia]. by destruct Hne, He.
  - assert (Hstep : at_ (events ++ [EWriterStart]) = final start_write (at_ events)) by (unfold at_, reached, run; by rewrite fold_left_app).
    rewrite Hstep. intros H. destruct (reached_ok options randomBytes iso_date json_parse cases Hpos now events) as (_ & _ & _ & [_ Hw] & _).
    fold (at_ events) in Hw.
    assert (Hsame : b_out (at_ events) = b_out (at_ events) ++ [OutReport report] -> False).
    { intros E. apply (f_equal length) in E. rewrite length_app in E. cbn in E. lia. }
    destruct (b_writes (at_ events)) as [|task rest] eqn:Ew;
      [unfold start_write, final, mbind, mget in H; rewrite Ew in H; destruct (b_writing (at_ events)); by destruct (Hsame H)|].
    unfold start_write, final, mbind, mget in H. rewrite Ew in H. destruct (b_writing (at_ events)); [by destruct (Hsame H)|].
    destruct (wt_generation task =? b_generation (at_ events)) eqn:E; [|by destruct (Hsame H)].
    change (b_out (at_ events) ++ [OutReport (wt_report task)] = b_out (at_ events) ++ [OutReport report]) in H.
    apply app_inv_head in H. injection H as <-. apply Z.eqb_eq in E. exists task, rest. split; [done|]. split; [done|].
    destruct (queued_since options randomBytes iso_date json_parse cases now task events) as (before & after & -> & Hb & Ha);
      [unfold at_ in Ew; rewrite Ew; by constructor|]. exists before, after. split; [done|]. split; [done|].
    intros some more ->. specialize (Ha some more eq_refl). split; [exact Ha|].
    destruct (queued_lately options randomBytes iso_date json_parse cases Hpos now before some more task Ha E) as [Hg He].
    fold (at_ (before ++ some)) (at_ (before ++ some ++ more)) in Hg, He. split; [congruence|]. rewrite He.
    inversion Hw as [|? ? [_ Hr]]; subst. by apply Hr.
Qed.

(** The report the bridge makes as it is created. *)
Definition first_report : value :=
  match b_writes (pg_bridge (run_program [])) with task :: _ => wt_report task | [] => VNull end.

Lemma written_reports_are_current_witness :
  exists task rest, b_writes (pg_bridge (run_program [])) = task :: rest /\ wt_report task = first_report.
Proof.
  destruct (written_reports_are_current [] run_options sample_random sample_date sample_parse sample_cases 1000 [] first_report)
    as [_ H]; [by vm_compute|]. cbv zeta in H. destruct H as (task & rest & H1 & H2 & _); [by vm_compute|]. by exists task, rest.
Defined.

(** ** What a passed report rests on *)

(** The verdict a report states. *)
Definition report_gate (report : value) : value :=
  match as_object report with
  | Some f => match as_object (get "qualification" f) with Some q => get "physicalGate" q | None => VUndefined end
  | None => VUndefined
  end.

Lemma elem_of_add_when x test reason reasons : x ∈ reasons -> x ∈ add_when test reason reasons.
Proof. unfold add_when, add. destruct test, (bool_decide (reason ∈ reasons)); intros H; try done. apply elem_of_app. by left. Qed.

Lemma elem_of_add_self reason reasons : reason ∈ add_when true reason reasons.
Proof.
  unfold add_when, add. destruct (bool_decide_reflect (reason ∈ reasons)) as [H|]; [done|]. apply elem_of_app. right. by constructor.
Qed.

Lemma elem_of_observed x reasons m : x ∈ reasons -> x ∈ observed_reasons reasons m.
Proof. intros H. unfold observed_reasons. destruct (negb _); [done|]. cbv zeta. by do 3 apply elem_of_add_when. Qed.

Lemma elem_of_all_observed x results : forall reasons, x ∈ reasons -> x ∈ foldl observed_reasons reasons results.
Proof. induction results as [|m results IH]; intros reasons H; [done|]. cbn. by apply IH, elem_of_observed. Qed.

(** A report without reasons of the corpus covers it. *)
Lemma reasons_cover failures snapshot passed cold queues results good :
  "corpus_incomplete"%string ∉ report_reasons failures snapshot passed cold queues results good ->
  19 <= of_case_size 256 good /\ 5 <= of_case_size 1536 good.
Proof.
  destruct ((of_case_size 256 good <? 19) || (of_case_size 1536 good <? 5)) eqn:E; [|bool_split; lia].
  intros H. exfalso. apply H. unfold report_reasons. cbv zeta. rewrite E. apply elem_of_all_observed.
  do 4 apply elem_of_add_when. apply elem_of_add_self.
Qed.

(** The reasons an observed result gives where it is not what was committed. *)
Lemma reasons_observed m results : m ∈ results -> mr_observed m = true ->
  forall reasons, (forall r, r ∈ ["bad_digest"; "partial_evidence"]%string -> r ∉ foldl observed_reasons reasons results) ->
  received_expected m = true /\ mr_bytePerfect m = true /\ mr_corrupt m = false /\ mr_complete m = true.
Proof.
  intros Hin Ho. induction results as [|m' results IH]; [by apply elem_of_nil in Hin|]. intros reasons H.
  apply elem_of_cons in Hin as [<-|Hin]; [|by eapply IH].
  assert (Hm : forall r, r ∈ ["bad_digest"; "partial_evidence"]%string -> r ∉ observed_reasons reasons m).
  { intros r Hr Hr'. apply (H r Hr). cbn. by apply elem_of_all_observed. }
  unfold observed_reasons in Hm. rewrite Ho in Hm. change (negb true) with false in Hm. cbv iota zeta in Hm.
  destruct (negb (received_expected m) || negb (mr_bytePerfect m) || mr_corrupt m) eqn:E1.
  { exfalso. apply (Hm "bad_digest"%string); [by constructor|]. apply elem_of_add_when, elem_of_add_self. }
  destruct (negb (mr_complete m) || d_ltb zero (mr_missing m)) eqn:E2.
  { exfalso. apply (Hm "partial_evidence"%string); [by do 2 constructor|]. apply elem_of_add_self. }
  bool_split. done.
Qed.

(** What a snapshot says of the session it is of. *)
Lemma wp_snapshot cases epoch now s :
  wp (snapshot cases epoch now) (fun r _ => forall snap, r = Ok snap ->
    ss_codec snap = qs_codec s /\ ss_stage snap = qs_stage s /\ ss_fallbackState snap = qs_fallbackState s) s.
Proof.
  unfold snapshot. destruct (_ || _); [by apply wp_throw|]. apply wp_bind, wp_get, wp_bind, wp_run.
  destruct (outcome _ s) as [e|e]; [|done]. apply wp_ret. by intros snap [= <-].
Qed.

Section Passed.
Context (date : jsstring) (config : RunnerQualificationConfig) (authority : RunnerReportAuthority).

Lemma gate_of_report schema date' machine class epoch codec audio queues results complete reasons q gate runner :
  report_gate (obj [("schemaVersion", schema); ("capturedAt", date'); ("machine", machine); ("evidenceClass", class);
                    ("epoch", epoch); ("codec", codec); ("audio", audio); ("queues", queues); ("results", results);
                    ("complete", complete); ("reasonCodes", reasons); ("qualification", qualification_value q gate);
                    ("runner", runner)]%string) = vstr gate.
Proof. reflexivity. Qed.

Lemma gate_inj s t : vstr s = vstr t -> s = t.
Proof. intros [= H]. by apply js_inj. Qed.

(** The verdict, as it is computed. *)
Lemma report_of_gate epoch discontinuities audio failures gathered snap sessionCold :
  report_gate (report_of date config authority epoch discontinuities audio failures gathered snap sessionCold)
  = let results := canonicalResults (cf_role config) gathered in
    let queues := queuesEvidence discontinuities (map snd gathered) in
    let good := List.filter good_result results in
    let cold := cold_receive_passed config (ss_codec snap) sessionCold good in
    let reasons := report_reasons failures snap (audio_passed audio) cold queues results good in
    let covered := negb (existsb (has_reason reasons) CORPUS_REASONS) && audio_passed audio in
    let staged := stageAuthorityPassed config snap sessionCold cold in
    vstr (physical_gate config snap (covered && (negb (open_air config) || staged)) staged ((24 <=? zlen gathered) && negb covered)).
Proof. unfold report_of. destruct (authority_of config snap sessionCold) as [codec qualification]. apply gate_of_report. Qed.

Lemma passed_gate snap complete staged failed :
  physical_gate config snap complete staged failed = "passed"%string -> open_air config = true /\ complete = true /\ staged = true.
Proof. unfold physical_gate. destruct (open_air config), complete, staged; cbn; try done; by destruct (_ || _). Qed.

(** Reasons without any of the corpus: it is covered, and nothing observed is amiss. *)
Lemma clear_reasons failures snap passed cold queues results good :
  let reasons := report_reasons failures snap passed cold queues results good in
  existsb (has_reason reasons) CORPUS_REASONS = false ->
  19 <= of_case_size 256 good /\ 5 <= of_case_size 1536 good
  /\ (forall m, m ∈ results -> mr_observed m = true ->
        received_expected m = true /\ mr_bytePerfect m = true /\ mr_corrupt m = false /\ mr_complete m = true).
Proof.
  intros reasons Hr.
  assert (Hclear : forall r, r ∈ CORPUS_REASONS -> r ∉ reasons).
  { intros r Hin Hin'. assert (existsb (has_reason reasons) CORPUS_REASONS = true) as Ht; [|congruence].
    apply existsb_exists. exists r. split; [by apply list_elem_of_In|]. unfold has_reason. by apply bool_decide_eq_true_2. }
  destruct (reasons_cover failures snap passed cold queues results good) as [H1 H2]; [apply Hclear; by constructor|].
  split; [done|split; [done|]]. intros m Hin Ho. eapply reasons_observed; [done..|].
  intros r Hr'. apply Hclear. unfold CORPUS_REASONS. rewrite !elem_of_cons, elem_of_nil in Hr'. rewrite !elem_of_cons. tauto.
Qed.

(** What the verdict of a report made of these results says of them. *)
Lemma passed_report epoch discontinuities audio failures gathered snap cold :
  report_gate (report_of date config authority epoch discontinuities audio failures gathered snap cold) = vstr "passed" ->
  let results := canonicalResults (cf_role config) gathered in
  let good := List.filter good_result results in
  audio_passed audio = true
  /\ 19 <= of_case_size 256 good /\ 5 <= of_case_size 1536 good
  /\ (forall m, m ∈ results -> mr_observed m = true ->
        received_expected m = true /\ mr_bytePerfect m = true /\ mr_corrupt m = false /\ mr_complete m = true)
  /\ open_air config = true /\ stageAuthorityPassed config snap cold (cold_receive_passed config (ss_codec snap) cold good) = true.
Proof.
  rewrite report_of_gate. cbv zeta. intros H. apply gate_inj, passed_gate in H as (Ho & Hc & Hs).
  apply andb_prop in Hc as [Hc _]. apply andb_prop in Hc as [Hr Ha]. apply negb_true_iff in Hr.
  apply clear_reasons in Hr as (H1 & H2 & H3). split; [done|split; [done|split; [done|split; [done|by split]]]].
Qed.
End Passed.

(** Where a report says the first case was acquired cold, one of the good results is it. *)
Lemma cold_witnessed config sessionCold good : cold_receive_passed config CodecQuiet sessionCold good = true ->
  exists m, m ∈ good /\ mr_coldAcquired m = true /\ (cm_id <$> head (expectedCorpus (cf_role config))) = Some (cm_id (mr_entry m)).
Proof.
  unfold cold_receive_passed. destruct (head (expectedCorpus (cf_role config))) as [first|]; [|done].
  intros (m & Hin & H)%existsb_exists. bool_split. exists m. split; [by apply list_elem_of_In|]. split; [done|]. cbn. by f_equal.
Qed.

(** The report built is one of a snapshot of the session and of the results. *)
Lemma built_report options iso_date cases config nowMs b s report :
  bo_config options = Some config -> b_session b = Some s ->
  outcome (buildReport options iso_date cases nowMs) b = Ok (Some report) ->
  exists authority snap date epoch discontinuities failures cold,
    (ss_codec snap = qs_codec s /\ ss_stage snap = qs_stage s /\ ss_fallbackState snap = qs_fallbackState s)
    /\ report = report_of date config authority epoch discontinuities (b_audio b) failures (b_results b) snap cold.
Proof.
  intros Hconfig Hs. revert report.
  assert (H : wp (buildReport options iso_date cases nowMs) (fun r _ => forall report, r = Ok (Some report) ->
    exists authority snap date epoch discontinuities failures cold,
    (ss_codec snap = qs_codec s /\ ss_stage snap = qs_stage s /\ ss_fallbackState snap = qs_fallbackState s)
    /\ report = report_of date config authority epoch discontinuities (b_audio b) failures (b_results b) snap cold) b);
    [|apply (wp_elim _ _ _ H)].
  unfold buildReport. rewrite Hconfig. destruct (bo_authority options) as [authority|]; [|by apply wp_ret].
  apply wp_bind. unfold sessionSnapshot. apply wp_bind, wp_get. apply (wp_in_session_of _ _ _ _ s Hs).
  apply wp_bind. eapply wp_mono; [apply wp_snapshot|]. intros [snap|e] s' Hsnap; [|done]. specialize (Hsnap snap eq_refl).
  apply wp_ret. cbn [foreign]. apply wp_bind, wp_get. cbv zeta. apply wp_bind, wp_modify, wp_ret. intros report [= <-].
  eexists _, snap, _, _, _, _, _. split; [done|reflexivity].
Qed.

(** C33: a report of open-air evidence that states it passed was earned: the
    audio was as required; of the committed cases at least nineteen short and
    five long ones came through flawless; every case observed at all came
    complete, with the committed digest, uncorrupted; and the codec it passes is
    Cyrinx after every case of the session's list was completed, each once, in
    order, or Quiet after a fallback, with its first case acquired cold. *)
Theorem passed_report_is_earned input options randomBytes iso_date json_parse cases now events config nowMs report :
  packetLimits input = Ok (bo_limits options) -> (0 < length cases)%nat -> bo_config options = Some config ->
  let b := pg_bridge (reached options randomBytes iso_date json_parse cases now events) in
  outcome (buildReport options iso_date cases nowMs) b = Ok (Some report) -> report_gate report = vstr "passed" ->
  let results := canonicalResults (cf_role config) (b_results b) in
  let good := List.filter good_result results in
  audio_passed (b_audio b) = true
  /\ 19 <= of_case_size 256 good /\ 5 <= of_case_size 1536 good
  /\ (forall m, m ∈ results -> mr_observed m = true ->
        received_expected m = true /\ mr_bytePerfect m = true /\ mr_corrupt m = false /\ mr_complete m = true)
  /\ exists cs, let s := calls cases cs (new_session (cf_role config)) in
       b_session b = Some s
       /\ ((qs_codec s = CodecCyrinx /\ completions cases cs (new_session (cf_role config)) = seq 0 (length cases))
           \/ (qs_codec s = CodecQuiet /\ qs_fallbackState s = Activated
               /\ exists m, m ∈ good /\ mr_coldAcquired m = true
                    /\ (cm_id <$> head (expectedCorpus (cf_role config))) = Some (cm_id (mr_entry m)))).
Proof.
  intros Hl Hcases Hconfig b Hreport Hgate results good. pose proof (packetLimits_positive _ _ Hl) as Hpos.
  destruct (reached_ok options randomBytes iso_date json_parse cases Hpos now events) as (_ & _ & _ & _ & Hs & _).
  fold b in Hs. unfold session_reached in Hs. rewrite Hconfig in Hs. destruct Hs as [cs Hs].
  set (s := calls cases cs (new_session (cf_role config))) in *.
  destruct (built_report options iso_date cases config nowMs b s report Hconfig Hs Hreport)
    as (authority & snap & date & epoch & discontinuities & failures & cold & (Ecodec & Estage & Estate) & ->).
  apply passed_report in Hgate as (Ha & H1 & H2 & H3 & Hopen & Hstage). fold results in H1, H2, H3, Hstage. fold good in H1, H2, Hstage.
  split; [done|split; [done|split; [done|split; [done|]]]]. exists cs. split; [done|]. fold s.
  assert (Hok : session_ok s) by (apply calls_ok; [done|apply new_session_ok]).
  unfold stageAuthorityPassed in Hstage. rewrite Ecodec, Estage, Estate in Hstage.
  destruct (qs_codec s) eqn:Eq; [by rewrite Hopen in Hstage| | |by rewrite Hopen in Hstage].
  - left. split; [done|]. bool_split. destruct (completions_count cases Hcases cs (new_session (cf_role config)) 0 (length cases)) as [_ Hdone];
      [apply new_session_ok|done|unfold done_count; fold s; by match goal with E : qs_stage s = StComplete |- _ => rewrite E end|].
    by rewrite Nat.sub_0_r in Hdone.
  - right. apply andb_prop in Hstage as [Hstate Hcold]. apply bool_decide_eq_true_1 in Hstate. split; [done|split; [done|]].
    by apply cold_witnessed in Hcold.
Qed.

Lemma passed_report_is_earned_witness :
  report_gate run_report = vstr "passed"
  /\ 19 <= of_case_size 256 (List.filter good_result (canonicalResults RoleA (b_results run_bridge))).
Proof.
  split; [by vm_compute|].
  destruct (passed_report_is_earned [] run_options sample_random sample_date sample_parse sample_cases 1000 (run_events 25)
              sample_config 2000 run_report) as (_ & H & _); [by vm_compute|cbn; lia|done|by vm_compute|by vm_compute|exact H].
Defined.
