(* ===== verification/DemoConfig.v ===== *)
(** * The demo's configuration ([packages/bridge/src/demo-config.ts])

    The fixed configuration of the two demo roles under the few overrides it
    admits, and the projection of it the browser may see. *)

From stdpp Require Import base list numbers option strings.
From Stdlib Require Import ZArith Lia SpecFloat.
From S2P Require Import Prelude Utf8 Doubles Json Texts Corpus UiQualification Qualification Report BridgeReport.

(** ** The configuration *)

Inductive DemoRoleInput := InputA | InputB.

Record PrivateDemoIdentity := mkIdentity { id_publicKey : string; id_nsec : string }.

Record BridgeConfig := mkBridgeConfig {
  bg_host : string; bg_browserPort : Z; bg_fipsPort : Z; bg_fipsUrl : jsstring; bg_browserPath : string; bg_fipsPath : string }.

Record RetryConfig := mkRetry { rt_maxAttempts : Z; rt_minDelayMs : Z; rt_maxDelayMs : Z }.
Record HeartbeatConfig := mkHeartbeat { hb_intervalMs : Z; hb_deadLinkTimeoutMs : Z }.

Record AudioDefaults := mkAudioDefaults {
  ad_sampleRate : Z; ad_channels : Z; ad_echoCancellation : bool; ad_noiseSuppression : bool; ad_autoGainControl : bool }.

Record CalibrationCandidate := mkCandidate {
  cc_id : string; cc_profileId : string; cc_codec : string; cc_profile : string; cc_payloadBytes : Z; cc_repetition : Z;
  cc_guardMs : Z; cc_playbackGain : Z; cc_ackTimeoutMs : Z }.

Record AcousticConfig := mkAcoustic {
  ap_maximumBodyBytes : Z; ap_maximumPacketBytes : Z; ap_maxFragments : Z;
  aa_windowSize : Z; aa_maxAttempts : Z; aa_maxQueuedPackets : Z; aa_deliveredIdHistory : Z;
  al_maxCandidates : Z; al_probesPerDirection : Z; al_deadlineMs : Z; al_maximumPlaybackGain : Z }.

Inductive TransportPolicy := TransportSound | TransportUdp (outboundOnly acceptConnections advertise : bool).

Record ProofConfig := mkProofConfig {
  pf_port : Z; pf_challengeBytes : Z; pf_timeoutMs : Z; pf_maxAttempts : Z; pf_maxRequestsPerMinute : Z;
  pf_replayCacheEntries : Z; pf_replayTtlMs : Z; pf_freshnessMs : Z }.

Record FipsConfig := mkFips {
  fp_linkMtu : Z; fp_expectedPeerPublicKey : string; fp_ipv6Address : string; fp_targetIpv6 : string;
  fp_controlSocketPath : string; fp_transports : list TransportPolicy }.

Record DemoConfig := mkDemoConfig {
  dc_inputRole : DemoRoleInput; dc_role : Role; dc_identity : PrivateDemoIdentity; dc_peer : PrivateDemoIdentity;
  dc_bridge : BridgeConfig; dc_fips : FipsConfig; dc_proof : ProofConfig; dc_codecCapabilities : list string;
  dc_audioDefaults : AudioDefaults; dc_calibrationCandidates : list CalibrationCandidate; dc_acoustic : AcousticConfig;
  dc_retries : RetryConfig; dc_heartbeat : HeartbeatConfig }.

(** ** What is fixed *)

Definition IDENTITIES (input : DemoRoleInput) : PrivateDemoIdentity :=
  match input with
  | InputA => mkIdentity "npub1sjlh2c3x9w7kjsqg2ay080n2lff2uvt325vpan33ke34rn8l5jcqawh57m"
                "0102030405060708090a0b0c0d0e0f101112131415161718191a1b1c1d1e1f20"
  | InputB => mkIdentity "npub1f49ke5fkzqev4x7j46uajq92f4zan6kcpty5yvm5c3g6wf2dqanqn7qsy2"
                "0202020202020202020202020202020202020202020202020202020202020202"
  end.

Definition FIPS_IPV6 (input : DemoRoleInput) : string :=
  match input with
  | InputA => "fd69:e08d:65cc:3a6b:9c2c:2ac4:bd40:5e4b"
  | InputB => "fd46:f688:3bb:f389:e1df:f3e:3af3:9c30"
  end.

Definition LOOPBACK_HOST : string := "127.0.0.1".
Definition default_port : Z := 4310.
Definition default_mtu : Z := 1357.
Definition default_retries : RetryConfig := mkRetry 3 500 2000.
Definition default_heartbeat : HeartbeatConfig := mkHeartbeat 5000 30000.
Definition default_audio : AudioDefaults := mkAudioDefaults 48000 1 false false false.
Definition default_acoustic : AcousticConfig := mkAcoustic 217 1357 16 4 3 16 32 3 1 120000 2.
Definition default_proof : ProofConfig := mkProofConfig 45900 32 45000 2 6 32 120000 60000.

Definition fast_candidate : string := "quiet-full-frame-fast-v1".

Definition default_candidates : list CalibrationCandidate :=
  [mkCandidate "quiet-bootstrap-robust-v1" "quiet-audible-7k-v1" "quiet" "audible-7k-channel-0" 96 1 750 1 4000;
   mkCandidate fast_candidate "quiet-audible-7k-v1" "quiet" "audible-7k-channel-0" 217 1 100 1 4000;
   mkCandidate "quiet-bootstrap-loud-v1" "quiet-audible-7k-v1" "quiet" "audible-7k-channel-0" 96 1 500 2 4000].

(** ** Overrides *)

(** [fail]: the message, of which the code is the end. *)
Definition config_error (code : string) : string := ("demo config " +:+ code)%string.

Definition record_of (v : value) (code : string) : result fields :=
  match as_object v with Some f => Ok f | None => Throw (config_error code) end.

Definition exactKeys (f : fields) (allowed : list string) (code : string) : result unit :=
  require_not (negb (only_keys allowed f)) (config_error code).

Definition integer (v : value) (code : string) (minimum maximum : Z) : result Z :=
  match v with
  | VNumber x =>
      match d_integer x with
      | Some n => if (n <? minimum) || (maximum <? n) then Throw (config_error code) else Ok n
      | None => Throw (config_error code)
      end
  | _ => Throw (config_error code)
  end.

(** [if (key in override) result[key] = integer(override[key], ...)] *)
Definition optional_integer (key : string) (f : fields) (code : string) (minimum maximum : Z) : result (option Z) :=
  if has key f then let? n := integer (get key f) code minimum maximum in Ok (Some n) else Ok None.

(** A URL, as the platform parses it. *)
Record ParsedUrl := mkUrl {
  url_protocol : jsstring; url_hostname : jsstring; url_port : jsstring; url_pathname : jsstring; url_search : jsstring;
  url_hash : jsstring; url_username : jsstring; url_password : jsstring; url_text : jsstring }.

Section Resolve.
(** [new URL(text)], nothing where it throws. *)
Context (new_URL : jsstring -> option ParsedUrl).

Definition port_text (port : Z) : jsstring := number_text port.

Definition fipsUrl (port : Z) : jsstring := js ("ws://" +:+ LOOPBACK_HOST +:+ ":")%string ++ port_text port ++ js "/bridge/fips".

Definition is_fips_url (port : Z) (u : ParsedUrl) : bool :=
  bool_decide (url_protocol u = js "ws:") && bool_decide (url_hostname u = js LOOPBACK_HOST)
  && bool_decide (url_port u = port_text port) && bool_decide (url_pathname u = js "/bridge/fips")
  && bool_decide (url_search u = []) && bool_decide (url_hash u = []) && bool_decide (url_username u = [])
  && bool_decide (url_password u = []).

(** [replace(/\/$/, '')] *)
Definition without_slash (s : jsstring) : jsstring :=
  match last s with Some 47 => removelast s | _ => s end.

Definition validateFipsUrl (text : jsstring) (port : Z) : result jsstring :=
  match new_URL text with
  | Some u => if is_fips_url port u then Ok (without_slash (url_text u)) else Throw (config_error "bridge_url_invalid")
  | None => Throw (config_error "bridge_url_invalid")
  end.

Record BridgePatch := mkBridgePatch { bp_browserPort : option Z; bp_fipsPort : option Z; bp_fipsUrl : option jsstring }.

Definition bridgeOverride (v : value) : result BridgePatch :=
  let? f := record_of v "bridge_override_invalid" in
  let? _ := exactKeys f ["browserPort"; "fipsPort"; "fipsUrl"]%string "bridge_override_unknown_key" in
  let? browserPort := optional_integer "browserPort" f "browser_port_invalid" 1 65535 in
  let? fipsPort := optional_integer "fipsPort" f "fips_port_invalid" 1 65535 in
  let? url := (if has "fipsUrl" f
               then match get "fipsUrl" f with VString s => Ok (Some s) | _ => Throw (config_error "bridge_url_invalid") end
               else Ok None) in
  Ok (mkBridgePatch browserPort fipsPort url).

Definition retryOverride (v : value) : result RetryConfig :=
  let? f := record_of v "retries_override_invalid" in
  let? _ := exactKeys f ["maxAttempts"; "minDelayMs"; "maxDelayMs"]%string "retries_override_unknown_key" in
  let? maxAttempts := optional_integer "maxAttempts" f "retry_attempts_invalid" 1 3 in
  let? minDelayMs := optional_integer "minDelayMs" f "retry_min_delay_invalid" 1 60000 in
  let? maxDelayMs := optional_integer "maxDelayMs" f "retry_max_delay_invalid" 1 60000 in
  Ok (mkRetry (default (rt_maxAttempts default_retries) maxAttempts) (default (rt_minDelayMs default_retries) minDelayMs)
        (default (rt_maxDelayMs default_retries) maxDelayMs)).

Definition acousticOverride (v : value) : result (option Z) :=
  let? f := record_of v "acoustic_override_invalid" in
  let? _ := exactKeys f ["fastGuardMs"]%string "acoustic_override_unknown_key" in
  optional_integer "fastGuardMs" f "fast_guard_invalid" 50 1500.

Definition heartbeatOverride (v : value) : result HeartbeatConfig :=
  let? f := record_of v "heartbeat_override_invalid" in
  let? _ := exactKeys f ["intervalMs"; "deadLinkTimeoutMs"]%string "heartbeat_override_unknown_key" in
  let? intervalMs := optional_integer "intervalMs" f "heartbeat_interval_invalid" 100 60000 in
  let? deadLinkTimeoutMs := optional_integer "deadLinkTimeoutMs" f "heartbeat_timeout_invalid" 200 300000 in
  Ok (mkHeartbeat (default (hb_intervalMs default_heartbeat) intervalMs)
        (default (hb_deadLinkTimeoutMs default_heartbeat) deadLinkTimeoutMs)).

(** [key in raw ? override(raw[key]) : fallback] *)
Definition patched {A} (key : string) (raw : fields) (override : value -> result A) (fallback : A) : result A :=
  if has key raw then override (get key raw) else Ok fallback.

Definition mtuOverride (v : value) : result Z :=
  let? f := record_of v "fips_override_invalid" in
  let? _ := exactKeys f ["linkMtu"]%string "fips_override_unknown_key" in
  let? mtu := optional_integer "linkMtu" f "sound_mtu_invalid" 1357 65535 in
  Ok (default default_mtu mtu).

Definition other (input : DemoRoleInput) : DemoRoleInput := match input with InputA => InputB | InputB => InputA end.

Definition role_of (input : DemoRoleInput) : Role := match input with InputA => RoleA | InputB => RoleB end.

Definition transports_of (input : DemoRoleInput) : list TransportPolicy :=
  match input with InputA => [TransportSound; TransportUdp true false false] | InputB => [TransportSound] end.

Definition candidate_with (fastGuardMs : option Z) (c : CalibrationCandidate) : CalibrationCandidate :=
  match fastGuardMs with
  | Some guard =>
      if String.eqb (cc_id c) fast_candidate
      then mkCandidate (cc_id c) (cc_profileId c) (cc_codec c) (cc_profile c) (cc_payloadBytes c) (cc_repetition c) guard
             (cc_playbackGain c) (cc_ackTimeoutMs c)
      else c
  | None => c
  end.

Definition parse_input (input : option jsstring) : option DemoRoleInput :=
  match input with
  | Some s => if bool_decide (s = js "a") then Some InputA else if bool_decide (s = js "b") then Some InputB else None
  | None => None
  end.

Definition resolveDemoConfig (input : option jsstring) (overrides : value) : result DemoConfig :=
  match parse_input input with
  | None => Throw "demo config role must be literal a or b"
  | Some input =>
      let? raw := (if is_undefined overrides then Ok [] else record_of overrides "override_invalid") in
      let? _ := exactKeys raw ["bridge"; "fips"; "retries"; "heartbeat"; "peerPublicKey"; "acoustic"]%string "override_unknown_key" in
      reject_if has "peerPublicKey" raw with config_error "peer_mapping_is_fixed";
      let? fastGuardMs := patched "acoustic" raw acousticOverride None in
      let? patch := patched "bridge" raw bridgeOverride (mkBridgePatch None None None) in
      let browserPort := default default_port (bp_browserPort patch) in
      let localFipsPort := default default_port (bp_fipsPort patch) in
      reject_if negb (browserPort =? localFipsPort) with config_error "bridge_ports_must_match";
      let? url := validateFipsUrl (default (fipsUrl localFipsPort) (bp_fipsUrl patch)) localFipsPort in
      let? linkMtu := patched "fips" raw mtuOverride default_mtu in
      let? retries := patched "retries" raw retryOverride default_retries in
      reject_if rt_maxDelayMs retries <? rt_minDelayMs retries with config_error "retry_bounds_invalid";
      let? heartbeat := patched "heartbeat" raw heartbeatOverride default_heartbeat in
      reject_if hb_deadLinkTimeoutMs heartbeat <=? hb_intervalMs heartbeat with config_error "heartbeat_bounds_invalid";
      let peer := IDENTITIES (other input) in
      Ok (mkDemoConfig input (role_of input) (IDENTITIES input) peer
            (mkBridgeConfig LOOPBACK_HOST browserPort localFipsPort url "/bridge/browser" "/bridge/fips")
            (mkFips linkMtu (id_publicKey peer) (FIPS_IPV6 input) (FIPS_IPV6 InputB) "/run/fips/control.sock" (transports_of input))
            default_proof ["quiet"%string] default_audio (map (candidate_with fastGuardMs) default_candidates) default_acoustic
            retries heartbeat)
  end.
End Resolve.

(** ** The public projection *)

Inductive TransportKind := KindSound | KindUdp.

Record PublicDemoConfig := mkPublic {
  pd_role : Role; pd_identityPublicKey : string; pd_peerPublicKey : string;
  pd_host : string; pd_browserPort : Z; pd_fipsPort : Z; pd_browserPath : string; pd_fipsPath : string;
  pd_linkMtu : Z; pd_expectedPeerPublicKey : string; pd_ipv6Address : string; pd_targetIpv6 : string;
  pd_transportKinds : list TransportKind; pd_proof : ProofConfig; pd_codecCapabilities : list string;
  pd_audioDefaults : AudioDefaults; pd_calibrationCandidates : list CalibrationCandidate; pd_acoustic : AcousticConfig;
  pd_retries : RetryConfig; pd_heartbeat : HeartbeatConfig }.

Definition transport_kind (t : TransportPolicy) : TransportKind := match t with TransportSound => KindSound | TransportUdp _ _ _ => KindUdp end.

Definition toPublicDemoConfig (c : DemoConfig) : PublicDemoConfig :=
  mkPublic (dc_role c) (id_publicKey (dc_identity c)) (id_publicKey (dc_peer c))
    (bg_host (dc_bridge c)) (bg_browserPort (dc_bridge c)) (bg_fipsPort (dc_bridge c)) (bg_browserPath (dc_bridge c))
    (bg_fipsPath (dc_bridge c)) (fp_linkMtu (dc_fips c)) (fp_expectedPeerPublicKey (dc_fips c)) (fp_ipv6Address (dc_fips c))
    (fp_targetIpv6 (dc_fips c)) (map transport_kind (fp_transports (dc_fips c))) (dc_proof c) (dc_codecCapabilities c)
    (dc_audioDefaults c) (dc_calibrationCandidates c) (dc_acoustic c) (dc_retries c) (dc_heartbeat c).

(** ** What a resolved configuration is like *)

Definition within (low high n : Z) : Prop := low <= n <= high.

(** A configuration the rest of the program may rely on. *)
Record config_ok (new_URL : jsstring -> option ParsedUrl) (c : DemoConfig) : Prop := {
  ok_role : dc_role c = role_of (dc_inputRole c);
  ok_identity : dc_identity c = IDENTITIES (dc_inputRole c) /\ dc_peer c = IDENTITIES (other (dc_inputRole c));
  ok_expected : fp_expectedPeerPublicKey (dc_fips c) = id_publicKey (dc_peer c);
  ok_ports : bg_browserPort (dc_bridge c) = bg_fipsPort (dc_bridge c) /\ within 1 65535 (bg_fipsPort (dc_bridge c));
  ok_host : bg_host (dc_bridge c) = LOOPBACK_HOST;
  ok_url : exists text u, new_URL text = Some u /\ is_fips_url (bg_fipsPort (dc_bridge c)) u = true
             /\ bg_fipsUrl (dc_bridge c) = without_slash (url_text u);
  ok_mtu : within 1357 65535 (fp_linkMtu (dc_fips c)) /\ ap_maximumPacketBytes (dc_acoustic c) <= fp_linkMtu (dc_fips c);
  ok_retries : within 1 3 (rt_maxAttempts (dc_retries c)) /\ 1 <= rt_minDelayMs (dc_retries c) <= rt_maxDelayMs (dc_retries c)
                 /\ rt_maxDelayMs (dc_retries c) <= 60000;
  ok_heartbeat : within 100 60000 (hb_intervalMs (dc_heartbeat c)) /\ within 200 300000 (hb_deadLinkTimeoutMs (dc_heartbeat c))
                   /\ hb_intervalMs (dc_heartbeat c) < hb_deadLinkTimeoutMs (dc_heartbeat c);
  ok_candidates : Forall (fun k => within 50 1500 (cc_guardMs k) /\ within 1 (ap_maximumBodyBytes (dc_acoustic c)) (cc_payloadBytes k)
                    /\ cc_playbackGain k <= al_maximumPlaybackGain (dc_acoustic c)) (dc_calibrationCandidates c)
                  /\ zlen (dc_calibrationCandidates c) <= al_maxCandidates (dc_acoustic c);
  ok_transports : In TransportSound (fp_transports (dc_fips c))
                  /\ Forall (fun t => match t with TransportSound => True | TransportUdp out accept adv => out = true /\ accept = false /\ adv = false end)
                       (fp_transports (dc_fips c))
                  /\ (dc_role c = RoleB -> fp_transports (dc_fips c) = [TransportSound]);
}.

Lemma integer_within v code low high n : integer v code low high = Ok n -> within low high n.
Proof.
  unfold integer, within. destruct v; try done. destruct (d_integer n0) as [z|]; [|done].
  destruct (_ || _) eqn:E; [done|]. intros [= <-]. bool_split. lia.
Qed.

Lemma optional_within key f code low high o : optional_integer key f code low high = Ok o ->
  forall fallback, within low high fallback -> within low high (default fallback o).
Proof.
  unfold optional_integer. intros H fallback Hf. destruct (has key f); [|by injection H as <-].
  destruct (integer _ _ _ _) as [n|] eqn:E; [|done]. injection H as <-. by eapply integer_within.
Qed.

Lemma patched_inv {A} key raw override (fallback a : A) :
  patched key raw override fallback = Ok a -> a = fallback \/ exists v, override v = Ok a.
Proof. unfold patched. destruct (has key raw); [eauto|]. intros [= <-]. by left. Qed.

Ltac ok_inv :=
  repeat match goal with
  | H : rbind ?m _ = Ok _ |- _ => let E := fresh "E" in destruct m eqn:E; cbn [rbind] in H; [|discriminate H]
  | H : Ok _ = Ok _ |- _ => injection H; clear H; intros; subst
  end.

Lemma bridgeOverride_ok v p : bridgeOverride v = Ok p ->
  within 1 65535 (default default_port (bp_browserPort p)) /\ within 1 65535 (default default_port (bp_fipsPort p)).
Proof.
  unfold bridgeOverride. intros H. ok_inv.
  split; cbn [bp_browserPort bp_fipsPort]; (eapply optional_within; [eassumption|unfold within, default_port; lia]).
Qed.

Lemma retryOverride_ok v r : retryOverride v = Ok r ->
  within 1 3 (rt_maxAttempts r) /\ within 1 60000 (rt_minDelayMs r) /\ within 1 60000 (rt_maxDelayMs r).
Proof.
  unfold retryOverride. intros H. ok_inv. cbn [rt_maxAttempts rt_minDelayMs rt_maxDelayMs].
  split; [|split]; (eapply optional_within; [eassumption|cbn; unfold within; lia]).
Qed.

Lemma heartbeatOverride_ok v h : heartbeatOverride v = Ok h ->
  within 100 60000 (hb_intervalMs h) /\ within 200 300000 (hb_deadLinkTimeoutMs h).
Proof.
  unfold heartbeatOverride. intros H. ok_inv. cbn [hb_intervalMs hb_deadLinkTimeoutMs].
  split; (eapply optional_within; [eassumption|cbn; unfold within; lia]).
Qed.

Lemma mtuOverride_ok v n : mtuOverride v = Ok n -> within 1357 65535 n.
Proof. unfold mtuOverride. intros H. ok_inv. eapply optional_within; [eassumption|unfold within, default_mtu; lia]. Qed.

Lemma acousticOverride_ok v o : acousticOverride v = Ok o -> match o with Some g => within 50 1500 g | None => True end.
Proof.
  unfold acousticOverride. intros H. ok_inv. unfold optional_integer in H. destruct (has _ _); ok_inv; [|done].
  by eapply integer_within.
Qed.

(** The configuration with other private keys. *)
Definition with_secrets (own peer : string) (c : DemoConfig) : DemoConfig :=
  mkDemoConfig (dc_inputRole c) (dc_role c) (mkIdentity (id_publicKey (dc_identity c)) own) (mkIdentity (id_publicKey (dc_peer c)) peer)
    (dc_bridge c) (dc_fips c) (dc_proof c) (dc_codecCapabilities c) (dc_audioDefaults c) (dc_calibrationCandidates c)
    (dc_acoustic c) (dc_retries c) (dc_heartbeat c).

Lemma candidates_ok fast : match fast with Some g => within 50 1500 g | None => True end ->
  Forall (fun k => within 50 1500 (cc_guardMs k) /\ within 1 217 (cc_payloadBytes k) /\ cc_playbackGain k <= 2)
    (map (candidate_with fast) default_candidates).
Proof.
  intros H. destruct fast as [g|]; cbn; repeat (constructor; [cbn; unfold within in *; lia|]); constructor.
Qed.

Lemma patched_retries raw r : patched "retries" raw retryOverride default_retries = Ok r ->
  within 1 3 (rt_maxAttempts r) /\ within 1 60000 (rt_minDelayMs r) /\ within 1 60000 (rt_maxDelayMs r).
Proof. intros [->|[v Hv]]%patched_inv; [cbn; unfold within; lia|by eapply retryOverride_ok]. Qed.

Lemma patched_heartbeat raw h : patched "heartbeat" raw heartbeatOverride default_heartbeat = Ok h ->
  within 100 60000 (hb_intervalMs h) /\ within 200 300000 (hb_deadLinkTimeoutMs h).
Proof. intros [->|[v Hv]]%patched_inv; [cbn; unfold within; lia|by eapply heartbeatOverride_ok]. Qed.

Lemma patched_bridge raw p : patched "bridge" raw bridgeOverride (mkBridgePatch None None None) = Ok p ->
  within 1 65535 (default default_port (bp_browserPort p)) /\ within 1 65535 (default default_port (bp_fipsPort p)).
Proof. intros [->|[v Hv]]%patched_inv; [cbn; unfold within, default_port; lia|by eapply bridgeOverride_ok]. Qed.

Lemma patched_mtu raw n : patched "fips" raw mtuOverride default_mtu = Ok n -> within 1357 65535 n.
Proof. intros [->|[v Hv]]%patched_inv; [unfold within, default_mtu; lia|by eapply mtuOverride_ok]. Qed.

Lemma patched_fast raw o : patched "acoustic" raw acousticOverride None = Ok o -> match o with Some g => within 50 1500 g | None => True end.
Proof. intros [->|[v Hv]]%patched_inv; [done|by eapply acousticOverride_ok]. Qed.

Lemma validateFipsUrl_ok new_URL text port url : validateFipsUrl new_URL text port = Ok url ->
  exists u, new_URL text = Some u /\ is_fips_url port u = true /\ url = without_slash (url_text u).
Proof. unfold validateFipsUrl. destruct (new_URL text) as [u|]; [|done]. destruct (is_fips_url port u) eqn:E; [|done]. intros [= <-]. by exists u. Qed.

Lemma parse_input_inv input i : parse_input input = Some i -> input = Some (js (match i with InputA => "a" | InputB => "b" end)).
Proof.
  unfold parse_input. destruct input as [s|]; [|done]. destruct (bool_decide_reflect (s = js "a")) as [->|]; [by intros [= <-]|].
  destruct (bool_decide_reflect (s = js "b")) as [->|]; [by intros [= <-]|done].
Qed.

(** C37: what [resolveDemoConfig] returns is well formed, whatever the overrides
    are: a role with its own identity and the other's as its only peer; one port
    for both endpoints and a loopback URL that names it; an MTU a packet fits;
    retries and heartbeat within bounds and in order; calibration candidates
    within the acoustic limits; on B no transport but sound, on A a second that
    only connects outward.  And the projection the browser may see is the same
    whatever the private keys are. *)
Theorem resolved_config_ok new_URL input overrides c :
  resolveDemoConfig new_URL input overrides = Ok c ->
  config_ok new_URL c
  /\ input = Some (js (match dc_inputRole c with InputA => "a" | InputB => "b" end))
  /\ forall own peer, toPublicDemoConfig (with_secrets own peer c) = toPublicDemoConfig c.
Proof.
  unfold resolveDemoConfig. intros H. destruct (parse_input input) as [i|] eqn:Ei; [|done].
  ok_inv. unfold require_not in *. repeat match goal with E : (if ?b then _ else _) = Ok _ |- _ => destruct b eqn:?; [discriminate E|clear E] end.
  bool_split. split; [|split; [by apply parse_input_inv|done]].
  repeat match goal with
  | E : patched "retries" _ _ _ = Ok _ |- _ => apply patched_retries in E
  | E : patched "heartbeat" _ _ _ = Ok _ |- _ => apply patched_heartbeat in E
  | E : patched "bridge" _ _ _ = Ok _ |- _ => apply patched_bridge in E
  | E : patched "fips" _ _ _ = Ok _ |- _ => apply patched_mtu in E
  | E : patched "acoustic" _ _ _ = Ok _ |- _ => apply patched_fast in E
  | E : validateFipsUrl _ _ _ = Ok _ |- _ => apply validateFipsUrl_ok in E as (u & Hu & Hok & ->)
  end.
  split; cbn [dc_inputRole dc_role dc_identity dc_peer dc_bridge dc_fips dc_acoustic dc_retries dc_heartbeat dc_calibrationCandidates
                bg_host bg_browserPort bg_fipsPort bg_fipsUrl fp_expectedPeerPublicKey fp_linkMtu fp_transports default_acoustic
                ap_maximumPacketBytes ap_maximumBodyBytes al_maxCandidates al_maximumPlaybackGain]; try done; try (unfold within in *; lia).
  - eexists _, u. split; [exact Hu|done].
  - split; [by apply candidates_ok|]. unfold zlen; cbn; lia.
  - split; [destruct i; by left|]. split; [destruct i; repeat constructor|]. by destruct i.
Qed.

(** The platform's parse of the one URL a configuration without overrides has. *)
Definition sample_URL (text : jsstring) : option ParsedUrl :=
  if bool_decide (text = fipsUrl 4310)
  then Some (mkUrl (js "ws:") (js LOOPBACK_HOST) (js "4310") (js "/bridge/fips") [] [] [] [] text) else None.

Definition sample_overrides : value := obj [("heartbeat", obj [("intervalMs", vint 250)]); ("acoustic", obj [("fastGuardMs", vint 60)])]%string.

Definition sample_demo_config : DemoConfig :=
  Eval vm_compute in match resolveDemoConfig sample_URL (Some (js "a")) sample_overrides with
                     | Ok c => c
                     | Throw _ => mkDemoConfig InputB RoleB (IDENTITIES InputB) (IDENTITIES InputA) (mkBridgeConfig LOOPBACK_HOST 0 0 [] LOOPBACK_HOST LOOPBACK_HOST)
                                    (mkFips 0 LOOPBACK_HOST LOOPBACK_HOST LOOPBACK_HOST LOOPBACK_HOST []) default_proof [] default_audio [] default_acoustic default_retries default_heartbeat
                     end.

Lemma resolved_config_ok_witness :
  resolveDemoConfig sample_URL (Some (js "a")) sample_overrides = Ok sample_demo_config /\ config_ok sample_URL sample_demo_config.
Proof.
  split; [vm_compute; reflexivity|].
  apply (proj1 (resolved_config_ok sample_URL (Some (js "a")) sample_overrides sample_demo_config ltac:(vm_compute; reflexivity))).
Defined.
