(* ===== verification/Audio.v ===== *)
(** * The page's audio ([apps/modem-ui/src/audio.ts])

    Arming the microphone, playing what the bridge sends, and resetting.  The
    browser's objects - contexts, streams, worklets, sources - are numbered; the
    calls the code makes on them are logged, and what they answer comes with the
    events.  An arm in progress is kept with the variables of its body and the
    promise it awaits.  In the texts of preflight failures the observed value is
    a field beside the text. *)

From stdpp Require Import base list numbers option strings.
From Stdlib Require Import ZArith Lia SpecFloat.
From S2P Require Import Prelude Utf8 Doubles Json Fwav Qualification Report BridgePackets CyrinxWorker.

Definition SAMPLE_RATE : Z := 48000.
Definition PCM_PLAYBACK_MESSAGE_TYPE : Z := 4.
Definition PCM_FLOAT32_ENCODING : Z := 1.
Definition MAX_BRIDGE_CAPTURE_BUFFER_BYTES : Z := 256 * 1024.
Definition MAX_SCHEDULED_HORIZON_MS : Z := 2000.

(** ** Evidence of the applied settings *)

Inductive PermissionState := PermissionGranted | PermissionDenied | PermissionUnknown.
Inductive WorkletState := WorkletReady | WorkletUnavailable | WorkletUnknown.
Inductive PageBridgeState := BridgeConnected | BridgeDisconnected | BridgeUnknown.

#[export] Instance PermissionState_eq_dec : EqDecision PermissionState.
Proof. solve_decision. Defined.
#[export] Instance WorkletState_eq_dec : EqDecision WorkletState.
Proof. solve_decision. Defined.
#[export] Instance PageBridgeState_eq_dec : EqDecision PageBridgeState.
Proof. solve_decision. Defined.

(** A setting the browser may not report is a value, perhaps [undefined]. *)
Record AppliedAudioEvidence := mkEvidence {
  ae_epoch : Z; ae_microphoneLabel : jsstring; ae_permission : PermissionState; ae_contextState : jsstring;
  ae_contextSampleRate : value; ae_inputDeviceSampleRate : value; ae_captureSampleRate : value;
  ae_inputDeviceChannels : value; ae_captureChannels : value; ae_echoCancellation : value; ae_noiseSuppression : value;
  ae_autoGainControl : value; ae_workletState : WorkletState; ae_bridgeState : PageBridgeState }.

(** Admits a capture frame only when all of it fits. *)
Definition canBufferPcmCaptureFrame (bufferedAmount frameByteLength : Z) : bool :=
  is_safe_integer bufferedAmount && (0 <=? bufferedAmount) && is_safe_integer frameByteLength && (0 <? frameByteLength)
  && (frameByteLength <=? MAX_BRIDGE_CAPTURE_BUFFER_BYTES)
  && (bufferedAmount <=? MAX_BRIDGE_CAPTURE_BUFFER_BYTES - frameByteLength).

(** A failed requirement: what was asked, and what was seen. *)
Record PreflightFailure := mkFailure { pf_what : string; pf_observed : value }.

Definition is_false (v : value) : bool := match v with VBool b => negb b | _ => false end.

Definition permission_text (p : PermissionState) : string :=
  match p with PermissionGranted => "granted" | PermissionDenied => "denied" | PermissionUnknown => "unknown" end.
Definition worklet_text (w : WorkletState) : string :=
  match w with WorkletReady => "ready" | WorkletUnavailable => "unavailable" | WorkletUnknown => "unknown" end.
Definition bridge_text (b : PageBridgeState) : string :=
  match b with BridgeConnected => "connected" | BridgeDisconnected => "disconnected" | BridgeUnknown => "unknown" end.

Definition requirements (e : AppliedAudioEvidence) : list (bool * PreflightFailure) :=
  [(bool_decide (ae_permission e = PermissionGranted),
    mkFailure "permission is " (vstr (permission_text (ae_permission e))));
   (bool_decide (ae_contextState e = js "running"), mkFailure "audio context state is , not running" (VString (ae_contextState e)));
   (is_number (ae_contextSampleRate e) SAMPLE_RATE, mkFailure "context sample rate is , not 48000" (ae_contextSampleRate e));
   (is_number (ae_captureSampleRate e) SAMPLE_RATE, mkFailure "codec capture sample rate is , not 48000" (ae_captureSampleRate e));
   (is_number (ae_inputDeviceSampleRate e) 44100 || is_number (ae_inputDeviceSampleRate e) SAMPLE_RATE,
    mkFailure "input-device sample rate is , not 44100 or 48000" (ae_inputDeviceSampleRate e));
   (is_number (ae_captureChannels e) 1, mkFailure "codec capture channel count is , not 1" (ae_captureChannels e));
   (is_number (ae_inputDeviceChannels e) 1 || is_number (ae_inputDeviceChannels e) 2,
    mkFailure "input-device channel count is , not 1 or 2" (ae_inputDeviceChannels e));
   (is_false (ae_echoCancellation e), mkFailure "echo cancellation is " (ae_echoCancellation e));
   (is_false (ae_noiseSuppression e), mkFailure "noise suppression is " (ae_noiseSuppression e));
   (is_false (ae_autoGainControl e), mkFailure "automatic gain control is " (ae_autoGainControl e));
   (bool_decide (ae_workletState e = WorkletReady), mkFailure "AudioWorklet status is " (vstr (worklet_text (ae_workletState e))));
   (bool_decide (ae_bridgeState e = BridgeConnected), mkFailure "local bridge status is " (vstr (bridge_text (ae_bridgeState e))))].

(** The first requirement that fails; ready when there is none. *)
Definition evaluateAppliedSettings (e : AppliedAudioEvidence) : option PreflightFailure :=
  (fun r : bool * PreflightFailure => r.2) <$> List.find (fun r => negb r.1) (requirements e).

(** What a track says of itself: [label] and [getSettings()]. *)
Record MediaTrack := mkTrack {
  tr_label : jsstring; tr_sampleRate : value; tr_channelCount : value; tr_echoCancellation : value;
  tr_noiseSuppression : value; tr_autoGainControl : value }.

(** An [AudioContext], with the clock as it was last read. *)
Record BrowserAudioContext := mkContext {
  cx_state : jsstring; cx_sampleRate : double; cx_currentTime : double; cx_audioWorklet : bool }.

Definition booleanSetting (v : value) : value := match v with VBool _ => v | _ => VUndefined end.

Definition toEvidence (epoch : Z) (context : BrowserAudioContext) (track : MediaTrack) (workletState : WorkletState) :
    AppliedAudioEvidence :=
  mkEvidence epoch (if bool_decide (tr_label track = []) then js "Unavailable" else tr_label track) PermissionGranted
    (cx_state context) (VNumber (cx_sampleRate context)) (tr_sampleRate track) (VNumber (cx_sampleRate context))
    (tr_channelCount track) (vint 1) (booleanSetting (tr_echoCancellation track)) (booleanSetting (tr_noiseSuppression track))
    (booleanSetting (tr_autoGainControl track)) workletState BridgeConnected.

(** ** Playback frames *)

(** Samples are the bytes of their floats; [guardSamples] is absent when zero. *)
Record PcmPlaybackChunk := mkChunk {
  ch_epoch : Z; ch_sequence : Z; ch_firstSampleIndex : Z; ch_sampleRate : Z; ch_samples : bytes; ch_byteLength : Z;
  ch_durationMs : double; ch_guardSamples : option Z }.

Definition sample_count (samples : bytes) : Z := zlen samples / 4.

Definition output_samples (chunk : PcmPlaybackChunk) : Z :=
  sample_count (ch_samples chunk) + default 0 (ch_guardSamples chunk).

Definition validatePcmPlaybackFrame (data : bytes) (expectedEpoch : Z) : result PcmPlaybackChunk :=
  reject_if zlen data <? FWAV_HEADER_BYTES with "PCM playback frame is shorter than the FWAV header";
  reject_if 256 * 1024 <? zlen data with "PCM playback frame exceeds the 256 KiB cap";
  reject_if negb (bool_decide (slice data 0 4 = FWAV_MAGIC)) with "PCM playback magic is invalid";
  reject_if negb (read_le 1 4 data =? 1) with "PCM playback version is unsupported";
  reject_if negb (read_le 1 5 data =? PCM_PLAYBACK_MESSAGE_TYPE) with "PCM playback type is invalid";
  let payloadBytes := read_le 4 8 data in
  reject_if negb (payloadBytes =? zlen data - FWAV_HEADER_BYTES) with "PCM playback length does not match payload";
  let epoch := read_le 4 12 data in
  reject_if negb (epoch =? expectedEpoch) with "PCM playback epoch is stale";
  let sampleRate := read_le 4 24 data in
  reject_if negb (sampleRate =? SAMPLE_RATE) with "PCM playback sample rate is not 48000";
  reject_if negb (read_le 2 28 data =? 1) with "PCM playback channel count is not 1";
  reject_if negb (read_le 2 30 data =? PCM_FLOAT32_ENCODING) with "PCM playback encoding is not Float32";
  reject_if (payloadBytes <=? PCM_SAMPLE_INDEX_BYTES) || negb ((payloadBytes - PCM_SAMPLE_INDEX_BYTES) mod 4 =? 0)
    with "PCM playback Float32 payload is unaligned";
  let samples := drop 40 data in
  let flags := read_le 2 6 data in
  reject_if negb (flags =? 0) && negb (flags =? CYRINX_PCM_PLAYBACK_FLAG) with "PCM playback flags are unsupported";
  reject_if (flags =? CYRINX_PCM_PLAYBACK_FLAG) && negb (sample_count samples =? CYRINX_FRAME_SAMPLES)
    with "Cyrinx PCM frame has unexpected geometry";
  let guardSamples := if flags =? CYRINX_PCM_PLAYBACK_FLAG then Some CYRINX_GUARD_SAMPLES else None in
  Ok (mkChunk epoch (read_le 8 16 data) (read_le 8 32 data) sampleRate samples payloadBytes
        (d_mul (d_div (d_of_Z (sample_count samples + default 0 guardSamples)) (d_of_Z sampleRate)) (d_of_Z 1000))
        guardSamples).

(** ** The playback queue *)

Record PcmPlaybackQueue := mkPlaybackQueue {
  pq_chunks : list PcmPlaybackChunk; pq_bytes : Z; pq_durationMs : double; pq_highWaterBytes : Z;
  pq_highWaterDurationMs : double; pq_discontinuities : Z; pq_lastEnd : option Z }.

#[export] Instance eta_PcmPlaybackQueue : Eta PcmPlaybackQueue := fun q =>
  mkPlaybackQueue (pq_chunks q) (pq_bytes q) (pq_durationMs q) (pq_highWaterBytes q) (pq_highWaterDurationMs q)
    (pq_discontinuities q) (pq_lastEnd q).

Definition createPlaybackQueue : PcmPlaybackQueue := mkPlaybackQueue [] 0 (d_of_Z 0) 0 (d_of_Z 0) 0 None.

Record PlaybackMetrics := mkMetrics {
  pm_queuedBytes : Z; pm_queuedDurationMs : double; pm_highWaterBytes : Z; pm_highWaterDurationMs : double;
  pm_discontinuities : Z; pm_scheduledSources : Z }.

Definition queue_metrics (q : PcmPlaybackQueue) (scheduled : Z) : PlaybackMetrics :=
  mkMetrics (pq_bytes q) (pq_durationMs q) (pq_highWaterBytes q) (pq_highWaterDurationMs q) (pq_discontinuities q) scheduled.

Definition maxBytes : Z := 256 * 1024.
Definition maxDurationMs : Z := 2000.

Definition queue_enqueue (chunk : PcmPlaybackChunk) : M PcmPlaybackQueue unit :=
  let! q := mget in
  if (maxBytes <? pq_bytes q + ch_byteLength chunk)
     || d_ltb (d_of_Z maxDurationMs) (d_add (pq_durationMs q) (ch_durationMs chunk))
  then mthrow "PCM playback queue overflow"
  else if match pq_lastEnd q with Some lastEnd => negb (ch_firstSampleIndex chunk =? lastEnd) | None => false end
  then pq_discontinuities <== pq_discontinuities q + 1;; mthrow "PCM playback discontinuity"
  else
    pq_lastEnd <== Some (ch_firstSampleIndex chunk + output_samples chunk);;
    pq_chunks <== (pq_chunks q ++ [chunk]);;
    pq_bytes <== pq_bytes q + ch_byteLength chunk;;
    pq_durationMs <== d_add (pq_durationMs q) (ch_durationMs chunk);;
    pq_highWaterBytes <== Z.max (pq_highWaterBytes q) (pq_bytes q + ch_byteLength chunk);;
    pq_highWaterDurationMs <== d_max (pq_highWaterDurationMs q) (d_add (pq_durationMs q) (ch_durationMs chunk)).

Definition queue_dequeue : M PcmPlaybackQueue (option PcmPlaybackChunk) :=
  let! q := mget in
  match pq_chunks q with
  | [] => mret None
  | chunk :: rest =>
      pq_chunks <== rest;;
      pq_bytes <== pq_bytes q - ch_byteLength chunk;;
      pq_durationMs <== d_sub (pq_durationMs q) (ch_durationMs chunk);;
      mret (Some chunk)
  end.

Definition queue_clear (q : PcmPlaybackQueue) : PcmPlaybackQueue :=
  set pq_chunks (fun _ => []) (set pq_bytes (fun _ => 0) (set pq_durationMs (fun _ => d_of_Z 0) (set pq_lastEnd (fun _ => None) q))).

(** ** The module's state *)

(** Calls on the browser's objects, in the order they are made. *)
Inductive AudioCall :=
  | CallCreate (context : nat)
  | CallClose (context : nat)
  | CallMicrophone (stream : nat)
  | CallStopTracks (stream : nat)
  | CallConnect (worklet : nat)
  | CallDisconnect (worklet : nat)
  | CallStop (source : nat)
  | CallDetach (source : nat)
  | CallCapture (worklet : nat) (batch : value).

(** What playback went through, the latest first: an arm that succeeded, a chunk
    that started on its source, a start that failed, and the end of a reset,
    which forgets the last sequence. *)
Inductive Moment := Armed | Played (source : nat) (chunk : PcmPlaybackChunk) | Broken | Forgotten.

(** What an arm awaits. *)
Inductive ArmWait :=
  | AwResume
  | AwMicrophone
  | AwModule (track : MediaTrack)
  | AwWorklet (track : MediaTrack) (prepared : result nat)
  | AwClose (error : string).

Record ArmJob := mkArm {
  aj_epoch : Z; aj_context : option nat; aj_stream : option nat; aj_worklet : option nat; aj_wait : ArmWait }.

#[export] Instance eta_ArmJob : Eta ArmJob := fun j =>
  mkArm (aj_epoch j) (aj_context j) (aj_stream j) (aj_worklet j) (aj_wait j).

Record Audio := mkAudio {
  au_currentEpoch : Z;
  au_context : option nat;
  au_stream : option nat;
  au_worklet : option nat;
  au_activeArm : option (Z * Z);          (* epoch and generation *)
  au_armGeneration : Z;
  au_evidence : option AppliedAudioEvidence;
  au_queue : option PcmPlaybackQueue;
  au_nextPlaybackTime : double;
  au_lastPlaybackSequence : Z;
  au_scheduledSources : list nat;
  au_pendingPlayback : option nat;        (* its source; the promise is known by it *)
  au_captureHandler : bool;
  (* the bodies in progress: arms by generation, resets that await a close *)
  au_arms : list (Z * ArmJob);
  au_resets : nat;
  (* the browser: its contexts, which worklets post to a listener and for which
     epoch, the next object, the calls made; how promises of playbacks were
     settled, what was played, and how arms ended *)
  au_contexts : list (nat * BrowserAudioContext);
  au_listening : list (nat * Z);
  au_next : nat;
  au_calls : list AudioCall;
  au_settled : list (nat * bool);
  au_played : list Moment;
  au_armed : list (Z * result AppliedAudioEvidence);
}.

#[export] Instance eta_Audio : Eta Audio := fun a =>
  mkAudio (au_currentEpoch a) (au_context a) (au_stream a) (au_worklet a) (au_activeArm a) (au_armGeneration a)
    (au_evidence a) (au_queue a) (au_nextPlaybackTime a) (au_lastPlaybackSequence a) (au_scheduledSources a)
    (au_pendingPlayback a) (au_captureHandler a) (au_arms a) (au_resets a) (au_contexts a) (au_listening a) (au_next a)
    (au_calls a) (au_settled a) (au_played a) (au_armed a).

Definition new_audio : Audio :=
  mkAudio 0 None None None None 0 None None (d_of_Z 0) (-1) [] None false [] 0 [] [] 0 [] [] [] [].

Abbreviation AM := (M Audio) (only parsing).

Definition call (c : AudioCall) : AM unit := mmodify (set au_calls (fun l => l ++ [c])).

Definition happened (m : Moment) : AM unit := mmodify (set au_played (cons m)).

Definition fresh : AM nat :=
  let! a := mget in au_next <== S (au_next a);; mret (au_next a).

Definition context_of (context : nat) (a : Audio) : BrowserAudioContext :=
  default (mkContext (js "closed") (d_of_Z 0) (d_of_Z 0) false) (map_get context (au_contexts a)).

Definition context_is (state : string) (context : nat) (a : Audio) : bool :=
  bool_decide (cx_state (context_of context a) = js state).

Definition assertCurrent (epoch : Z) : AM unit :=
  let! a := mget in
  if epoch =? au_currentEpoch a then mskip else mthrow "stale audio completion".

(** [currentQueue?.clear()] *)
Definition clear_queue : AM unit := mmodify (set au_queue (fmap queue_clear)).

(** ** Arming *)

Definition arm_of (generation : Z) (a : Audio) : ArmJob :=
  default (mkArm 0 None None None AwResume) (map_get generation (au_arms a)).

(** An assignment to a variable of the body. *)
Definition assign (generation : Z) (f : ArmJob -> ArmJob) : AM unit :=
  mmodify (set au_arms (map (fun p => if p.1 =? generation then (p.1, f p.2) else p))).

Definition wait_for (generation : Z) (w : ArmWait) : AM unit := assign generation (set aj_wait (fun _ => w)).

Definition finishArm (generation : Z) : AM unit :=
  let! a := mget in
  match au_activeArm a with
  | Some (_, active) => if active =? generation then au_activeArm <== None else mskip
  | None => mskip
  end.

(** The body ends: [finally], and its promise settles. *)
Definition arm_ended (generation : Z) (r : result AppliedAudioEvidence) : AM unit :=
  finishArm generation;;
  mmodify (set au_arms (map_delete generation));;
  mmodify (set au_armed (fun l => l ++ [(generation, r)])).

(** [catch], from where the context is closed. *)
Definition arm_cleanup (generation : Z) (error : string) : AM unit :=
  let! a := mget in
  let j := arm_of generation a in
  let ownsCurrentAudio := bool_decide (au_context a = aj_context j) in
  (if bool_decide (au_worklet a = aj_worklet j) then au_worklet <== None else mskip);;
  (if bool_decide (au_stream a = aj_stream j) then au_stream <== None else mskip);;
  (if bool_decide (au_context a = aj_context j) then au_context <== None else mskip);;
  (if ownsCurrentAudio then clear_queue;; au_queue <== None;; au_evidence <== None else mskip);;
  arm_ended generation (Throw error).

(** [worklet.port.onmessage = null; worklet.disconnect()] *)
Definition release_worklet (w : nat) : AM unit :=
  mmodify (set au_listening (map_delete w));; call (CallDisconnect w).

Definition when_some {A} (o : option A) (f : A -> AM unit) : AM unit :=
  match o with Some x => f x | None => mskip end.

(** [catch (error)] *)
Definition arm_catch (generation : Z) (error : string) : AM unit :=
  let! a := mget in
  let j := arm_of generation a in
  when_some (aj_worklet j) release_worklet;;
  when_some (aj_stream j) (fun s => call (CallStopTracks s));;
  let! a := mget in
  match aj_context j with
  | Some c =>
      if context_is "closed" c a then arm_cleanup generation error
      else call (CallClose c);; wait_for generation (AwClose error)
  | None => arm_cleanup generation error
  end.

(** A stretch of the body between two awaits. *)
Definition in_body (generation : Z) (m : AM unit) : AM unit := mtry m (arm_catch generation).

(** After [await context.resume()]. *)
Definition arm_resumed (generation : Z) (r : result unit) : AM unit :=
  in_body generation (
    mlift r;;
    let! a := mget in
    assertCurrent (aj_epoch (arm_of generation a));;
    wait_for generation AwMicrophone).

(** A stream's first audio track, if it has one. *)
Definition MediaStream : Type := option MediaTrack.

(** After [await environment.getUserMedia(mediaConstraints)]. *)
Definition arm_microphone (generation : Z) (r : result MediaStream) : AM unit :=
  in_body generation (
    let! tracks := mlift r in
    let! stream := fresh in
    call (CallMicrophone stream);;
    assign generation (set aj_stream (fun _ => Some stream));;
    let! a := mget in
    if negb (aj_epoch (arm_of generation a) =? au_currentEpoch a)
    then call (CallStopTracks stream);; mthrow "stale audio completion"
    else
      au_stream <== Some stream;;
      match tracks with
      | None => mthrow "microphone is unavailable"
      | Some track =>
          if match aj_context (arm_of generation a) with Some c => cx_audioWorklet (context_of c a) | None => false end
          then wait_for generation (AwModule track)
          else wait_for generation (AwWorklet track (Throw "AudioWorklet is unavailable"))
      end).

(** What the calls of [prepareWorklet] answer: [createWorklet],
    [createMediaStreamSource], and the connections of the [try]. *)
Record WorkletIO := mkWorkletIO { wi_create : bool; wi_source : bool; wi_connect : bool }.

(** [prepareWorklet] after [await context.audioWorklet.addModule(..)]. *)
Definition prepareWorklet (epoch : Z) (r : result unit) (io : WorkletIO) : AM nat :=
  mlift r;;
  assertCurrent epoch;;
  if negb (wi_create io) || negb (wi_source io) then mthrow "worklet is unavailable"
  else
    let! worklet := fresh in
    call (CallConnect worklet);;
    if wi_connect io
    then mmodify (set au_listening (fun l => l ++ [(worklet, epoch)]));; mret worklet
    else call (CallDisconnect worklet);; mthrow "worklet is unavailable".

(** The computation with what came of it. *)
Definition attempt {A} (m : AM A) : AM (result A) :=
  mtry (let! x := m in mret (Ok x)) (fun error => mret (Throw error)).

(** The body awaits the promise of [prepareWorklet], fulfilled or not. *)
Definition arm_module (generation : Z) (r : result unit) (io : WorkletIO) : AM unit :=
  let! a := mget in
  let j := arm_of generation a in
  match aj_wait j with
  | AwModule track =>
      let! prepared := attempt (prepareWorklet (aj_epoch j) r io) in
      wait_for generation (AwWorklet track prepared)
  | _ => mskip
  end.

(** After [worklet = await prepareWorklet(..)]. *)
Definition arm_worklet (generation : Z) : AM unit :=
  in_body generation (
    let! a := mget in
    let j := arm_of generation a in
    match aj_wait j, aj_context j with
    | AwWorklet track prepared, Some context =>
        let! worklet := mlift prepared in
        assign generation (set aj_worklet (fun _ => Some worklet));;
        assertCurrent (aj_epoch j);;
        au_worklet <== Some worklet;;
        let evidence := toEvidence (aj_epoch j) (context_of context a) track WorkletReady in
        match evaluateAppliedSettings evidence with
        | Some failure => mthrow (pf_what failure)
        | None =>
            au_queue <== Some createPlaybackQueue;;
            au_nextPlaybackTime <== cx_currentTime (context_of context a);;
            au_lastPlaybackSequence <== -1;;
            happened Armed;;
            au_evidence <== Some evidence;;
            arm_ended generation (Ok evidence)
        end
    | _, _ => mskip
    end).

(** After [await context.close()] in the [catch]. *)
Definition arm_closed (generation : Z) : AM unit :=
  let! a := mget in
  match aj_wait (arm_of generation a) with AwClose error => arm_cleanup generation error | _ => mskip end.

(** The body of an arm, to its first await; nothing is created when the
    constructor of the context throws. *)
Definition arm_body (generation epoch : Z) (created : option BrowserAudioContext) : AM unit :=
  mmodify (set au_arms (fun l => l ++ [(generation, mkArm epoch None None None AwResume)]));;
  in_body generation (
    match created with
    | None => mthrow "audio context is unavailable"
    | Some cx =>
        let! context := fresh in
        call (CallCreate context);;
        mmodify (set au_contexts (fun l => l ++ [(context, cx)]));;
        assign generation (set aj_context (fun _ => Some context));;
        au_context <== Some context
    end).

(** The promise [armAudio] returns. *)
Inductive ArmPromise := ArmGeneration (generation : Z) | ArmRejected (message : string) | ArmResolved (e : AppliedAudioEvidence).

Definition armAudio (epoch : Z) (created : option BrowserAudioContext) : AM ArmPromise :=
  let! a := mget in
  match au_activeArm a with
  | Some (activeEpoch, generation) =>
      if activeEpoch =? epoch then mret (ArmGeneration generation)
      else mret (ArmRejected "audio reset is required before changing epoch")
  | None =>
      match au_evidence a, au_context a with
      | Some e, Some c =>
          if (ae_epoch e =? epoch) && context_is "running" c a then mret (ArmResolved e)
          else mret (ArmRejected "audio reset is required before re-arm")
      | _, _ =>
          if is_some (au_context a) || is_some (au_stream a) || is_some (au_worklet a)
          then mret (ArmRejected "audio reset is required before re-arm")
          else
            au_currentEpoch <== epoch;;
            let generation := au_armGeneration a + 1 in
            au_armGeneration <== generation;;
            arm_body generation epoch created;;
            au_activeArm <== Some (epoch, generation);;
            mret (ArmGeneration generation)
      end
  end.

(** ** Playing *)

(** Which of the browser's calls succeed: [createBuffer] and the copies,
    [createBufferSource], [connect], [start]. *)
Record PlaybackIO := mkPlaybackIO { pi_buffer : bool; pi_source : bool; pi_connect : bool; pi_start : bool }.

Definition settle (source : nat) (resolved : bool) : AM unit :=
  mmodify (set au_settled (fun l => l ++ [(source, resolved)])).

(** Run an operation of the current queue. *)
Definition on_queue {A} (m : M PcmPlaybackQueue A) : AM A := fun a =>
  match au_queue a with
  | Some q => let p := m q in (p.1, set au_queue (fun _ => Some p.2) a)
  | None => (Throw "audio playback is not armed", a)
  end.

Definition unschedule (source : nat) : AM unit :=
  mmodify (set au_scheduledSources (List.filter (fun s => negb (s =? source)%nat)));;
  call (CallDetach source);;
  let! a := mget in
  if bool_decide (au_pendingPlayback a = Some source) then au_pendingPlayback <== None else mskip.

(** What the [catch] of [enqueuePcmPlayback] ends with. *)
Definition playback_failed : AM nat := clear_queue;; happened Broken;; mthrow "PCM playback failed".

(** The [try] of [enqueuePcmPlayback], with its [catch]. *)
Definition start_playback (chunk : PcmPlaybackChunk) (startAt : double) (io : PlaybackIO) : AM nat :=
  if negb (pi_buffer io) || negb (pi_source io) then playback_failed
  else
    let! source := fresh in
    if negb (pi_connect io) then unschedule source;; playback_failed
    else
      mmodify (set au_scheduledSources (fun l => l ++ [source]));;
      au_pendingPlayback <== Some source;;
      if negb (pi_start io)
      then unschedule source;; settle source false;; playback_failed
      else
        happened (Played source chunk);;
        au_nextPlaybackTime <== d_add startAt (d_div (d_of_Z (output_samples chunk)) (d_of_Z (ch_sampleRate chunk)));;
        au_lastPlaybackSequence <== ch_sequence chunk;;
        on_queue queue_dequeue;;
        mret source.

Definition enqueuePcmPlayback (chunk : PcmPlaybackChunk) (io : PlaybackIO) : AM (PlaybackMetrics * nat) :=
  assertCurrent (ch_epoch chunk);;
  let! a := mget in
  match au_context a, au_queue a with
  | Some context, Some _ =>
      if negb (context_is "running" context a) then mthrow "audio playback is not armed"
      else if ch_sequence chunk <=? au_lastPlaybackSequence a then mthrow "PCM playback sequence is a replay"
      else if negb (length (au_scheduledSources a) =? 0)%nat then mthrow "PCM playback already has a scheduled source"
      else
        let currentTime := cx_currentTime (context_of context a) in
        let startAt := d_max currentTime (au_nextPlaybackTime a) in
        if d_ltb (d_of_Z MAX_SCHEDULED_HORIZON_MS)
             (d_mul (d_add (d_sub startAt currentTime) (d_div (d_of_Z (output_samples chunk)) (d_of_Z (ch_sampleRate chunk)))) (d_of_Z 1000))
        then mthrow "PCM playback scheduled horizon overflow"
        else
          on_queue (queue_enqueue chunk);;
          let! source := start_playback chunk startAt io in
          let! a := mget in
          match au_queue a with
          | Some q => mret (queue_metrics q (zlen (au_scheduledSources a)), source)
          | None => mthrow "audio playback is not armed"
          end
  | _, _ => mthrow "audio playback is not armed"
  end.

(** The source's [ended] event; it is heard once. *)
Definition playback_ended (source : nat) : AM unit :=
  let! a := mget in
  mmodify (set au_scheduledSources (List.filter (fun s => negb (s =? source)%nat)));;
  if bool_decide (au_pendingPlayback a = Some source)
  then au_pendingPlayback <== None;; settle source true
  else mskip.

(** ** Resetting *)

(** After [await context.close()]. *)
Definition reset_closed : AM unit :=
  au_nextPlaybackTime <== d_of_Z 0;;
  au_lastPlaybackSequence <== -1;;
  happened Forgotten.

Fixpoint stop_all (sources : list nat) : AM unit :=
  match sources with [] => mskip | s :: rest => call (CallStop s);; call (CallDetach s);; stop_all rest end.

Definition resetAudio : AM unit :=
  let! a := mget in
  au_currentEpoch <== au_currentEpoch a + 1;;
  au_activeArm <== None;;
  au_evidence <== None;;
  au_captureHandler <== false;;
  au_pendingPlayback <== None;;
  when_some (au_pendingPlayback a) (fun source => settle source false);;
  clear_queue;;
  au_queue <== None;;
  au_scheduledSources <== [];;
  stop_all (au_scheduledSources a);;
  when_some (au_worklet a) release_worklet;;
  au_worklet <== None;;
  when_some (au_stream a) (fun s => call (CallStopTracks s));;
  au_stream <== None;;
  au_context <== None;;
  match au_context a with
  | Some c =>
      if context_is "closed" c a then reset_closed
      else call (CallClose c);; mmodify (set au_resets S)
  | None => reset_closed
  end.

(** ** The page's events *)

Inductive AudioEvent :=
  | ArmCalled (epoch : Z) (created : option BrowserAudioContext)
  | Resumed (generation : Z) (r : result unit)
  | Microphone (generation : Z) (r : result MediaStream)
  | ModuleAdded (generation : Z) (r : result unit) (io : WorkletIO)
  | WorkletPrepared (generation : Z)
  | ArmClosed (generation : Z)
  | ResetCalled
  | ResetClosed
  | PlayCalled (chunk : PcmPlaybackChunk) (io : PlaybackIO)
  | SourceEnded (source : nat)
  | ContextChanged (context : nat) (cx : BrowserAudioContext)
  | HandlerSet (present : bool)
  | WorkletPosted (worklet : nat) (batch : value).

(** A settled promise wakes the body that awaits it. *)
Definition waking (generation : Z) (expected : ArmWait -> bool) (m : AM unit) : AM unit :=
  let! a := mget in
  match map_get generation (au_arms a) with
  | Some j => if expected (aj_wait j) then m else mskip
  | None => mskip
  end.

(** A context that is closed stays closed. *)
Definition context_changed (context : nat) (cx : BrowserAudioContext) : AM unit :=
  let! a := mget in
  if is_some (map_get context (au_contexts a)) && negb (context_is "closed" context a)
  then au_contexts <== map_set context cx (au_contexts a)
  else mskip.

(** [worklet.port.onmessage] *)
Definition worklet_posted (worklet : nat) (batch : value) : AM unit :=
  let! a := mget in
  match map_get worklet (au_listening a) with
  | Some epoch => if (epoch =? au_currentEpoch a) && au_captureHandler a then call (CallCapture worklet batch) else mskip
  | None => mskip
  end.

Definition audio_handler (e : AudioEvent) : AM unit :=
  match e with
  | ArmCalled epoch created => armAudio epoch created;; mskip
  | Resumed g r => waking g (fun w => match w with AwResume => true | _ => false end) (arm_resumed g r)
  | Microphone g r => waking g (fun w => match w with AwMicrophone => true | _ => false end) (arm_microphone g r)
  | ModuleAdded g r io => waking g (fun w => match w with AwModule _ => true | _ => false end) (arm_module g r io)
  | WorkletPrepared g => waking g (fun w => match w with AwWorklet _ _ => true | _ => false end) (arm_worklet g)
  | ArmClosed g => waking g (fun w => match w with AwClose _ => true | _ => false end) (arm_closed g)
  | ResetCalled => resetAudio
  | ResetClosed =>
      let! a := mget in
      match au_resets a with O => mskip | S n => au_resets <== n;; reset_closed end
  | PlayCalled chunk io => mtry (enqueuePcmPlayback chunk io;; mskip) (fun _ => mskip)
  | SourceEnded source => playback_ended source
  | ContextChanged context cx => context_changed context cx
  | HandlerSet present => au_captureHandler <== present
  | WorkletPosted worklet batch => worklet_posted worklet batch
  end.

Definition audio_step (e : AudioEvent) (a : Audio) : Audio := final (audio_handler e) a.

Definition audio_run (events : list AudioEvent) (a : Audio) : Audio := fold_left (fun a e => audio_step e a) events a.
