(* ===== verification/AudioPlayback.v ===== *)
(** * Playback, in order and one at a time

    What [Audio] guarantees of playback, over any events of the page. *)

From stdpp Require Import base list numbers option strings.
From Stdlib Require Import ZArith Lia SpecFloat.
From S2P Require Import Prelude Utf8 Doubles Json Fwav Coroutine Audio.

(** ** How the page calls *)

(** An arm begins only once the arms still in progress, which a reset has made
    stale, are of earlier epochs. *)
Definition arms_anew (e : AudioEvent) (a : Audio) : Prop :=
  match e with
  | ArmCalled epoch _ => au_activeArm a = None -> forall g j, (g, j) ∈ au_arms a -> aj_epoch j < epoch
  | _ => True
  end.

(** And, besides, not while a reset awaits the close of the old context. *)
Definition arms_in_turn (e : AudioEvent) (a : Audio) : Prop :=
  arms_anew e a /\ match e with ArmCalled _ _ => au_activeArm a = None -> au_resets a = O | _ => True end.

(** Every event comes in a state where [P] holds of it. *)
Fixpoint throughout (P : AudioEvent -> Audio -> Prop) (events : list AudioEvent) (a : Audio) : Prop :=
  match events with
  | [] => True
  | e :: rest => P e a /\ throughout P rest (audio_step e a)
  end.

(** An invariant of the steps is one of the runs. *)
Lemma audio_run_keeps (I : Audio -> Prop) (P : AudioEvent -> Audio -> Prop) :
  (forall e a, I a -> P e a -> I (audio_step e a)) ->
  forall events a, I a -> throughout P events a -> I (audio_run events a).
Proof.
  intros H events. induction events as [|e rest IH]; intros a Ha; cbn; [done|]. intros [He Hr]. by apply IH; [apply H|].
Qed.

(** ** What was played *)

(** The chunk before, as long as its sequence is remembered. *)
Fixpoint last_played (h : list Moment) : option PcmPlaybackChunk :=
  match h with Played _ c :: _ => Some c | Broken :: h' => last_played h' | _ => None end.

Definition last_sequence (h : list Moment) : Z := default (-1) (ch_sequence <$> last_played h).

(** The chunk before in the same arm. *)
Fixpoint last_in_arm (h : list Moment) : option PcmPlaybackChunk :=
  match h with Played _ c :: _ => Some c | Broken :: h' | Forgotten :: h' => last_in_arm h' | _ => None end.

(** Where the chunk before ended, unless a start failed since. *)
Fixpoint last_end (h : list Moment) : option Z :=
  match h with Played _ c :: _ => Some (ch_firstSampleIndex c + output_samples c) | Forgotten :: h' => last_end h' | _ => None end.

(** Since an arm, or a reset that ended, sequences grow; within an arm a chunk
    begins where the one before ended, unless a start failed between them. *)
Fixpoint played_in_sequence (h : list Moment) : Prop :=
  match h with
  | [] => True
  | Played _ c :: h' =>
      last_sequence h' < ch_sequence c
      /\ match last_end h' with Some e => ch_firstSampleIndex c = e | None => True end
      /\ played_in_sequence h'
  | _ :: h' => played_in_sequence h'
  end.

(** Within an arm sequences grow throughout. *)
Fixpoint grown_in_arm (h : list Moment) : Prop :=
  match h with
  | [] => True
  | Played _ c :: h' => default (-1) (ch_sequence <$> last_in_arm h') < ch_sequence c /\ grown_in_arm h'
  | _ :: h' => grown_in_arm h'
  end.

(** ** The invariant *)

(** [turn]: does the page arm in turn? *)
Section Playing.
Context (turn : Prop).

Definition queue_ok (a : Audio) : Prop :=
  match au_queue a with
  | Some q => pq_chunks q = [] /\ pq_lastEnd q = last_end (au_played a)
              /\ au_lastPlaybackSequence a = last_sequence (au_played a)
              /\ (turn -> au_resets a = O /\ last_in_arm (au_played a) = last_played (au_played a))
  | None => True
  end.

Record playing_ok (a : Audio) : Prop := {
  po_queue : queue_ok a;
  po_arms : turn -> forall g j, (g, j) ∈ au_arms a -> aj_epoch j <= au_currentEpoch a
              /\ (aj_epoch j = au_currentEpoch a -> au_resets a = O);
  po_sequence : played_in_sequence (au_played a) /\ (turn -> grown_in_arm (au_played a));
  po_scheduled : au_scheduledSources a = option_list (au_pendingPlayback a);
  po_settled : NoDup (au_settled a).*1
                 /\ forall s, s ∈ (au_settled a).*1 -> (s < au_next a)%nat /\ au_pendingPlayback a <> Some s;
  po_pending : forall s, au_pendingPlayback a = Some s -> (s < au_next a)%nat;
  po_played : forall s c, Played s c ∈ au_played a -> au_pendingPlayback a = Some s \/ s ∈ (au_settled a).*1;
}.

(** The fields of the invariant. *)
Definition playback_view (a : Audio) :=
  (au_queue a, au_lastPlaybackSequence a, au_played a, au_resets a, (au_currentEpoch a, au_arms a),
   (au_scheduledSources a, au_pendingPlayback a, au_settled a, au_next a)).

Lemma playing_ok_view a a' : playback_view a' = playback_view a -> playing_ok a -> playing_ok a'.
Proof.
  unfold playback_view. intros E [H1 H2 H3 H4 H5 H6 H7]. injection E as E1 E2 E3 E4 E5 E6 E7 E8 E9 E10.
  split; unfold queue_ok in *; rewrite ?E1, ?E2, ?E3, ?E4, ?E5, ?E6, ?E7, ?E8, ?E9, ?E10; assumption.
Qed.

Definition anywhere (_ _ : Audio) : Prop := True.

#[export] Instance anywhere_refl : Reflexive anywhere.
Proof. done. Qed.
#[export] Instance anywhere_trans : Transitive anywhere.
Proof. done. Qed.

Abbreviation safe := (guards playing_ok anywhere).

Lemma safe_modify f : (forall a, playing_ok a -> playing_ok (f a)) -> safe (mmodify f).
Proof. intros H. apply guards_modify. intros a Ha. split; [by apply H|done]. Qed.

(** An assignment to other fields. *)
Lemma safe_view f : (forall a, playback_view (f a) = playback_view a) -> safe (mmodify f).
Proof. intros H. apply safe_modify. intros a. by apply playing_ok_view. Qed.

Ltac view := apply safe_view; reflexivity.

Lemma safe_call c : safe (call c).
Proof. view. Qed.

Lemma safe_epoch e : safe (assertCurrent e).
Proof. unfold assertCurrent. repeat guards_step. Qed.

Lemma playing_arms f a :
  (forall g j, (g, j) ∈ f (au_arms a) -> exists j', (g, j') ∈ au_arms a /\ aj_epoch j = aj_epoch j') ->
  playing_ok a -> playing_ok (set au_arms f a).
Proof.
  intros H [H1 H2 H3 H4 H5 H6 H7]. split; try assumption.
  intros Ht g j Hin. apply H in Hin as (j' & Hin & ->). by apply (H2 Ht g).
Qed.

(** An assignment to a variable of a body. *)
Lemma playing_assign g f a :
  (forall j, aj_epoch (f j) = aj_epoch j) -> playing_ok a ->
  playing_ok (set au_arms (map (fun p => if p.1 =? g then (p.1, f p.2) else p)) a).
Proof.
  intros H. apply playing_arms. intros g' j Hin. apply list_elem_of_In, in_map_iff in Hin as ([g0 j0] & E & Hin%list_elem_of_In).
  cbn in E. destruct (g0 =? g); injection E as <- <-; eauto.
Qed.

Lemma safe_assign g f : (forall j, aj_epoch (f j) = aj_epoch j) -> safe (assign g f).
Proof. intros H. apply safe_modify. intros a. by apply playing_assign. Qed.

Lemma safe_wait g w : safe (wait_for g w).
Proof. by apply safe_assign. Qed.

Lemma safe_finish g : safe (finishArm g).
Proof. unfold finishArm. repeat guards_step. view. Qed.

Lemma safe_ended g r : safe (arm_ended g r).
Proof.
  unfold arm_ended. repeat guards_step; [apply safe_finish| |view].
  apply safe_modify. intros b. apply playing_arms. intros g' j Hin.
  apply list_elem_of_In, filter_In in Hin as [Hin%list_elem_of_In _]. eauto.
Qed.

Lemma safe_when {A} (o : option A) f : (forall x, safe (f x)) -> safe (when_some o f).
Proof. intros H. destruct o as [x|]; [apply H|]. apply guards_ret; exact _. Qed.

Lemma safe_release w : safe (release_worklet w).
Proof. unfold release_worklet. repeat guards_step; [view|apply safe_call]. Qed.

(** The queue is gone. *)
Lemma safe_no_queue : safe (au_queue <== None).
Proof. apply safe_modify. intros a [H1 H2 H3 H4 H5 H6 H7]. by split. Qed.

(** Cleared, the queue has no end to go on from. *)
Lemma safe_clear : safe (clear_queue;; au_queue <== None).
Proof.
  intros a [H1 H2 H3 H4 H5 H6 H7]. apply wp_bind, wp_modify, wp_modify. split; [|done]. by split.
Qed.

Lemma safe_cleanup g error : safe (arm_cleanup g error).
Proof.
  unfold arm_cleanup.
  repeat (first [ apply safe_ended | by view | apply guards_pair; [exact _|apply safe_clear|intros ?] | guards_step ]).
Qed.

Lemma safe_catch g error : safe (arm_catch g error).
Proof.
  unfold arm_catch.
  repeat (first [apply safe_cleanup | apply safe_call | apply safe_wait
                | apply safe_when; intros ?; first [apply safe_release|apply safe_call] | guards_step]).
Qed.

Lemma safe_body g m : safe m -> safe (in_body g m).
Proof. intros H. unfold in_body. guards_step; [done|apply safe_catch]. Qed.

Lemma safe_fresh : safe fresh.
Proof.
  unfold fresh. apply guards_read. intros a [H1 H2 H3 H4 [H5 H5'] H6 H7]. apply wp_bind, wp_modify, wp_ret. split; [|done].
  split; try assumption.
  - split; [exact H5|]. intros s Hs. apply H5' in Hs as [Hs Hp]. split; [|exact Hp]. change (s < S (au_next a))%nat. lia.
  - intros s Hs. apply H6 in Hs. change (s < S (au_next a))%nat. lia.
Qed.

Create HintDb safe.
#[local] Hint Resolve safe_call safe_epoch safe_wait safe_finish safe_ended safe_release safe_cleanup safe_catch safe_fresh : safe.

Ltac safe_step :=
  first [ solve [auto with safe] | by view | apply safe_when; intros ? | apply safe_assign; done | guards_step ].

Lemma safe_resumed g r : safe (arm_resumed g r).
Proof. apply safe_body. repeat safe_step. Qed.

Lemma safe_microphone g r : safe (arm_microphone g r).
Proof. apply safe_body. repeat safe_step. Qed.

Lemma safe_module g r io : safe (arm_module g r io).
Proof. unfold arm_module, attempt, prepareWorklet. repeat safe_step. Qed.

Lemma safe_arm_closed g : safe (arm_closed g).
Proof. unfold arm_closed. repeat safe_step. Qed.

(** An arm that succeeds starts a new sequence. *)
Lemma playing_armed a :
  playing_ok a -> (turn -> au_resets a = O) ->
  playing_ok (set au_played (cons Armed) (set au_lastPlaybackSequence (fun _ => -1) (set au_queue (fun _ => Some createPlaybackQueue) a))).
Proof.
  intros [K1 K2 K3 K4 K5 K6 K7] Hr. split; try assumption; [split_and!; auto|].
  intros s c Hs. apply elem_of_cons in Hs as [Hs|Hs]; [done|]. by apply (K7 s c).
Qed.

Lemma wp_worklet g j a :
  playing_ok a -> (g, j) ∈ au_arms a -> arm_of g a = j -> wp (arm_worklet g) (fun _ a' => playing_ok a') a.
Proof.
  intros Ha Hin Hj. unfold arm_worklet, in_body. apply wp_try.
  apply (wp_mono _ (fun _ a' => playing_ok a'));
    [|intros [u|e] s' Hs; [done|]; eapply wp_mono; [by apply (safe_catch g e)|]; by intros ? ? [? _]].
  apply wp_bind, wp_get. rewrite Hj. destruct (aj_wait j) as [| | |track prepared|]; try by apply wp_ret.
  destruct (aj_context j) as [context|]; [|by apply wp_ret]. apply wp_bind, wp_lift.
  destruct prepared as [worklet|]; [|done]. apply wp_bind, wp_modify.
  pose proof (playing_assign g (set aj_worklet (fun _ => Some worklet)) a ltac:(done) Ha) as H1.
  assert (Hz : aj_epoch j = au_currentEpoch a -> turn -> au_resets a = O) by (intros He Ht; by apply (po_arms _ Ha Ht g j Hin)).
  change (au_currentEpoch a) with (au_currentEpoch (set au_arms (map (fun p => if p.1 =? g then (p.1, set aj_worklet (fun _ => Some worklet) p.2) else p)) a)) in Hz.
  change (au_resets a) with (au_resets (set au_arms (map (fun p => if p.1 =? g then (p.1, set aj_worklet (fun _ => Some worklet) p.2) else p)) a)) in Hz.
  revert H1 Hz. generalize (set au_arms (map (fun p => if p.1 =? g then (p.1, set aj_worklet (fun _ => Some worklet) p.2) else p)) a).
  intros a1 H1 Hz. apply wp_bind. unfold assertCurrent. apply wp_bind, wp_get.
  destruct (aj_epoch j =? au_currentEpoch a1) eqn:E; [apply wp_ret|by apply wp_throw]. bool_split. pose proof (Hz E) as Hr.
  apply wp_bind, wp_modify. destruct (evaluateAppliedSettings _); [apply wp_throw; by apply (playing_ok_view a1)|].
  do 5 apply wp_bind, wp_modify. eapply wp_mono; [apply safe_ended|by intros ? ? [? _]].
  refine (playing_ok_view _ _ _ (playing_armed a1 H1 Hr)). reflexivity.
Qed.

(** ** A chunk *)

Lemma enqueue_cases c q : pq_chunks q = [] ->
  (exists e q', queue_enqueue c q = (Throw e, q') /\ pq_chunks q' = [] /\ pq_lastEnd q' = pq_lastEnd q)
  \/ exists q', queue_enqueue c q = (Ok tt, q') /\ pq_chunks q' = [c] /\ pq_lastEnd q' = Some (ch_firstSampleIndex c + output_samples c)
       /\ match pq_lastEnd q with Some e => ch_firstSampleIndex c = e | None => True end.
Proof.
  intros Hq. unfold queue_enqueue, mbind, mget, mthrow, mmodify. destruct (_ || _); [left; eauto|].
  destruct (match pq_lastEnd q with Some _ => _ | None => _ end) eqn:E; [left; do 2 eexists; by split_and!|right].
  eexists. split; [reflexivity|]. split; [cbn; by rewrite Hq|]. split; [done|].
  destruct (pq_lastEnd q) as [e|]; [|done]. by bool_split.
Qed.

Lemma wp_queue {A} (m : M PcmPlaybackQueue A) (Q : result A -> Audio -> Prop) a q :
  au_queue a = Some q -> Q (m q).1 (set au_queue (fun _ => Some (m q).2) a) -> wp (on_queue m) Q a.
Proof. intros H HQ. apply wp_run. unfold on_queue, outcome, final. by rewrite H. Qed.

(** What holds while a chunk is being started: the queue holds it. *)
Record starting (c : PcmPlaybackChunk) (a : Audio) : Prop := {
  st_rest : playing_ok (set au_queue (fun _ => None) a);
  st_free : au_pendingPlayback a = None;
  st_queue : exists q, au_queue a = Some q /\ pq_chunks q = [c] /\ pq_lastEnd q = Some (ch_firstSampleIndex c + output_samples c);
  st_sequence : au_lastPlaybackSequence a = last_sequence (au_played a) /\ last_sequence (au_played a) < ch_sequence c;
  st_next : match last_end (au_played a) with Some e => ch_firstSampleIndex c = e | None => True end;
  st_turn : turn -> au_resets a = O /\ last_in_arm (au_played a) = last_played (au_played a) }.

Lemma wp_failed c a : starting c a -> wp playback_failed (fun _ a' => playing_ok a') a.
Proof.
  intros [[K1 K2 K3 K4 K5 K6 K7] Hf (q & Hq & _) [Hs _] _ Hr]. unfold playback_failed.
  do 2 apply wp_bind, wp_modify. apply wp_throw. split; try assumption.
  - unfold queue_ok, set; cbn. by rewrite Hq.
  - intros s ch Hin. apply elem_of_cons in Hin as [Hin|Hin]; [done|]. by apply (K7 s ch).
Qed.

(** Starting goes on from a state that differs in other fields. *)
Lemma starting_fresh c a : starting c a -> starting c (set au_next S a).
Proof.
  intros [[K1 K2 K3 K4 [K5 K5'] K6 K7] Hf Hq Hs Hn Hr]. split; try assumption. split; try assumption.
  - split; [exact K5|]. intros s Hin. apply K5' in Hin as [Hin Hp]. split; [|exact Hp].
    change (s < S (au_next a))%nat. change (s < au_next a)%nat in Hin. lia.
  - intros s Hp. change (au_pendingPlayback a = Some s) in Hp. congruence.
Qed.

(** A source is taken off the schedule, with its promise. *)
Lemma wp_unschedule s (Q : result unit -> Audio -> Prop) a :
  au_scheduledSources a = [] \/ au_scheduledSources a = [s] -> au_pendingPlayback a = None \/ au_pendingPlayback a = Some s ->
  (forall calls, Q (Ok tt) (set au_calls (fun _ => calls) (set au_pendingPlayback (fun _ => None) (set au_scheduledSources (fun _ => []) a)))) ->
  wp (unschedule s) Q a.
Proof.
  intros Hs Hp HQ. unfold unschedule. do 2 apply wp_bind, wp_modify. apply wp_bind, wp_get. destruct a. unfold set in *; cbn in *.
  replace (List.filter _ _) with (@nil nat) by (destruct Hs as [->| ->]; cbn; by rewrite ?Nat.eqb_refl).
  destruct Hp as [->| ->]; [rewrite bool_decide_eq_false_2 by done; apply wp_ret|rewrite bool_decide_eq_true_2 by done; apply wp_modify]; exact (HQ (_ ++ [CallDetach s])).
Qed.

(** Nothing is scheduled while a chunk is being started. *)
Lemma starting_unscheduled c a : starting c a -> au_scheduledSources a = [].
Proof.
  intros [[_ _ _ K _ _ _] Hf _ _ _ _]. cbn in *. unfold set in K; cbn in K. by rewrite K, Hf. Qed.

Lemma starting_again c calls a :
  starting c a ->
  starting c (set au_calls (fun _ => calls) (set au_pendingPlayback (fun _ => None) (set au_scheduledSources (fun _ => []) a))).
Proof.
  intros Ha. pose proof (starting_unscheduled c a Ha) as Hu. destruct Ha as [K Hf Hq Hs Hn Hr]. destruct a.
  unfold set in *; cbn in *. subst. split; try done. by eapply playing_ok_view; [|exact K].
Qed.

(** Its promise is rejected. *)
Lemma starting_settled c s a : (s < au_next a)%nat -> s ∉ (au_settled a).*1 -> starting c a ->
  starting c (set au_settled (fun l => l ++ [(s, false)]) a).
Proof.
  intros Hlt Hnew [[K1 K2 K3 K4 [K5 K5'] K6 K7] Hf Hq Hs Hn Hr]. split; try assumption. split; try assumption.
  - change ((au_settled (set au_queue (fun _ => None) (set au_settled (fun l => l ++ [(s, false)]) a))).*1)
      with ((au_settled a ++ [(s, false)]).*1). rewrite fmap_app. split.
    + apply NoDup_app. split; [exact K5|]. split; [|by apply NoDup_singleton].
      intros x Hx ->%list_elem_of_singleton. done.
    + intros x [Hx| ->%list_elem_of_singleton]%elem_of_app; [by apply K5'|]. split; [exact Hlt|].
      intros E. change (au_pendingPlayback a = Some s) in E. congruence.
  - intros x ch Hin. apply K7 in Hin as [Hin|Hin]; [by left|right].
    change (x ∈ (au_settled a ++ [(s, false)]).*1). rewrite fmap_app. apply elem_of_app. by left.
Qed.

Lemma wp_start c startAt io a : starting c a -> wp (start_playback c startAt io) (fun _ a' => playing_ok a') a.
Proof.
  intros Ha. unfold start_playback. destruct (_ || _); [by apply (wp_failed c)|].
  apply wp_bind. unfold fresh. apply wp_bind, wp_get. apply wp_bind, wp_modify, wp_ret.
  pose proof (starting_fresh c a Ha) as Hb. pose proof (starting_unscheduled _ _ Hb) as Hsch. pose proof (st_free _ _ Hb) as Hfree.
  assert (Hnew : au_next a ∉ (au_settled a).*1).
  { intros Hin. apply (po_settled _ (st_rest _ _ Ha)) in Hin as [Hin _]. change (au_next a < au_next a)%nat in Hin. lia. }
  destruct (negb (pi_connect io)).
  { apply wp_bind, wp_unschedule; [by left|by left|]. intros calls. apply (wp_failed c). by apply starting_again. }
  do 2 apply wp_bind, wp_modify. destruct (negb (pi_start io)).
  - apply wp_bind, wp_unschedule; [|by right|].
    { right. change (au_scheduledSources a = []) in Hsch. change (au_scheduledSources a ++ [au_next a] = [au_next a]). by rewrite Hsch. }
    intros calls. apply wp_bind, wp_modify. apply (wp_failed c). apply starting_settled; [apply Nat.lt_succ_diag_r|exact Hnew|].
    exact (starting_again c calls _ Hb).
  - do 3 apply wp_bind, wp_modify. clear Hsch Hfree. destruct Hb as [K Hf (q & Hq & Hc & He) [Hs Hs'] Hn Hr].
    change (au_pendingPlayback a = None) in Hf.
    apply wp_bind, (wp_queue _ _ _ q); [exact Hq|]. unfold queue_dequeue, mbind, mget, mmodify, mret. rewrite Hc. cbn [fst snd].
    apply wp_ret. destruct K as [K1 K2 K3 K4 [K5 K5'] K6 K7]. split; try assumption.
    + split_and!; try done. intros Ht. split; [by apply Hr|done].
    + destruct K3 as [K3 G]. split; [by split_and!|]. intros Ht. split; [|by apply G].
      pose proof (proj2 (Hr Ht)) as E. change (last_in_arm (au_played a) = last_played (au_played a)) in E.
      change (default (-1) (ch_sequence <$> last_in_arm (au_played a)) < ch_sequence c). rewrite E. exact Hs'.
    + change (au_scheduledSources a = option_list (au_pendingPlayback a)) in K4. rewrite Hf in K4. change (au_scheduledSources a ++ [au_next a] = [au_next a]). by rewrite K4.
    + split; [exact K5|]. intros s Hin. split; [by apply K5'|]. intros [= <-]. by apply Hnew.
    + intros s [= <-]. apply Nat.lt_succ_diag_r.
    + intros s ch Hin. apply elem_of_cons in Hin as [[= <- <-]|Hin]; [by left|]. right.
      apply K7 in Hin as [Hin|Hin]; [|exact Hin]. change (au_pendingPlayback a = Some s) in Hin. congruence.
Qed.

Lemma safe_play c io : safe (enqueuePcmPlayback c io).
Proof.
  intros a Ha. unfold enqueuePcmPlayback, assertCurrent. apply wp_bind, wp_bind, wp_get.
  destruct (_ =? _); [apply wp_ret|by apply wp_throw]. apply wp_bind, wp_get.
  destruct (au_context a) as [context|]; [|by apply wp_throw]. destruct (au_queue a) as [q|] eqn:Hq; [|by apply wp_throw].
  destruct (negb (context_is _ _ _)); [by apply wp_throw|]. destruct (_ <=? _) eqn:Hseq; [by apply wp_throw|].
  destruct (negb (length (au_scheduledSources a) =? 0)%nat) eqn:Hn; [by apply wp_throw|].
  cbv zeta. destruct (d_ltb _ _); [by apply wp_throw|]. bool_split. apply Nat.eqb_eq, nil_length_inv in Hn.
  pose proof (po_queue _ Ha) as Hqo. unfold queue_ok in Hqo. rewrite Hq in Hqo. destruct Hqo as (Hc & He & Hs & Hr).
  assert (Hfree : au_pendingPlayback a = None).
  { pose proof (po_scheduled _ Ha) as E. rewrite Hn in E. by destruct (au_pendingPlayback a). }
  apply wp_bind, (wp_queue _ _ _ q); [exact Hq|].
  destruct (enqueue_cases c q Hc) as [(e & q' & -> & Hc' & He')|(q' & -> & Hc' & He' & Hnext)]; cbn [fst snd].
  - split; [|done]. destruct Ha as [K1 K2 K3 K4 K5 K6 K7]. split; try assumption. unfold queue_ok. change (pq_chunks q' = [] /\ pq_lastEnd q' = last_end (au_played a)
      /\ au_lastPlaybackSequence a = last_sequence (au_played a)
      /\ (turn -> au_resets a = O /\ last_in_arm (au_played a) = last_played (au_played a))). by rewrite He'.
  - apply wp_bind. eapply wp_mono; [apply (wp_start c)|].
    + rewrite He in Hnext. rewrite Hs in Hseq. destruct Ha as [K1 K2 K3 K4 K5 K6 K7]. split; try assumption; [by split|eauto|done].
    + intros [source|e] a' Ha'; [|by split]. apply wp_bind, wp_get. destruct (au_queue a'); [by apply wp_ret|by apply wp_throw].
Qed.

(** ** The end of a playback, and a reset *)

Lemma safe_settle_pending a source resolved :
  playing_ok a -> au_pendingPlayback a = Some source ->
  playing_ok (set au_settled (fun l => l ++ [(source, resolved)])
    (set au_pendingPlayback (fun _ => None) (set au_scheduledSources (fun _ => []) a))).
Proof.
  intros [K1 K2 K3 K4 [K5 K5'] K6 K7] Hp. split; try assumption; try done.
  - change (NoDup (au_settled a ++ [(source, resolved)]).*1
      /\ forall s, s ∈ (au_settled a ++ [(source, resolved)]).*1 -> (s < au_next a)%nat /\ None <> Some s). rewrite fmap_app. split.
    + apply NoDup_app. split; [exact K5|]. split; [|by apply NoDup_singleton]. intros x Hx ->%list_elem_of_singleton.
      by apply K5' in Hx as [_ Hx].
    + intros x [Hx| ->%list_elem_of_singleton]%elem_of_app; (split; [|done]); [by apply K5'|by apply K6].
  - intros s ch Hin. right. change (s ∈ (au_settled a ++ [(source, resolved)]).*1). rewrite fmap_app.
    apply elem_of_app. apply K7 in Hin as [Hin|Hin]; [right|by left]. rewrite Hp in Hin. injection Hin as ->. by left.
Qed.

Lemma safe_ended_event source : safe (playback_ended source).
Proof.
  intros a Ha. unfold playback_ended. apply wp_bind, wp_get. apply wp_bind, wp_modify.
  pose proof (po_scheduled _ Ha) as Hs. destruct (au_pendingPlayback a) as [p|] eqn:Hp.
  - case_bool_decide as E.
    + injection E as ->. apply wp_bind, wp_modify, wp_modify. split; [|done].
      pose proof (safe_settle_pending a source true Ha Hp) as H. destruct a. unfold set in *; cbn in *. subst. cbn.
      rewrite Nat.eqb_refl. exact H.
    + apply wp_ret. split; [|done]. apply (playing_ok_view a); [|done]. destruct a. unfold playback_view, set; cbn in *. subst. cbn.
      assert (p <> source) by congruence. destruct (Nat.eqb_spec p source); [done|reflexivity].
  - rewrite bool_decide_eq_false_2 by done. apply wp_ret. split; [|done]. apply (playing_ok_view a); [|done].
    destruct a. unfold playback_view, set; cbn in *. by subst.
Qed.

(** A reset leaves nothing playing, and no arm of its epoch. *)
Definition silent (a : Audio) : Prop :=
  playing_ok a /\ au_queue a = None /\ au_pendingPlayback a = None
  /\ (turn -> forall g j, (g, j) ∈ au_arms a -> aj_epoch j < au_currentEpoch a).

Abbreviation quiet := (guards silent anywhere).

Lemma silent_view a a' : playback_view a' = playback_view a -> silent a -> silent a'.
Proof.
  intros E (H1 & H2 & H3 & H4). split; [by apply (playing_ok_view a)|]. unfold playback_view in E.
  injection E as E1 E2 E3 E4 E5 E6 E7 E8 E9 E10. by rewrite E1, E8, E5, E6.
Qed.

Lemma quiet_view f : (forall a, playback_view (f a) = playback_view a) -> quiet (mmodify f).
Proof. intros H. apply guards_modify. intros a Ha. split; [by apply (silent_view a)|done]. Qed.

Ltac calm := apply quiet_view; reflexivity.

Lemma quiet_stop sources : quiet (stop_all sources).
Proof. induction sources as [|s rest IH]; cbn; repeat guards_step; [calm|calm|done]. Qed.

Lemma quiet_when {A} (o : option A) f : (forall x, quiet (f x)) -> quiet (when_some o f).
Proof. intros H. destruct o as [x|]; [apply H|]. apply guards_ret; exact _. Qed.

(** The last sequence is forgotten, and the moment logged. *)
Lemma playing_forgotten a :
  playing_ok a -> (turn -> au_queue a = None) ->
  playing_ok (set au_played (cons Forgotten) (set au_lastPlaybackSequence (fun _ => -1) a)).
Proof.
  intros [K1 K2 K3 K4 K5 K6 K7] Hq. split; try assumption.
  - unfold queue_ok in *.
    change (au_queue (set au_played (cons Forgotten) (set au_lastPlaybackSequence (fun _ => -1) a))) with (au_queue a).
    destruct (au_queue a) as [q|]; [|done]. destruct K1 as (H1 & H2 & _). split_and!; [done|done|done|].
    intros Ht. discriminate (Hq Ht).
  - intros s c Hs. apply elem_of_cons in Hs as [Hs|Hs]; [done|]. by apply (K7 s c).
Qed.

Lemma quiet_reset_closed : quiet reset_closed.
Proof.
  unfold reset_closed. guards_step; [calm|]. intros b (Hk & Hq & Hp & Hb). apply wp_bind, wp_modify, wp_modify.
  split; [|done]. split; [|by split_and!]. by apply playing_forgotten.
Qed.

Lemma quiet_resets : quiet (mmodify (set au_resets S)).
Proof.
  apply guards_modify. intros a ([K1 K2 K3 K4 K5 K6 K7] & Hq & Hp & Ha). split; [|done]. split; [|done].
  split; try assumption.
  - unfold queue_ok, set; cbn. by rewrite Hq.
  - intros Ht g j Hin. split; [by apply (K2 Ht g)|]. intros E. apply (Ha Ht) in Hin. change (aj_epoch j = au_currentEpoch a) in E. lia.
Qed.

(** What a reset does first. *)
Definition silenced (a : Audio) : Audio :=
  let b := set au_pendingPlayback (fun _ => None) (set au_scheduledSources (fun _ => []) a) in
  set au_queue (fun _ => None) (set au_currentEpoch (fun _ => au_currentEpoch a + 1)
    match au_pendingPlayback a with
    | Some source => set au_settled (fun l => l ++ [(source, false)]) b
    | None => b
    end).

Lemma silenced_ok a : playing_ok a -> silent (silenced a).
Proof.
  intros Ha.
  assert (Hb : playing_ok (match au_pendingPlayback a with
     | Some source => set au_settled (fun l => l ++ [(source, false)]) (set au_pendingPlayback (fun _ => None) (set au_scheduledSources (fun _ => []) a))
     | None => set au_pendingPlayback (fun _ => None) (set au_scheduledSources (fun _ => []) a) end)).
  { destruct (au_pendingPlayback a) as [s|] eqn:Hp; [by apply safe_settle_pending|].
    apply (playing_ok_view a); [|done]. pose proof (po_scheduled _ Ha) as Hs. destruct a. unfold playback_view, set; cbn in *.
    by subst. }
  destruct Hb as [K1 K2 K3 K4 K5 K6 K7]. unfold silenced. split; [|split; [done|split]].
  - split; try assumption; [done|]. intros Ht g j Hin. apply (K2 Ht) in Hin as [Hin _].
    assert (aj_epoch j <= au_currentEpoch a) by (by destruct (au_pendingPlayback a)).
    split; [change (aj_epoch j <= au_currentEpoch a + 1); lia|].
    intros E. change (aj_epoch j = au_currentEpoch a + 1) in E. lia.
  - by destruct (au_pendingPlayback a).
  - intros Ht g j Hin. apply (K2 Ht) in Hin as [Hin _].
    assert (aj_epoch j <= au_currentEpoch a) by (by destruct (au_pendingPlayback a)).
    change (aj_epoch j < au_currentEpoch a + 1). lia.
Qed.

Lemma reset_silences a : playing_ok a -> wp resetAudio (fun _ a' => silent a') a.
Proof.
  intros Ha. unfold resetAudio. apply wp_bind, wp_get. do 5 apply wp_bind, wp_modify. apply wp_bind.
  assert (Hrest : forall a0, playback_view (set au_queue (fun _ => None) (set au_scheduledSources (fun _ => []) a0))
      = playback_view (silenced a) ->
    wp (clear_queue;; au_queue <== None;; au_scheduledSources <== [];;
        stop_all (au_scheduledSources a);; when_some (au_worklet a) release_worklet;; au_worklet <== None;;
        when_some (au_stream a) (fun s => call (CallStopTracks s));; au_stream <== None;; au_context <== None;;
        match au_context a with
        | Some c => if context_is "closed" c a then reset_closed else call (CallClose c);; mmodify (set au_resets S)
        | None => reset_closed
        end) (fun _ a' => silent a') a0).
  { intros a0 E. do 3 apply wp_bind, wp_modify.
    assert (Hq : silent (set au_scheduledSources (fun _ => []) (set au_queue (fun _ => None) (set au_queue (fmap queue_clear) a0)))).
    { apply (silent_view (silenced a)); [exact E|by apply silenced_ok]. }
    revert Hq. generalize (set au_scheduledSources (fun _ => []) (set au_queue (fun _ => None) (set au_queue (fmap queue_clear) a0))).
    intros a1 Hq. match goal with |- wp ?m _ _ => cut (quiet m); [intros H; eapply wp_mono; [by apply H|]; by intros ? ? [? _]|] end.
    repeat (first [apply quiet_stop | apply quiet_reset_closed | apply quiet_resets | by calm
                  | apply quiet_when; intros ?; unfold release_worklet | guards_step]). }
  destruct (au_pendingPlayback a) as [s|] eqn:Hp; cbn [when_some].
  - apply wp_modify. apply Hrest. unfold silenced. by rewrite Hp.
  - apply wp_ret. apply Hrest. unfold silenced. by rewrite Hp.
Qed.

(** ** Every event *)

Lemma new_audio_plays : playing_ok new_audio.
Proof. split; try done; [by intros _ g j ?%elem_of_nil|split; [by apply NoDup_nil|by intros s ?%elem_of_nil]|by intros s c ?%elem_of_nil]. Qed.

(** The body of a new arm, which is of the current epoch. *)
Lemma wp_arm_body g epoch created a :
  playing_ok a -> au_currentEpoch a = epoch -> (turn -> au_resets a = O) -> wp (arm_body g epoch created) (fun _ a' => playing_ok a') a.
Proof.
  intros [K1 K2 K3 K4 K5 K6 K7] He Hr. unfold arm_body. apply wp_bind, wp_modify.
  match goal with |- wp ?m _ ?b => cut (safe m); [intros H; eapply wp_mono; [apply H|by intros ? ? [? _]]|] end.
  - split; try assumption. intros Ht g' j [Hin|Hin%list_elem_of_singleton]%elem_of_app; [by apply (K2 Ht g')|].
    specialize (Hr Ht). injection Hin as -> ->. change (epoch <= au_currentEpoch a /\ (epoch = au_currentEpoch a -> au_resets a = O)). split; [lia|done].
  - apply safe_body. repeat safe_step.
Qed.

Lemma wp_arm epoch created a :
  playing_ok a -> (turn -> arms_in_turn (ArmCalled epoch created) a) -> wp (armAudio epoch created) (fun _ a' => playing_ok a') a.
Proof.
  intros Ha He. unfold armAudio. apply wp_bind, wp_get.
  destruct (au_activeArm a) as [[activeEpoch generation]|] eqn:Hactive; [destruct (_ =? _); by apply wp_ret|].
  assert (Hstart : wp (if is_some (au_context a) || is_some (au_stream a) || is_some (au_worklet a)
      then mret (ArmRejected "audio reset is required before re-arm")
      else au_currentEpoch <== epoch;; au_armGeneration <== au_armGeneration a + 1;;
        arm_body (au_armGeneration a + 1) epoch created;;
        au_activeArm <== Some (epoch, au_armGeneration a + 1);; mret (ArmGeneration (au_armGeneration a + 1)))
      (fun _ a' => playing_ok a') a).
  { destruct (_ || _); [by apply wp_ret|]. do 2 apply wp_bind, wp_modify. apply wp_bind.
    eapply wp_mono; [apply wp_arm_body|].
    - destruct Ha as [K1 K2 K3 K4 K5 K6 K7]. split; try assumption. intros Ht g j Hin.
      apply (proj1 (He Ht) Hactive) in Hin. change (aj_epoch j <= epoch /\ (aj_epoch j = epoch -> au_resets a = O)). lia.
    - done.
    - intros Ht. exact (proj2 (He Ht) Hactive).
    - intros [u|e] a' Ha'; [|done]. apply wp_bind, wp_modify, wp_ret. by apply (playing_ok_view a'). }
  destruct (au_evidence a) as [e|]; [|exact Hstart]. destruct (au_context a) as [c|]; [|exact Hstart].
  destruct (_ && _); by apply wp_ret.
Qed.

Lemma safe_reset_closed a : playing_ok a ->
  wp (let! a := mget in match au_resets a with O => mskip | S n => au_resets <== n;; reset_closed end) (fun _ a' => playing_ok a') a.
Proof.
  intros Ha. apply wp_bind, wp_get. destruct (au_resets a) as [|n] eqn:Hr; [by apply wp_ret|].
  assert (Hq : turn -> au_queue a = None).
  { intros Ht. pose proof (po_queue _ Ha) as K. unfold queue_ok in K. destruct (au_queue a); [|done].
    destruct K as (_ & _ & _ & K). destruct (K Ht). congruence. }
  unfold reset_closed. do 3 apply wp_bind, wp_modify. apply wp_modify.
  set (b := set au_nextPlaybackTime (fun _ => d_of_Z 0) (set au_resets (fun _ => n) a)).
  assert (Hb : playing_ok b).
  { destruct Ha as [K1 K2 K3 K4 K5 K6 K7]. split; try assumption.
    - unfold queue_ok in *. change (au_queue b) with (au_queue a). destruct (au_queue a); [|done].
      destruct K1 as (H1 & H2 & H3 & H4). split_and!; [done..|]. intros Ht. discriminate (Hq Ht).
    - intros Ht g j Hin. split; [by apply (K2 Ht g)|]. intros E. apply (K2 Ht) in Hin as [_ Hin]. specialize (Hin E). congruence. }
  exact (playing_forgotten b Hb Hq).
Qed.

Lemma map_get_pair (a : Audio) g j : map_get g (au_arms a) = Some j -> (g, j) ∈ au_arms a /\ arm_of g a = j.
Proof. intros H. split; [by apply map_get_elem|]. unfold arm_of. by rewrite H. Qed.

Lemma audio_step_plays e a : playing_ok a -> (turn -> arms_in_turn e a) -> playing_ok (audio_step e a).
Proof.
  intros Ha He. unfold audio_step. apply (wp_elim (audio_handler e) (fun _ a' => playing_ok a') a).
  assert (Hsafe : forall A (m : AM A), safe m -> wp m (fun _ a' => playing_ok a') a).
  { intros A m H. eapply wp_mono; [by apply H|]. by intros r a' [? _]. }
  assert (Hwake : forall g expected m,
    (forall j, (g, j) ∈ au_arms a -> arm_of g a = j -> wp m (fun _ a' => playing_ok a') a) ->
    wp (waking g expected m) (fun _ a' => playing_ok a') a).
  { intros g expected m H. unfold waking. apply wp_bind, wp_get. destruct (map_get g (au_arms a)) as [j|] eqn:Ej; [|by apply wp_ret].
    apply map_get_pair in Ej as [Hin Hj]. destruct (expected _); [by apply (H j)|by apply wp_ret]. }
  destruct e; cbn [audio_handler].
  - apply wp_bind. eapply wp_mono; [by apply wp_arm|]. intros [p|e] a' Ha'; [by apply wp_ret|done].
  - apply Hwake. intros j _ _. apply Hsafe, safe_resumed.
  - apply Hwake. intros j _ _. apply Hsafe, safe_microphone.
  - apply Hwake. intros j _ _. apply Hsafe, safe_module.
  - apply Hwake. intros j Hin Hj. by apply (wp_worklet _ j).
  - apply Hwake. intros j _ _. apply Hsafe, safe_arm_closed.
  - eapply wp_mono; [by apply reset_silences|]. by intros r a' [? _].
  - by apply safe_reset_closed.
  - apply Hsafe. repeat guards_step. apply safe_play.
  - apply Hsafe, safe_ended_event.
  - apply Hsafe. unfold context_changed. repeat safe_step.
  - apply Hsafe. view.
  - apply Hsafe. unfold worklet_posted. repeat safe_step.
Qed.

(** Without a queue nothing is taken. *)
Lemma refused_unarmed chunk io a : au_queue a = None -> exists e, enqueuePcmPlayback chunk io a = (Throw e, a).
Proof.
  intros Hq. unfold enqueuePcmPlayback, assertCurrent, mbind, mget, mskip, mret, mthrow.
  destruct (ch_epoch chunk =? au_currentEpoch a); [|eauto]. rewrite Hq. destruct (au_context a); eauto.
Qed.

End Playing.

(** What holds of every state the page's events lead to. *)
Lemma playing_reached events : playing_ok False (audio_run events new_audio).
Proof.
  apply (audio_run_keeps (playing_ok False) (fun _ _ => True)); [|apply new_audio_plays|].
  - intros e a Ha _. by apply audio_step_plays.
  - generalize new_audio. induction events as [|e rest IH]; intros a; cbn; [done|]. by split.
Qed.

(** And when the page arms in turn. *)
Lemma playing_in_turn events : throughout arms_in_turn events new_audio -> playing_ok True (audio_run events new_audio).
Proof.
  apply audio_run_keeps; [|apply new_audio_plays]. intros e a Ha He. by apply audio_step_plays.
Qed.

(** C38: Played in order, one at a time, each promise settled once.  Whatever
    the page calls and the browser answers, and whenever: between an arm or the
    end of a reset and the next, chunks start in growing sequence, and within an
    arm each at the sample where the one before ended unless a start failed
    between them; at most one sounds at a time; the promise of each is settled at
    most once, and is unsettled only while its source is the one that sounds; the
    queue holds nothing between calls; and after a reset nothing sounds, the
    promise of everything played is settled, and a chunk is refused.  If besides
    the page arms in turn - not while a reset awaits the close of the old
    context, nor in an epoch no later than that of an arm still in progress -
    sequences grow throughout each arm. *)
Theorem playback_in_order events chunk io :
  let a := audio_run events new_audio in
  let b := audio_step ResetCalled a in
  (played_in_sequence (au_played a) /\ (throughout arms_in_turn events new_audio -> grown_in_arm (au_played a))
   /\ (length (au_scheduledSources a) <= 1)%nat /\ NoDup (au_settled a).*1
   /\ (forall q, au_queue a = Some q -> pq_chunks q = [])
   /\ (forall s c, Played s c ∈ au_played a ->
        (s ∈ (au_settled a).*1 /\ s ∉ au_scheduledSources a) \/ (s ∉ (au_settled a).*1 /\ au_scheduledSources a = [s])))
  /\ (au_scheduledSources b = [] /\ (forall s c, Played s c ∈ au_played b -> s ∈ (au_settled b).*1)
      /\ (enqueuePcmPlayback chunk io b).2 = b /\ is_ok (enqueuePcmPlayback chunk io b).1 = false).
Proof.
  cbv zeta. pose proof (playing_reached events) as Ha. pose proof (playing_in_turn events) as Hturn.
  set (a := audio_run events new_audio) in *. split.
  - destruct Ha as [K1 K2 K3 K4 [K5 K5'] K6 K7]. rewrite K4.
    split_and!; [apply K3|intros H; by apply (po_sequence _ _ (Hturn H))|by destruct (au_pendingPlayback a); cbn; lia|done| |].
    + intros q Hq. unfold queue_ok in K1. rewrite Hq in K1. apply K1.
    + intros s c [Hp|Hs]%K7; [right|left].
      * rewrite Hp. split; [|done]. intros Hin. apply K5' in Hin as [_ Hin]. done.
      * split; [done|]. apply K5' in Hs as [_ Hs]. destruct (au_pendingPlayback a); [|apply not_elem_of_nil].
        intros ->%list_elem_of_singleton. done.
  - pose proof (wp_elim _ _ _ (reset_silences _ a Ha)) as ([K1 K2 K3 K4 K5 K6 K7] & Hq & Hp & _).
    change (final resetAudio a) with (audio_step ResetCalled a) in *. set (b := audio_step ResetCalled a) in *.
    rewrite Hp in K4. split; [exact K4|]. split.
    + intros s c [Hin|Hin]%K7; [congruence|done].
    + destruct (refused_unarmed chunk io b Hq) as [e ->]. done.
Qed.

(** ** A run *)

Definition sample_context : BrowserAudioContext := mkContext (js "running") (d_of_Z 48000) (d_of_Z 0) true.

Definition sample_track : MediaTrack := mkTrack (js "m") (vint 44100) (vint 1) (VBool false) (VBool false) (VBool false).

(** An arm that succeeds. *)
Definition arm_events (generation epoch : Z) : list AudioEvent :=
  [ArmCalled epoch (Some sample_context); Resumed generation (Ok tt); Microphone generation (Ok (Some sample_track));
   ModuleAdded generation (Ok tt) (mkWorkletIO true true true); WorkletPrepared generation].

Definition sample_chunk (epoch sequence first : Z) : PcmPlaybackChunk :=
  mkChunk epoch sequence first 48000 (repeat 0 40) 48 (d_div (d_of_Z 1) (d_of_Z 4)) None.

Definition all_well : PlaybackIO := mkPlaybackIO true true true true.

(** Two chunks, the source of the first ended; its objects are 0 to 2, the
    sources 3 and 4. *)
Definition play_events : list AudioEvent :=
  arm_events 1 1 ++ [PlayCalled (sample_chunk 1 7 0) all_well; SourceEnded 3; PlayCalled (sample_chunk 1 9 10) all_well].

Lemma playback_in_order_witness :
  let a := audio_run play_events new_audio in
  au_scheduledSources a = [4]%nat /\ au_settled a = [(3%nat, true)] /\ grown_in_arm (au_played a)
  /\ au_settled (audio_step ResetCalled a) = [(3%nat, true); (4%nat, false)].
Proof.
  assert (H : throughout arms_in_turn play_events new_audio).
  { vm_compute. repeat split. intros _ g j Hin. by apply elem_of_nil in Hin. }
  split; [by vm_compute|]. split; [by vm_compute|]. split; [|by vm_compute].
  destruct (playback_in_order play_events (sample_chunk 1 9 10) all_well) as [(_ & Hg & _) _]. exact (Hg H).
Defined.

(** When the context's constructor throws, the body is over before its promise
    is kept: the failed promise is the answer of every further call until a
    reset. *)
Example failed_arm_sticks :
  let a := audio_step (ArmCalled 1 None) new_audio in
  au_armed a = [(1, Throw "audio context is unavailable"%string)] /\ au_arms a = []
  /\ outcome (armAudio 1 (Some sample_context)) a = Ok (ArmGeneration 1).
Proof. by vm_compute. Qed.

(** An arm made while a reset awaits the close of the old context: when the
    close settles, the sequence played last is forgotten, and played again. *)
Definition overtaken : list AudioEvent :=
  arm_events 1 1 ++ [ResetCalled] ++ arm_events 2 2
  ++ [PlayCalled (sample_chunk 2 7 0) all_well; SourceEnded 6; ResetClosed; PlayCalled (sample_chunk 2 7 10) all_well].

Example late_close_admits_replay :
  match au_played (audio_run overtaken new_audio) with
  | Played _ c :: Forgotten :: Played _ c' :: _ => ch_sequence c = ch_sequence c' /\ ch_epoch c = ch_epoch c'
  | _ => False
  end.
Proof. by vm_compute. Qed.
