(* ===== verification/AudioHeld.v ===== *)
(** * The microphone is let go

    What [Audio] guarantees of the browser's objects it acquires: streams,
    contexts and worklets are released unless they are the current ones, as long
    as an arm begins only once those still in progress are of earlier epochs. *)

From stdpp Require Import base list numbers option strings.
From Stdlib Require Import ZArith Lia SpecFloat.
From S2P Require Import Prelude Utf8 Doubles Json Fwav Coroutine Audio AudioPlayback.

Definition stopped (a : Audio) (s : nat) : Prop := CallStopTracks s ∈ au_calls a.
Definition disconnected (a : Audio) (w : nat) : Prop := CallDisconnect w ∈ au_calls a.
(** Closed, by this code or by the browser. *)
Definition closed (a : Audio) (c : nat) : Prop :=
  CallClose c ∈ au_calls a \/ exists cx, map_get c (au_contexts a) = Some cx /\ cx_state cx = js "closed".

(** An arm is about to receive the worklet it had prepared. *)
Definition awaited (a : Audio) (w : nat) : Prop :=
  exists g j track, map_get g (au_arms a) = Some j /\ aj_wait j = AwWorklet track (Ok w).

Definition closing (j : ArmJob) : Prop := match aj_wait j with AwClose _ => True | _ => False end.

Definition streamless (j : ArmJob) : Prop := match aj_wait j with AwResume | AwMicrophone => True | _ => False end.

Lemma not_closing j w : aj_wait j = w -> match w with AwClose _ => False | _ => True end -> ~ closing j.
Proof. intros E Hw Hc. unfold closing in Hc. rewrite E in Hc. by destruct w. Qed.

(** What the body has of its own is released. *)
Definition released (a : Audio) (j : ArmJob) : Prop :=
  (forall s, aj_stream j = Some s -> stopped a s)
  /\ forall w, aj_worklet j = Some w -> disconnected a w /\ w ∉ (au_listening a).*1.

(** [run] is the generation of the arm whose body is running, if one is: what
    is known of the others by what they wait for is not known of it. *)
Record held_ok (run : option Z) (a : Audio) : Prop := {
  ho_arms : forall g j, map_get g (au_arms a) = Some j -> aj_epoch j <= au_currentEpoch a /\ g <= au_armGeneration a;
  ho_live : forall g j, run <> Some g -> map_get g (au_arms a) = Some j -> aj_epoch j = au_currentEpoch a -> ~ closing j ->
              au_activeArm a = Some (au_currentEpoch a, g) /\ au_worklet a = None /\ (streamless j -> au_stream a = None);
  ho_streams : forall s, CallMicrophone s ∈ au_calls a ->
                 stopped a s \/ au_stream a = Some s \/ exists g j, run = Some g /\ map_get g (au_arms a) = Some j /\ aj_stream j = Some s;
  ho_contexts : forall c, CallCreate c ∈ au_calls a -> closed a c \/ au_context a = Some c;
  ho_known : forall g j c, map_get g (au_arms a) = Some j -> aj_context j = Some c -> is_Some (map_get c (au_contexts a));
  ho_connected : forall w, CallConnect w ∈ au_calls a -> disconnected a w \/ au_worklet a = Some w \/ awaited a w;
  ho_listening : forall w e, (w, e) ∈ au_listening a -> (au_worklet a = Some w \/ awaited a w) /\ e <= au_currentEpoch a;
  ho_closing : forall g j, run <> Some g -> map_get g (au_arms a) = Some j -> closing j ->
                 released a j /\ forall c, aj_context j = Some c -> closed a c;
  ho_fresh : forall g j w, map_get g (au_arms a) = Some j -> aj_worklet j = Some w \/ (exists track, aj_wait j = AwWorklet track (Ok w)) ->
               (w < au_next a)%nat;
  ho_own : forall g j s, run <> Some g -> map_get g (au_arms a) = Some j -> aj_stream j = Some s -> stopped a s \/ au_stream a = Some s;
  ho_current : forall c, au_context a = Some c -> is_Some (map_get c (au_contexts a));
  ho_heard : forall w e, (w, e) ∈ au_listening a -> (w < au_next a)%nat
               /\ forall g j track, map_get g (au_arms a) = Some j -> aj_wait j = AwWorklet track (Ok w) -> e <= aj_epoch j;
}.

(** The fields it is about. *)
Definition held_view (a : Audio) :=
  (au_currentEpoch a, au_activeArm a, au_armGeneration a, au_arms a, (au_stream a, au_worklet a, au_context a),
   (au_contexts a, au_listening a, au_next a, au_calls a)).

Lemma held_ok_view run a a' : held_view a' = held_view a -> held_ok run a -> held_ok run a'.
Proof.
  unfold held_view. intros E [H1 H2 H3 H4 H5 H6 H7 H8 H9 H10 H11 H12]. injection E as E1 E2 E3 E4 E5 E6 E7 E8 E9 E10 E11.
  split; unfold released, stopped, closed, disconnected, awaited in *; rewrite ?E1, ?E2, ?E3, ?E4, ?E5, ?E6, ?E7, ?E8, ?E9, ?E10, ?E11;
    assumption.
Qed.

Lemma wp_view {A} run (m : AM A) a : held_ok run a -> held_view (final m a) = held_view a -> wp m (fun _ a' => held_ok run a') a.
Proof. intros Ha E. apply wp_run. by apply (held_ok_view run a). Qed.

(** An arm that runs is known less of than one that waits. *)
Lemma held_ok_run g a : held_ok None a -> held_ok (Some g) a.
Proof.
  intros [H1 H2 H3 H4 H5 H6 H7 H8 H9 H10 H11 H12]. split; try assumption;
    [intros g' j _; by apply H2| |intros g' j _; by apply H8|intros g' j s _; by apply (H10 g')].
  intros s [Hs|[Hs|(g' & j & E & _)]]%H3; [by left|by right; left|done].
Qed.

(** ** Calls that release *)

Definition releases (c : AudioCall) : Prop :=
  match c with CallCreate _ | CallMicrophone _ | CallConnect _ => False | _ => True end.

Lemma released_more a j c : released a j -> released (set au_calls (fun l => l ++ [c]) a) j.
Proof.
  intros [H1 H2]. split; [intros s Hs; apply elem_of_app; left; by apply H1|].
  intros w Hw. apply H2 in Hw as [Hw Hl]. split; [|exact Hl]. apply elem_of_app. by left.
Qed.

(** Calls are logged: what they acquire is accounted for. *)
Lemma held_ok_calls run l a :
  held_ok run a ->
  (forall s, CallMicrophone s ∈ l -> exists g j, run = Some g /\ map_get g (au_arms a) = Some j /\ aj_stream j = Some s) ->
  (forall c, CallCreate c ∈ l -> au_context a = Some c) ->
  (forall w, CallConnect w ∈ l -> awaited a w \/ CallDisconnect w ∈ l) ->
  held_ok run (set au_calls (fun l0 => l0 ++ l) a).
Proof.
  intros [H1 H2 H3 H4 H5 H6 H7 H8 H9 H10 H11 H12] Hmic Hcreate Hconnect.
  assert (Hclosed : forall x, closed a x -> closed (set au_calls (fun l0 => l0 ++ l) a) x).
  { intros x [H|H]; [left; apply elem_of_app; by left|by right]. }
  assert (Hstopped : forall x, stopped a x -> stopped (set au_calls (fun l0 => l0 ++ l) a) x) by (intros x H; apply elem_of_app; by left).
  split; try assumption.
  - intros s [Hs|Hs]%elem_of_app; [apply H3 in Hs as [Hs|Hs]; [left; auto|by right]|right; right; auto].
  - intros x [Hx|Hx]%elem_of_app; [apply H4 in Hx as [Hx|Hx]; [left; auto|by right]|right; by apply Hcreate].
  - intros w [Hw|Hw]%elem_of_app; [apply H6 in Hw as [Hw|Hw]; [left; apply elem_of_app; by left|by right]|].
    apply Hconnect in Hw as [Hw|Hw]; [by right; right|]. left. apply elem_of_app. by right.
  - intros g j Hr Hg Hj. destruct (H8 g j Hr Hg Hj) as [[Hs Hw] Hcl]. split; [split|]; [auto| |auto].
    intros w Hw'. apply Hw in Hw' as [Hd Hl]. split; [|exact Hl]. apply elem_of_app. by left.
  - intros g j s Hr Hg Hs. destruct (H10 g j s Hr Hg Hs); [left; auto|by right].
Qed.

Lemma held_ok_call run c a : releases c -> held_ok run a -> held_ok run (set au_calls (fun l => l ++ [c]) a).
Proof.
  intros Hc Ha. apply held_ok_calls; [done|..]; intros x Hx%list_elem_of_singleton; by subst.
Qed.

(** A worklet no longer heard. *)
Lemma held_ok_unlisten run w a : held_ok run a -> held_ok run (set au_listening (map_delete w) a).
Proof.
  intros [H1 H2 H3 H4 H5 H6 H7 H8 H9 H10 H11 H12]. split; try assumption.
  - intros w' e Hw. apply (map_delete_elem w' w) in Hw as [Hw _]. by apply H7.
  - intros g j Hr Hg Hj. destruct (H8 g j Hr Hg Hj) as [[Hs Hw] Hc]. split; [|exact Hc]. split; [exact Hs|].
    intros w' Hw'. apply Hw in Hw' as [Hd Hl]. split; [exact Hd|]. intros Hin. apply Hl.
    apply list_elem_of_fmap in Hin as ([w0 e] & -> & Hin). apply (map_delete_elem w0 w) in Hin as [Hin _].
    apply list_elem_of_fmap. by exists (w0, e).
  - intros w' e Hw. apply (map_delete_elem w' w) in Hw as [Hw _]. by apply H12.
Qed.

(** ** The end of a body *)

(** What an arm that runs must have seen to before it gives up: only the worklet
    it received may be the one it awaited. *)
Definition received (j : ArmJob) : Prop := forall track w, aj_wait j = AwWorklet track (Ok w) -> aj_worklet j = Some w.

(** The arm goes, and its generation is no longer the active one. *)
Lemma held_ok_gone g j a :
  held_ok (Some g) a -> map_get g (au_arms a) = Some j -> (forall s, aj_stream j = Some s -> stopped a s \/ au_stream a = Some s) ->
  (forall track w, aj_wait j = AwWorklet track (Ok w) -> disconnected a w /\ w ∉ (au_listening a).*1 \/ au_worklet a = Some w) ->
  forall active, active = au_activeArm a \/ (active = None /\ exists e, au_activeArm a = Some (e, g)) ->
  held_ok None (set au_arms (map_delete g) (set au_activeArm (fun _ => active) a)).
Proof.
  intros [H1 H2 H3 H4 H5 H6 H7 H8 H9 H10 H11 H12] Hj Hrel Haw active Hact.
  assert (Hget : forall g' j', map_get g' (map_delete g (au_arms a)) = Some j' -> map_get g' (au_arms a) = Some j' /\ g' <> g).
  { intros g' j'. rewrite map_get_delete. by case_decide. }
  assert (Hwait : forall w, awaited a w -> (disconnected a w /\ w ∉ (au_listening a).*1) \/ au_worklet a = Some w
     \/ awaited (set au_arms (map_delete g) (set au_activeArm (fun _ => active) a)) w).
  { intros w (g' & j' & track & Hg & Hw). destruct (decide (g' = g)) as [->|Hne].
    - rewrite Hj in Hg. injection Hg as <-. destruct (Haw _ _ Hw) as [?|?]; tauto.
    - right; right. exists g', j', track. split; [|done]. change (map_get g' (map_delete g (au_arms a)) = Some j').
      rewrite map_get_delete. by rewrite decide_False. }
  split.
  - intros g' j' [Hg _]%Hget. by apply (H1 g').
  - intros g' j' _ [Hg Hne]%Hget He Hc. destruct (H2 g' j' ltac:(congruence) Hg He Hc) as (K1 & K2 & K3). split; [|done].
    change (active = Some (au_currentEpoch a, g')). destruct Hact as [->|(_ & e & E)]; [done|congruence].
  - intros s [Hs|[Hs|(g' & j' & E & Hg & Hs)]]%H3; [by left|by right; left|]. injection E as <-. rewrite Hj in Hg.
    injection Hg as <-. apply Hrel in Hs as [Hs|Hs]; [by left|by right; left].
  - exact H4.
  - intros g' j' c [Hg _]%Hget. by apply (H5 g').
  - intros w [Hw|[Hw|Hw%Hwait]]%H6; [by left|by right; left|]. destruct Hw as [[Hw _]|[Hw|Hw]]; [by left|by right; left|by right; right].
  - intros w e Hin. pose proof (H7 w e Hin) as [[Hw|Hw%Hwait] He]; (split; [|exact He]); [by left|].
    destruct Hw as [[_ Hw]|[Hw|Hw]]; [|by left|by right]. destruct Hw. apply list_elem_of_fmap. by exists (w, e).
  - intros g' j' _ [Hg Hne]%Hget Hc. apply (H8 g' j'); [congruence|done..].
  - intros g' j' w [Hg _]%Hget. by apply (H9 g').
  - intros g' j' s _ [Hg Hne]%Hget. apply (H10 g' j'); [congruence|done].
  - exact H11.
  - intros w e [Hlt Hw]%H12. split; [exact Hlt|]. intros g' j' track [Hg _]%Hget. by apply (Hw g').
Qed.

Lemma wp_ended g j r a :
  held_ok (Some g) a -> map_get g (au_arms a) = Some j -> (forall s, aj_stream j = Some s -> stopped a s \/ au_stream a = Some s) ->
  (forall track w, aj_wait j = AwWorklet track (Ok w) -> disconnected a w /\ w ∉ (au_listening a).*1 \/ au_worklet a = Some w) ->
  wp (arm_ended g r) (fun o a' => o = Ok tt /\ held_ok None a') a.
Proof.
  intros Ha Hj Hrel Haw. unfold arm_ended, finishArm. apply wp_bind, wp_bind, wp_get.
  assert (Hend : forall active, active = au_activeArm a \/ (active = None /\ exists e, au_activeArm a = Some (e, g)) ->
    forall b, b = set au_activeArm (fun _ => active) a ->
    wp (mmodify (set au_arms (map_delete g));; mmodify (set au_armed (fun l => l ++ [(g, r)]))) (fun o a' => o = Ok tt /\ held_ok None a') b).
  { intros active Hact b ->. apply wp_bind, wp_modify, wp_modify. split; [done|].
    apply (held_ok_view None (set au_arms (map_delete g) (set au_activeArm (fun _ => active) a))); [done|].
    by apply (held_ok_gone g j). }
  destruct (au_activeArm a) as [[e active]|] eqn:E.
  - destruct (Z.eqb_spec active g) as [->|].
    + apply wp_modify. apply (Hend None); [right; eauto|done].
    + apply wp_ret. apply (Hend (Some (e, active))); [by left|]. destruct a. unfold set; cbn in *. by rewrite E.
  - apply wp_ret. apply (Hend None); [by left|]. destruct a. unfold set; cbn in *. by rewrite E.
Qed.

(** Forgetting what is released. *)
Lemma held_ok_forget run a w s c :
  held_ok run a ->
  (w = au_worklet a \/ w = None /\ forall x, au_worklet a = Some x -> disconnected a x /\ x ∉ (au_listening a).*1) ->
  (s = au_stream a \/ s = None /\ forall x, au_stream a = Some x -> stopped a x) ->
  (c = au_context a \/ c = None /\ forall x, au_context a = Some x -> closed a x) ->
  held_ok run (set au_context (fun _ => c) (set au_stream (fun _ => s) (set au_worklet (fun _ => w) a))).
Proof.
  intros [H1 H2 H3 H4 H5 H6 H7 H8 H9 H10 H11 H12] Hw Hs Hc. split; try assumption.
  - intros g j Hr Hg He Hcl. destruct (H2 g j Hr Hg He Hcl) as (K1 & K2 & K3). split; [exact K1|]. split.
    + change (w = None). destruct Hw as [->|[-> _]]; [exact K2|done].
    + intros Hst. change (s = None). destruct Hs as [->|[-> _]]; [by apply K3|done].
  - intros x [Hx|[Hx|Hx]]%H3; [by left| |by right; right].
    destruct Hs as [->|[-> Hs]]; [by right; left|]. left. by apply Hs.
  - intros x [Hx|Hx]%H4; [by left|]. destruct Hc as [->|[-> Hc]]; [by right|]. left. by apply Hc.
  - intros x [Hx|[Hx|Hx]]%H6; [by left| |by right; right].
    destruct Hw as [->|[-> Hw]]; [by right; left|]. left. by apply Hw.
  - intros x e Hin. pose proof (H7 x e Hin) as [[Hx|Hx] He]; (split; [|exact He]); [|by right].
    destruct Hw as [->|[-> Hw]]; [by left|]. destruct (Hw x Hx) as [_ []]. apply list_elem_of_fmap. by exists (x, e).
  - intros g j x Hr Hg Hx. apply (H10 g j x Hr Hg) in Hx as [Hx|Hx]; [by left|].
    destruct Hs as [->|[-> Hs]]; [by right|]. left. by apply Hs.
  - intros x Hx. change (c = Some x) in Hx. destruct Hc as [->|[-> _]]; [by apply H11|done].
Qed.

(** [if (current === own) current = undefined], three times. *)
Lemma wp_forget (Q : result unit -> Audio -> Prop) (w s c : option nat) (k : AM unit) a :
  (forall w' s' c', (w' = au_worklet a \/ w' = None /\ au_worklet a = w) -> (s' = au_stream a \/ s' = None /\ au_stream a = s) ->
     (c' = au_context a \/ c' = None /\ au_context a = c) ->
     wp k Q (set au_context (fun _ => c') (set au_stream (fun _ => s') (set au_worklet (fun _ => w') a)))) ->
  wp ((if bool_decide (au_worklet a = w) then au_worklet <== None else mskip);;
      (if bool_decide (au_stream a = s) then au_stream <== None else mskip);;
      (if bool_decide (au_context a = c) then au_context <== None else mskip);; k) Q a.
Proof.
  intros H. apply wp_bind.
  assert (Hw : forall b x, au_worklet b = x -> set au_worklet (fun _ => x) b = b) by (by intros [] x <-).
  assert (Hs : forall b x, au_stream b = x -> set au_stream (fun _ => x) b = b) by (by intros [] x <-).
  assert (Hc : forall b x, au_context b = x -> set au_context (fun _ => x) b = b) by (by intros [] x <-).
  assert (Hthird : forall w' s', (w' = au_worklet a \/ w' = None /\ au_worklet a = w) -> (s' = au_stream a \/ s' = None /\ au_stream a = s) ->
    wp ((if bool_decide (au_context a = c) then au_context <== None else mskip);; k) Q
       (set au_stream (fun _ => s') (set au_worklet (fun _ => w') a))).
  { intros w' s' H1 H2. apply wp_bind. destruct (bool_decide_reflect (au_context a = c)); [apply wp_modify; apply H; [exact H1|exact H2|by right]|].
    apply wp_ret. pose proof (H w' s' (au_context a) H1 H2 (or_introl eq_refl)) as K.
    by rewrite Hc in K. }
  assert (Hsecond : forall w', (w' = au_worklet a \/ w' = None /\ au_worklet a = w) ->
    wp ((if bool_decide (au_stream a = s) then au_stream <== None else mskip);;
        (if bool_decide (au_context a = c) then au_context <== None else mskip);; k) Q (set au_worklet (fun _ => w') a)).
  { intros w' H1. apply wp_bind. destruct (bool_decide_reflect (au_stream a = s)); [apply wp_modify; apply Hthird; [exact H1|by right]|].
    apply wp_ret. pose proof (Hthird w' (au_stream a) H1 (or_introl eq_refl)) as K. by rewrite Hs in K. }
  destruct (bool_decide_reflect (au_worklet a = w)); [apply wp_modify; apply Hsecond; by right|].
  apply wp_ret. pose proof (Hsecond (au_worklet a) (or_introl eq_refl)) as K. by rewrite Hw in K.
Qed.

Lemma wp_cleanup g j error a :
  held_ok (Some g) a -> map_get g (au_arms a) = Some j -> released a j -> received j ->
  (forall c, aj_context j = Some c -> closed a c) ->
  wp (arm_cleanup g error) (fun _ a' => held_ok None a') a.
Proof.
  intros Ha Hj Hrel Hrec Hcl. unfold arm_cleanup. apply wp_bind, wp_get. unfold arm_of. rewrite Hj. cbn [default from_option id].
  apply wp_forget. intros w s c Hw Hs Hc. destruct Hrel as [Hrs Hrw].
  assert (Hb : held_ok (Some g) (set au_context (fun _ => c) (set au_stream (fun _ => s) (set au_worklet (fun _ => w) a)))).
  { apply held_ok_forget; [done|..].
    - destruct Hw as [->|[-> E]]; [by left|right]. split; [done|]. intros x Hx. apply Hrw. congruence.
    - destruct Hs as [->|[-> E]]; [by left|right]. split; [done|]. intros x Hx. apply Hrs. congruence.
    - destruct Hc as [->|[-> E]]; [by left|right]. split; [done|]. intros x Hx. apply Hcl. congruence. }
  revert Hb. set (b := set au_context _ _). intros Hb.
  assert (Hend : forall b', held_view b' = held_view b -> wp (arm_ended g (Throw error)) (fun _ a' => held_ok None a') b').
  { intros b' E. pose proof E as E'. unfold held_view in E'. injection E' as E1 E2 E3 E4 E5 E6 E7 E8 E9 E10 E11.
    eapply wp_mono; [apply (wp_ended g j)|by intros o a' [_ H]]; [by apply (held_ok_view _ b)|by rewrite E4| |].
    - intros x Hx. left. unfold stopped. rewrite E11. by apply Hrs.
    - intros track x Hx. left. unfold disconnected. rewrite E9, E11. apply Hrw. by apply (Hrec track). }
  apply wp_bind. destruct (bool_decide _); [|by apply wp_ret, Hend].
  apply wp_bind, wp_modify, wp_bind, wp_modify, wp_modify. by apply Hend.
Qed.

(** ** Assignments of a body, and its next await *)

Lemma map_get_update g g' (f : ArmJob -> ArmJob) (l : list (Z * ArmJob)) :
  map_get g' (map (fun p => if p.1 =? g then (p.1, f p.2) else p) l) = if decide (g' = g) then f <$> map_get g l else map_get g' l.
Proof.
  induction l as [|[i j] l IH]; cbn; [by case_decide|]. destruct (Z.eqb_spec i g) as [->|Hne]; cbn; rewrite IH.
  - destruct (decide (g' = g)) as [->|]; [by rewrite decide_True|done].
  - destruct (decide (g' = g)) as [->|]; [by rewrite !decide_False by congruence|done].
Qed.

Lemma held_ok_assign g j f a :
  held_ok (Some g) a -> map_get g (au_arms a) = Some j -> aj_epoch (f j) = aj_epoch j ->
  (forall c, aj_context (f j) = Some c -> is_Some (map_get c (au_contexts a))) ->
  (forall w, aj_worklet (f j) = Some w \/ (exists track, aj_wait (f j) = AwWorklet track (Ok w)) -> (w < au_next a)%nat) ->
  (forall s, aj_stream j = Some s -> aj_stream (f j) = Some s \/ stopped a s \/ au_stream a = Some s) ->
  (forall track w, aj_wait j = AwWorklet track (Ok w) ->
     aj_wait (f j) = AwWorklet track (Ok w) \/ (disconnected a w /\ w ∉ (au_listening a).*1) \/ au_worklet a = Some w) ->
  (forall track w, aj_wait (f j) = AwWorklet track (Ok w) -> aj_wait j = AwWorklet track (Ok w) \/ w ∉ (au_listening a).*1) ->
  let b := set au_arms (map (fun p => if p.1 =? g then (p.1, f p.2) else p)) a in
  held_ok (Some g) b /\ map_get g (au_arms b) = Some (f j).
Proof.
  intros [H1 H2 H3 H4 H5 H6 H7 H8 H9 H10 H11 H12] Hj He Hc Hw Hs Ha Hh. cbv zeta.
  assert (Hg : map_get g (map (fun p => if p.1 =? g then (p.1, f p.2) else p) (au_arms a)) = Some (f j)).
  { rewrite map_get_update, decide_True by done. by rewrite Hj. }
  split; [|exact Hg].
  assert (Hget : forall g' j', map_get g' (map (fun p => if p.1 =? g then (p.1, f p.2) else p) (au_arms a)) = Some j' ->
     (g' = g /\ j' = f j) \/ (g' <> g /\ map_get g' (au_arms a) = Some j')).
  { intros g' j'. rewrite map_get_update, Hj. case_decide as E; [|by right]. intros [= <-]. by left. }
  assert (Hwait : forall w, awaited a w -> (disconnected a w /\ w ∉ (au_listening a).*1) \/ au_worklet a = Some w
     \/ awaited (set au_arms (map (fun p => if p.1 =? g then (p.1, f p.2) else p)) a) w).
  { intros w (g' & j' & track & Hg' & Hw'). destruct (decide (g' = g)) as [->|Hne].
    - rewrite Hj in Hg'. injection Hg' as <-. destruct (Ha _ _ Hw') as [E|[E|E]]; [|tauto..].
      right; right. exists g, (f j), track. by split.
    - right; right. exists g', j', track. split; [|done].
      change (map_get g' (map (fun p => if p.1 =? g then (p.1, f p.2) else p) (au_arms a)) = Some j').
      rewrite map_get_update. by rewrite decide_False. }
  split.
  - intros g' j' [[-> ->]|[_ Hg']]%Hget; [rewrite He; by apply (H1 g)|by apply (H1 g')].
  - intros g' j' Hr [[-> _]|[_ Hg']]%Hget; [done|]. by apply H2.
  - intros s [Hx|[Hx|(g' & j' & E & Hg' & Hx)]]%H3; [by left|by right; left|]. injection E as <-. rewrite Hj in Hg'.
    injection Hg' as <-. apply Hs in Hx as [Hx|[Hx|Hx]]; [|by left|by right; left]. right; right. by exists g, (f j).
  - exact H4.
  - intros g' j' c [[-> ->]|[_ Hg']]%Hget; [apply Hc|]. by apply (H5 g').
  - intros w [Hx|[Hx|Hx%Hwait]]%H6; [by left|by right; left|]. destruct Hx as [[Hx _]|[Hx|Hx]]; [by left|by right; left|by right; right].
  - intros w e Hin. pose proof (H7 w e Hin) as [[Hx|Hx%Hwait] He']; (split; [|exact He']); [by left|].
    destruct Hx as [[_ Hx]|[Hx|Hx]]; [|by left|by right]. destruct Hx. apply list_elem_of_fmap. by exists (w, e).
  - intros g' j' Hr [[-> _]|[_ Hg']]%Hget; [done|]. by apply (H8 g').
  - intros g' j' w [[-> ->]|[_ Hg']]%Hget; [apply Hw|]. by apply (H9 g').
  - intros g' j' s Hr [[-> _]|[_ Hg']]%Hget; [done|]. by apply (H10 g').
  - exact H11.
  - intros w e Hin. destruct (H12 w e Hin) as [Hlt Hx]. split; [exact Hlt|].
    intros g' j' track [[-> ->]|[_ Hg']]%Hget Hy; [|by apply (Hx g' j' track)].
    rewrite He. apply Hh in Hy as [Hy|[]]; [by apply (Hx g j track)|]. apply list_elem_of_fmap. by exists (w, e).
Qed.

(** The body comes to rest at its next await. *)
Lemma held_ok_rest g j a :
  held_ok (Some g) a -> map_get g (au_arms a) = Some j ->
  (aj_epoch j = au_currentEpoch a -> ~ closing j ->
     au_activeArm a = Some (au_currentEpoch a, g) /\ au_worklet a = None /\ (streamless j -> au_stream a = None)) ->
  (forall s, aj_stream j = Some s -> stopped a s \/ au_stream a = Some s) ->
  (closing j -> released a j /\ forall c, aj_context j = Some c -> closed a c) ->
  held_ok None a.
Proof.
  intros [H1 H2 H3 H4 H5 H6 H7 H8 H9 H10 H11 H12] Hj Hlive Hs Hcl. split; try assumption.
  - intros g' j' _ Hg'. destruct (decide (g' = g)) as [->|]; [|apply (H2 g'); congruence].
    rewrite Hj in Hg'. injection Hg' as <-. exact Hlive.
  - intros s [Hx|[Hx|(g' & j' & E & Hg' & Hx)]]%H3; [by left|by right; left|]. injection E as <-. rewrite Hj in Hg'.
    injection Hg' as <-. apply Hs in Hx as [Hx|Hx]; [by left|by right; left].
  - intros g' j' _ Hg'. destruct (decide (g' = g)) as [->|]; [|apply (H8 g'); congruence].
    rewrite Hj in Hg'. injection Hg' as <-. exact Hcl.
  - intros g' j' s _ Hg'. destruct (decide (g' = g)) as [->|]; [|apply (H10 g'); congruence].
    rewrite Hj in Hg'. injection Hg' as <-. apply Hs.
Qed.

(** ** The catch *)

Lemma wp_catch g j error a :
  held_ok (Some g) a -> map_get g (au_arms a) = Some j -> received j ->
  wp (arm_catch g error) (fun _ a' => held_ok None a') a.
Proof.
  intros Ha Hj Hrec. unfold arm_catch. apply wp_bind, wp_get. unfold arm_of. rewrite Hj. cbn [default from_option id].
  assert (Hrest : forall a2, held_ok (Some g) a2 -> map_get g (au_arms a2) = Some j -> released a2 j ->
    wp (let! a := mget in
        match aj_context j with
        | Some c => if context_is "closed" c a then arm_cleanup g error else call (CallClose c);; wait_for g (AwClose error)
        | None => arm_cleanup g error
        end) (fun _ a' => held_ok None a') a2).
  { clear a Ha Hj. intros a Ha Hj Hrel. apply wp_bind, wp_get. destruct (aj_context j) as [c|] eqn:Ec.
    - destruct (context_is "closed" c a) eqn:Hcl.
      + apply (wp_cleanup g j); try done. intros c' E. rewrite Ec in E. injection E as <-. right.
        destruct (ho_known _ _ Ha g j c Hj Ec) as [cx Hcx]. exists cx. split; [done|].
        unfold context_is, context_of in Hcl. rewrite Hcx in Hcl. by bool_split.
      + apply wp_bind, wp_modify, wp_modify. pose proof (held_ok_call _ (CallClose c) a I Ha) as Hb.
        pose proof (released_more a j (CallClose c) Hrel) as Hrelb. set (b := set au_calls _ a) in *.
        destruct (held_ok_assign g j (set aj_wait (fun _ => AwClose error)) b Hb Hj) as [Hd Hjd]; try done.
        * intros c' Hc'. by apply (ho_known _ _ Hb g j).
        * intros w [Hw|(track & Hw)]; [|done]. apply (ho_fresh _ _ Hb g j w Hj). by left.
        * intros s Hs. by left.
        * intros track w Hw%Hrec. right; left. by apply Hrelb.
        * apply (held_ok_rest g _ _ Hd Hjd); [by intros _ []| |].
          -- intros s Hs. left. by apply Hrelb.
          -- intros _. split; [exact Hrelb|]. intros c' E. change (aj_context j = Some c') in E. rewrite Ec in E. injection E as <-.
             left. apply elem_of_app. right. by apply list_elem_of_singleton.
    - apply (wp_cleanup g j); try done. by rewrite Ec. }
  assert (Hstream : forall a1, held_ok (Some g) a1 -> map_get g (au_arms a1) = Some j ->
    (forall w, aj_worklet j = Some w -> disconnected a1 w /\ w ∉ (au_listening a1).*1) ->
    wp (when_some (aj_stream j) (fun s => call (CallStopTracks s));;
        let! a := mget in
        match aj_context j with
        | Some c => if context_is "closed" c a then arm_cleanup g error else call (CallClose c);; wait_for g (AwClose error)
        | None => arm_cleanup g error
        end) (fun _ a' => held_ok None a') a1).
  { clear a Ha Hj. intros a Ha Hj Hrel. apply wp_bind. destruct (aj_stream j) as [s|] eqn:Es; cbn [when_some].
    - apply wp_modify, Hrest; [by apply held_ok_call|exact Hj|]. split.
      + intros s' E. rewrite Es in E. injection E as <-. apply elem_of_app. right. by apply list_elem_of_singleton.
      + intros w Hw. apply Hrel in Hw as [Hw Hl]. split; [|exact Hl]. apply elem_of_app. by left.
    - apply wp_ret, Hrest; [done..|]. split; [by rewrite Es|done]. }
  apply wp_bind. destruct (aj_worklet j) as [w|] eqn:Ew; cbn [when_some].
  - unfold release_worklet. apply wp_bind, wp_modify, wp_modify, Hstream; [|exact Hj|].
    + apply held_ok_call; [done|]. by apply held_ok_unlisten.
    + intros w' [= <-]. split; [apply elem_of_app; right; by apply list_elem_of_singleton|].
      intros Hin. apply list_elem_of_fmap in Hin as ([w0 e] & E & Hin). apply (map_delete_elem w0 w) in Hin as [_ Hin]. by cbn in E.
  - apply wp_ret, Hstream; done.
Qed.

(** ** Acquiring *)

Lemma held_ok_next run a : held_ok run a -> held_ok run (set au_next S a).
Proof.
  intros [H1 H2 H3 H4 H5 H6 H7 H8 H9 H10 H11 H12]. split; try assumption.
  - intros g j w Hg Hw. change (w < S (au_next a))%nat. specialize (H9 g j w Hg Hw). lia.
  - intros w e [Hlt Hw]%H12. split; [change (w < S (au_next a))%nat; lia|exact Hw].
Qed.

Lemma held_ok_microphone g j s a :
  held_ok (Some g) a -> map_get g (au_arms a) = Some j -> aj_stream j = Some s ->
  held_ok (Some g) (set au_calls (fun l => l ++ [CallMicrophone s]) a).
Proof.
  intros Ha Hj Hs. apply held_ok_calls; [done|..]; intros x [= E]%list_elem_of_singleton. subst. by exists g, j.
Qed.

(** A worklet is connected: it is awaited, or cut off again. *)
Lemma held_ok_connect run w a :
  held_ok run a -> awaited a w -> held_ok run (set au_calls (fun l => l ++ [CallConnect w]) a).
Proof.
  intros Ha Hw. apply held_ok_calls; [done|..]; intros x [= E]%list_elem_of_singleton. subst. by left.
Qed.

Lemma held_ok_cut run w a :
  held_ok run a -> held_ok run (set au_calls (fun l => l ++ [CallDisconnect w]) (set au_calls (fun l => l ++ [CallConnect w]) a)).
Proof.
  intros Ha. apply (held_ok_view run (set au_calls (fun l => l ++ [CallConnect w; CallDisconnect w]) a)).
  { unfold held_view, set; cbn. by rewrite <- app_assoc. }
  apply held_ok_calls; [done|..]; intros x Hx; repeat (apply elem_of_cons in Hx as [Hx|Hx]; [simplify_eq|]); try by apply elem_of_nil in Hx.
  right. by right; left.
Qed.

Lemma held_ok_listen run w e a :
  held_ok run a -> awaited a w -> e <= au_currentEpoch a ->
  (forall g j, map_get g (au_arms a) = Some j -> aj_worklet j <> Some w) ->
  (forall g j track, map_get g (au_arms a) = Some j -> aj_wait j = AwWorklet track (Ok w) -> e <= aj_epoch j) ->
  held_ok run (set au_listening (fun l => l ++ [(w, e)]) a).
Proof.
  intros [H1 H2 H3 H4 H5 H6 H7 H8 H9 H10 H11 H12] Ha He Hnew Hepoch. split; try assumption.
  - intros x e' [Hx|Hx%list_elem_of_singleton]%elem_of_app; [by apply H7|]. injection Hx as -> ->. split; [by right|done].
  - intros g j Hr Hg Hc. destruct (H8 g j Hr Hg Hc) as [[Hs Hw] Hcl]. split; [|exact Hcl]. split; [exact Hs|].
    intros x Hx. destruct (Hw x Hx) as [Hd Hl]. split; [exact Hd|]. intros Hin.
    apply list_elem_of_fmap in Hin as ([y e'] & E & [Hin|Hin%list_elem_of_singleton]%elem_of_app); cbn in E; subst y.
    + apply Hl, list_elem_of_fmap. by exists (x, e').
    + injection Hin as -> ->. by apply (Hnew g j).
  - intros x e' [Hx|Hx%list_elem_of_singleton]%elem_of_app; [by apply H12|]. injection Hx as -> ->.
    destruct Ha as (g & j & track & Hg & Hw). split; [|done]. apply (H9 g j w Hg). right. by exists track.
Qed.

(** ** The stretches of the body *)

Definition body_post (g : Z) (r : result unit) (a : Audio) : Prop :=
  match r with
  | Ok _ => held_ok None a
  | Throw _ => held_ok (Some g) a /\ exists j, map_get g (au_arms a) = Some j /\ received j
  end.

Lemma wp_body g m a : wp m (body_post g) a -> wp (in_body g m) (fun _ a' => held_ok None a') a.
Proof.
  intros H. apply wp_try. eapply wp_mono; [exact H|]. intros [u|e] a'; [done|]. intros (Ha & j & Hj & Hr).
  by apply (wp_catch g j).
Qed.

(** Nothing changed yet. *)
Lemma thrown g j e a : held_ok (Some g) a -> map_get g (au_arms a) = Some j -> received j -> body_post g (Throw e) a.
Proof. intros Ha Hj Hr. split; [done|]. by exists j. Qed.

(** The body awaits what is to come. *)
Lemma wp_wait g j w a :
  held_ok (Some g) a -> map_get g (au_arms a) = Some j ->
  (forall t x, aj_wait j <> AwWorklet t (Ok x)) -> (forall t x, w <> AwWorklet t (Ok x)) -> (forall e, w <> AwClose e) ->
  (aj_epoch j = au_currentEpoch a -> au_activeArm a = Some (au_currentEpoch a, g) /\ au_worklet a = None
     /\ (match w with AwResume | AwMicrophone => True | _ => False end -> au_stream a = None)) ->
  (forall s, aj_stream j = Some s -> stopped a s \/ au_stream a = Some s) ->
  wp (wait_for g w) (fun r a' => r = Ok tt /\ held_ok None a') a.
Proof.
  intros Ha Hj Hold Hnew Hopen Hlive Hs. unfold wait_for, assign. apply wp_modify.
  destruct (held_ok_assign g j (set aj_wait (fun _ => w)) a Ha Hj) as [Hd Hjd]; try done.
  - intros c Hc. by apply (ho_known _ _ Ha g j).
  - intros x [Hx|(t & Hx)]; [apply (ho_fresh _ _ Ha g j x Hj); by left|by destruct (Hnew t x)].
  - intros s Hx. by left.
  - intros t x Hx. by destruct (Hold t x).
  - intros t x Hx. by destruct (Hnew t x).
  - assert (Hcl : ~ closing (set aj_wait (fun _ => w) j)).
    { apply (not_closing (set aj_wait (fun _ => w) j) w); [done|]. destruct w; try done. by destruct (Hopen error). }
    split; [done|]. apply (held_ok_rest g _ _ Hd Hjd); [|exact Hs|by intros ?%Hcl]. intros E _. exact (Hlive E).
Qed.

(** As the end of a stretch. *)
Lemma wp_rest g m a : wp m (fun r a' => r = Ok tt /\ held_ok None a') a -> wp m (body_post g) a.
Proof. intros H. eapply wp_mono; [exact H|]. by intros r a' [-> Ha]. Qed.

Lemma wp_resumed g j r a :
  held_ok None a -> map_get g (au_arms a) = Some j -> aj_wait j = AwResume -> wp (arm_resumed g r) (fun _ a' => held_ok None a') a.
Proof.
  intros Ha Hj Hw. apply wp_body. pose proof (held_ok_run g a Ha) as Hrun.
  assert (Hrec : received j) by (intros t w E; congruence).
  apply wp_bind, wp_lift. destruct r as [u|e]; [|by apply (thrown g j)].
  apply wp_bind, wp_get.
  unfold arm_of. rewrite Hj. cbn [default from_option id]. apply wp_bind. unfold assertCurrent. apply wp_bind, wp_get.
  destruct (aj_epoch j =? au_currentEpoch a) eqn:E; [apply wp_ret|apply wp_throw; by apply (thrown g j)]. bool_split.
  destruct (ho_live _ _ Ha g j ltac:(done) Hj E (not_closing j _ Hw I)) as (L1 & L2 & L3).
  apply wp_rest, (wp_wait g j); [done|done|congruence|done|done| |].
  - intros _. split_and!; try done. intros _. apply L3. unfold streamless. by rewrite Hw.
  - intros s. by apply (ho_own _ _ Ha g j).
Qed.

(** The stream becomes the current one; there was none. *)
Lemma held_ok_stream g s a :
  held_ok (Some g) a -> au_stream a = None -> (exists e, au_activeArm a = Some (e, g)) ->
  held_ok (Some g) (set au_stream (fun _ => Some s) a).
Proof.
  intros [H1 H2 H3 H4 H5 H6 H7 H8 H9 H10 H11 H12] Hs (e & Hact). split; try assumption.
  - intros g' j Hr Hg He Hc. destruct (H2 g' j Hr Hg He Hc) as (K & _). congruence.
  - intros x [Hx|[Hx|Hx]]%H3; [by left|congruence|by right; right].
  - intros g' j x Hr Hg Hx. destruct (H10 g' j x Hr Hg Hx) as [K|K]; [by left|congruence].
Qed.

Lemma wp_microphone g j r a :
  held_ok None a -> map_get g (au_arms a) = Some j -> aj_wait j = AwMicrophone -> wp (arm_microphone g r) (fun _ a' => held_ok None a') a.
Proof.
  intros Ha Hj Hw. apply wp_body. pose proof (held_ok_run g a Ha) as Hrun.
  apply wp_bind, wp_lift. destruct r as [tracks|e]; [|apply (thrown g j); [done..|intros t w E; congruence]].
  unfold fresh. apply wp_bind, wp_bind, wp_get, wp_bind, wp_modify, wp_ret. apply wp_bind, wp_modify.
  unfold assign. apply wp_bind, wp_modify. apply wp_bind, wp_get. set (s := au_next a).
  (* the body holds the stream *)
  pose proof (held_ok_next _ _ Hrun) as Hn.
  destruct (held_ok_assign g j (set aj_stream (fun _ => Some s)) _ Hn Hj) as [Hd Hjd]; try done.
  { intros c Hc. by apply (ho_known _ _ Ha g j). }
  { intros w [Hx|(t & Hx)]; [apply (ho_fresh _ _ Hn g j w Hj); by left|]. change (aj_wait j = AwWorklet t (Ok w)) in Hx. congruence. }
  { intros x Hx. right. by apply (ho_own _ _ Ha g j). }
  { intros t w Hx. congruence. }
  { intros t w Hx. by left. }
  pose proof (held_ok_microphone g _ s _ Hd Hjd eq_refl) as Hb. clear Hd Hn.
  set (b := set au_calls _ _) in Hb. change (wp (
    if negb (aj_epoch (arm_of g b) =? au_currentEpoch b) then call (CallStopTracks s);; mthrow "stale audio completion"
    else
      au_stream <== Some s;;
      match tracks with
      | None => mthrow "microphone is unavailable"
      | Some track =>
          if match aj_context (arm_of g b) with Some c => cx_audioWorklet (context_of c b) | None => false end
          then wait_for g (AwModule track)
          else wait_for g (AwWorklet track (Throw "AudioWorklet is unavailable"))
      end) (body_post g) b). set (j1 := set aj_stream (fun _ => Some s) j) in *.
  assert (Hjb : map_get g (au_arms b) = Some j1) by exact Hjd.
  assert (Hlive : aj_epoch j1 = au_currentEpoch b -> au_activeArm b = Some (au_currentEpoch b, g) /\ au_worklet b = None /\ au_stream b = None).
  { intros E. destruct (ho_live _ _ Ha g j ltac:(done) Hj E (not_closing j _ Hw I)) as (L1 & L2 & L3).
    split; [exact L1|]. split; [exact L2|]. apply L3. unfold streamless. by rewrite Hw. }
  assert (Hwait : forall t x, aj_wait j1 <> AwWorklet t (Ok x)).
  { intros t x E. change (aj_wait j = AwWorklet t (Ok x)) in E. congruence. }
  assert (Hstream : aj_stream j1 = Some s) by done. clearbody b j1. unfold arm_of. rewrite Hjb. cbn [default from_option id].
  assert (Hrec : received j1) by (intros t x E; by destruct (Hwait t x)).
  destruct (aj_epoch j1 =? au_currentEpoch b) eqn:E; cbn [negb]; bool_split.
  - destruct (Hlive E) as (L1 & L2 & L3). apply wp_bind, wp_modify.
    assert (Hc : held_ok (Some g) (set au_stream (fun _ => Some s) b)) by (apply held_ok_stream; eauto).
    destruct tracks as [track|]; [|apply wp_throw; by apply (thrown g j1)].
    destruct (match aj_context j1 with Some c => cx_audioWorklet (context_of c b) | None => false end);
      (apply wp_rest, (wp_wait g j1); [exact Hc|exact Hjb|exact Hwait|by intros|by intros|by intros _; split_and!|]; intros x Hx; right; by rewrite Hstream in Hx).
  - apply wp_bind, wp_modify, wp_throw. apply (thrown g j1); [by apply held_ok_call|done|done].
Qed.

Lemma wp_module g j r io track a :
  held_ok None a -> map_get g (au_arms a) = Some j -> aj_wait j = AwModule track -> wp (arm_module g r io) (fun _ a' => held_ok None a') a.
Proof.
  intros Ha Hj Hw. pose proof (held_ok_run g a Ha) as Hrun. unfold arm_module. apply wp_bind, wp_get.
  unfold arm_of. rewrite Hj. cbn [default from_option id]. rewrite Hw.
  assert (Hold : forall t x, aj_wait j <> AwWorklet t (Ok x)) by (intros t x E; congruence).
  assert (Hlive : aj_epoch j = au_currentEpoch a -> au_activeArm a = Some (au_currentEpoch a, g) /\ au_worklet a = None).
  { intros E. destruct (ho_live _ _ Ha g j ltac:(done) Hj E (not_closing j _ Hw I)) as (L1 & L2 & L3). by split. }
  (* it failed, and the state is as it was but for calls *)
  assert (Hfail : forall e b, held_ok (Some g) b -> au_arms b = au_arms a -> au_currentEpoch b = au_currentEpoch a ->
     au_activeArm b = au_activeArm a -> au_worklet b = au_worklet a -> au_stream b = au_stream a -> (forall s, stopped a s -> stopped b s) ->
     wp (wait_for g (AwWorklet track (Throw e))) (fun _ a' => held_ok None a') b).
  { intros e b Hb E1 E2 E3 E4 E5 Hst. eapply wp_mono; [apply (wp_wait g j); [done| |done|done|done| |]|].
    - by rewrite E1.
    - rewrite E2, E3, E4. intros E. destruct (Hlive E). by split_and!.
    - rewrite E5. intros s Hs. destruct (ho_own _ _ Ha g j s ltac:(done) Hj Hs) as [?|?]; [left; by apply Hst|by right].
    - by intros r' a' [_ H]. }
  apply wp_bind. unfold attempt, prepareWorklet. apply wp_try, wp_bind, wp_bind, wp_lift.
  destruct r as [u|e]; [|by apply wp_ret, Hfail].
  apply wp_bind. unfold assertCurrent. apply wp_bind, wp_get.
  destruct (aj_epoch j =? au_currentEpoch a) eqn:E; [apply wp_ret|by apply wp_throw, wp_ret, Hfail]. bool_split.
  destruct (negb (wi_create io) || negb (wi_source io)); [by apply wp_throw, wp_ret, Hfail|].
  unfold fresh. apply wp_bind, wp_bind, wp_get, wp_bind, wp_modify, wp_ret. apply wp_bind, wp_modify. set (w := au_next a).
  pose proof (held_ok_next _ _ Hrun) as Hn. destruct (wi_connect io).
  - apply wp_bind, wp_modify, wp_ret, wp_ret. unfold wait_for, assign. apply wp_modify.
    destruct (held_ok_assign g j (set aj_wait (fun _ => AwWorklet track (Ok w))) _ Hn Hj) as [Hd Hjd]; try done.
    { intros c Hc. by apply (ho_known _ _ Ha g j). }
    { intros x [Hx|(t & [= _ <-])]; [|apply Nat.lt_succ_diag_r]. apply (ho_fresh _ _ Hn g j x Hj). by left. }
    { intros s Hs. by left. }
    { intros t x Hx. by destruct (Hold t x). }
    { intros t x [= _ <-]. right. intros Hin. apply list_elem_of_fmap in Hin as ([y e] & E' & Hin). cbn in E'. subst y.
      apply (ho_heard _ _ Ha) in Hin as [Hin _]. unfold w in Hin. lia. }
    set (b := set au_arms _ _) in *. set (j1 := set aj_wait _ j) in *.
    assert (Haw : awaited b w) by (by exists g, j1, track).
    assert (Hnew : forall g' j', map_get g' (au_arms b) = Some j' -> aj_worklet j' <> Some w).
    { intros g' j' Hg' Hx. assert (w < au_next a)%nat; [|unfold w in *; lia].
      change (map_get g' (map (fun p => if p.1 =? g then (p.1, set aj_wait (fun _ => AwWorklet track (Ok w)) p.2) else p) (au_arms a)) = Some j') in Hg'.
      rewrite map_get_update, Hj in Hg'. case_decide as Eg; [injection Hg' as <-; apply (ho_fresh _ _ Ha g j w Hj); by left|].
      apply (ho_fresh _ _ Ha g' j' w Hg'). by left. }
    assert (Hok : held_ok (Some g) (set au_listening (fun l => l ++ [(w, aj_epoch j)]) (set au_calls (fun l => l ++ [CallConnect w]) b))).
    { apply held_ok_listen; [by apply held_ok_connect|exact Haw|change (aj_epoch j <= au_currentEpoch a); lia|exact Hnew|].
      intros g' j' t Hg' Hx.
      change (map_get g' (map (fun p => if p.1 =? g then (p.1, set aj_wait (fun _ => AwWorklet track (Ok w)) p.2) else p) (au_arms a)) = Some j') in Hg'.
      rewrite map_get_update, Hj in Hg'. case_decide as Eg; [injection Hg' as <-; change (aj_epoch j <= aj_epoch j); lia|].
      assert (w < au_next a)%nat; [|unfold w in *; lia]. apply (ho_fresh _ _ Ha g' j' w Hg'). right. by exists t. }
    apply (held_ok_rest g j1); [exact Hok|exact Hjd| | |].
    + intros _ _. destruct (Hlive E) as [L1 L2]. split; [exact L1|]. by split.
    + intros s Hs. destruct (ho_own _ _ Ha g j s ltac:(done) Hj Hs) as [Hx|Hx]; [left; apply elem_of_app; by left|by right].
    + by intros [].
  - apply wp_bind, wp_modify, wp_throw, wp_ret. apply Hfail; try done.
    + by apply held_ok_cut.
    + intros s Hs. apply elem_of_app. left. apply elem_of_app. by left.
Qed.

(** The worklet becomes the current one; there was none. *)
Lemma held_ok_worklet g w a :
  held_ok (Some g) a -> au_worklet a = None -> (exists e, au_activeArm a = Some (e, g)) ->
  held_ok (Some g) (set au_worklet (fun _ => Some w) a).
Proof.
  intros [H1 H2 H3 H4 H5 H6 H7 H8 H9 H10 H11 H12] Hw (e & Hact). split; try assumption.
  - intros g' j Hr Hg He Hc. destruct (H2 g' j Hr Hg He Hc) as (K & _). congruence.
  - intros x [Hx|[Hx|Hx]]%H6; [by left|congruence|by right; right].
  - intros x e' Hin. pose proof (H7 x e' Hin) as [[Hx|Hx] He]; (split; [|exact He]); [congruence|by right].
Qed.

Lemma wp_prepared g j track prepared a :
  held_ok None a -> map_get g (au_arms a) = Some j -> aj_wait j = AwWorklet track prepared ->
  wp (arm_worklet g) (fun _ a' => held_ok None a') a.
Proof.
  intros Ha Hj Hw. apply wp_body. pose proof (held_ok_run g a Ha) as Hrun. apply wp_bind, wp_get.
  unfold arm_of. rewrite Hj. cbn [default from_option id]. rewrite Hw.
  destruct (aj_context j) as [context|] eqn:Ec; [|by apply wp_ret]. apply wp_bind, wp_lift.
  destruct prepared as [w|e]; [|apply (thrown g j); [done..|intros t x E; congruence]].
  unfold assign. apply wp_bind, wp_modify.
  assert (Hlt : (w < au_next a)%nat) by (apply (ho_fresh _ _ Ha g j w Hj); right; by exists track).
  destruct (held_ok_assign g j (set aj_worklet (fun _ => Some w)) _ Hrun Hj) as [Hd Hjd]; try done.
  { intros c Hc. by apply (ho_known _ _ Ha g j). }
  { intros x [[= <-]|(t & Hx)]; [done|]. apply (ho_fresh _ _ Ha g j x Hj). right. by exists t. }
  { intros x Hx. by left. }
  { intros t x Hx. by left. }
  { intros t x Hx. by left. }
  assert (Hlive : aj_epoch j = au_currentEpoch a -> au_activeArm a = Some (au_currentEpoch a, g) /\ au_worklet a = None).
  { intros E. destruct (ho_live _ _ Ha g j ltac:(done) Hj E (not_closing j _ Hw I)) as (L1 & L2 & L3). by split. }
  assert (Hrec : received (set aj_worklet (fun _ => Some w) j)).
  { intros t x E. change (aj_wait j = AwWorklet t (Ok x)) in E. rewrite Hw in E. by injection E as -> ->. }
  assert (Hown : forall s, aj_stream j = Some s -> stopped a s \/ au_stream a = Some s) by (intros s; by apply (ho_own _ _ Ha g j)).
  apply wp_bind. unfold assertCurrent. apply wp_bind, wp_get.
  destruct (_ =? _) eqn:E; [apply wp_ret|apply wp_throw; by apply (thrown g (set aj_worklet (fun _ => Some w) j))].
  bool_split. destruct (Hlive E) as [L1 L2]. apply wp_bind, wp_modify.
  pose proof (held_ok_worklet g w _ Hd L2 (ex_intro _ _ L1)) as Hc.
  cbv zeta. destruct (evaluateAppliedSettings _); [apply wp_throw; by apply (thrown g (set aj_worklet (fun _ => Some w) j))|].
  do 5 apply wp_bind, wp_modify. apply wp_rest; apply (wp_ended g (set aj_worklet (fun _ => Some w) j)).
  - refine (held_ok_view _ _ _ _ Hc). reflexivity.
  - exact Hjd.
  - exact Hown.
  - intros t x Hx. right. rewrite <- (Hrec t x Hx). reflexivity.
Qed.

Lemma wp_arm_closed g j error a :
  held_ok None a -> map_get g (au_arms a) = Some j -> aj_wait j = AwClose error -> wp (arm_closed g) (fun _ a' => held_ok None a') a.
Proof.
  intros Ha Hj Hw. unfold arm_closed. apply wp_bind, wp_get. unfold arm_of. rewrite Hj. cbn [default from_option id]. rewrite Hw.
  assert (Hc : closing j) by (unfold closing; by rewrite Hw). destruct (ho_closing _ _ Ha g j ltac:(done) Hj Hc) as [Hrel Hcl].
  apply (wp_cleanup g j); [by apply held_ok_run|done|done| |done]. intros t x E. congruence.
Qed.

(** ** An arm begins *)

(** Nothing is current. *)
Record vacant (a : Audio) : Prop := {
  va_held : held_ok None a;
  va_context : au_context a = None;
  va_stream : au_stream a = None;
  va_worklet : au_worklet a = None }.

(** The arm that has begun becomes the active one. *)
Lemma held_ok_active g a active :
  held_ok (Some g) a -> au_worklet a = None -> au_stream a = None ->
  (forall g' j, g' <> g -> map_get g' (au_arms a) = Some j -> aj_epoch j = au_currentEpoch a -> closing j) ->
  (forall j, map_get g (au_arms a) = Some j -> aj_stream j = None /\ ~ closing j) ->
  active = Some (au_currentEpoch a, g) -> held_ok None (set au_activeArm (fun _ => active) a).
Proof.
  intros [H1 H2 H3 H4 H5 H6 H7 H8 H9 H10 H11 H12] Hw Hs Hothers Hown ->. split; try assumption.
  - intros g' j _ Hg He Hc. destruct (decide (g' = g)) as [->|Hne]; [by split_and!|]. destruct (Hc (Hothers g' j Hne Hg He)).
  - intros s [Hx|[Hx|(g' & j & E & Hg & Hx)]]%H3; [by left|by right; left|]. injection E as <-.
    apply Hown in Hg as [Hg _]. congruence.
  - intros g' j _ Hg Hc. destruct (decide (g' = g)) as [->|Hne]; [by apply Hown in Hg as [_ []]|]. apply (H8 g'); [congruence|done..].
  - intros g' j s _ Hg Hx. destruct (decide (g' = g)) as [->|Hne]; [apply Hown in Hg as [Hg _]; congruence|].
    apply (H10 g' j); [congruence|done..].
Qed.

(** A new arm is recorded. *)
Lemma held_ok_begin epoch a :
  vacant a -> (forall g j, map_get g (au_arms a) = Some j -> aj_epoch j < epoch) ->
  let g := au_armGeneration a + 1 in
  let b := set au_arms (fun l => l ++ [(g, mkArm epoch None None None AwResume)])
             (set au_armGeneration (fun _ => g) (set au_currentEpoch (fun _ => epoch) a)) in
  held_ok (Some g) b /\ map_get g (au_arms b) = Some (mkArm epoch None None None AwResume)
  /\ forall g' j, g' <> g -> map_get g' (au_arms b) = Some j -> aj_epoch j = epoch -> closing j.
Proof.
  intros [[H1 H2 H3 H4 H5 H6 H7 H8 H9 H10 H11 H12] _ _ Hvw] He. cbv zeta. set (g := au_armGeneration a + 1).
  assert (Hnew : map_get g (au_arms a) = None).
  { destruct (map_get g (au_arms a)) as [j|] eqn:E; [|done]. apply H1 in E as [_ E]. unfold g in E. lia. }
  assert (Hget : forall g' j, map_get g' (au_arms a ++ [(g, mkArm epoch None None None AwResume)]) = Some j ->
     map_get g' (au_arms a) = Some j \/ (g' = g /\ j = mkArm epoch None None None AwResume)).
  { intros g' j. rewrite map_get_snoc. destruct (map_get g' (au_arms a)); [by left|]. case_decide; [|done]. intros [= <-]. by right. }
  assert (Hkeep : forall g' j, map_get g' (au_arms a) = Some j -> map_get g' (au_arms a ++ [(g, mkArm epoch None None None AwResume)]) = Some j).
  { intros g' j E. by rewrite map_get_snoc, E. }
  assert (Haw : forall w, awaited a w -> awaited (set au_arms (fun l => l ++ [(g, mkArm epoch None None None AwResume)])
             (set au_armGeneration (fun _ => g) (set au_currentEpoch (fun _ => epoch) a))) w).
  { intros w (g' & j & t & Hg & Hw). exists g', j, t. split; [by apply Hkeep|done]. }
  assert (Hothers : forall g' j, map_get g' (au_arms a) = Some j -> aj_epoch j = epoch -> closing j).
  { intros g' j Hg E. apply He in Hg. lia. }
  split; [split|split].
  - intros g' j [Hg|[-> ->]]%Hget; [pose proof (He _ _ Hg); apply H1 in Hg as [K1 K2]|]; unfold set; cbn; unfold g in *; lia.
  - intros g' j Hr [Hg|[-> ->]]%Hget E Hc; [|done]. by destruct (Hc (Hothers g' j Hg E)).
  - intros s [Hx|[Hx|(g' & j & E & _)]]%H3; [by left|by right; left|done].
  - exact H4.
  - intros g' j c [Hg|[-> ->]]%Hget; [by apply (H5 g')|done].
  - intros w [Hx|[Hx|Hx%Haw]]%H6; [by left|by right; left|by right; right].
  - intros w e Hin. destruct (H7 w e Hin) as [[Hx|Hx] _]; [congruence|]. split; [right; by apply Haw|].
    destruct Hx as (g' & j & track & Hg & Hw). apply (proj2 (H12 w e Hin) g' j track) in Hw; [|done]. apply He in Hg.
    change (e <= epoch). lia.
  - intros g' j Hr [Hg|[-> ->]]%Hget; [by apply (H8 g')|done].
  - intros g' j w [Hg|[-> ->]]%Hget; [by apply (H9 g')|by intros [?|(t & ?)]].
  - intros g' j s Hr [Hg|[-> ->]]%Hget; [by apply (H10 g')|done].
  - exact H11.
  - intros w e [Hlt Hw]%H12. split; [exact Hlt|]. intros g' j track [Hg|[-> ->]]%Hget; [by apply (Hw g')|done].
  - change (map_get g (au_arms a ++ [(g, mkArm epoch None None None AwResume)]) = Some (mkArm epoch None None None AwResume)).
    rewrite map_get_snoc, Hnew. by rewrite decide_True.
  - intros g' j Hne [Hg|[-> _]]%Hget E; [by apply (Hothers g')|done].
Qed.

(** Its context. *)
Lemma held_ok_create g j c cx a :
  held_ok (Some g) a -> map_get g (au_arms a) = Some j -> aj_worklet j = None -> aj_stream j = None -> aj_wait j = AwResume ->
  au_context a = None ->
  let f := set aj_context (fun _ => Some c) in
  let b := set au_context (fun _ => Some c) (set au_arms (map (fun p => if p.1 =? g then (p.1, f p.2) else p))
      (set au_contexts (fun l => l ++ [(c, cx)]) (set au_calls (fun l => l ++ [CallCreate c]) a))) in
  held_ok (Some g) b /\ map_get g (au_arms b) = Some (f j).
Proof.
  intros [H1 H2 H3 H4 H5 H6 H7 H8 H9 H10 H11 H12] Hj Hw Hs Hwait Hc. cbv zeta.
  assert (Ha : held_ok (Some g) (set au_context (fun _ => Some c) (set au_contexts (fun l => l ++ [(c, cx)]) a))).
  { assert (Hk : forall x y, map_get x (au_contexts a) = Some y -> map_get x (au_contexts a ++ [(c, cx)]) = Some y).
    { intros x y E. by rewrite map_get_snoc, E. }
    assert (Hcl : forall x, closed a x -> closed (set au_context (fun _ => Some c) (set au_contexts (fun l => l ++ [(c, cx)]) a)) x).
    { intros x [H|(y & E & Hy)]; [by left|right]. exists y. split; [by apply Hk|done]. }
    split; try assumption.
    - intros x [Hx|Hx]%H4; [left; auto|congruence].
    - intros g' j' x Hg Hx. destruct (H5 g' j' x Hg Hx) as [y Hy]. exists y. by apply Hk.
    - intros g' j' Hr Hg Hcj. destruct (H8 g' j' Hr Hg Hcj) as [Hrel Hx]. split; [exact Hrel|auto].
    - intros x [= <-]. change (is_Some (map_get c (au_contexts a ++ [(c, cx)]))). rewrite map_get_snoc, decide_True by done.
      by destruct (map_get c (au_contexts a)). }
  apply (held_ok_calls _ [CallCreate c]) in Ha; [|intros x [= E]%list_elem_of_singleton..].
  - destruct (held_ok_assign g j (set aj_context (fun _ => Some c)) _ Ha Hj) as [Hd Hjd]; try done.
    + intros x [= <-]. change (is_Some (map_get c (au_contexts a ++ [(c, cx)]))). rewrite map_get_snoc, decide_True by done.
      by destruct (map_get c (au_contexts a)).
    + intros w [Hx|(t & Hx)]; [change (aj_worklet j = Some w) in Hx|change (aj_wait j = AwWorklet t (Ok w)) in Hx]; congruence.
    + intros s Hx. congruence.
    + intros t w Hx. congruence.
    + intros t w Hx. by left.
  - by subst.
Qed.

(** The state the body of a new arm leaves, before the arm is the active one. *)
Record begun (g epoch : Z) (a : Audio) : Prop := {
  be_held : held_ok (Some g) a;
  be_epoch : au_currentEpoch a = epoch;
  be_worklet : au_worklet a = None;
  be_stream : au_stream a = None;
  be_others : forall g' j, g' <> g -> map_get g' (au_arms a) = Some j -> aj_epoch j = epoch -> closing j;
  be_own : forall j, map_get g (au_arms a) = Some j -> aj_stream j = None /\ ~ closing j }.

(** With nothing acquired, the catch has nothing to release. *)
Lemma wp_catch_nothing g epoch error a :
  au_context a = None -> au_stream a = None -> au_worklet a = None -> au_activeArm a = None ->
  map_get g (au_arms a) = Some (mkArm epoch None None None AwResume) ->
  wp (arm_catch g error) (fun r a' => r = Ok tt /\ au_currentEpoch a' = au_currentEpoch a /\ au_stream a' = None
    /\ au_worklet a' = None /\ au_arms a' = map_delete g (au_arms a)) a.
Proof.
  intros Hc Hs Hw Hact Hj. unfold arm_catch. apply wp_bind, wp_get. unfold arm_of. rewrite Hj. cbn [default from_option id when_some].
  apply wp_bind, wp_ret, wp_bind, wp_ret, wp_bind, wp_get. unfold arm_cleanup. apply wp_bind, wp_get.
  unfold arm_of. rewrite Hj. cbn [default from_option id aj_context aj_stream aj_worklet]. cbv zeta. apply wp_forget.
  intros w s c Ew Es Ec. assert (w = None) as -> by (destruct Ew as [->|[-> _]]; done).
  assert (s = None) as -> by (destruct Es as [->|[-> _]]; done). rewrite bool_decide_eq_true_2 by done. apply wp_bind.
  do 2 apply wp_bind, wp_modify. apply wp_modify. unfold arm_ended, finishArm. apply wp_bind, wp_bind, wp_get.
  match goal with |- context [match au_activeArm ?x with _ => _ end] => change (au_activeArm x) with (au_activeArm a) end.
  rewrite Hact. apply wp_ret, wp_bind, wp_modify, wp_modify. done.
Qed.

Lemma wp_begin epoch created a :
  vacant a -> au_activeArm a = None -> (forall g j, map_get g (au_arms a) = Some j -> aj_epoch j < epoch) ->
  let g := au_armGeneration a + 1 in
  wp (arm_body g epoch created) (fun r a' => r = Ok tt /\ begun g epoch a')
     (set au_armGeneration (fun _ => g) (set au_currentEpoch (fun _ => epoch) a)).
Proof.
  intros Ha Hact He. cbv zeta. set (g := au_armGeneration a + 1). destruct (held_ok_begin epoch a Ha He) as (Hb & Hj & Hothers).
  unfold arm_body. apply wp_bind, wp_modify. destruct Ha as [Hheld Hc Hs Hw].
  fold g in Hb, Hj, Hothers. set (b := set au_arms _ _) in *. unfold in_body. apply wp_try. destruct created as [cx|].
  - unfold fresh. apply wp_bind, wp_bind, wp_get, wp_bind, wp_modify, wp_ret. set (c := au_next b).
    apply wp_bind, wp_modify, wp_bind, wp_modify, wp_bind, wp_modify, wp_modify.
    destruct (held_ok_create g _ c cx _ (held_ok_next _ _ Hb) Hj eq_refl eq_refl eq_refl Hc) as [Hd Hjd].
    split; [done|]. split; [exact Hd|done|exact Hw|exact Hs| |].
    + intros g' j Hne Hg. apply (Hothers g' j Hne). 
      change (map_get g' (map (fun p => if p.1 =? g then (p.1, set aj_context (fun _ => Some c) p.2) else p) (au_arms b)) = Some j) in Hg.
      rewrite map_get_update in Hg. by rewrite decide_False in Hg.
    + intros j Hg. pose proof (eq_trans (eq_sym Hjd) Hg) as E. injection E as <-. split; [done|]. by intros [].
  - apply wp_throw. eapply wp_mono; [apply wp_and; [apply (wp_catch g _ _ b Hb Hj)|]|].
    + intros t w E. done.
    + by apply (wp_catch_nothing g epoch).
    + cbn. intros r a' (Hd & -> & E1 & E2 & E3 & E4). split; [done|]. split; [by apply held_ok_run|done|done|done| |].
      * intros g' j Hne Hg. rewrite E4, map_get_delete in Hg. rewrite decide_False in Hg by done. by apply (Hothers g').
      * intros j Hg. rewrite E4, map_get_delete in Hg. by rewrite decide_True in Hg.
Qed.

Lemma wp_arm_held epoch created a :
  held_ok None a -> arms_anew (ArmCalled epoch created) a -> wp (armAudio epoch created) (fun _ a' => held_ok None a') a.
Proof.
  intros Ha He. unfold armAudio. apply wp_bind, wp_get.
  destruct (au_activeArm a) as [[activeEpoch generation]|] eqn:Hact; [destruct (_ =? _); by apply wp_ret|].
  assert (Hstart : wp (if is_some (au_context a) || is_some (au_stream a) || is_some (au_worklet a)
      then mret (ArmRejected "audio reset is required before re-arm")
      else au_currentEpoch <== epoch;; au_armGeneration <== au_armGeneration a + 1;;
        arm_body (au_armGeneration a + 1) epoch created;;
        au_activeArm <== Some (epoch, au_armGeneration a + 1);; mret (ArmGeneration (au_armGeneration a + 1)))
      (fun _ a' => held_ok None a') a).
  { destruct (_ || _) eqn:E; [by apply wp_ret|]. bool_split.
    assert (Hv : vacant a) by (split; [done|by destruct (au_context a)|by destruct (au_stream a)|by destruct (au_worklet a)]).
    assert (Hearlier : forall g j, map_get g (au_arms a) = Some j -> aj_epoch j < epoch).
    { intros g j Hg. by apply (He Hact g), map_get_elem. }
    do 2 apply wp_bind, wp_modify. apply wp_bind.
    eapply wp_mono; [by apply wp_begin|]. intros r a' [-> [B1 B2 B3 B4 B5 B6]]. apply wp_bind, wp_modify, wp_ret.
    apply (held_ok_active (au_armGeneration a + 1)); try done; rewrite B2; done. }
  destruct (au_evidence a) as [e|]; [|exact Hstart]. destruct (au_context a) as [c|]; [|exact Hstart].
  destruct (_ && _); by apply wp_ret.
Qed.

(** ** A reset *)

Lemma wp_view_then {A B} run (m : AM A) (k : A -> AM B) Q a :
  held_ok run a -> held_view (final m a) = held_view a -> is_ok (outcome m a) = true ->
  (forall x a', held_ok run a' -> held_view a' = held_view a -> wp (k x) Q a') -> wp (mbind m k) Q a.
Proof.
  intros Ha E Hok H. apply wp_bind, wp_run. destruct (outcome m a) as [x|e]; [|done].
  apply H; [by apply (held_ok_view run a)|done].
Qed.

(** The epoch moves on: no arm is of the new one. *)
Lemma held_ok_epoch a : held_ok None a ->
  held_ok None (set au_activeArm (fun _ => None) (set au_currentEpoch (fun _ => au_currentEpoch a + 1) a)).
Proof.
  intros [H1 H2 H3 H4 H5 H6 H7 H8 H9 H10 H11 H12]. split; try assumption.
  - intros g j Hg. apply H1 in Hg as [K1 K2]. split; [|exact K2]. change (aj_epoch j <= au_currentEpoch a + 1). lia.
  - intros g j _ Hg E. apply H1 in Hg as [K1 _]. change (aj_epoch j = au_currentEpoch a + 1) in E. lia.
  - intros w e Hin. apply H7 in Hin as [Hw He]. split; [exact Hw|]. change (e <= au_currentEpoch a + 1). lia.
Qed.

(** Everything current is released. *)
Record let_go (a : Audio) : Prop := {
  lg_held : held_ok None a;
  lg_context : au_context a = None;
  lg_stream : au_stream a = None;
  lg_worklet : au_worklet a = None;
  lg_silent : forall w e, (w, e) ∈ au_listening a -> e < au_currentEpoch a }.

(** What is current is forgotten once it is released. *)
Lemma forget_worklet a :
  held_ok None a -> (forall x, au_worklet a = Some x -> disconnected a x /\ x ∉ (au_listening a).*1) ->
  held_ok None (set au_worklet (fun _ => None) a).
Proof.
  intros Ha H. refine (held_ok_view _ _ _ _ (held_ok_forget None a None (au_stream a) (au_context a) Ha _ _ _)); [done| | |].
  - by right. - by left. - by left.
Qed.

Lemma forget_stream a :
  held_ok None a -> (forall x, au_stream a = Some x -> stopped a x) -> held_ok None (set au_stream (fun _ => None) a).
Proof.
  intros Ha H. refine (held_ok_view _ _ _ _ (held_ok_forget None a (au_worklet a) None (au_context a) Ha _ _ _)); [done| | |].
  - by left. - by right. - by left.
Qed.

Lemma forget_context a :
  held_ok None a -> (forall x, au_context a = Some x -> closed a x) -> held_ok None (set au_context (fun _ => None) a).
Proof.
  intros Ha H. refine (held_ok_view _ _ _ _ (held_ok_forget None a (au_worklet a) (au_stream a) None Ha _ _ _)); [done| | |].
  - by left. - by left. - by right.
Qed.

Lemma reset_worklet a w :
  held_ok None a -> au_worklet a = Some w ->
  held_ok None (set au_worklet (fun _ => None) (set au_calls (fun l => l ++ [CallDisconnect w]) (set au_listening (map_delete w) a))).
Proof.
  intros Ha Hw. apply forget_worklet; [apply held_ok_call; [done|]; by apply held_ok_unlisten|].
  intros x Hx. change (au_worklet a = Some x) in Hx. rewrite Hw in Hx. injection Hx as <-. split.
  - apply elem_of_app. right. by apply list_elem_of_singleton.
  - intros Hin. apply list_elem_of_fmap in Hin as ([y e] & E & Hin). apply (map_delete_elem y w) in Hin as [_ Hin]. by cbn in E.
Qed.

Lemma reset_stream a s :
  held_ok None a -> au_stream a = Some s ->
  held_ok None (set au_stream (fun _ => None) (set au_calls (fun l => l ++ [CallStopTracks s]) a)).
Proof.
  intros Ha Hs. apply forget_stream; [by apply held_ok_call|].
  intros x Hx. change (au_stream a = Some x) in Hx. rewrite Hs in Hx. injection Hx as <-.
  apply elem_of_app. right. by apply list_elem_of_singleton.
Qed.

(** The last stretch of a reset: the context. *)
Lemma wp_reset_context a b :
  held_ok None b -> au_stream b = None -> au_worklet b = None -> au_context b = au_context a -> au_contexts b = au_contexts a ->
  (forall c, au_context a = Some c -> is_Some (map_get c (au_contexts a))) ->
  (forall w e, (w, e) ∈ au_listening b -> e < au_currentEpoch b) ->
  wp (au_context <== None;;
      match au_context a with
      | Some c => if context_is "closed" c a then reset_closed else call (CallClose c);; mmodify (set au_resets S)
      | None => reset_closed
      end) (fun _ a' => let_go a') b.
Proof.
  intros Hb Hs Hw Ec Ecs Hknown Hl. apply wp_bind, wp_modify.
  assert (Hplain : (forall c, au_context a = Some c -> closed b c) ->
    wp reset_closed (fun _ a' => let_go a') (set au_context (fun _ => None) b)).
  { intros Hc. unfold reset_closed. do 2 apply wp_bind, wp_modify. apply wp_modify. split; try done.
    refine (held_ok_view _ (set au_context (fun _ => None) b) _ _ _); [done|].
    apply forget_context; [done|]. rewrite Ec. exact Hc. }
  destruct (au_context a) as [c|] eqn:Eca; [|by apply Hplain]. destruct (context_is "closed" c a) eqn:Hcl.
  - apply Hplain. intros x [= <-]. right. destruct (Hknown c eq_refl) as [cx Hcx]. exists cx. rewrite Ecs. split; [done|].
    unfold context_is, context_of in Hcl. rewrite Hcx in Hcl. by bool_split.
  - apply wp_bind, wp_modify, wp_modify. split; try done.
    refine (held_ok_view _ (set au_context (fun _ => None) (set au_calls (fun l => l ++ [CallClose c]) b)) _ _ _); [done|].
    apply forget_context; [by apply held_ok_call|]. intros x Hx. change (au_context b = Some x) in Hx. rewrite Ec in Hx.
    injection Hx as <-. left. apply elem_of_app. right. by apply list_elem_of_singleton.
Qed.

(** What a reset has not yet come to. *)
Record resetting (a b : Audio) : Prop := {
  rs_held : held_ok None b;
  rs_worklet : au_worklet b = au_worklet a;
  rs_stream : au_stream b = au_stream a;
  rs_context : au_context b = au_context a /\ au_contexts b = au_contexts a;
  rs_silent : forall w e, (w, e) ∈ au_listening b -> e < au_currentEpoch b }.

Lemma resetting_view a b b' : held_view b' = held_view b -> resetting a b -> resetting a b'.
Proof.
  intros E [H1 H2 H3 H4 H5]. assert (E' := E). unfold held_view in E'. injection E' as E1 E2 E3 E4 E5 E6 E7 E8 E9 E10 E11.
  split; rewrite ?E1, ?E5, ?E6, ?E7, ?E8, ?E9; try done. by apply (held_ok_view _ b).
Qed.

Lemma wp_stop_all a sources b : resetting a b -> wp (stop_all sources) (fun r b' => r = Ok tt /\ resetting a b') b.
Proof.
  revert b. induction sources as [|s rest IH]; intros b Hb; cbn [stop_all]; [by apply wp_ret|].
  do 2 apply wp_bind, wp_modify. apply IH. destruct Hb as [H1 H2 H3 H4 H5]. split; try done. by apply (held_ok_call None (CallDetach s)), (held_ok_call None (CallStop s)).
Qed.

Lemma wp_release_current a b :
  resetting a b ->
  wp (when_some (au_worklet a) release_worklet;; au_worklet <== None;;
      when_some (au_stream a) (fun s => call (CallStopTracks s));; au_stream <== None;; au_context <== None;;
      match au_context a with
      | Some c => if context_is "closed" c a then reset_closed else call (CallClose c);; mmodify (set au_resets S)
      | None => reset_closed
      end) (fun _ a' => let_go a') b.
Proof.
  intros [Hb Hw Hs [Hc Hcs] Hl].
  assert (Hk : forall c, au_context a = Some c -> is_Some (map_get c (au_contexts a))).
  { rewrite <- Hc, <- Hcs. apply (ho_current _ _ Hb). }
  assert (Hsecond : forall b', held_ok None b' -> au_worklet b' = None -> au_stream b' = au_stream a -> au_context b' = au_context a ->
     au_contexts b' = au_contexts a -> (forall w e, (w, e) ∈ au_listening b' -> e < au_currentEpoch b') ->
     wp (when_some (au_stream a) (fun s => call (CallStopTracks s));; au_stream <== None;; au_context <== None;;
         match au_context a with
         | Some c => if context_is "closed" c a then reset_closed else call (CallClose c);; mmodify (set au_resets S)
         | None => reset_closed
         end) (fun _ a' => let_go a') b').
  { intros b' Hb' F1 F2 F3 F4 F5. apply wp_bind. destruct (au_stream a) as [s|] eqn:Es; cbn [when_some].
    - apply wp_modify, wp_bind, wp_modify. apply wp_reset_context; try done. by apply (reset_stream b' s).
    - apply wp_ret, wp_bind, wp_modify. apply wp_reset_context; try done. apply forget_stream; [done|]. intros x Hx. congruence. }
  apply wp_bind. destruct (au_worklet a) as [w|] eqn:Ew; cbn [when_some].
  - unfold release_worklet. apply wp_bind, wp_modify, wp_modify, wp_bind, wp_modify. apply Hsecond; try done.
    + by apply (reset_worklet b w).
    + intros x e Hin. apply (map_delete_elem x w) in Hin as [Hin _]. by apply (Hl x).
  - apply wp_ret, wp_bind, wp_modify. apply Hsecond; try done. apply forget_worklet; [done|]. intros x Hx. congruence.
Qed.

Lemma wp_reset_held a : held_ok None a -> wp resetAudio (fun _ a' => let_go a') a.
Proof.
  intros Ha. unfold resetAudio. apply wp_bind, wp_get. do 5 apply wp_bind, wp_modify.
  assert (Hc : resetting a (set au_activeArm (fun _ => None) (set au_currentEpoch (fun _ => au_currentEpoch a + 1) a))).
  { split; [by apply held_ok_epoch|done|done|done|]. intros w e Hin. apply (ho_listening _ _ Ha) in Hin as [_ He].
    change (e < au_currentEpoch a + 1). lia. }
  apply wp_bind.
  assert (Hrest : forall b, resetting a b -> wp (clear_queue;; au_queue <== None;; au_scheduledSources <== [];;
      stop_all (au_scheduledSources a);; when_some (au_worklet a) release_worklet;; au_worklet <== None;;
      when_some (au_stream a) (fun s => call (CallStopTracks s));; au_stream <== None;; au_context <== None;;
      match au_context a with
      | Some c => if context_is "closed" c a then reset_closed else call (CallClose c);; mmodify (set au_resets S)
      | None => reset_closed
      end) (fun _ a' => let_go a') b).
  { intros b Hb. do 3 apply wp_bind, wp_modify. apply wp_bind. eapply wp_mono; [apply (wp_stop_all a)|].
    - refine (resetting_view a b _ _ Hb). done.
    - intros r b' [-> Hb']. by apply wp_release_current. }
  destruct (au_pendingPlayback a) as [s|]; cbn [when_some]; [apply wp_modify|apply wp_ret]; apply Hrest;
    refine (resetting_view a _ _ _ Hc); done.
Qed.

(** ** Every event *)

Lemma new_audio_held : held_ok None new_audio.
Proof. split; cbn; intros; try done; by match goal with H : _ ∈ [] |- _ => apply elem_of_nil in H end. Qed.

(** Playing acquires sources only. *)
Lemma kept_view f : (forall a, held_view (f a) = held_view a) -> guards (held_ok None) anywhere (mmodify f).
Proof. intros H. apply guards_modify. intros a Ha. split; [by apply (held_ok_view _ a)|done]. Qed.

Lemma kept_fresh : guards (held_ok None) anywhere fresh.
Proof. unfold fresh. apply guards_read. intros a Ha. apply wp_bind, wp_modify, wp_ret. split; [by apply held_ok_next|done]. Qed.

Lemma kept_queue {A} (m : M PcmPlaybackQueue A) : guards (held_ok None) anywhere (on_queue m).
Proof.
  intros a Ha. apply wp_run. split; [|done]. unfold on_queue, final. destruct (au_queue a); [|done]. by apply (held_ok_view _ a).
Qed.

Lemma kept_call c : releases c -> guards (held_ok None) anywhere (call c).
Proof. intros Hc. apply guards_modify. intros a Ha. split; [by apply held_ok_call|done]. Qed.

Lemma kept_play chunk io : guards (held_ok None) anywhere (enqueuePcmPlayback chunk io).
Proof.
  unfold enqueuePcmPlayback, assertCurrent, start_playback, playback_failed, unschedule, settle, clear_queue, happened.
  repeat (first [guards_step | apply kept_fresh | apply kept_queue | by apply kept_call | apply kept_view; reflexivity]).
Qed.

Lemma held_ok_changed c cx a :
  held_ok None a -> is_Some (map_get c (au_contexts a)) -> context_is "closed" c a = false ->
  held_ok None (set au_contexts (fun _ => map_set c cx (au_contexts a)) a).
Proof.
  intros [H1 H2 H3 H4 H5 H6 H7 H8 H9 H10 H11 H12] [cx0 Hx] Hopen.
  assert (Hknown : forall x, is_Some (map_get x (au_contexts a)) -> is_Some (map_get x (map_set c cx (au_contexts a)))).
  { intros x K. rewrite map_get_set. by case_decide. }
  assert (Hcl : forall x, closed a x -> closed (set au_contexts (fun _ => map_set c cx (au_contexts a)) a) x).
  { intros x [K|(y & K & Hy)]; [by left|right]. exists y. split; [|done].
    change (map_get x (map_set c cx (au_contexts a)) = Some y). rewrite map_get_set. case_decide as E; [|done]. subst x.
    unfold context_is, context_of in Hopen. rewrite K in Hopen. cbn in Hopen. by bool_split. }
  split; try assumption; eauto.
  - intros x [K|K]%H4; [left; auto|by right].
  - intros g j Hr Hg Hj. destruct (H8 g j Hr Hg Hj) as [K1 K2]. split; [exact K1|auto].
Qed.

Lemma audio_step_holds e a : held_ok None a -> arms_anew e a -> held_ok None (audio_step e a).
Proof.
  intros Ha He. unfold audio_step. apply (wp_elim (audio_handler e) (fun _ a' => held_ok None a') a).
  assert (Hwake : forall g expected m,
    (forall j, map_get g (au_arms a) = Some j -> expected (aj_wait j) = true -> wp m (fun _ a' => held_ok None a') a) ->
    wp (waking g expected m) (fun _ a' => held_ok None a') a).
  { intros g expected m H. unfold waking. apply wp_bind, wp_get. destruct (map_get g (au_arms a)) as [j|] eqn:Ej; [|by apply wp_ret].
    destruct (expected _) eqn:Ee; [by apply (H j)|by apply wp_ret]. }
  destruct e; cbn [audio_handler].
  - apply wp_bind. eapply wp_mono; [by apply wp_arm_held|]. intros [p|e] a' Ha'; [by apply wp_ret|done].
  - apply Hwake. intros j Hj Hw. apply (wp_resumed _ j); [done..|]. by destruct (aj_wait j).
  - apply Hwake. intros j Hj Hw. apply (wp_microphone _ j); [done..|]. by destruct (aj_wait j).
  - apply Hwake. intros j Hj Hw. destruct (aj_wait j) eqn:E; try done. by apply (wp_module _ j _ _ track).
  - apply Hwake. intros j Hj Hw. destruct (aj_wait j) eqn:E; try done. by apply (wp_prepared _ j track prepared).
  - apply Hwake. intros j Hj Hw. destruct (aj_wait j) eqn:E; try done. by apply (wp_arm_closed _ j error).
  - eapply wp_mono; [by apply wp_reset_held|]. by intros r a' [? _ _ _ _].
  - apply wp_bind, wp_get. destruct (au_resets a); [by apply wp_ret|]. by apply wp_view.
  - assert (H : guards (held_ok None) anywhere (mtry (enqueuePcmPlayback chunk io;; mskip) (fun _ => mskip))).
    { repeat guards_step. apply kept_play. }
    eapply wp_mono; [by apply H|]. by intros r a' [? _].
  - apply wp_view; [done|]. unfold playback_ended, final, mbind, mget, mmodify. cbn. by case_bool_decide.
  - unfold context_changed. apply wp_bind, wp_get. destruct (_ && _) eqn:E; [|by apply wp_ret]. bool_split. apply wp_modify.
    apply held_ok_changed; [done| |done]. destruct (map_get context (au_contexts a)); [by eexists|done].
  - by apply wp_view.
  - unfold worklet_posted. apply wp_bind, wp_get. destruct (map_get worklet (au_listening a)); [|by apply wp_ret].
    destruct (_ && _); [|by apply wp_ret]. apply wp_modify. by apply held_ok_call.
Qed.

(** C39: The microphone is let go.  Whatever the browser answers and whenever,
    provided an arm begins only once the arms still in progress, which a reset
    has made stale, are of earlier epochs: every stream obtained is stopped
    unless it is the current one, every context made is closed unless it is the
    current one, every worklet connected is disconnected unless it is the current
    one or an arm is about to receive it; a reset leaves nothing current, every
    stream stopped and every context closed, and no worklet is heard after it.
    Without the condition a stream can stay open: [rearmed_keeps_stream]. *)
Theorem microphone_released events worklet batch :
  throughout arms_anew events new_audio ->
  let a := audio_run events new_audio in
  let b := audio_step ResetCalled a in
  ((forall s, CallMicrophone s ∈ au_calls a -> CallStopTracks s ∈ au_calls a \/ au_stream a = Some s)
   /\ (forall c, CallCreate c ∈ au_calls a -> closed a c \/ au_context a = Some c)
   /\ (forall w, CallConnect w ∈ au_calls a -> CallDisconnect w ∈ au_calls a \/ au_worklet a = Some w \/ awaited a w))
  /\ ((forall s, CallMicrophone s ∈ au_calls b -> CallStopTracks s ∈ au_calls b)
      /\ (forall c, CallCreate c ∈ au_calls b -> closed b c)
      /\ (forall w, CallConnect w ∈ au_calls b -> CallDisconnect w ∈ au_calls b \/ awaited b w)
      /\ audio_step (WorkletPosted worklet batch) b = b).
Proof.
  intros Hturn. cbv zeta. pose proof (audio_run_keeps (held_ok None) arms_anew audio_step_holds events _ new_audio_held Hturn) as Ha.
  set (a := audio_run events new_audio) in *. split; [split_and!|].
  - intros s [Hs|[Hs|(g & j & E & _)]]%(ho_streams _ _ Ha); [by left|by right|done].
  - exact (ho_contexts _ _ Ha).
  - exact (ho_connected _ _ Ha).
  - pose proof (wp_elim _ _ _ (wp_reset_held a Ha)) as [Hb Hc Hs Hw Hl]. change (final resetAudio a) with (audio_step ResetCalled a) in *.
    set (b := audio_step ResetCalled a) in *. split_and!.
    + intros s [Hx|[Hx|(g & j & E & _)]]%(ho_streams _ _ Hb); [done|congruence|done].
    + intros c [Hx|Hx]%(ho_contexts _ _ Hb); [done|congruence].
    + intros w [Hx|[Hx|Hx]]%(ho_connected _ _ Hb); [by left|congruence|by right].
    + unfold audio_step, audio_handler, worklet_posted, final, mbind, mget.
      destruct (map_get worklet (au_listening b)) as [e|] eqn:E; [|done]. apply map_get_elem, Hl in E.
      rewrite (proj2 (Z.eqb_neq e (au_currentEpoch b))) by lia. done.
Qed.

(** A reset while the module loads, and an arm of the next epoch: the first
    stream, object 1, was stopped, and the second, object 3, is current. *)
Definition raced_events : list AudioEvent :=
  take 3 (arm_events 1 1) ++ [ResetCalled; ResetClosed] ++ take 3 (arm_events 2 2)
  ++ [ModuleAdded 1 (Ok tt) (mkWorkletIO true true true)] ++ [WorkletPrepared 1].

Lemma microphone_released_witness :
  let a := audio_run raced_events new_audio in
  (CallMicrophone 1%nat ∈ au_calls a /\ CallMicrophone 3%nat ∈ au_calls a /\ au_stream a = Some 3%nat)
  /\ (CallStopTracks 1%nat ∈ au_calls a \/ au_stream a = Some 1%nat).
Proof.
  assert (H : throughout arms_anew raced_events new_audio).
  { vm_compute. repeat split; intros _ g j Hin; [by apply elem_of_nil in Hin|]. apply list_elem_of_singleton in Hin. by injection Hin as _ ->. }
  destruct (microphone_released raced_events 0%nat VUndefined H) as [(Hs & _) _].
  assert (H1 : CallMicrophone 1%nat ∈ au_calls (audio_run raced_events new_audio)).
  { apply list_elem_of_In. vm_compute. tauto. }
  split; [|exact (Hs _ H1)]. split; [exact H1|]. split; [apply list_elem_of_In; vm_compute; tauto|by vm_compute].
Defined.

(** Without the condition: an arm, a reset, and an arm of the same epoch while
    the first awaits the microphone.  The first one's epoch is current again, so
    its stream is taken; the second one's stream takes its place, and a reset
    stops that one only. *)
Definition rearmed_events : list AudioEvent :=
  take 2 (arm_events 1 1) ++ [ResetCalled; ResetClosed] ++ take 2 (arm_events 2 1)
  ++ [Microphone 1 (Ok (Some sample_track)); Microphone 2 (Ok (Some sample_track)); ResetCalled].

Example rearmed_keeps_stream :
  au_calls (audio_run rearmed_events new_audio)
  = [CallCreate 0; CallClose 0; CallCreate 1; CallMicrophone 2; CallMicrophone 3; CallStopTracks 3; CallClose 1].
Proof. by vm_compute. Qed.
