(* ===== verification/QuietProtocol.v ===== *)
(** * What Quiet carries
    ([apps/modem-ui/src/quiet-client.ts] lines 1-11 and 78-231)

    The page's control frames, the fixed envelope of a fragment of a committed
    corpus case, and the payloads the page derives for those cases; that every
    fragment it sends decodes to itself, that the payloads are the ones the bridge
    expects, and that control frames are what the bridge decodes. *)

From stdpp Require Import base list numbers option strings.
From Stdlib Require Import ZArith Lia.
From S2P Require Import Prelude Utf8 Encodings Fwav Corpus Qualification.

Definition QUIET_FRAME_BYTES : Z := 253.
Definition QUIET_ENVELOPE_BYTES : Z := 32.
Definition QUIET_DATA_BYTES : Z := QUIET_FRAME_BYTES - QUIET_ENVELOPE_BYTES.
Definition QUIET_GUARD_MS : Z := 750.

Definition FWAV_RESET_TYPE : Z := 8.

#[export] Instance Role_eq_dec : EqDecision Role.
Proof. solve_decision. Defined.

Definition directionForRole (role : Role) : LiteralDirection := match role with RoleA => AtoB | RoleB => BtoA end.
Definition receiveDirectionForRole (role : Role) : LiteralDirection := match role with RoleA => BtoA | RoleB => AtoB end.
Definition peerRole (role : Role) : Role := match role with RoleA => RoleB | RoleB => RoleA end.

(** ** Control frames *)

Definition encodeControlFrame (type epoch sequence : Z) (payload : bytes) : result bytes :=
  reject_if (type <? 1) || (14 <? type) with "FWAV control type is invalid";
  reject_if (epoch <? 0) || (0xffffffff <? epoch) with "FWAV control epoch is invalid";
  reject_if (sequence <? 0) || (0xffffffffffffffff <? sequence) with "FWAV control sequence is invalid";
  reject_if 256 * 1024 - FWAV_HEADER_BYTES <? zlen payload with "FWAV control payload is too large";
  Ok ([0x46; 0x57; 0x41; 0x56; 1; type; 0; 0] ++ le_bytes 4 (zlen payload) ++ le_bytes 4 epoch ++ le_bytes 8 sequence
      ++ replicate 8 0 ++ payload).

Definition readFwavMessageType (input : bytes) : result Z :=
  reject_if zlen input <? FWAV_HEADER_BYTES with "FWAV frame is shorter than its header";
  reject_if negb (bool_decide (slice input 0 4 = [0x46; 0x57; 0x41; 0x56])) || negb (read_le 1 4 input =? 1)
    with "FWAV frame identity is invalid";
  reject_if negb (read_le 4 8 input =? zlen input - FWAV_HEADER_BYTES) with "FWAV frame length is invalid";
  Ok (read_le 1 5 input).

Definition decodeResetFrame (input : bytes) (previousEpoch : Z) : result Z :=
  let? type := readFwavMessageType input in
  reject_if negb (type =? FWAV_RESET_TYPE) with "FWAV frame is not RESET";
  reject_if negb (zlen input =? FWAV_HEADER_BYTES) || negb (read_le 4 8 input =? 0) || negb (read_le 8 16 input =? 0)
      || negb (read_le 4 24 input =? 0) || negb (read_le 2 28 input =? 0) || negb (read_le 2 30 input =? 0)
    with "FWAV RESET frame is malformed";
  let epoch := read_le 4 12 input in
  reject_if negb (epoch =? previousEpoch + 1) with "FWAV RESET did not establish the exact next epoch";
  Ok epoch.

(** ** Fragments of a case *)

Record QuietFragment := mkFragment {
  qf_epoch : Z; qf_sender : Role; qf_direction : LiteralDirection; qf_caseId : string; qf_caseIndex : Z;
  qf_fragmentIndex : Z; qf_fragmentCount : Z; qf_declaredLength : Z; qf_digestPrefix : bytes; qf_payload : bytes }.

Definition hex_value (c : Z) : option Z :=
  if (48 <=? c) && (c <=? 57) then Some (c - 48)
  else if (97 <=? c) && (c <=? 102) then Some (c - 87)
  else if (65 <=? c) && (c <=? 70) then Some (c - 55)
  else None.

(** [Number.parseInt(part, 16)] in a byte, for a part of two characters that are
    neither blanks nor signs. *)
Definition pair_value (a b : Z) : Z :=
  match hex_value a, hex_value b with
  | Some x, Some y => 16 * x + y
  | Some x, None => x
  | None, _ => 0
  end.

(** [sha256.match(/../g)?.slice(0, n)], each part parsed. *)
Fixpoint hex_pairs (n : nat) (s : jsstring) : bytes :=
  match n, s with
  | S n', a :: b :: rest => pair_value a b :: hex_pairs n' rest
  | _, _ => []
  end.

Definition fragment_count (size : Z) : Z := Z.max 1 (ceil_div size QUIET_DATA_BYTES).

(** [payload.slice(i * QUIET_DATA_BYTES, (i + 1) * QUIET_DATA_BYTES)] *)
Definition fragment_data (payload : bytes) (fragmentIndex : Z) : bytes :=
  slice payload (Z.to_nat (fragmentIndex * QUIET_DATA_BYTES)) (Z.to_nat ((fragmentIndex + 1) * QUIET_DATA_BYTES)).

Definition fragmentCase (epoch : Z) (sender : Role) (caseIndex : Z) (entry : CorpusManifestCase) (payload : bytes) :
    list QuietFragment :=
  let fragmentCount := fragment_count (zlen payload) in
  let digestPrefix := hex_pairs 8 (js (cm_sha256 entry)) in
  map (fun fragmentIndex =>
         mkFragment epoch sender (cm_direction entry) (cm_id entry) caseIndex fragmentIndex fragmentCount (zlen payload)
           digestPrefix (fragment_data payload fragmentIndex))
    (map Z.of_nat (seq 0 (Z.to_nat fragmentCount))).

Definition FQT1 : bytes := [0x46; 0x51; 0x54; 0x31].

(** The envelope before the digest's prefix. *)
Definition fragment_header (f : QuietFragment) : bytes :=
  FQT1 ++ le_bytes 4 (qf_epoch f)
  ++ [match qf_sender f with RoleA => 0 | RoleB => 1 end; match qf_direction f with AtoB => 0 | BtoA => 1 end]
  ++ le_bytes 2 (qf_caseIndex f) ++ le_bytes 1 (qf_fragmentIndex f) ++ le_bytes 1 (qf_fragmentCount f)
  ++ le_bytes 2 (qf_declaredLength f).

Definition encodeFragment (f : QuietFragment) : result bytes :=
  reject_if QUIET_DATA_BYTES <? zlen (qf_payload f) with "Quiet fragment exceeds fixed envelope capacity";
  let output := fragment_header f ++ replicate (16 + length (qf_payload f)) 0 in
  reject_if zlen output <? 16 + zlen (qf_digestPrefix f) with "offset is out of bounds";
  Ok (write_at 32 (qf_payload f) (write_at 16 (qf_digestPrefix f) output)).

Definition cases_of (direction : LiteralDirection) : list CorpusManifestCase :=
  List.filter (fun entry => bool_decide (cm_direction entry = direction)) manifest_cases.

Definition decodeFragment (input : bytes) : result QuietFragment :=
  reject_if zlen input <? QUIET_ENVELOPE_BYTES with "Quiet fragment is shorter than the application envelope";
  reject_if negb (bool_decide (slice input 0 4 = FQT1)) with "Quiet fragment magic is invalid";
  reject_if QUIET_FRAME_BYTES <? zlen input with "Quiet fragment is malformed";
  let fragmentCount := read_le 1 13 input in
  let fragmentIndex := read_le 1 12 input in
  reject_if (fragmentCount =? 0) || (fragmentCount <=? fragmentIndex) with "Quiet fragment index is invalid";
  let? direction := (if read_le 1 9 input =? 0 then Ok AtoB else if read_le 1 9 input =? 1 then Ok BtoA
                     else Throw "Quiet direction is invalid"%string) in
  let caseIndex := read_le 2 10 input in
  match cases_of direction !! Z.to_nat caseIndex with
  | None => Throw "Quiet case index is invalid"
  | Some entry =>
      let? sender := (if read_le 1 8 input =? 0 then Ok RoleA else if read_le 1 8 input =? 1 then Ok RoleB
                      else Throw "Quiet sender is invalid"%string) in
      Ok (mkFragment (read_le 4 4 input) sender direction (cm_id entry) caseIndex fragmentIndex fragmentCount
            (read_le 2 14 input) (slice input 16 24) (drop 32 input))
  end.

(** ** The payloads of the corpus *)

Definition bytesFor (entry : CorpusManifestCase) (index : Z) : result bytes :=
  let size := Z.to_nat (cm_size entry) in
  let offsets := map Z.of_nat (seq 0 size) in
  match cm_pattern entry with
  | AllFF => Ok (replicate size 0xff)
  | Incrementing => Ok (map (fun offset => js_and (offset + index) 0xff) offsets)
  | Alternating => Ok (map (fun offset => if Z.rem (offset + index) 2 =? 0 then 0xaa else 0x55) offsets)
  | Pseudorandom => Throw "pseudorandom corpus payload must be supplied by the verified manifest helper"
  | AllZero => Ok (replicate size 0)
  end.

Definition corpusPayload (entry : CorpusManifestCase) (index : Z) : result bytes :=
  match cm_pattern entry with
  | Pseudorandom => Ok (lcg_bytes (Z.to_nat (cm_size entry)) (pseudorandom_seed entry index))
  | _ => bytesFor entry index
  end.

(** The index [sendCorpus] gives the case at a position of the corpus. *)
Definition payload_index (entry : CorpusManifestCase) (index : Z) : Z :=
  Z.rem index (if cm_size entry =? 256 then 20 else 5).

(** ** Fragments decode *)

Lemma role_code r : (if (match r with RoleA => 0 | RoleB => 1 end) =? 0 then Ok RoleA
                     else if (match r with RoleA => 0 | RoleB => 1 end) =? 1 then Ok RoleB
                     else Throw "Quiet sender is invalid"%string) = Ok r.
Proof. by destruct r. Qed.

(** A fragment the envelope has room for, of a case of the corpus. *)
Record carried (f : QuietFragment) : Prop := {
  ca_epoch : 0 <= qf_epoch f < 256 ^ 4;
  ca_case : exists entry, cases_of (qf_direction f) !! Z.to_nat (qf_caseIndex f) = Some entry /\ cm_id entry = qf_caseId f;
  ca_caseIndex : 0 <= qf_caseIndex f < 256 ^ 2;
  ca_index : 0 <= qf_fragmentIndex f < qf_fragmentCount f;
  ca_count : qf_fragmentCount f < 256;
  ca_length : 0 <= qf_declaredLength f < 256 ^ 2;
  ca_prefix : length (qf_digestPrefix f) = 8%nat;
  ca_payload : zlen (qf_payload f) <= QUIET_DATA_BYTES }.

Lemma length_fragment_header f : length (fragment_header f) = 16%nat.
Proof. unfold fragment_header. by rewrite !length_app, !length_le_bytes. Qed.

Lemma write_at_app (l1 l2 src rest : bytes) off :
  length l1 = off -> length l2 = length src -> write_at off src (l1 ++ l2 ++ rest) = l1 ++ src ++ rest.
Proof.
  intros <- H. unfold write_at. rewrite take_app_length. f_equal. f_equal.
  rewrite <- drop_drop, drop_app_length, <- H. by rewrite drop_app_length.
Qed.

(** The bytes of a fragment. *)
Lemma encode_carried f : carried f -> encodeFragment f = Ok (fragment_header f ++ qf_digestPrefix f ++ replicate 8 0 ++ qf_payload f).
Proof.
  intros [_ _ _ _ _ _ Hp Hd]. unfold encodeFragment. rewrite (proj2 (Z.ltb_ge _ _)) by done.
  cbn [require_not rbind]. pose proof (length_fragment_header f) as Hl. set (h := fragment_header f) in *.
  rewrite (proj2 (Z.ltb_ge _ _)) by (unfold zlen; rewrite length_app, length_replicate, Hl, Hp; lia). cbn [require_not rbind]. f_equal.
  replace (replicate (16 + length (qf_payload f)) 0) with (replicate 8 0 ++ replicate 8 0 ++ replicate (length (qf_payload f)) 0)
    by (by rewrite <- !replicate_add).
  rewrite (write_at_app h (replicate 8 0)) by (rewrite ?length_replicate; congruence).
  rewrite (app_assoc _ _ (replicate 8 0 ++ _)), (app_assoc _ (replicate 8 0)), (app_assoc h), <- (app_nil_r (replicate (length _) 0)).
  rewrite write_at_app, app_nil_r by (rewrite ?length_app, ?length_replicate; lia). by rewrite <- !app_assoc.
Qed.

Lemma fragment_decodes f :
  carried f -> exists raw, encodeFragment f = Ok raw /\ decodeFragment raw = Ok f /\ zlen raw <= QUIET_FRAME_BYTES.
Proof.
  intros Hf. eexists. split; [by apply encode_carried|].
  destruct Hf as [He (entry & Hc & Hid) Hci [Hi1 Hi2] Hn Hl Hp Hd]. set (raw := fragment_header f ++ _).
  assert (Hlen : zlen raw = 32 + zlen (qf_payload f)).
  { unfold raw, zlen. rewrite !length_app, length_fragment_header, Hp, length_replicate. lia. }
  unfold QUIET_DATA_BYTES, QUIET_FRAME_BYTES, QUIET_ENVELOPE_BYTES in *.
  assert (0 <= zlen (qf_payload f)) by (unfold zlen; lia). split; [|lia].
  assert (F : slice raw 0 4 = FQT1 /\ read_le 4 4 raw = qf_epoch f
     /\ read_le 1 8 raw = match qf_sender f with RoleA => 0 | RoleB => 1 end
     /\ read_le 1 9 raw = match qf_direction f with AtoB => 0 | BtoA => 1 end
     /\ read_le 2 10 raw = qf_caseIndex f /\ read_le 1 12 raw = qf_fragmentIndex f /\ read_le 1 13 raw = qf_fragmentCount f
     /\ read_le 2 14 raw = qf_declaredLength f).
  { unfold raw, fragment_header, FQT1. rewrite <- !app_assoc. cbn [app].
    repeat split; rewrite ?read_le_skip_byte; read_fields; try done.
    all: rewrite ?read_le_skip_byte; read_fields; try done.
    all: unfold read_le; cbn; try (destruct (qf_sender f)); try (destruct (qf_direction f)); done. }
  destruct F as (F0 & F4 & F8 & F9 & F10 & F12 & F13 & F14).
  assert (F16 : slice raw 16 24 = qf_digestPrefix f).
  { unfold raw. rewrite slice_skip, length_fragment_header by (rewrite length_fragment_header; lia). by apply slice_here. }
  assert (F32 : drop 32 raw = qf_payload f).
  { unfold raw. rewrite !app_assoc. apply drop_app_length'. by rewrite !length_app, length_fragment_header, Hp, length_replicate. }
  unfold decodeFragment. rewrite F0, F4, F8, F9, F10, F12, F13, F14, F16, F32, Hlen. unfold QUIET_FRAME_BYTES, QUIET_ENVELOPE_BYTES.
  rewrite (proj2 (Z.ltb_ge _ 32)) by lia. rewrite bool_decide_eq_true_2 by done. rewrite (proj2 (Z.ltb_ge 253 _)) by lia.
  rewrite (proj2 (Z.eqb_neq _ 0)), (proj2 (Z.leb_gt _ _)) by lia. cbn [negb orb require_not rbind]. rewrite role_code.
  replace (if _ =? 0 then Ok AtoB else _) with (Ok (qf_direction f)) by (by destruct (qf_direction f)).
  cbn [rbind]. rewrite Hc. cbn [rbind]. rewrite Hid. by destruct f.
Qed.

(** ** The committed cases *)

(** A committed case is of one of two sizes, and the prefix of its digest is read
    and written back. *)
Definition entry_shaped (entry : CorpusManifestCase) : bool :=
  ((cm_size entry =? 256) || (cm_size entry =? 1536))
  && bool_decide (length (hex_pairs 8 (js (cm_sha256 entry))) = 8%nat)
  && bool_decide (to_hex (hex_pairs 8 (js (cm_sha256 entry))) = take 16 (js (cm_sha256 entry))).

Lemma entries_shaped : forallb entry_shaped manifest_cases = true.
Proof. by vm_compute. Qed.

Lemma entry_shaped_spec entry :
  entry_shaped entry = true ->
  (cm_size entry = 256 \/ cm_size entry = 1536) /\ length (hex_pairs 8 (js (cm_sha256 entry))) = 8%nat
  /\ to_hex (hex_pairs 8 (js (cm_sha256 entry))) = take 16 (js (cm_sha256 entry)).
Proof.
  unfold entry_shaped. intros [[K1 K2%bool_decide_eq_true_1]%andb_prop K3%bool_decide_eq_true_1]%andb_prop.
  split; [|split; [exact K2|exact K3]]. apply orb_true_iff in K1 as [K1|K1]; bool_split; [by left|by right].
Qed.

Lemma case_listed direction n entry :
  cases_of direction !! n = Some entry -> entry ∈ manifest_cases /\ cm_direction entry = direction.
Proof.
  unfold cases_of. generalize manifest_cases. intros l H%list_elem_of_lookup_2%list_elem_of_In%filter_In.
  destruct H as [Hin Hd%bool_decide_eq_true_1]. split; [by apply list_elem_of_In|done].
Qed.

Lemma case_shape direction n entry : cases_of direction !! n = Some entry -> entry_shaped entry = true.
Proof.
  intros [H%list_elem_of_In _]%case_listed. generalize entries_shaped. revert H. generalize manifest_cases.
  intros l Hin Hl. exact (proj1 (forallb_forall _ _) Hl entry Hin).
Qed.

Lemma case_position direction n entry : cases_of direction !! n = Some entry -> (n < 25)%nat.
Proof. intros H%lookup_lt_Some. by destruct direction. Qed.

(** The bridge numbers a case by its identifier, the page by its position. *)
Definition position_agrees (n : nat) (entry : CorpusManifestCase) : bool :=
  case_index (js (cm_id entry)) =? payload_index entry (Z.of_nat n).

Lemma positions_agree direction : forallb (fun p => position_agrees p.1 p.2) (zip (seq 0 25) (cases_of direction)) = true.
Proof. destruct direction; by vm_compute. Qed.

Lemma case_number direction n entry :
  cases_of direction !! n = Some entry -> case_index (js (cm_id entry)) = payload_index entry (Z.of_nat n).
Proof.
  intros H. pose proof (case_position _ _ _ H) as Hn.
  assert (Hz : (n, entry) ∈ zip (seq 0 25) (cases_of direction)).
  { apply list_elem_of_lookup. exists n. apply lookup_zip_Some. split; [|done]. by apply lookup_seq. }
  apply list_elem_of_In in Hz. pose proof (proj1 (forallb_forall _ _) (positions_agree direction) _ Hz) as K.
  by apply Z.eqb_eq in K.
Qed.

Lemma length_lcg n : forall state, length (lcg_bytes n state) = n.
Proof. induction n as [|n IH]; intros state; [done|]. cbn [lcg_bytes length]. by rewrite IH. Qed.

Lemma length_manifestPayload entry : 0 <= cm_size entry -> zlen (manifestPayload entry) = cm_size entry.
Proof.
  intros H. unfold zlen, manifestPayload. destruct (cm_pattern entry);
    rewrite ?length_replicate, ?length_map, ?length_seq, ?length_lcg; lia.
Qed.

Lemma payload_agrees direction n entry :
  cases_of direction !! n = Some entry ->
  corpusPayload entry (payload_index entry (Z.of_nat n)) = Ok (manifestPayload entry).
Proof.
  intros H. pose proof (case_number _ _ _ H) as E. unfold corpusPayload, bytesFor, manifestPayload. rewrite E.
  by destruct (cm_pattern entry).
Qed.

Lemma committed_digest entry : entry ∈ manifest_cases -> sha256_hex (manifestPayload entry) = js (cm_sha256 entry).
Proof.
  intros H%list_elem_of_In. generalize committed_entries_match. revert H. generalize manifest_cases.
  intros l Hin Hl. apply (proj1 (forallb_forall _ _) Hl) in Hin. by apply bool_decide_eq_true_1 in Hin.
Qed.

(** ** Reassembly *)

Lemma fragment_count_cases size : size = 256 \/ size = 1536 -> fragment_count size = if size =? 256 then 2 else 7.
Proof. by intros [->| ->]. Qed.

Lemma fragments_carried direction n entry epoch role f :
  cases_of direction !! n = Some entry -> 0 <= epoch < 256 ^ 4 ->
  f ∈ fragmentCase epoch role (Z.of_nat n) entry (manifestPayload entry) -> carried f.
Proof.
  intros Hn He Hf. destruct (entry_shaped_spec _ (case_shape _ _ _ Hn)) as (Hs & Hp & _).
  destruct (case_listed _ _ _ Hn) as [_ Hd]. pose proof (case_position _ _ _ Hn) as H25.
  unfold fragmentCase in Hf. rewrite length_manifestPayload in Hf by (destruct Hs as [->| ->]; lia).
  apply list_elem_of_In, in_map_iff in Hf as (i & <- & Hi). apply in_map_iff in Hi as (k & <- & Hk%in_seq).
  assert (Hc : 1 <= fragment_count (cm_size entry) <= 7) by (destruct Hs as [->| ->]; by vm_compute).
  split; cbn [qf_epoch qf_sender qf_direction qf_caseId qf_caseIndex qf_fragmentIndex qf_fragmentCount qf_declaredLength qf_digestPrefix qf_payload];
    try lia; try done.
  - exists entry. rewrite Nat2Z.id, Hd. done.
  - unfold fragment_data, slice, zlen. rewrite length_take. unfold QUIET_DATA_BYTES, QUIET_FRAME_BYTES, QUIET_ENVELOPE_BYTES. lia.
Qed.

(** The data of the fragments, joined. *)
Lemma fragments_join payload n :
  (Z.to_nat (Z.of_nat n * QUIET_DATA_BYTES) >= length payload)%nat ->
  concat (map (fun i => fragment_data payload (Z.of_nat i)) (seq 0 n)) = payload.
Proof.
  intros H. transitivity (take (Z.to_nat (Z.of_nat n * QUIET_DATA_BYTES)) payload); [|by apply take_ge].
  clear H. induction n as [|n IH]; [done|]. rewrite seq_S, map_app, concat_app, IH. cbn [map concat].
  rewrite app_nil_r, <- (slice_take (Z.to_nat (Z.of_nat n * _))), <- (slice_take (Z.to_nat (Z.of_nat (S n) * _))).
  cbn [Nat.add]. unfold fragment_data. replace (Z.of_nat n + 1) with (Z.of_nat (S n)) by lia.
  apply slice_join; unfold QUIET_DATA_BYTES, QUIET_FRAME_BYTES, QUIET_ENVELOPE_BYTES; lia.
Qed.

(** ** What the bridge decodes *)

(** The frame a control message stands for. *)
Definition control_frame (type : MessageType) (epoch sequence : Z) (payload : bytes) : FwavFrame :=
  mkFrame type None None epoch sequence None None None payload.

(** Every control message the page encodes, a packet apart, is decoded by the
    bridge as its validation has it. *)
Lemma control_decodes t epoch sequence payload raw :
  encodeControlFrame (message_type_code t) epoch sequence payload = Ok raw -> t <> FIPS_PACKET ->
  decodeFrame raw = validateFrame (control_frame t epoch sequence payload).
Proof.
  intros H Ht. unfold encodeControlFrame in H. result_inv. bool_split.
  set (f := with_defaults (control_frame t epoch sequence payload)).
  assert (Hc : is_message FIPS_PACKET (control_frame t epoch sequence payload) = false) by (by apply bool_decide_eq_false_2).
  assert (Hn : normal_frame f).
  { unfold f. split; cbn [with_defaults control_frame f_type f_flags f_trafficClass f_epoch f_sequence f_sampleRate f_channels
      f_encoding f_payload]; try (exists 0; split; [done|]; unfold UINT16_MAX, UINT32_MAX; lia).
    - by rewrite Hc, bool_decide_eq_false_2.
    - unfold UINT32_MAX. lia.
    - unfold UINT64_MAX. lia.
    - unfold MAX_PAYLOAD_BYTES, MAX_MESSAGE_BYTES. lia. }
  rewrite <- validateFrame_defaults. fold f. rewrite <- decode_header by done. f_equal.
  unfold fwav_header, class_or_flags. change (is_message FIPS_PACKET f) with (is_message FIPS_PACKET (control_frame t epoch sequence payload)). rewrite Hc. by cbn.
Qed.
