(* ===== verification/QuietReceiver.v ===== *)
(** * What the receiver of Quiet makes of the frames it hears
    ([QuietReceiverEvidence], [apps/modem-ui/src/quiet-client.ts] lines 233-330)

    Fragments are gathered by case in objects the receiver shares with the
    promises that digest a complete case; those promises are the jobs, settled
    whenever the browser has the digest.  And that a case whose fragments all come
    over, in any order and amid the frames of others, is reported as committed. *)

From stdpp Require Import base list numbers option strings sorting.
From Stdlib Require Import ZArith Lia SpecFloat Sorted.
From S2P Require Import Prelude Utf8 Encodings Doubles Fwav Corpus Qualification QuietProtocol.

Record ReceiveCaseEvidence := mkReceived {
  re_epoch : Z; re_sender : Role; re_direction : LiteralDirection; re_caseId : string; re_digest : option jsstring;
  re_acquisitionMs : double; re_airtimeMs : double; re_deliveryCount : Z; re_coldAcquired : bool; re_complete : bool;
  re_corrupt : bool; re_missing : Z; re_duplicates : Z }.

Record ReceiverSession := mkReceiverSession { rv_epoch : Z; rv_localRole : Role; rv_startedAtMs : double }.

Record PartialCase := mkPartial {
  pa_fragment : QuietFragment; pa_parts : list (Z * bytes); pa_duplicates : Z; pa_startedAtMs : double }.

Record ReceiverMetrics := mkReceiverMetrics {
  rm_captureHighWaterBytes : Z; rm_captureHighWaterMs : double; rm_discontinuities : Z }.

(** The key of a case: its text joins the three with a separator none of them
    has. *)
Abbreviation CaseKey := (Z * Role * string)%type.

(** The body of [accept] that awaits a digest. *)
Record DigestJob := mkJob {
  dj_key : CaseKey; dj_current : nat; dj_fragment : QuietFragment; dj_expected : CorpusManifestCase; dj_payload : bytes;
  dj_nowMs : double }.

Record QuietReceiverEvidence := mkReceiver {
  qv_parts : list (CaseKey * nat);
  qv_objects : list PartialCase;
  qv_session : ReceiverSession;
  qv_metrics : ReceiverMetrics;
  qv_completedCase : bool;
  qv_jobs : list DigestJob }.

#[export] Instance eta_QuietReceiverEvidence : Eta QuietReceiverEvidence := fun r =>
  mkReceiver (qv_parts r) (qv_objects r) (qv_session r) (qv_metrics r) (qv_completedCase r) (qv_jobs r).

#[export] Instance eta_PartialCase : Eta PartialCase := fun p =>
  mkPartial (pa_fragment p) (pa_parts p) (pa_duplicates p) (pa_startedAtMs p).

#[export] Instance eta_ReceiverMetrics : Eta ReceiverMetrics := fun m =>
  mkReceiverMetrics (rm_captureHighWaterBytes m) (rm_captureHighWaterMs m) (rm_discontinuities m).

Definition no_metrics : ReceiverMetrics := mkReceiverMetrics 0 (d_of_Z 0) 0.

Definition new_receiver (session : ReceiverSession) : QuietReceiverEvidence := mkReceiver [] [] session no_metrics false [].

Abbreviation QR := (M QuietReceiverEvidence) (only parsing).

(** [Math.max(0, now - since)] *)
Definition elapsed_ms (now since : double) : double := d_max (d_of_Z 0) (d_sub now since).

Definition isExpected (session : ReceiverSession) (f : QuietFragment) : bool :=
  (qf_epoch f =? rv_epoch session) && bool_decide (qf_sender f = peerRole (rv_localRole session))
  && bool_decide (qf_direction f = receiveDirectionForRole (rv_localRole session)).

Definition part_bytes (p : PartialCase) : Z := fold_right Z.add 0 (map (fun part => zlen part.2) (pa_parts p)).

(** The objects in the map of parts, in its order. *)
Definition current_parts (r : QuietReceiverEvidence) : list PartialCase :=
  omap (fun entry => qv_objects r !! entry.2) (qv_parts r).

Definition updateHighWater (current : PartialCase) (nowMs : double) : QR unit :=
  let! r := mget in
  let bufferedBytes := fold_right Z.add 0 (map part_bytes (current_parts r)) in
  mmodify (set qv_metrics (fun m =>
    set rm_captureHighWaterBytes (fun b => Z.max b bufferedBytes)
      (set rm_captureHighWaterMs (fun h => d_max h (elapsed_ms nowMs (pa_startedAtMs current))) m))).

Definition count_discontinuity : QR unit := mmodify (set qv_metrics (set rm_discontinuities (Z.add 1))).

Definition case_key (f : QuietFragment) : CaseKey := (qf_epoch f, qf_sender f, qf_caseId f).

Definition same_caseId (id : string) (entry : CorpusManifestCase) : bool := bool_decide (cm_id entry = id).

(** The fragment is one of the committed case. *)
Definition is_committed (f : QuietFragment) (expected : CorpusManifestCase) : bool :=
  (qf_declaredLength f =? cm_size expected) && (qf_fragmentCount f =? fragment_count (cm_size expected))
  && bool_decide (to_hex (qf_digestPrefix f) = take 16 (js (cm_sha256 expected))).

Definition part_le (p q : Z * bytes) : Prop := p.1 <= q.1.

#[export] Instance part_le_dec : RelDecision part_le := fun p q => Z_le_dec p.1 q.1.

(** The parts of a complete case, sorted and joined, to the declared length. *)
Definition joined_parts (parts : list (Z * bytes)) (declaredLength : Z) : bytes :=
  take (Z.to_nat declaredLength) (concat (map snd (merge_sort part_le parts))).

(** A part is taken, or counted as a duplicate. *)
Definition take_part (f : QuietFragment) (current : PartialCase) : PartialCase :=
  if map_has (qf_fragmentIndex f) (pa_parts current) then set pa_duplicates (Z.add 1) current
  else set pa_parts (fun l => l ++ [(qf_fragmentIndex f, qf_payload f)]) current.

(** [this.#parts.get(key) ?? {..}], with the place of its object. *)
Definition place (f : QuietFragment) (nowMs : double) (r : QuietReceiverEvidence) : nat * PartialCase :=
  let created := (length (qv_objects r), mkPartial f [] 0 nowMs) in
  match map_get (case_key f) (qv_parts r) with
  | Some o => match qv_objects r !! o with Some p => (o, p) | None => created end
  | None => created
  end.

Definition store (o : nat) (p : PartialCase) (l : list PartialCase) : list PartialCase :=
  if (o =? length l)%nat then l ++ [p] else <[o := p]> l.

Definition accept (raw : bytes) (nowMs : double) : QR unit :=
  match decodeFragment raw with
  | Throw _ => mskip
  | Ok fragment =>
      let! r := mget in
      return_if negb (isExpected (qv_session r) fragment);
      match List.find (same_caseId (qf_caseId fragment)) manifest_cases with
      | None => count_discontinuity
      | Some expected =>
          if negb (is_committed fragment expected) then count_discontinuity
          else
            let key := case_key fragment in
            let '(object, current) := place fragment nowMs r in
            if negb (qf_fragmentCount (pa_fragment current) =? qf_fragmentCount fragment)
               || negb (qf_declaredLength (pa_fragment current) =? qf_declaredLength fragment)
            then count_discontinuity
            else
              let current := take_part fragment current in
              mmodify (set qv_objects (store object current));;
              mmodify (set qv_parts (map_set key object));;
              updateHighWater current nowMs;;
              if negb (zlen (pa_parts current) =? qf_fragmentCount fragment) then mskip
              else
                let payload := joined_parts (pa_parts current) (qf_declaredLength fragment) in
                mmodify (set qv_jobs (fun l => l ++ [mkJob key object fragment expected payload nowMs]))
      end
  end.

(** The body goes on with the digest. *)
Definition accept_digest (job : DigestJob) : QR ReceiveCaseEvidence :=
  let digest := sha256_hex (dj_payload job) in
  let fragment := dj_fragment job in
  let corrupt := negb (bool_decide (digest = js (cm_sha256 (dj_expected job))))
                 || negb (zlen (dj_payload job) =? qf_declaredLength fragment) in
  mmodify (set qv_parts (map_delete (dj_key job)));;
  let! r := mget in
  let coldAcquired := negb (qv_completedCase r) in
  qv_completedCase <== true;;
  let current := default (mkPartial fragment [] 0 (dj_nowMs job)) (qv_objects r !! dj_current job) in
  mret (mkReceived (qf_epoch fragment) (qf_sender fragment) (qf_direction fragment) (qf_caseId fragment) (Some digest)
          (elapsed_ms (pa_startedAtMs current) (rv_startedAtMs (qv_session r)))
          (elapsed_ms (dj_nowMs job) (pa_startedAtMs current))
          (if pa_duplicates current =? 0 then 1 else 2) coldAcquired true corrupt 0 (pa_duplicates current)).

(** One of the pending digests arrives. *)
Definition digested (k : nat) : QR (option ReceiveCaseEvidence) :=
  let! r := mget in
  match qv_jobs r !! k with
  | None => mret None
  | Some job => qv_jobs <== delete k (qv_jobs r);; let! evidence := accept_digest job in mret (Some evidence)
  end.

Definition incomplete_of (session : ReceiverSession) (nowMs : double) (current : PartialCase) : ReceiveCaseEvidence :=
  let f := pa_fragment current in
  mkReceived (qf_epoch f) (qf_sender f) (qf_direction f) (qf_caseId f) None
    (elapsed_ms (pa_startedAtMs current) (rv_startedAtMs session)) (elapsed_ms nowMs (pa_startedAtMs current))
    0 false false false (qf_fragmentCount f - zlen (pa_parts current)) (pa_duplicates current).

Fixpoint high_water_all (partials : list PartialCase) (nowMs : double) : QR unit :=
  match partials with [] => mskip | p :: rest => updateHighWater p nowMs;; high_water_all rest nowMs end.

Definition flush (nowMs : double) : QR (list ReceiveCaseEvidence) :=
  let! r := mget in
  high_water_all (current_parts r) nowMs;;
  let incomplete := map (incomplete_of (qv_session r) nowMs) (current_parts r) in
  qv_parts <== [];;
  mret incomplete.

Definition receiver_reset (session : ReceiverSession) (nowMs : double) : QR (list ReceiveCaseEvidence) :=
  let! incomplete := flush nowMs in
  qv_session <== session;;
  qv_metrics <== no_metrics;;
  qv_completedCase <== false;;
  mret incomplete.

(** What the page asks of evidence before it counts a case as passed
    ([bytePerfect], [main.ts]). *)
Definition bytePerfect (e : ReceiveCaseEvidence) : bool :=
  re_complete e && negb (re_corrupt e) && (re_missing e =? 0) && (re_duplicates e =? 0) && (re_deliveryCount e =? 1)
  && is_some (re_digest e).

(** ** What is heard *)

Inductive ReceiverEvent :=
  | Heard (raw : bytes) (nowMs : double)
  | Digested (k : nat)
  | Flushed (nowMs : double)
  | Restarted (session : ReceiverSession) (nowMs : double).

Definition receiver_handler (e : ReceiverEvent) : QR (list ReceiveCaseEvidence) :=
  match e with
  | Heard raw nowMs => accept raw nowMs;; mret []
  | Digested k => let! evidence := digested k in mret (option_list evidence)
  | Flushed nowMs => flush nowMs
  | Restarted session nowMs => receiver_reset session nowMs
  end.

Definition receiver_step (e : ReceiverEvent) (r : QuietReceiverEvidence) : QuietReceiverEvidence := final (receiver_handler e) r.

Definition receiver_run (events : list ReceiverEvent) (r : QuietReceiverEvidence) : QuietReceiverEvidence :=
  fold_left (fun r e => receiver_step e r) events r.

(** The receiver without its metrics. *)
Definition core (r : QuietReceiverEvidence) := (qv_parts r, qv_objects r, qv_session r, qv_completedCase r, qv_jobs r).

(** The receiver after a fragment was taken. *)
Definition taken (f : QuietFragment) (expected : CorpusManifestCase) (nowMs : double) (r : QuietReceiverEvidence) :
    QuietReceiverEvidence :=
  let '(o, p) := place f nowMs r in
  let p := take_part f p in
  mkReceiver (map_set (case_key f) o (qv_parts r)) (store o p (qv_objects r)) (qv_session r) (qv_metrics r) (qv_completedCase r)
    (if zlen (pa_parts p) =? qf_fragmentCount f
     then qv_jobs r ++ [mkJob (case_key f) o f expected (joined_parts (pa_parts p) (qf_declaredLength f)) nowMs]
     else qv_jobs r).

Lemma core_high_water p nowMs r : core (final (updateHighWater p nowMs) r) = core r.
Proof. done. Qed.

(** A fragment is ignored, or taken. *)
Definition accept_result (raw : bytes) (nowMs : double) (r : QuietReceiverEvidence) : QuietReceiverEvidence :=
  match decodeFragment raw with
  | Throw _ => r
  | Ok f =>
      if isExpected (qv_session r) f then
        match List.find (same_caseId (qf_caseId f)) manifest_cases with
        | Some expected =>
            let p := (place f nowMs r).2 in
            if is_committed f expected && (qf_fragmentCount (pa_fragment p) =? qf_fragmentCount f)
               && (qf_declaredLength (pa_fragment p) =? qf_declaredLength f)
            then taken f expected nowMs r else r
        | None => r
        end
      else r
  end.

Lemma accept_core raw nowMs r : core (final (accept raw nowMs) r) = core (accept_result raw nowMs r).
Proof.
  unfold accept, accept_result. destruct (decodeFragment raw) as [f|e]; [|done].
  unfold final, mbind, mget, mskip, mret. destruct (isExpected (qv_session r) f); cbn [negb fst snd]; [|done].
  destruct (List.find _ manifest_cases) as [expected|]; [|done].
  destruct (is_committed f expected); cbn [negb andb]; [|done].
  unfold taken. destruct (place f nowMs r) as [o p]. cbn [fst snd].
  destruct (_ =? _); cbn [negb orb andb]; [|done]. destruct (_ =? _); cbn [negb orb andb]; [|done].
  unfold mmodify. cbn [fst snd]. destruct (zlen _ =? _); cbn [negb]; done.
Qed.

(** ** Objects *)

(** Every case has an object of its own. *)
Record sound (r : QuietReceiverEvidence) : Prop := {
  so_keys : NoDup (qv_parts r).*1;
  so_objects : NoDup (qv_parts r).*2;
  so_bound : forall o, o ∈ (qv_parts r).*2 -> (o < length (qv_objects r))%nat }.

Lemma length_store o p l : (o <= length l)%nat -> (length (store o p l) = if (o =? length l)%nat then S (length l) else length l)%nat.
Proof. intros _. unfold store. destruct (o =? length l)%nat; [rewrite length_app; cbn; lia|by rewrite length_insert]. Qed.

Lemma lookup_store o p l : (o <= length l)%nat -> store o p l !! o = Some p.
Proof.
  intros H. unfold store. destruct (Nat.eqb_spec o (length l)) as [->|].
  - by apply list_lookup_middle.
  - apply list_lookup_insert_eq. lia.
Qed.

Lemma lookup_store_ne o o' p l : o <> o' -> (o' < length l)%nat -> store o p l !! o' = l !! o'.
Proof.
  intros H H'. unfold store. destruct (Nat.eqb_spec o (length l)) as [->|]; [by apply lookup_app_l|by apply list_lookup_insert_ne].
Qed.

(** A fragment's object is the one of its case, or a new one. *)
Lemma place_cases f nowMs r o p :
  sound r -> place f nowMs r = (o, p) ->
  (map_get (case_key f) (qv_parts r) = Some o /\ qv_objects r !! o = Some p)
  \/ (map_get (case_key f) (qv_parts r) = None /\ o = length (qv_objects r) /\ p = mkPartial f [] 0 nowMs).
Proof.
  intros [_ _ Hb] H. unfold place in H. destruct (map_get (case_key f) (qv_parts r)) as [o'|] eqn:E.
  - destruct (qv_objects r !! o') as [p'|] eqn:Eo; [left; by injection H as <- <-|]. exfalso.
    apply map_get_elem in E. apply lookup_ge_None in Eo. assert (o' ∈ (qv_parts r).*2) as K by (by apply (list_elem_of_fmap_2 snd _ (case_key f, o'))).
    apply Hb in K. lia.
  - injection H as <- <-. by right.
Qed.

Lemma place_bound f nowMs r o p : sound r -> place f nowMs r = (o, p) -> (o <= length (qv_objects r))%nat.
Proof.
  intros Hr H. destruct (place_cases f nowMs r o p Hr H) as [[_ K]|(_ & -> & _)]; [|done].
  apply lookup_lt_Some in K. lia.
Qed.

Lemma taken_sound f expected nowMs r : sound r -> sound (taken f expected nowMs r).
Proof.
  intros Hr. unfold taken. destruct (place f nowMs r) as [o p] eqn:E. pose proof (place_bound _ _ _ _ _ Hr E) as Hle.
  destruct Hr as [H1 H2 H3]. destruct (place_cases f nowMs r o p) as [[K _]|(K & -> & _)]; [by split|done|..].
  - split; cbn; rewrite (map_set_same _ _ _ K); try done. intros x Hx%H3. rewrite length_store by done. destruct (_ =? _)%nat; lia.
  - assert (Hn : map_has (case_key f) (qv_parts r) = false).
    { destruct (map_has _ _) eqn:E'; [|done]. apply map_has_get in E' as [v ?]. congruence. }
    split; cbn; rewrite (map_set_new _ _ _ Hn), fmap_app; cbn.
    + apply NoDup_app. split; [done|]. split; [|by apply NoDup_singleton].
      intros x Hx ->%list_elem_of_singleton. apply (map_has_keys _ (qv_parts r)) in Hx. congruence.
    + apply NoDup_app. split; [done|]. split; [|by apply NoDup_singleton].
      intros x Hx%H3 ->%list_elem_of_singleton. lia.
    + intros x [Hx%H3| ->%list_elem_of_singleton]%elem_of_app; rewrite length_store, Nat.eqb_refl by done; lia.
Qed.

Lemma sound_core r r' : core r' = core r -> sound r -> sound r'.
Proof. unfold core. intros [= E1 E2 _ _ _] [H1 H2 H3]. split; rewrite ?E1, ?E2; done. Qed.

Lemma accept_sound raw nowMs r : sound r -> sound (final (accept raw nowMs) r).
Proof.
  intros Hr. apply (sound_core (accept_result raw nowMs r)); [apply accept_core|]. unfold accept_result.
  destruct (decodeFragment raw) as [f|]; [|done]. destruct (isExpected _ f); [|done].
  destruct (List.find _ _) as [expected|]; [|done]. cbv zeta. destruct (_ && _); [by apply taken_sound|done].
Qed.

Lemma map_delete_sublist {K V} `{!EqDecision K} (k : K) (m : list (K * V)) : map_delete k m `sublist_of` m.
Proof.
  unfold map_delete. induction m as [|p m IH]; [done|]. cbn. destruct (negb _); [by apply sublist_skip|by apply sublist_cons].
Qed.

Lemma digested_sound k r : sound r -> sound (final (digested k) r).
Proof.
  intros [H1 H2 H3]. unfold digested, final, mbind, mget. cbn [fst snd]. destruct (qv_jobs r !! k) as [job|]; [|done].
  cbn. pose proof (map_delete_sublist (dj_key job) (qv_parts r)) as Hs. split; cbn.
  - eapply sublist_NoDup; [exact H1|]. by apply fmap_sublist.
  - eapply sublist_NoDup; [exact H2|]. by apply fmap_sublist.
  - intros o ([k' o'] & -> & [Hin _]%map_delete_elem)%list_elem_of_fmap. apply H3. by apply (list_elem_of_fmap_2 snd _ (k', o')).
Qed.

Lemma high_water_core l nowMs : forall r, core (final (high_water_all l nowMs) r) = core r.
Proof. induction l as [|p l IH]; intros r; [done|]. cbn [high_water_all].
  change (core (final (high_water_all l nowMs) (final (updateHighWater p nowMs) r)) = core r). by rewrite IH.
Qed.

Lemma run_sound events : forall r, sound r -> sound (receiver_run events r).
Proof.
  induction events as [|e events IH]; intros r Hr; [done|]. cbn [receiver_run fold_left]. apply IH.
  assert (Hempty : forall objects session m c jobs, sound (mkReceiver [] objects session m c jobs)).
  { intros. split; cbn; [constructor|constructor|]. by intros o Ho%elem_of_nil. }
  unfold receiver_step, receiver_handler. destruct e as [raw nowMs|k|nowMs|session nowMs].
  - unfold final, mbind. pose proof (accept_sound raw nowMs r Hr) as H.
    unfold final in H. destruct (accept raw nowMs r) as [[u|e] r']; exact H.
  - pose proof (digested_sound k r Hr) as H. unfold final, mbind in *. destruct (digested k r) as [[u|e] r']; exact H.
  - unfold flush, final, mbind, mget. cbn [fst snd]. destruct (high_water_all _ _ r) as [[u|e] r'] eqn:E; cbn; [apply Hempty|].
    apply (sound_core r); [|done]. rewrite <- (high_water_core (current_parts r) nowMs r). unfold final. by rewrite E.
  - unfold receiver_reset, flush, final, mbind, mget. cbn [fst snd]. destruct (high_water_all _ _ r) as [[u|e] r'] eqn:E; cbn; [apply Hempty|].
    apply (sound_core r); [|done]. rewrite <- (high_water_core (current_parts r) nowMs r). unfold final. by rewrite E.
Qed.

Lemma new_receiver_sound session : sound (new_receiver session).
Proof. split; cbn; [constructor|constructor|]. by intros o Ho%elem_of_nil. Qed.

(** ** A case comes over *)

#[local] Instance CorpusPattern_eq_dec : EqDecision CorpusPattern.
Proof. solve_decision. Defined.
#[local] Instance CorpusManifestCase_eq_dec : EqDecision CorpusManifestCase.
Proof. solve_decision. Defined.

Definition found_by_id (entry : CorpusManifestCase) : bool :=
  bool_decide (List.find (same_caseId (cm_id entry)) manifest_cases = Some entry).

Lemma cases_found : forallb found_by_id manifest_cases = true.
Proof. by vm_compute. Qed.

Lemma case_found entry : entry ∈ manifest_cases -> List.find (same_caseId (cm_id entry)) manifest_cases = Some entry.
Proof.
  intros H%list_elem_of_In. apply (proj1 (forallb_forall _ _) cases_found) in H. by apply bool_decide_eq_true_1 in H.
Qed.

(** The frames a case is sent in. *)
Definition case_frames (epoch : Z) (sender : Role) (n : nat) (entry : CorpusManifestCase) : list bytes :=
  map (fun f => match encodeFragment f with Ok raw => raw | Throw _ => [] end)
    (fragmentCase epoch sender (Z.of_nat n) entry (manifestPayload entry)).

(** The frame is of the case, genuine or not. *)
Definition names_case (key : CaseKey) (raw : bytes) : bool :=
  match decodeFragment raw with Ok f => bool_decide (case_key f = key) | Throw _ => false end.

Definition hear (heard : list (bytes * double)) (r : QuietReceiverEvidence) : QuietReceiverEvidence :=
  receiver_run (map (fun p => Heard p.1 p.2) heard) r.

(** The fragments of the case, by index. *)
Definition fragment_at (epoch : Z) (sender : Role) (n : nat) (entry : CorpusManifestCase) (i : Z) : QuietFragment :=
  mkFragment epoch sender (cm_direction entry) (cm_id entry) (Z.of_nat n) i (fragment_count (cm_size entry)) (cm_size entry)
    (hex_pairs 8 (js (cm_sha256 entry))) (fragment_data (manifestPayload entry) i).

Definition indices (count : Z) : list Z := map Z.of_nat (seq 0 (Z.to_nat count)).

Lemma elem_indices count i : i ∈ indices count <-> 0 <= i < count.
Proof.
  unfold indices. rewrite list_elem_of_fmap. setoid_rewrite list_elem_of_In. setoid_rewrite in_seq. split.
  - intros (k & -> & ?). lia.
  - intros H. exists (Z.to_nat i). lia.
Qed.

Section case_delivered.
Variables (localRole : Role) (epoch : Z) (n : nat) (entry : CorpusManifestCase) (jobs0 : list DigestJob).
Hypothesis Hcase : cases_of (receiveDirectionForRole localRole) !! n = Some entry.
Hypothesis Hepoch : 0 <= epoch < 256 ^ 4.

#[local] Abbreviation key := (epoch, peerRole localRole, cm_id entry : string).
#[local] Abbreviation count := (fragment_count (cm_size entry)).
#[local] Abbreviation fragment := (fragment_at epoch (peerRole localRole) n entry).
#[local] Abbreviation data := (fragment_data (manifestPayload entry)).

Definition other_jobs (js : list DigestJob) : Prop := Forall (fun j => dj_key j <> key) js.

(** The fragments of some indices have been taken. *)
Record gathered (seen : list Z) (r : QuietReceiverEvidence) : Prop := {
  ga_sound : sound r;
  ga_session : rv_epoch (qv_session r) = epoch /\ rv_localRole (qv_session r) = localRole;
  ga_seen : NoDup seen /\ forall i, i ∈ seen -> 0 <= i < count;
  ga_object :
    if decide (seen = []) then map_get key (qv_parts r) = None
    else exists o p, map_get key (qv_parts r) = Some o /\ qv_objects r !! o = Some p
       /\ pa_parts p = map (fun i => (i, data i)) seen /\ pa_duplicates p = 0
       /\ qf_fragmentCount (pa_fragment p) = count /\ qf_declaredLength (pa_fragment p) = cm_size entry;
  ga_jobs : exists js, qv_jobs r = jobs0 ++ js
    /\ if zlen seen =? count
       then exists before job after, js = before ++ job :: after /\ other_jobs before /\ other_jobs after
         /\ dj_payload job = manifestPayload entry /\ dj_expected job = entry /\ (exists i, dj_fragment job = fragment i)
         /\ dj_key job = key /\ map_get key (qv_parts r) = Some (dj_current job)
       else other_jobs js }.

Lemma gathered_core seen r r' : core r' = core r -> gathered seen r -> gathered seen r'.
Proof.
  intros E [H1 H2 H3 H4 H5]. pose proof (sound_core _ _ E H1). unfold core in E. injection E as E1 E2 E3 _ E5.
  by split; rewrite ?E1, ?E2, ?E3, ?E5.
Qed.

Lemma count_bounds : 1 <= count <= 7 /\ (cm_size entry = 256 \/ cm_size entry = 1536).
Proof.
  destruct (entry_shaped_spec _ (case_shape _ _ _ Hcase)) as (Hs & _). split; [|done].
  destruct Hs as [-> | ->]; by vm_compute.
Qed.

(** Another case's frame, or none. *)
Lemma other_heard seen raw nowMs r :
  names_case key raw = false -> gathered seen r -> gathered seen (accept_result raw nowMs r).
Proof.
  intros Hraw Hg. pose proof Hg as [H1 H2 H3 H4 (js & Hj & Hjs)]. unfold names_case in Hraw. unfold accept_result.
  destruct (decodeFragment raw) as [f|]; [|done]. apply bool_decide_eq_false_1 in Hraw.
  destruct (isExpected _ f); [|done]. destruct (List.find _ _) as [expected|]; [|done]. cbv zeta.
  destruct (_ && _); [|done]. pose proof (taken_sound f expected nowMs r H1) as H1'. unfold taken in *.
  destruct (place f nowMs r) as [o p] eqn:E.
  assert (Hget : map_get key (map_set (case_key f) o (qv_parts r)) = map_get key (qv_parts r)).
  { rewrite map_get_set, decide_False; [done|]. intros Hd. apply Hraw. by symmetry. }
  split; cbn [qv_parts qv_objects qv_session qv_jobs] in *; try done.
  - destruct (decide (seen = [])); [by rewrite Hget|]. destruct H4 as (o' & p' & K1 & K2 & K3). exists o', p'. rewrite Hget.
    split; [done|]. split; [|done]. rewrite lookup_store_ne; [done| |by eapply lookup_lt_Some].
    intros ->. destruct (place_cases f nowMs r o' p H1 E) as [[K _]|(_ & -> & _)].
    + apply Hraw. destruct H1 as [_ Hnd _]. apply map_get_elem in K1, K. clear - Hnd K1 K.
      apply list_elem_of_lookup in K1 as [i Hi], K as [j Hj].
      assert (i = j) as <- by (apply (NoDup_lookup _ i j o' Hnd); by rewrite list_lookup_fmap, ?Hi, ?Hj).
      rewrite Hi in Hj. apply (inj Some), (f_equal fst) in Hj. by symmetry.
    + apply lookup_lt_Some in K2. lia.
  - rewrite Hget, Hj. destruct (zlen _ =? qf_fragmentCount f).
    + exists (js ++ [mkJob (case_key f) o f expected (joined_parts (pa_parts (take_part f p)) (qf_declaredLength f)) nowMs]).
      rewrite <- app_assoc. split; [done|]. destruct (zlen seen =? count).
      * destruct Hjs as (b & job & a & -> & Hb & Ha & Hrest). exists b, job. eexists. rewrite <- app_assoc. cbn [app].
        split; [done|]. split; [done|]. split; [|done]. apply Forall_app. split; [done|]. constructor; [done|constructor].
      * apply Forall_app. split; [done|]. constructor; [done|constructor].
    + by exists js.
Qed.

Lemma map_has_tagged {B} (f : Z -> B) (l : list Z) i : map_has i (map (fun i => (i, f i)) l) = true -> i ∈ l.
Proof.
  intros H%map_has_keys. change (i ∈ map fst (map (fun i => (i, f i)) l)) in H. rewrite map_map in H. by rewrite map_id in H.
Qed.

(** The joined parts of all indices. *)
Lemma join_all seen :
  seen ≡ₚ indices count ->
  joined_parts (map (fun i => (i, data i)) seen) (cm_size entry) = manifestPayload entry.
Proof.
  intros Hseen. destruct count_bounds as [Hc Hs]. unfold joined_parts.
  assert (Hfit : cm_size entry <= count * QUIET_DATA_BYTES).
  { unfold QUIET_DATA_BYTES, QUIET_FRAME_BYTES, QUIET_ENVELOPE_BYTES.
    destruct Hs as [-> | ->]; [change (fragment_count 256) with 2|change (fragment_count 1536) with 7]; lia. }
  assert (Hl : length (manifestPayload entry) = Z.to_nat (cm_size entry)).
  { pose proof (length_manifestPayload entry) as Hl. unfold zlen in Hl. lia. }
  assert (Htot : Total part_le) by (intros x y; unfold part_le; lia).
  assert (Htr : Transitive part_le) by (intros x y z; unfold part_le; lia).
  rewrite (StronglySorted_unique_strong part_le _ (map (fun i => (i, data i)) (indices count))).
  - unfold indices. rewrite !map_map. cbn [snd]. rewrite fragments_join.
    + apply take_ge. lia.
    + unfold QUIET_DATA_BYTES, QUIET_FRAME_BYTES, QUIET_ENVELOPE_BYTES in *. lia.
  - intros x y Hx Hy H1 H2. rewrite (merge_sort_Permutation part_le) in Hx. rewrite map_fmap in Hx, Hy.
    apply list_elem_of_fmap in Hx as (i & -> & _). apply list_elem_of_fmap in Hy as (j & -> & _). unfold part_le in H1, H2. cbn [fst] in H1, H2.
    by replace j with i by lia.
  - by apply StronglySorted_merge_sort.
  - unfold indices. rewrite map_map. generalize 0%nat as k. induction (Z.to_nat count) as [|m IH]; intros k; cbn; [constructor|].
    constructor; [apply IH|]. apply Forall_forall. intros x Hx. rewrite map_fmap in Hx.
    apply list_elem_of_fmap in Hx as (j & -> & Hj). apply list_elem_of_In, in_seq in Hj. unfold part_le. cbn. lia.
  - rewrite (merge_sort_Permutation part_le), !map_fmap. by rewrite Hseen.
Qed.

Lemma all_seen seen : NoDup seen -> (forall i, i ∈ seen -> 0 <= i < count) -> zlen seen = count -> seen ≡ₚ indices count.
Proof.
  intros Hnd Hr Hl. apply submseteq_length_Permutation.
  - apply NoDup_submseteq; [done|]. intros i Hi. by apply elem_indices, Hr.
  - unfold indices. rewrite length_map, length_seq. unfold zlen in Hl. lia.
Qed.

(** A fragment of the case, for the first time. *)
Lemma fragment_heard seen i raw nowMs r :
  decodeFragment raw = Ok (fragment i) -> i ∉ seen -> 0 <= i < count -> gathered seen r ->
  gathered (seen ++ [i]) (accept_result raw nowMs r).
Proof.
  intros Hraw Hi Hb Hg. pose proof Hg as [H1 [He Hr] [Hnd Hrange] H4 (js & Hj & Hjs)].
  destruct (entry_shaped_spec _ (case_shape _ _ _ Hcase)) as (_ & _ & Hhex). destruct (case_listed _ _ _ Hcase) as [Hin Hdir].
  unfold accept_result. rewrite Hraw.
  assert (Hexp : isExpected (qv_session r) (fragment i) = true).
  { unfold isExpected. cbn [qf_epoch qf_sender qf_direction fragment_at]. rewrite He, Hr, Hdir, Z.eqb_refl.
    by rewrite !bool_decide_eq_true_2. }
  rewrite Hexp. cbn [qf_caseId fragment_at]. rewrite (case_found entry Hin).
  assert (Hcom : is_committed (fragment i) entry = true).
  { unfold is_committed. cbn [qf_declaredLength qf_fragmentCount qf_digestPrefix fragment_at]. rewrite !Z.eqb_refl, Hhex.
    by rewrite bool_decide_eq_true_2. }
  rewrite Hcom. cbn [andb]. pose proof (taken_sound (fragment i) entry nowMs r H1) as H1'. unfold taken in *.
  destruct (place (fragment i) nowMs r) as [o p] eqn:E. cbn [snd].
  pose proof (place_bound _ _ _ _ _ H1 E) as Hle. change (case_key (fragment i)) with key in *.
  assert (Hp : pa_parts p = map (fun i => (i, data i)) seen /\ pa_duplicates p = 0
     /\ qf_fragmentCount (pa_fragment p) = count /\ qf_declaredLength (pa_fragment p) = cm_size entry).
  { destruct (place_cases _ _ _ _ _ H1 E) as [[K1 K2]|(K1 & -> & ->)]; change (case_key (fragment i)) with key in *.
    - destruct (decide (seen = [])); [congruence|]. destruct H4 as (o' & p' & L1 & L2 & L3). rewrite K1 in L1. injection L1 as <-.
      rewrite K2 in L2. injection L2 as <-. done.
    - destruct (decide (seen = [])) as [->|]; [done|]. destruct H4 as (o' & p' & L1 & _). congruence. }
  destruct Hp as (Hparts & Hdup & Hcnt & Hlen). cbn [qf_fragmentCount qf_declaredLength fragment_at]. rewrite Hcnt, Hlen, !Z.eqb_refl.
  cbn [andb].
  assert (Hnew : map_has i (pa_parts p) = false).
  { destruct (map_has i (pa_parts p)) eqn:Em; [|done]. rewrite Hparts in Em. by apply map_has_tagged in Em. }
  unfold take_part in *. cbn [qf_fragmentIndex qf_payload fragment_at] in *. rewrite Hnew in *.
  set (p' := set pa_parts _ p) in *.
  assert (Hp' : pa_parts p' = map (fun i => (i, data i)) (seen ++ [i])).
  { change (pa_parts p') with (pa_parts p ++ [(i, data i)]). by rewrite Hparts, map_app. }
  assert (Hseen' : NoDup (seen ++ [i])).
  { apply NoDup_app. split; [done|]. split; [|apply NoDup_singleton]. intros x Hx ->%list_elem_of_singleton. done. }
  assert (Hrange' : forall x, x ∈ seen ++ [i] -> 0 <= x < count).
  { intros x [Hx| ->%list_elem_of_singleton]%elem_of_app; auto. }
  assert (Hlen' : zlen (pa_parts p') = zlen (seen ++ [i])) by (unfold zlen; by rewrite Hp', length_map).
  assert (Hlt : zlen seen < count).
  { assert (Hs2 : (length (seen ++ [i]) <= length (indices count))%nat).
    { apply submseteq_length, NoDup_submseteq; [done|]. intros x Hx. by apply elem_indices, Hrange'. }
    unfold indices in Hs2. rewrite length_map, length_seq, length_app in Hs2. cbn in Hs2. unfold zlen. lia. }
  rewrite (proj2 (Z.eqb_neq (zlen seen) _)) in Hjs by lia.
  split; cbn [qv_parts qv_objects qv_session qv_jobs qv_metrics qv_completedCase] in *; try done.
  - rewrite decide_False by (by destruct seen). exists o, p'. rewrite map_get_set, decide_True by done.
    split; [done|]. split; [by apply lookup_store|]. done.
  - rewrite Hlen', Hj, map_get_set, decide_True by done. destruct (Z.eqb_spec (zlen (seen ++ [i])) count) as [Hall|].
    + exists (js ++ [mkJob key o (fragment i) entry (joined_parts (pa_parts p') (cm_size entry)) nowMs]).
      rewrite <- app_assoc. split; [done|]. exists js. eexists. exists []. split; [done|]. split; [done|]. split; [constructor|].
      cbn [dj_payload dj_expected dj_fragment dj_key dj_current]. rewrite Hp', join_all by (by apply all_seen).
      split_and!; try done. by exists i.
    + by exists js.
Qed.

Lemma fragmentCase_at :
  fragmentCase epoch (peerRole localRole) (Z.of_nat n) entry (manifestPayload entry) = map fragment (indices count).
Proof.
  destruct count_bounds as [_ Hs]. unfold fragmentCase. rewrite length_manifestPayload by lia. done.
Qed.

Lemma frame_decoded i : 0 <= i < count -> exists raw, encodeFragment (fragment i) = Ok raw /\ decodeFragment raw = Ok (fragment i).
Proof.
  intros Hi. destruct (fragment_decodes (fragment i)) as (raw & H1 & H2 & _); [|eauto].
  apply (fragments_carried _ _ _ epoch (peerRole localRole) _ Hcase Hepoch).
  rewrite fragmentCase_at. apply list_elem_of_In, in_map, list_elem_of_In. by apply elem_indices.
Qed.

#[local] Abbreviation frame := (fun i => match encodeFragment (fragment i) with Ok raw => raw | Throw _ => [] end).

Lemma step_core raw nowMs r : core (receiver_step (Heard raw nowMs) r) = core (accept_result raw nowMs r).
Proof.
  rewrite <- accept_core. unfold receiver_step, receiver_handler, final, mbind. by destruct (accept raw nowMs r) as [[u|e] r'].
Qed.

Lemma all_heard heard : forall seen rest r,
  gathered seen r -> NoDup rest -> (forall i, i ∈ rest -> i ∉ seen /\ 0 <= i < count) ->
  List.filter (names_case key) (map fst heard) ≡ₚ map frame rest ->
  exists seen', gathered seen' (hear heard r) /\ zlen seen' = zlen seen + zlen rest.
Proof.
  induction heard as [|[raw nowMs] heard IH]; intros seen rest r Hr Hnd Hrest Hperm.
  { cbn in Hperm. apply Permutation_nil_l in Hperm. destruct rest; [|done]. exists seen. split; [done|]. change (zlen []) with 0. lia. }
  change (hear ((raw, nowMs) :: heard) r) with (hear heard (receiver_step (Heard raw nowMs) r)). cbn [map fst List.filter] in Hperm.
  destruct (names_case key raw) eqn:Ename.
  - assert (Hin : raw ∈ map frame rest) by (rewrite <- Hperm; apply elem_of_cons; by left).
    rewrite map_fmap in Hin. apply list_elem_of_fmap in Hin as (i & Hraw & Hi).
    destruct (Hrest i Hi) as [Hnew Hb]. destruct (frame_decoded i Hb) as (raw' & Henc & Hdec). rewrite Henc in Hraw. subst raw'.
    apply elem_of_Permutation in Hi as [rest' Hrest']. rewrite Hrest' in Hnd, Hperm. cbn [map] in Hperm. rewrite Henc in Hperm.
    apply Permutation_cons_inv in Hperm. apply NoDup_cons in Hnd as [Hi' Hnd'].
    destruct (IH (seen ++ [i]) rest' (receiver_step (Heard raw nowMs) r)) as (seen' & H1 & H2); try done.
    + apply (gathered_core _ (accept_result raw nowMs r)); [apply step_core|]. by apply fragment_heard.
    + intros j Hj. destruct (Hrest j) as [K1 K2]; [rewrite Hrest'; apply elem_of_cons; by right|]. split; [|done].
      intros [Hjs| ->%list_elem_of_singleton]%elem_of_app; [by apply K1|by apply Hi'].
    + exists seen'. split; [done|]. rewrite H2. unfold zlen. rewrite length_app, Hrest'. cbn [length]. lia.
  - apply (IH seen rest); try done. apply (gathered_core _ (accept_result raw nowMs r)); [apply step_core|]. by apply other_heard.
Qed.

#[local] Opaque sha256_hex manifestPayload.

(** The evidence of a body that goes on. *)
Lemma accept_digest_evidence job r p :
  qv_objects r !! dj_current job = Some p ->
  exists e, outcome (accept_digest job) r = Ok e /\ (re_sender e, re_direction e) = (qf_sender (dj_fragment job), qf_direction (dj_fragment job))
    /\ re_coldAcquired e = negb (qv_completedCase r) /\ re_epoch e = qf_epoch (dj_fragment job) /\ re_caseId e = qf_caseId (dj_fragment job)
    /\ re_digest e = Some (sha256_hex (dj_payload job)) /\ re_complete e = true /\ re_missing e = 0
    /\ re_duplicates e = pa_duplicates p /\ re_deliveryCount e = (if pa_duplicates p =? 0 then 1 else 2)
    /\ re_corrupt e = negb (bool_decide (sha256_hex (dj_payload job) = js (cm_sha256 (dj_expected job))))
                      || negb (zlen (dj_payload job) =? qf_declaredLength (dj_fragment job)).
Proof.
  intros H. unfold accept_digest, outcome, mbind, mmodify, mget, mret. destruct r. unfold set. cbn in H |- *. rewrite H.
  eexists. split; [reflexivity|]. done.
Qed.

(** The digest arrives: the case is forgotten, the body is over, and a case of the
    session is completed. *)
Definition after_digest (k : nat) (job : DigestJob) (r : QuietReceiverEvidence) : QuietReceiverEvidence :=
  mkReceiver (map_delete (dj_key job) (qv_parts r)) (qv_objects r) (qv_session r) (qv_metrics r) true (delete k (qv_jobs r)).

Lemma digested_at k r job e :
  qv_jobs r !! k = Some job -> outcome (accept_digest job) (set qv_jobs (fun _ => delete k (qv_jobs r)) r) = Ok e ->
  outcome (digested k) r = Ok (Some e) /\ receiver_step (Digested k) r = after_digest k job r.
Proof.
  intros H E. unfold receiver_step, receiver_handler, outcome, final, digested, mbind, mget, mmodify in *. cbn [fst snd]. rewrite H.
  cbn [fst snd]. unfold accept_digest, mbind, mmodify, mget, mret in *. cbn [fst snd] in *. injection E as <-. by destruct r.
Qed.

(** The digest of a case all of which was heard. *)
Lemma digest_delivered seen r :
  gathered seen r -> zlen seen = count ->
  exists before job after evidence, qv_jobs r = (jobs0 ++ before) ++ job :: after /\ other_jobs before /\ other_jobs after
    /\ outcome (digested (length (jobs0 ++ before))) r = Ok (Some evidence)
    /\ bytePerfect evidence = true /\ re_caseId evidence = cm_id entry /\ re_epoch evidence = epoch
    /\ (re_sender evidence, re_direction evidence) = (peerRole localRole, receiveDirectionForRole localRole)
    /\ re_coldAcquired evidence = negb (qv_completedCase r)
    /\ re_digest evidence = Some (js (cm_sha256 entry))
    /\ dj_key job = key /\ receiver_step (Digested (length (jobs0 ++ before))) r = after_digest (length (jobs0 ++ before)) job r.
Proof.
  intros [_ _ _ Hobj (js0 & Hj & Hjs)] Hlen. rewrite Hlen, Z.eqb_refl in Hjs.
  destruct Hjs as (b & job & a & -> & Hb & Ha & Hp & He & (i & Hf) & Hk & Hcur).
  rewrite decide_False in Hobj by (intros ->; cbn in Hlen; destruct count_bounds; change (zlen []) with 0 in Hlen; lia).
  destruct Hobj as (o & p & K1 & K2 & _ & Hdup & _). rewrite K1 in Hcur. injection Hcur as Hcur.
  destruct (case_listed _ _ _ Hcase) as [Hin Hdir]. pose proof (committed_digest entry Hin) as Hd.
  destruct count_bounds as [_ Hs]. pose proof (length_manifestPayload entry) as Hl.
  rewrite app_assoc in Hj.
  destruct (accept_digest_evidence job (set qv_jobs (fun _ => delete (length (jobs0 ++ b)) (qv_jobs r)) r) p) as (e & E & E0 & Ec & E1 & E2 & E3 & E4 & E5 & E6 & E7 & E8).
  { rewrite <- Hcur. exact K2. }
  exists b, job, a, e. split; [done|]. split; [done|]. split; [done|].
  destruct (digested_at (length (jobs0 ++ b)) r job e) as [Ho Hstep]; [rewrite Hj; by apply list_lookup_middle|exact E|]. split; [exact Ho|].
  rewrite Hf, Hp, He, Hdup, Hd in *. unfold bytePerfect. rewrite E0, Ec, E1, E2, E3, E4, E5, E6, E7, E8.
  cbn [qf_declaredLength qf_epoch qf_caseId qf_sender qf_direction fragment_at].
  rewrite bool_decide_eq_true_2, Hl, Z.eqb_refl, Hdir by (done || lia). done.
Qed.
End case_delivered.

(** C34: A case that comes over is reported as committed, and forgotten. Whatever
    the receiver went through before, if it holds no part of a committed case of
    its peer and then hears the frames of the case once each, in any order and
    amid whatever other frames, exactly one digest is awaited for the case. What
    it settles with is byte-perfect evidence of the case, its sender and its
    direction, that carries the committed digest and says whether the case is
    the first completed; and then the receiver holds no part of the case, no
    longer awaits that digest, and holds and awaits what it did besides. *)
Theorem quiet_case_received session0 events n entry heard :
  let r := receiver_run events (new_receiver session0) in
  let epoch := rv_epoch (qv_session r) in
  let role := rv_localRole (qv_session r) in
  let key := (epoch, peerRole role, cm_id entry) in
  cases_of (receiveDirectionForRole role) !! n = Some entry ->
  0 <= epoch < 256 ^ 4 ->
  map_get key (qv_parts r) = None ->
  List.filter (names_case key) (map fst heard) ≡ₚ case_frames epoch (peerRole role) n entry ->
  let r' := hear heard r in
  exists before job after evidence, qv_jobs r' = (qv_jobs r ++ before) ++ job :: after
    /\ Forall (fun j => dj_key j <> key) before /\ Forall (fun j => dj_key j <> key) after
    /\ let k := length (qv_jobs r ++ before) in
       outcome (digested k) r' = Ok (Some evidence)
       /\ bytePerfect evidence = true /\ re_caseId evidence = cm_id entry /\ re_epoch evidence = epoch
       /\ (re_sender evidence, re_direction evidence) = (peerRole role, receiveDirectionForRole role)
       /\ re_coldAcquired evidence = negb (qv_completedCase r')
       /\ re_digest evidence = Some (js (cm_sha256 entry))
       /\ let r'' := receiver_step (Digested k) r' in
          map_get key (qv_parts r'') = None
          /\ (forall key', key' <> key -> map_get key' (qv_parts r'') = map_get key' (qv_parts r'))
          /\ qv_jobs r'' = (qv_jobs r ++ before) ++ after /\ qv_objects r'' = qv_objects r' /\ qv_completedCase r'' = true.
Proof.
  intros r epoch role key Hcase Hepoch Hkey Hframes r'.
  assert (Hr : gathered (rv_localRole (qv_session r)) epoch n entry (qv_jobs r) [] r).
  { split; [apply run_sound, new_receiver_sound|done|split; [constructor|by intros i Hi%elem_of_nil]|done|].
    exists []. rewrite app_nil_r. split; [done|]. destruct (count_bounds _ _ _ Hcase). rewrite (proj2 (Z.eqb_neq _ _)); [constructor|].
    change (zlen []) with 0. lia. }
  destruct (all_heard _ _ _ _ _ Hcase Hepoch heard [] (indices (fragment_count (cm_size entry))) r Hr) as (seen & H1 & H2).
  - apply NoDup_map_of_nat.
  - intros i Hi%elem_indices. split; [apply not_elem_of_nil|done].
  - etransitivity; [exact Hframes|]. unfold case_frames. by rewrite (fragmentCase_at _ _ _ _ Hcase), map_map.
  - destruct (digest_delivered _ _ _ _ _ Hcase seen (hear heard r) H1)
      as (before & job & after & e & K1 & K2 & K3 & K4 & K5 & K6 & K7 & K8 & K9 & K10 & K11 & K12).
    { rewrite H2. unfold indices, zlen. rewrite length_map, length_seq. destruct (count_bounds _ _ _ Hcase). cbn [length]. lia. }
    exists before, job, after, e. cbv zeta. fold r' in K1, K12 |- *. rewrite K12. unfold after_digest. cbn [qv_parts qv_jobs qv_objects qv_completedCase].
    rewrite K11, map_get_delete, decide_True by done. split_and!; try done.
    + intros key' Hne. by rewrite map_get_delete, decide_False.
    + rewrite K1. rewrite delete_middle. done.
Qed.

(** B hears the two frames of A's first case, the second before the first, and a
    frame of another case between them. *)
Definition first_case : CorpusManifestCase := default (mkEntry "none" AtoB 0 AllZero "none") (cases_of AtoB !! 0%nat).
Definition heard_frames : list (bytes * double) :=
  match case_frames 5 RoleA 0 first_case, case_frames 5 RoleA 1 (default first_case (cases_of AtoB !! 1%nat)) with
  | [f; g], h :: _ => [(g, d_of_Z 1); (h, d_of_Z 2); (f, d_of_Z 3)]
  | _, _ => []
  end.

Lemma quiet_case_received_witness :
  exists evidence, outcome (digested 0) (hear heard_frames (new_receiver (mkReceiverSession 5 RoleB (d_of_Z 0)))) = Ok (Some evidence)
    /\ bytePerfect evidence = true.
Proof.
  destruct (quiet_case_received (mkReceiverSession 5 RoleB (d_of_Z 0)) [] 0 first_case heard_frames)
    as (before & job & after & evidence & Hj & _ & _ & Ho & Hp & _); [reflexivity|by split|reflexivity| |].
  { replace (List.filter _ _) with (rev (case_frames 5 RoleA 0 first_case)) by (vm_compute; reflexivity).
    symmetry. apply Permutation_rev. }
  exists evidence. split; [|exact Hp]. destruct before as [|job' before]; [exact Ho|].
  exfalso. assert (Hone : length (qv_jobs (hear heard_frames (new_receiver (mkReceiverSession 5 RoleB (d_of_Z 0))))) = 1%nat)
    by (vm_compute; reflexivity).
  apply (f_equal length) in Hj. cbn [receiver_run fold_left] in Hj. rewrite Hone, length_app in Hj. cbn in Hj. lia.
Defined.

(** A digest that arrives after the receiver was reset still counts a case of the
    new session as completed: its first case is not reported as acquired cold. *)
Definition hear_first : list ReceiverEvent := map (fun raw => Heard raw (d_of_Z 1)) (case_frames 5 RoleA 0 first_case).

Example late_digest_spoils_cold :
  let session := mkReceiverSession 6 RoleB (d_of_Z 2) in
  qv_completedCase (receiver_run (hear_first ++ [Restarted session (d_of_Z 2)]) (new_receiver (mkReceiverSession 5 RoleB (d_of_Z 0)))) = false
  /\ qv_completedCase (receiver_run (hear_first ++ [Restarted session (d_of_Z 2); Digested 0])
                         (new_receiver (mkReceiverSession 5 RoleB (d_of_Z 0)))) = true.
Proof. by vm_compute. Qed.

(** A frame repeated after its case was reported opens the case anew, and the next
    flush reports it incomplete. *)
Example late_repeat_reopens_case :
  exists evidence,
    outcome (flush (d_of_Z 9)) (receiver_run (hear_first ++ Digested 0 :: take 1 hear_first)
                                  (new_receiver (mkReceiverSession 5 RoleB (d_of_Z 0)))) = Ok [evidence]
    /\ re_complete evidence = false /\ re_missing evidence = 1.
Proof. eexists. split; [vm_compute; reflexivity|done]. Qed.
