(* ===== verification/QuietClient.v ===== *)
(** * The Quiet modem of the page
    ([SerialTransmissionQueue] and [QuietClient], [apps/modem-ui/src/quiet-client.ts] lines 58-88 and 338-544)

    Arming the modem in a frame of its own, the queue of units, transmissions with
    their guard, the sending of the corpus, what is heard, and the reset.  The
    objects of the browser and of the modem are numbered, and what they answer
    comes with the events; the bodies that await are kept with what they await. *)

From stdpp Require Import base list numbers option strings.
From Stdlib Require Import ZArith Lia SpecFloat.
From S2P Require Import Prelude Utf8 Doubles Json Fwav Corpus Qualification QuietProtocol QuietReceiver.

(** ** Applied settings *)

Record AppliedQuietSettings := mkApplied {
  aq_microphoneLabel : jsstring; aq_contextState : value; aq_contextSampleRate : value; aq_inputDeviceSampleRate : value;
  aq_captureSampleRate : value; aq_inputDeviceChannels : value; aq_captureChannels : Z; aq_echoCancellation : value;
  aq_noiseSuppression : value; aq_autoGainControl : value }.

Definition is_vint (z : Z) (v : value) : bool := match as_integer v with Some x => x =? z | None => false end.

Definition is_vfalse (v : value) : bool := match v with VBool b => negb b | _ => false end.

(** The settings [arm] goes on with. *)
Definition compatible (a : AppliedQuietSettings) : bool :=
  is_literal "running" (aq_contextState a) && is_vint 48000 (aq_contextSampleRate a) && is_vint 48000 (aq_captureSampleRate a)
  && (is_vint 44100 (aq_inputDeviceSampleRate a) || is_vint 48000 (aq_inputDeviceSampleRate a))
  && (is_vint 1 (aq_inputDeviceChannels a) || is_vint 2 (aq_inputDeviceChannels a)) && (aq_captureChannels a =? 1)
  && is_vfalse (aq_echoCancellation a) && is_vfalse (aq_noiseSuppression a) && is_vfalse (aq_autoGainControl a).

Record QuietMetrics := mkQuietMetrics {
  qm_playbackHighWaterBytes : Z; qm_playbackHighWaterMs : double; qm_discontinuities : Z }.

#[export] Instance eta_QuietMetrics : Eta QuietMetrics := fun m =>
  mkQuietMetrics (qm_playbackHighWaterBytes m) (qm_playbackHighWaterMs m) (qm_discontinuities m).

Definition zero_metrics : QuietMetrics := mkQuietMetrics 0 (d_of_Z 0) 0.

(** ** State *)

Inductive ClientCall :=
  | CallTransmit (transmitter : nat) (frame : bytes)
  | CallDestroy (transmitter : nat)
  | CallReceive (receiver : nat)
  | CallDestroyReceiver (receiver : nat)
  | CallTrack (track : nat)
  | CallStopTrack (track : nat)
  | CallContext (context : nat)
  | CallCloseContext (context : nat)
  | CallFrame (frame : nat)
  | CallRemoveFrame (frame : nat)
  | CallUnit (unit : bytes)
  | CallEvidence (evidence : ReceiveCaseEvidence)
  | CallProgress (entry : CorpusManifestCase) (index total : Z).

(** A transmission with its promise; that of a unit minds the epoch. *)
Record Transmission := mkTransmission {
  tx_unit : option Z;          (* the promise of a unit: its place in the queue *)
  tx_generation : Z; tx_epoch : option Z; tx_startedAt : double; tx_settled : option bool }.

#[export] Instance eta_Transmission : Eta Transmission := fun t =>
  mkTransmission (tx_unit t) (tx_generation t) (tx_epoch t) (tx_startedAt t) (tx_settled t).

(** A unit in the queue. *)
Record QueuedUnit := mkQueued { qu_id : Z; qu_queueGeneration : Z; qu_unit : bytes; qu_epoch : option Z; qu_generation : Z }.

(** What an arm awaits. *)
Inductive QuietArmWait :=
  | QwReset | QwLoaded (frame : nat) | QwQuiet (frame : nat) | QwLibfec | QwEmscripten | QwReady | QwReceiver
  | QwIncompatible.

Record QuietArm := mkQuietArm { qa_epoch : Z; qa_role : Role; qa_generation : Z; qa_wait : QuietArmWait }.

(** What the sending of a corpus awaits, at an index of its entries. *)
Inductive CorpusWait := CwPayload | CwDigest (payload : bytes) | CwTransmission (transmission : nat).

Record CorpusJob := mkCorpusJob {
  cj_role : Role; cj_epoch : Z; cj_generation : Z; cj_entries : list CorpusManifestCase; cj_index : nat; cj_wait : CorpusWait }.

(** What a receiver was created with. *)
Record ReceiverOwner := mkOwner { ro_generation : Z; ro_epoch : Z; ro_role : Role }.

Record QuietClient := mkClient {
  qc_transmitter : option nat;
  qc_receiver : option nat;
  qc_track : option nat;
  qc_epoch : option Z;
  qc_localRole : option Role;
  qc_evidence : QuietReceiverEvidence;
  qc_applied : option AppliedQuietSettings;
  qc_contexts : list (nat * bool);          (* with whether it is closed *)
  qc_runtime : option nat;                  (* frame and window *)
  qc_quiet : list nat;                      (* the frames whose window has [Quiet] *)
  qc_contextSampleRate : value;
  qc_playbackGain : double;
  qc_acousticRepetition : nat;
  qc_acousticGuardMs : Z;
  qc_generation : Z;
  qc_cancelTransmission : option nat;       (* the transmission it cancels *)
  qc_unitHandler : bool;
  qc_metrics : QuietMetrics;
  (* the queue of units *)
  qc_queueGeneration : Z;
  qc_queue : list QueuedUnit;
  qc_running : option nat;                  (* the head's transmission, once it started *)
  (* bodies and objects *)
  qc_nextUnit : Z;
  qc_next : nat;
  qc_transmissions : list (nat * Transmission);
  qc_guards : list nat;
  qc_receivers : list (nat * ReceiverOwner);
  qc_digests : list nat;                    (* the receivers that await the digests *)
  qc_arms : list (nat * QuietArm);
  qc_resets : nat;
  qc_corpus : list (nat * CorpusJob);
  (* what came of it *)
  qc_calls : list ClientCall;
  qc_units : list (Z * bool);               (* the promises of units: kept or not *)
  qc_armed : list (nat * result AppliedQuietSettings);
  qc_sent : list (nat * result unit);
}.

#[export] Instance eta_QuietClient : Eta QuietClient := fun c =>
  mkClient (qc_transmitter c) (qc_receiver c) (qc_track c) (qc_epoch c) (qc_localRole c) (qc_evidence c) (qc_applied c)
    (qc_contexts c) (qc_runtime c) (qc_quiet c) (qc_contextSampleRate c) (qc_playbackGain c) (qc_acousticRepetition c) (qc_acousticGuardMs c)
    (qc_generation c) (qc_cancelTransmission c) (qc_unitHandler c) (qc_metrics c) (qc_queueGeneration c) (qc_queue c)
    (qc_running c) (qc_nextUnit c) (qc_next c) (qc_transmissions c) (qc_guards c) (qc_receivers c) (qc_digests c) (qc_arms c)
    (qc_resets c) (qc_corpus c) (qc_calls c) (qc_units c) (qc_armed c) (qc_sent c).

Definition no_session : ReceiverSession := mkReceiverSession 0 RoleA (d_of_Z 0).

(** [new QuietClient(onReceive, { playbackGain })] *)
Definition new_client (playbackGain : double) : result QuietClient :=
  reject_if negb (d_is_finite playbackGain) || d_leb playbackGain (d_of_Z 0) || d_ltb (d_of_Z 4) playbackGain
    with "Quiet playback gain must be greater than 0 and no more than 4";
  Ok (mkClient None None None None None (new_receiver no_session) None [] None [] VUndefined playbackGain 1 QUIET_GUARD_MS
        0 None false zero_metrics 0 [] None 0 0 [] [] [] [] [] 0 [] [] [] [] []).

Abbreviation QC := (M QuietClient) (only parsing).

Definition qc_call (c : ClientCall) : QC unit := mmodify (set qc_calls (fun l => l ++ [c])).

Definition qc_fresh : QC nat := let! c := mget in qc_next <== S (qc_next c);; mret (qc_next c).

Definition when_client {A} (o : option A) (f : A -> QC unit) : QC unit := match o with Some x => f x | None => mskip end.

(** Run an operation of the receiver's evidence. *)
Definition on_evidence {A} (m : M QuietReceiverEvidence A) : QC A := fun c =>
  let p := m (qc_evidence c) in (p.1, set qc_evidence (fun _ => p.2) c).

(** [this.#runtimeWindow?.Quiet] *)
Definition has_quiet (c : QuietClient) : bool :=
  match qc_runtime c with Some frame => bool_decide (frame ∈ qc_quiet c) | None => false end.

(** ** Settings *)

Definition configureAcousticCandidate (playbackGain : double) (repetition guardMs : Z) : QC unit :=
  if negb (d_is_finite playbackGain) || d_ltb playbackGain (d_of_Z 1) || d_ltb (d_of_Z 2) playbackGain
     || (repetition <? 1) || (3 <? repetition) || (guardMs <? 1) || (5000 <? guardMs)
  then mthrow "Quiet acoustic candidate is invalid"
  else
    qc_playbackGain <== playbackGain;;
    qc_acousticRepetition <== Z.to_nat repetition;;
    qc_acousticGuardMs <== guardMs.

(** ** Transmissions *)

Definition transmission (t : nat) (c : QuietClient) : Transmission :=
  default (mkTransmission None 0 None (d_of_Z 0) (Some false)) (map_get t (qc_transmissions c)).

(** The promise of a unit settles, and the queue moves on to the next. *)
Definition unit_settled (id : Z) (kept : bool) : QC unit :=
  mmodify (set qc_units (fun l => l ++ [(id, kept)]));;
  mmodify (set qc_queue (List.filter (fun q => negb (qu_id q =? id))));;
  qc_running <== None.

(** [finish(callback)]: the first settles the promise. *)
Definition finish (t : nat) (kept : bool) : QC unit :=
  let! c := mget in
  let tx := transmission t c in
  return_if is_some (tx_settled tx);
  mmodify (set qc_transmissions (map_set t (set tx_settled (fun _ => Some kept) tx)));;
  qc_cancelTransmission <== None;;
  when_client (tx_unit tx) (fun id => unit_settled id kept).

(** A transmission starts: the promise with its canceller, and a transmitter in
    the place of the one before. *)
Definition begin_transmission (tx : Transmission) (frames : list bytes) : QC nat :=
  let! t := qc_fresh in
  mmodify (set qc_transmissions (fun l => l ++ [(t, tx)]));;
  qc_cancelTransmission <== Some t;;
  let! c := mget in
  when_client (qc_transmitter c) (fun old => qc_call (CallDestroy old));;
  qc_transmitter <== Some t;;
  mmodify (set qc_calls (fun l => l ++ map (CallTransmit t) frames));;
  mret t.

(** [onFinish], which a transmitter that was destroyed no longer calls. *)
Definition transmission_finished (t : nat) (nowMs : double) : QC unit :=
  let! c := mget in
  return_if negb (bool_decide (qc_transmitter c = Some t));
  mmodify (set qc_metrics (set qm_playbackHighWaterMs
    (fun h => d_max h (d_sub nowMs (tx_startedAt (transmission t c))))));;
  mmodify (set qc_guards (fun l => l ++ [t])).

(** The timer of the guard. *)
Definition guard_elapsed (t : nat) : QC unit :=
  let! c := mget in
  return_if negb (bool_decide (t ∈ qc_guards c));
  mmodify (set qc_guards (List.filter (fun x => negb (x =? t)%nat)));;
  let tx := transmission t c in
  finish t ((tx_generation tx =? qc_generation c)
            && match tx_epoch tx with Some e => bool_decide (qc_epoch c = Some e) | None => true end).

Definition transmitUnitNow (q : QueuedUnit) (nowMs : double) : QC nat :=
  let! c := mget in
  match qu_epoch q with
  | Some epoch =>
      if (zlen (qu_unit q) <? 1) || (QUIET_FRAME_BYTES <? zlen (qu_unit q)) || negb (qu_generation q =? qc_generation c)
         || negb (bool_decide (qc_epoch c = Some epoch)) || negb (has_quiet c) || negb (is_some (qc_receiver c))
      then mthrow "Quiet is not armed"
      else
        mmodify (set qc_metrics (set qm_playbackHighWaterBytes (fun b => Z.max b (zlen (qu_unit q)))));;
        begin_transmission (mkTransmission (Some (qu_id q)) (qu_generation q) (Some epoch) nowMs None)
          (replicate (qc_acousticRepetition c) (qu_unit q))
  | None => mthrow "Quiet is not armed"
  end.

(** [sendUnit(unit, epoch)], which copies the unit. *)
Definition sendUnit (u : bytes) (epoch : option Z) : QC unit :=
  let! c := mget in
  let epoch := match epoch with Some e => Some e | None => qc_epoch c end in
  mmodify (set qc_queue (fun l => l ++ [mkQueued (qc_nextUnit c) (qc_queueGeneration c) u epoch (qc_generation c)]));;
  qc_nextUnit <== qc_nextUnit c + 1.

(** The reaction of the queue's head to the settling of the one before it. *)
Definition queue_turn (nowMs : double) : QC unit :=
  let! c := mget in
  match qc_running c, qc_queue c with
  | None, q :: _ =>
      if negb (qu_queueGeneration q =? qc_queueGeneration c) then unit_settled (qu_id q) false
      else mtry (let! t := transmitUnitNow q nowMs in qc_running <== Some t) (fun _ => unit_settled (qu_id q) false)
  | _, _ => mskip
  end.

(** ** The corpus *)

Definition corpus_job (id : nat) (c : QuietClient) : CorpusJob :=
  default (mkCorpusJob RoleA 0 0 [] 0 CwPayload) (map_get id (qc_corpus c)).

Definition corpus_wait (id : nat) (index : nat) (w : CorpusWait) : QC unit :=
  mmodify (set qc_corpus (map (fun p => if (p.1 =? id)%nat
    then (p.1, mkCorpusJob (cj_role p.2) (cj_epoch p.2) (cj_generation p.2) (cj_entries p.2) index w) else p))).

Definition corpus_ended (id : nat) (r : result unit) : QC unit :=
  mmodify (set qc_corpus (map_delete id));; mmodify (set qc_sent (fun l => l ++ [(id, r)])).

(** A stretch of the body: what it throws rejects the promise. *)
Definition in_corpus (id : nat) (m : QC unit) : QC unit := mtry m (fun e => corpus_ended id (Throw e)).

(** The head of the loop, at an index. *)
Definition corpus_next (id : nat) (index : nat) : QC unit :=
  let! c := mget in
  let j := corpus_job id c in
  if (length (cj_entries j) <=? index)%nat then corpus_ended id (Ok tt)
  else if negb (cj_generation j =? qc_generation c) || negb (bool_decide (qc_epoch c = Some (cj_epoch j)))
  then mthrow "Quiet transmission cancelled by reset"
  else corpus_wait id index CwPayload.

Definition sendCorpus (role : Role) (epoch : Z) (limit : option Z) : QC (result nat) :=
  let! c := mget in
  if negb (is_some (qc_receiver c)) || negb (bool_decide (qc_epoch c = Some epoch))
     || negb (bool_decide (qc_localRole c = Some role)) || negb (has_quiet c)
  then mret (Throw "Quiet is not armed"%string)
  else if match limit with Some l => (l <? 1) || (25 <? l) | None => false end
  then mret (Throw "Quiet corpus limit is invalid"%string)
  else
    let matching := cases_of (directionForRole role) in
    let entries := match limit with Some l => take (Z.to_nat l) matching | None => matching end in
    let! id := qc_fresh in
    mmodify (set qc_corpus (fun l => l ++ [(id, mkCorpusJob role epoch (qc_generation c) entries 0 CwPayload)]));;
    in_corpus id (corpus_next id 0);;
    mret (Ok id).

Fixpoint encode_all (fragments : list QuietFragment) : result (list bytes) :=
  match fragments with
  | [] => Ok []
  | f :: rest => let? frame := encodeFragment f in let? frames := encode_all rest in Ok (frame :: frames)
  end.

(** After [await corpusPayload(..)]. *)
Definition corpus_payload (id : nat) : QC unit :=
  in_corpus id (
    let! c := mget in
    let j := corpus_job id c in
    match cj_wait j, cj_entries j !! cj_index j with
    | CwPayload, Some entry =>
        let! payload := mlift (corpusPayload entry (payload_index entry (Z.of_nat (cj_index j)))) in
        corpus_wait id (cj_index j) (CwDigest payload)
    | _, _ => mskip
    end).

(** After [await sha256(payload)]. *)
Definition corpus_digest (id : nat) (nowMs : double) : QC unit :=
  in_corpus id (
    let! c := mget in
    let j := corpus_job id c in
    match cj_wait j, cj_entries j !! cj_index j with
    | CwDigest payload, Some entry =>
        if negb (bool_decide (sha256_hex payload = js (cm_sha256 entry))) then mthrow "committed corpus digest mismatch"
        else
          let fragments := fragmentCase (cj_epoch j) (cj_role j) (Z.of_nat (cj_index j)) entry payload in
          let! frames := mlift (encode_all fragments) in
          let bytes := fold_right Z.add 0 (map zlen frames) in
          mmodify (set qc_metrics (set qm_playbackHighWaterBytes (fun b => Z.max b bytes)));;
          let! t := begin_transmission (mkTransmission None (cj_generation j) None nowMs None) frames in
          corpus_wait id (cj_index j) (CwTransmission t)
    | _, _ => mskip
    end).

(** After the transmission. *)
Definition corpus_transmitted (id : nat) : QC unit :=
  in_corpus id (
    let! c := mget in
    let j := corpus_job id c in
    match cj_wait j, cj_entries j !! cj_index j with
    | CwTransmission t, Some entry =>
        match tx_settled (transmission t c) with
        | Some true =>
            qc_call (CallProgress entry (Z.of_nat (cj_index j) + 1) (zlen (cj_entries j)));;
            corpus_next id (S (cj_index j))
        | Some false => mthrow "Quiet transmission cancelled by reset"
        | None => mskip
        end
    | _, _ => mskip
    end).

(** ** Reset *)

(** [reset], to the await of [closeAudioContexts]. *)
Definition reset_begin : QC unit :=
  mmodify (set qc_generation (Z.add 1));;
  mmodify (set qc_queueGeneration (Z.add 1));;
  let! c := mget in
  when_client (qc_cancelTransmission c) (fun t => finish t false);;
  qc_cancelTransmission <== None;;
  when_client (qc_transmitter c) (fun t => qc_call (CallDestroy t));;
  when_client (qc_receiver c) (fun r => qc_call (CallDestroyReceiver r));;
  qc_transmitter <== None;;
  qc_receiver <== None;;
  when_client (qc_track c) (fun t => qc_call (CallStopTrack t));;
  qc_track <== None;;
  qc_applied <== None;;
  qc_contextSampleRate <== VUndefined;;
  qc_acousticRepetition <== 1%nat;;
  qc_acousticGuardMs <== QUIET_GUARD_MS;;
  qc_metrics <== zero_metrics;;
  mmodify (set qc_calls (fun l => l ++ map (fun p => CallCloseContext p.1) (List.filter (fun p => negb p.2) (qc_contexts c)))).

(** After it. *)
Definition reset_end (nowMs : double) : QC unit :=
  let! c := mget in
  qc_contexts <== [];;
  when_client (qc_runtime c) (fun frame => qc_call (CallRemoveFrame frame));;
  qc_runtime <== None;;
  qc_epoch <== None;;
  qc_localRole <== None;;
  on_evidence (receiver_reset (mkReceiverSession 0 RoleA nowMs) nowMs);;
  mskip.

(** ** Arming *)

Definition arm_job (id : nat) (c : QuietClient) : QuietArm :=
  default (mkQuietArm 0 RoleA 0 QwReset) (map_get id (qc_arms c)).

Definition qa_set (id : nat) (f : QuietArm -> QuietArm) : QC unit :=
  mmodify (set qc_arms (map (fun p => if (p.1 =? id)%nat then (p.1, f p.2) else p))).

Definition arm_wait (id : nat) (w : QuietArmWait) : QC unit :=
  qa_set id (fun j => mkQuietArm (qa_epoch j) (qa_role j) (qa_generation j) w).

Definition quiet_armed (id : nat) (r : result AppliedQuietSettings) : QC unit :=
  mmodify (set qc_arms (map_delete id));; mmodify (set qc_armed (fun l => l ++ [(id, r)])).

Definition in_arm (id : nat) (m : QC unit) : QC unit := mtry m (fun e => quiet_armed id (Throw e)).

(** [arm], to the await of its reset. *)
Definition quiet_arm (epoch : Z) (role : Role) : QC nat :=
  let! id := qc_fresh in
  mmodify (set qc_arms (fun l => l ++ [(id, mkQuietArm epoch role 0 QwReset)]));;
  reset_begin;;
  mret id.

(** After [await this.reset()]. *)
Definition quiet_reset (id : nat) (nowMs : double) : QC unit :=
  reset_end nowMs;;
  let! c := mget in
  let j := arm_job id c in
  qc_epoch <== Some (qa_epoch j);;
  qc_localRole <== Some (qa_role j);;
  on_evidence (receiver_reset (mkReceiverSession (qa_epoch j) (qa_role j) nowMs) nowMs);;
  let! frame := qc_fresh in
  qc_call (CallFrame frame);;
  qa_set id (fun j => mkQuietArm (qa_epoch j) (qa_role j) (qc_generation c) (QwLoaded frame)).

(** After the frame has loaded. *)
Definition quiet_loaded (id : nat) (hasWindow hasAudioContext : bool) : QC unit :=
  in_arm id (
    let! c := mget in
    match qa_wait (arm_job id c) with
    | QwLoaded frame =>
        if negb hasWindow then mthrow "Quiet runtime realm is unavailable"
        else
          qc_runtime <== Some frame;;
          if negb hasAudioContext then mthrow "Quiet AudioContext is unavailable" else arm_wait id (QwQuiet frame)
    | _ => mskip
    end).

(** After [quiet.js]. *)
Definition quiet_script (id : nat) (r : result unit) (present : bool) : QC unit :=
  in_arm id (
    mlift r;;
    let! c := mget in
    match qa_wait (arm_job id c) with
    | QwQuiet frame =>
        if negb present then mthrow "verified Quiet runtime did not load"
        else mmodify (set qc_quiet (cons frame));; arm_wait id QwLibfec
    | _ => mskip
    end).

(** After [libfec.js], [quiet-emscripten.js] and the initialisation. *)
Definition quiet_libfec (id : nat) (r : result unit) : QC unit := in_arm id (mlift r;; arm_wait id QwEmscripten).
Definition quiet_emscripten (id : nat) (r : result unit) : QC unit := in_arm id (mlift r;; arm_wait id QwReady).

Definition quiet_ready (id : nat) (r : result unit) : QC unit :=
  in_arm id (
    mlift r;;
    let! c := mget in
    let j := arm_job id c in
    let! receiver := qc_fresh in
    qc_receiver <== Some receiver;;
    qc_call (CallReceive receiver);;
    mmodify (set qc_receivers (fun l => l ++ [(receiver, mkOwner (qa_generation j) (qa_epoch j) (qa_role j))]));;
    arm_wait id QwReceiver).

(** What the browser says of the track and the first context. *)
Record TrackSettings := mkTrackSettings {
  ts_label : jsstring; ts_sampleRate : value; ts_channelCount : value; ts_echoCancellation : value;
  ts_noiseSuppression : value; ts_autoGainControl : value; ts_contextState : value; ts_contextRate : value }.

Definition flag (v : value) : value := match v with VBool _ => v | _ => VUndefined end.

(** The settings, read from the track and the context there are. *)
Definition applied_settings (c : QuietClient) (ts : TrackSettings) : AppliedQuietSettings :=
  let of_track v := if is_some (qc_track c) then v else VUndefined in
  let of_context v := match qc_contexts c with [] => VUndefined | _ => v end in
  mkApplied (if is_some (qc_track c) && negb (bool_decide (ts_label ts = [])) then ts_label ts else js "Unavailable")
    (of_context (ts_contextState ts)) (qc_contextSampleRate c) (of_track (ts_sampleRate ts)) (of_context (ts_contextRate ts))
    (of_track (ts_channelCount ts)) 1 (of_track (flag (ts_echoCancellation ts))) (of_track (flag (ts_noiseSuppression ts)))
    (of_track (flag (ts_autoGainControl ts))).

(** After the receiver was created. *)
Definition quiet_received (id : nat) (r : result unit) (ts : TrackSettings) : QC unit :=
  in_arm id (
    mlift r;;
    let! c := mget in
    let applied := applied_settings c ts in
    qc_applied <== Some applied;;
    if compatible applied then quiet_armed id (Ok applied) else reset_begin;; arm_wait id QwIncompatible).

(** After the reset of settings that do not do. *)
Definition quiet_incompatible (id : nat) (nowMs : double) : QC unit :=
  reset_end nowMs;; quiet_armed id (Throw "Quiet applied microphone settings are incompatible"%string).

(** ** What is heard *)

(** [onReceive] of a receiver. *)
Definition frame_heard (receiver : nat) (raw : bytes) (nowMs : double) : QC unit :=
  let! c := mget in
  match map_get receiver (qc_receivers c) with
  | None => mskip
  | Some o =>
      (if (ro_generation o =? qc_generation c) && bool_decide (qc_epoch c = Some (ro_epoch o)) && qc_unitHandler c
       then qc_call (CallUnit raw) else mskip);;
      on_evidence (accept raw nowMs);;
      let! c' := mget in
      if (length (qv_jobs (qc_evidence c)) <? length (qv_jobs (qc_evidence c')))%nat
      then mmodify (set qc_digests (fun l => l ++ [receiver])) else mskip
  end.

(** Evidence of another generation or peer is dropped. *)
Definition evidence_current (o : ReceiverOwner) (c : QuietClient) (e : ReceiveCaseEvidence) : bool :=
  (ro_generation o =? qc_generation c) && bool_decide (qc_epoch c = Some (re_epoch e))
  && bool_decide (re_sender e = peerRole (ro_role o)) && bool_decide (re_direction e = receiveDirectionForRole (ro_role o)).

Definition evidence_digested (k : nat) : QC unit :=
  let! c := mget in
  let! evidence := on_evidence (digested k) in
  qc_digests <== delete k (qc_digests c);;
  match evidence, qc_digests c !! k ≫= (fun r => map_get r (qc_receivers c)) with
  | Some e, Some o => if evidence_current o c e then qc_call (CallEvidence e) else mskip
  | _, _ => mskip
  end.

(** [get metrics()] *)
Record ClientMetrics := mkClientMetrics {
  cm_captureHighWaterBytes : Z; cm_captureHighWaterMs : double; cm_playbackHighWaterBytes : Z; cm_playbackHighWaterMs : double;
  cm_discontinuities : Z }.

Definition client_metrics (c : QuietClient) : ClientMetrics :=
  let capture := qv_metrics (qc_evidence c) in
  mkClientMetrics (rm_captureHighWaterBytes capture) (rm_captureHighWaterMs capture) (qm_playbackHighWaterBytes (qc_metrics c))
    (qm_playbackHighWaterMs (qc_metrics c)) (qm_discontinuities (qc_metrics c) + rm_discontinuities capture).

(** ** Events *)

Inductive ClientEvent :=
  | CandidateSet (playbackGain : double) (repetition guardMs : Z)
  | HandlerChanged (present : bool)
  | QuietArmed (epoch : Z) (role : Role)
  | ArmReset (id : nat) (nowMs : double)
  | FrameLoaded (id : nat) (hasWindow hasAudioContext : bool)
  | QuietLoaded (id : nat) (r : result unit) (present : bool)
  | LibfecLoaded (id : nat) (r : result unit)
  | EmscriptenLoaded (id : nat) (r : result unit)
  | QuietReady (id : nat) (r : result unit)
  | ReceiverCreated (id : nat) (r : result unit) (ts : TrackSettings)
  | IncompatibleReset (id : nat) (nowMs : double)
  | TrackGiven
  | ContextMade (sampleRate : value)
  | ContextClosed (context : nat)
  | UnitSent (u : bytes) (epoch : option Z)
  | QueueTurn (nowMs : double)
  | TransmissionFinished (t : nat) (nowMs : double)
  | GuardElapsed (t : nat)
  | CorpusSent (role : Role) (epoch : Z) (limit : option Z)
  | CorpusPayload (id : nat)
  | CorpusDigest (id : nat) (nowMs : double)
  | CorpusTransmitted (id : nat)
  | FrameHeard (receiver : nat) (raw : bytes) (nowMs : double)
  | EvidenceDigested (k : nat)
  | ReceiveFailed
  | FlushCalled (nowMs : double)
  | ClientReset
  | ClientResetEnd (nowMs : double).

(** A promise wakes the arm that awaits it. *)
Definition arm_awaits (id : nat) (expected : QuietArmWait -> bool) (m : QC unit) : QC unit :=
  let! c := mget in
  match map_get id (qc_arms c) with Some j => if expected (qa_wait j) then m else mskip | None => mskip end.

Definition client_handler (e : ClientEvent) : QC unit :=
  match e with
  | CandidateSet gain repetition guardMs => mtry (configureAcousticCandidate gain repetition guardMs) (fun _ => mskip)
  | HandlerChanged present => qc_unitHandler <== present
  | QuietArmed epoch role => quiet_arm epoch role;; mskip
  | ArmReset id now => arm_awaits id (fun w => match w with QwReset => true | _ => false end) (quiet_reset id now)
  | FrameLoaded id w a => arm_awaits id (fun w => match w with QwLoaded _ => true | _ => false end) (quiet_loaded id w a)
  | QuietLoaded id r present => arm_awaits id (fun w => match w with QwQuiet _ => true | _ => false end) (quiet_script id r present)
  | LibfecLoaded id r => arm_awaits id (fun w => match w with QwLibfec => true | _ => false end) (quiet_libfec id r)
  | EmscriptenLoaded id r => arm_awaits id (fun w => match w with QwEmscripten => true | _ => false end) (quiet_emscripten id r)
  | QuietReady id r => arm_awaits id (fun w => match w with QwReady => true | _ => false end) (quiet_ready id r)
  | ReceiverCreated id r ts => arm_awaits id (fun w => match w with QwReceiver => true | _ => false end) (quiet_received id r ts)
  | IncompatibleReset id now => arm_awaits id (fun w => match w with QwIncompatible => true | _ => false end) (quiet_incompatible id now)
  | TrackGiven => let! t := qc_fresh in qc_call (CallTrack t);; qc_track <== Some t
  | ContextMade rate =>
      let! x := qc_fresh in
      qc_call (CallContext x);; mmodify (set qc_contexts (fun l => l ++ [(x, false)]));; qc_contextSampleRate <== rate
  | ContextClosed x => mmodify (set qc_contexts (map (fun p => if (p.1 =? x)%nat then (p.1, true) else p)))
  | UnitSent u epoch => sendUnit u epoch
  | QueueTurn now => queue_turn now
  | TransmissionFinished t now => transmission_finished t now
  | GuardElapsed t => guard_elapsed t
  | CorpusSent role epoch limit => sendCorpus role epoch limit;; mskip
  | CorpusPayload id => corpus_payload id
  | CorpusDigest id now => corpus_digest id now
  | CorpusTransmitted id => corpus_transmitted id
  | FrameHeard receiver raw now => frame_heard receiver raw now
  | EvidenceDigested k => evidence_digested k
  | ReceiveFailed => mmodify (set qc_metrics (set qm_discontinuities (Z.add 1)))
  | FlushCalled now => on_evidence (flush now);; mskip
  | ClientReset => reset_begin;; mmodify (set qc_resets S)
  | ClientResetEnd now =>
      let! c := mget in
      match qc_resets c with O => mskip | S k => qc_resets <== k;; reset_end now end
  end.

Definition client_step (e : ClientEvent) (c : QuietClient) : QuietClient := final (client_handler e) c.

Definition client_run (events : list ClientEvent) (c : QuietClient) : QuietClient := fold_left (fun c e => client_step e c) events c.
