(* ===== verification/QuietClientProps.v ===== *)
(** * Units take turns

    While no corpus is sent, the units given to [sendUnit] are transmitted one at a
    time and their promises settle in the order they were made, each once; a reset
    rejects every one that is pending, and the queue then empties without another
    transmission.  Sending the corpus does not go through the queue: an example
    shows what becomes of a unit it overtakes. *)

From stdpp Require Import base list numbers option strings.
From Stdlib Require Import ZArith Lia SpecFloat.
From S2P Require Import Prelude Utf8 Doubles Json Fwav Corpus Qualification QuietProtocol QuietReceiver QuietClient.

#[local] Opaque wp.

(** The fields the queue and the transmissions live in. *)
Definition unit_view (c : QuietClient) :=
  (qc_queue c, qc_running c, qc_nextUnit c, qc_transmissions c, qc_units c, qc_cancelTransmission c, qc_corpus c).

Definition still (c c' : QuietClient) : Prop :=
  unit_view c' = unit_view c /\ (qc_next c <= qc_next c')%nat /\ qc_queueGeneration c <= qc_queueGeneration c'.

#[local] Instance still_refl : Reflexive still.
Proof. intros c. split; [done|lia]. Qed.
#[local] Instance still_trans : Transitive still.
Proof. intros x y z (H1 & H2 & H3) (H4 & H5 & H6). split; [congruence|lia]. Qed.

Abbreviation quietly := (moves still).

(** An assignment to other fields. *)
Ltac aside := let c := fresh "c" in apply moves_modify; intros c; split; [reflexivity|split; [exact (Nat.le_refl (qc_next c))|exact (Z.le_refl (qc_queueGeneration c))]].

Lemma quiet_call x : quietly (qc_call x).
Proof. aside. Qed.

Lemma quiet_fresh : quietly qc_fresh.
Proof.
  intros c. apply wp_bind, wp_get, wp_bind, wp_modify, wp_ret. split; [reflexivity|].
  change ((qc_next c <= S (qc_next c))%nat /\ qc_queueGeneration c <= qc_queueGeneration c). lia.
Qed.

Lemma quiet_client {A} (o : option A) f : (forall x, quietly (f x)) -> quietly (when_client o f).
Proof. intros H. destruct o as [x|]; [apply H|]. apply moves_ret; exact _. Qed.

Lemma quiet_evidence {A} (m : M QuietReceiverEvidence A) : quietly (on_evidence m).
Proof. intros c. apply wp_run. split; [reflexivity|]. change ((qc_next c <= qc_next c)%nat /\ qc_queueGeneration c <= qc_queueGeneration c). lia. Qed.

(** ** The invariant *)

Record units_ok (c : QuietClient) : Prop := {
  uo_promises : (qc_units c).*1 ++ map qu_id (qc_queue c) = indices (qc_nextUnit c) /\ 0 <= qc_nextUnit c;
  uo_objects : NoDup (qc_transmissions c).*1 /\ forall t, t ∈ (qc_transmissions c).*1 -> (t < qc_next c)%nat;
  uo_open : forall t tx, (t, tx) ∈ qc_transmissions c -> tx_settled tx = None -> qc_running c = Some t;
  uo_running : qc_cancelTransmission c = qc_running c
    /\ forall t, qc_running c = Some t -> exists q rest tx, qc_queue c = q :: rest
         /\ map_get t (qc_transmissions c) = Some tx /\ tx_unit tx = Some (qu_id q) /\ tx_settled tx = None;
  uo_order : omap tx_unit (qc_transmissions c).*2
               `sublist_of` indices (zlen (qc_units c) + if is_some (qc_running c) then 1 else 0);
  uo_corpus : qc_corpus c = [];
  uo_generations : forall q, q ∈ qc_queue c -> qu_queueGeneration q <= qc_queueGeneration c }.

Lemma units_ok_still c c' : still c c' -> units_ok c -> units_ok c'.
Proof.
  intros (E & Hn & Hg) [H1 [H2 H2'] H3 H4 H5 H6 H7]. unfold unit_view in E. injection E as E1 E2 E3 E4 E5 E6 E7.
  split; rewrite ?E1, ?E2, ?E3, ?E4, ?E5, ?E6, ?E7; try done.
  - split; [done|]. intros t Ht. apply H2' in Ht. lia.
  - intros q Hq. apply H7 in Hq. lia.
Qed.

Definition onward (c c' : QuietClient) : Prop := units_ok c -> units_ok c'.

#[local] Instance onward_refl : Reflexive onward.
Proof. intros c H. exact H. Qed.
#[local] Instance onward_trans : Transitive onward.
Proof. intros x y z H1 H2 H. exact (H2 (H1 H)). Qed.

Abbreviation safely := (moves onward).

Lemma safely_still {A} (m : M QuietClient A) : quietly m -> safely m.
Proof. intros H c. eapply wp_mono; [apply H|]. intros r c' Hc' Hc. exact (units_ok_still _ _ Hc' Hc). Qed.

Lemma indices_snoc n : 0 <= n -> indices (n + 1) = indices n ++ [n].
Proof. intros H. unfold indices. rewrite Z2Nat.inj_add, Nat.add_1_r, seq_S, map_app by lia. cbn. by rewrite Z2Nat.id. Qed.

Lemma head_id c q rest : units_ok c -> qc_queue c = q :: rest -> qu_id q = zlen (qc_units c) /\ qu_id q < qc_nextUnit c /\ zlen (qc_units c) + zlen (q :: rest) = qc_nextUnit c.
Proof.
  intros [[H1 H1'] _ _ _ _ _ _] Hq. rewrite Hq in H1. cbn [map] in H1.
  assert (Hl : indices (qc_nextUnit c) !! length (qc_units c) = Some (qu_id q)).
  { rewrite <- H1. apply list_lookup_middle. by rewrite length_fmap. }
  pose proof (f_equal length H1) as L. rewrite length_app, length_fmap in L. cbn [length] in L. rewrite length_map in L.
  unfold indices in Hl, L. rewrite length_map, length_seq in L. rewrite list_lookup_fmap in Hl.
  apply fmap_Some in Hl as (k & Hk & ->). apply lookup_seq in Hk as [-> Hk]. unfold zlen. cbn [length]. lia.
Qed.

(** The head's promise is settled: what is left of the queue. *)
Lemma dequeued c q rest :
  units_ok c -> qc_queue c = q :: rest -> List.filter (fun q' => negb (qu_id q' =? qu_id q)) (q :: rest) = rest.
Proof.
  intros [[H1 _] _ _ _ _ _ _] Hq. assert (Hnd : NoDup (map qu_id (q :: rest))).
  { rewrite <- Hq. assert (K : NoDup (indices (qc_nextUnit c))) by apply NoDup_map_of_nat.
    rewrite <- H1 in K. by apply NoDup_app in K as (_ & _ & K). }
  cbn [map] in Hnd. apply NoDup_cons in Hnd as [Hn _]. cbn. rewrite Z.eqb_refl. cbn [negb].
  revert Hn. clear. induction rest as [|q' rest IH]; [done|]. cbn [map]. intros [H1 H2]%not_elem_of_cons. cbn.
  rewrite (proj2 (Z.eqb_neq _ _)) by congruence. cbn. by rewrite IH.
Qed.

(** The state once the head's promise has settled. *)
Lemma settled_ok c c' q rest kept txs :
  units_ok c -> qc_queue c = q :: rest -> (qc_next c <= qc_next c')%nat ->
  qc_queueGeneration c <= qc_queueGeneration c' ->
  unit_view c' = (rest, None, qc_nextUnit c, txs, qc_units c ++ [(qu_id q, kept)], None, qc_corpus c) ->
  txs.*1 = (qc_transmissions c).*1 -> omap tx_unit txs.*2 = omap tx_unit (qc_transmissions c).*2 ->
  (forall t tx, (t, tx) ∈ txs -> tx_settled tx <> None) -> units_ok c'.
Proof.
  intros Hc Hq Hn Hg E Hkeys Hunits Hset. destruct (head_id c q rest Hc Hq) as (Hid & _ & _). destruct Hc as [[H1 H1'] [H2 H2'] _ _ H5 H6 H7].
  unfold unit_view in E. injection E as E1 E2 E3 E4 E5 E6 E7. split; rewrite ?E1, ?E2, ?E3, ?E4, ?E5, ?E6, ?E7.
  - split; [|done]. rewrite fmap_app, <- app_assoc. cbn. by rewrite <- H1, Hq.
  - rewrite Hkeys. split; [done|]. intros t Ht. apply H2' in Ht. lia.
  - intros t tx Hin Ho. by apply Hset in Hin.
  - by split.
  - rewrite Hunits. cbn [is_some]. replace (zlen (qc_units c ++ _) + 0) with (zlen (qc_units c) + 1) by (unfold zlen; rewrite length_app; cbn; lia).
    etransitivity; [exact H5|]. destruct (is_some (qc_running c)); [done|]. rewrite Z.add_0_r, indices_snoc by (unfold zlen; lia).
    by apply sublist_inserts_r.
  - done.
  - intros q' Hq'. assert (Hin : q' ∈ qc_queue c) by (rewrite Hq; apply elem_of_cons; by right). apply H7 in Hin. lia.
Qed.

(** ** Settling *)

Lemma unit_view_inv c queue running nextUnit txs units cancel corpus :
  unit_view c = (queue, running, nextUnit, txs, units, cancel, corpus) ->
  qc_queue c = queue /\ qc_running c = running /\ qc_nextUnit c = nextUnit /\ qc_transmissions c = txs /\ qc_units c = units
  /\ qc_cancelTransmission c = cancel /\ qc_corpus c = corpus.
Proof. unfold unit_view. intros [= -> -> -> -> -> -> ->]. done. Qed.

Lemma omap_map_set t tx tx' (m : list (nat * Transmission)) :
  map_get t m = Some tx -> tx_unit tx' = tx_unit tx -> omap tx_unit (map_set t tx' m).*2 = omap tx_unit m.*2.
Proof.
  intros H E. induction m as [|[t0 tx0] m IH]; [done|]. cbn [map_get map_set] in *. destruct (decide (t = t0)) as [->|].
  - injection H as ->. cbn. by rewrite E.
  - cbn. by rewrite IH.
Qed.

(** The state in which the head's promise has settled. *)
Record settled_from (kept : bool) (c c' : QuietClient) : Prop := {
  sf_ok : units_ok c';
  sf_queue : exists q, qc_queue c = q :: qc_queue c' /\ qc_units c' = qc_units c ++ [(qu_id q, kept)];
  sf_running : qc_running c' = None;
  sf_keys : (qc_transmissions c').*1 = (qc_transmissions c).*1;
  sf_rest : qc_queueGeneration c' = qc_queueGeneration c /\ qc_calls c' = qc_calls c /\ (qc_next c <= qc_next c')%nat }.

Lemma wp_finish_running t kept c :
  units_ok c -> qc_running c = Some t -> wp (finish t kept) (fun r c' => r = Ok tt /\ settled_from kept c c') c.
Proof.
  intros Hc Ht. pose proof Hc as [_ [H2 H2'] H3 [Hcancel Hrun] H5 H6 _].
  destruct (Hrun t Ht) as (q & rest & tx & Hq & Hget & Hunit & Hopen).
  unfold finish. apply wp_bind, wp_get. unfold transmission. rewrite Hget. cbn [default from_option id]. rewrite Hopen. cbn [is_some].
  do 2 apply wp_bind, wp_modify. rewrite Hunit. cbn [when_client]. unfold unit_settled. do 2 apply wp_bind, wp_modify. apply wp_modify.
  split; [done|]. set (c' := set qc_running _ _).
  assert (E : unit_view c' = (rest, None, qc_nextUnit c, map_set t (set tx_settled (fun _ => Some kept) tx) (qc_transmissions c),
     qc_units c ++ [(qu_id q, kept)], None, qc_corpus c)).
  { unfold unit_view. rewrite <- (dequeued c q rest Hc Hq), <- Hq. done. }
  assert (Hhas : map_has t (qc_transmissions c) = true) by (apply map_has_get; eauto).
  assert (Hkeys : (qc_transmissions c').*1 = (qc_transmissions c).*1) by (apply map_set_old; exact Hhas).
  split; try done.
  - apply (settled_ok c c' q rest kept (map_set t (set tx_settled (fun _ => Some kept) tx) (qc_transmissions c))); try done.
    + by apply (omap_map_set _ tx).
    + intros t' tx' Hin. apply map_get_In in Hin; [|by rewrite map_set_old]. rewrite map_get_set in Hin.
      destruct (decide (t' = t)) as [->|Hne]; [by injection Hin as <-|]. apply map_get_elem in Hin. intros Ho.
      apply Hne. apply H3 in Hin; [|done]. congruence.
  - exists q. apply unit_view_inv in E as (E1 & _ & _ & _ & E5 & _). by rewrite E1.
Qed.

Lemma wp_finish_other t kept c :
  units_ok c -> qc_running c <> Some t -> wp (finish t kept) (fun r c' => r = Ok tt /\ c' = c) c.
Proof.
  intros [_ _ H3 _ _ _ _] Ht. unfold finish. apply wp_bind, wp_get. unfold transmission.
  destruct (map_get t (qc_transmissions c)) as [tx|] eqn:E; cbn [default from_option id]; [|by apply wp_ret].
  destruct (tx_settled tx) as [k|] eqn:Es; cbn [is_some]; [by apply wp_ret|]. destruct Ht. apply (H3 t tx); [by apply map_get_elem|done].
Qed.

Lemma safely_finish t kept : safely (finish t kept).
Proof.
  intros c. apply wp_run. intros Hc. destruct (decide (qc_running c = Some t)) as [Ht|Ht].
  - apply (wp_elim _ _ _ (wp_finish_running t kept c Hc Ht)).
  - destruct (wp_elim _ _ _ (wp_finish_other t kept c Hc Ht)) as [_ ->]. exact Hc.
Qed.

(** ** The queue *)

(** The head's promise is rejected before a transmission. *)
Lemma wp_rejected c q rest kept :
  units_ok c -> qc_running c = None -> qc_queue c = q :: rest ->
  wp (unit_settled (qu_id q) kept) (fun r c' => r = Ok tt /\ settled_from kept c c') c.
Proof.
  intros Hc Hrun Hq. unfold unit_settled. do 2 apply wp_bind, wp_modify. apply wp_modify. split; [done|]. set (c' := set qc_running _ _).
  assert (E : unit_view c' = (rest, None, qc_nextUnit c, qc_transmissions c, qc_units c ++ [(qu_id q, kept)], None, qc_corpus c)).
  { change ((List.filter (fun q' => negb (qu_id q' =? qu_id q)) (qc_queue c), @None nat, qc_nextUnit c, qc_transmissions c,
      qc_units c ++ [(qu_id q, kept)], qc_cancelTransmission c, qc_corpus c)
      = (rest, None, qc_nextUnit c, qc_transmissions c, qc_units c ++ [(qu_id q, kept)], None, qc_corpus c)).
    by rewrite Hq, (dequeued c q rest Hc Hq), (proj1 (uo_running c Hc)), Hrun. }
  split; try done.
  - apply (settled_ok c c' q rest kept (qc_transmissions c)); try done. intros t tx Hin Ho. apply (uo_open c Hc) in Hin; [|done]. congruence.
  - exists q. apply unit_view_inv in E as (E1 & _ & _ & _ & E5 & _). by rewrite E1.
Qed.

Lemma safely_send u epoch : safely (sendUnit u epoch).
Proof.
  unfold sendUnit. intros c. apply wp_bind, wp_get. cbv zeta. apply wp_bind, wp_modify, wp_modify.
  intros [[H1 H1'] H2 H3 [H4 H4'] H5 H6 H7]. set (c' := set qc_nextUnit _ _). set (q := mkQueued _ _ _ _ _) in c'.
  assert (E : unit_view c' = (qc_queue c ++ [q], qc_running c, qc_nextUnit c + 1, qc_transmissions c, qc_units c, qc_cancelTransmission c, qc_corpus c)) by done.
  apply unit_view_inv in E as (E1 & E2 & E3 & E4 & E5 & E6 & E7). split; rewrite ?E1, ?E2, ?E3, ?E4, ?E5, ?E6, ?E7; try done.
  - split; [|lia]. rewrite map_app, app_assoc, H1, indices_snoc by done. done.
  - split; [done|]. intros t Ht. destruct (H4' t Ht) as (q0 & rest & tx & Hq & Hrest). exists q0, (rest ++ [q]), tx. by rewrite Hq.
  - intros q0 [Hq0| ->%list_elem_of_singleton]%elem_of_app; [by apply H7|]. apply Z.le_refl.
Qed.

(** A unit is handed to the modem. *)
Lemma wp_transmit c q rest nowMs :
  units_ok c -> qc_running c = None -> qc_queue c = q :: rest ->
  wp (transmitUnitNow q nowMs) (fun r c' => match r with
     | Throw _ => c' = c
     | Ok t => qc_queueGeneration c' = qc_queueGeneration c /\ units_ok (set qc_running (fun _ => Some t) c') end) c.
Proof.
  intros Hc Hrun Hq. destruct (head_id c q rest Hc Hq) as (Hid & _). unfold transmitUnitNow. apply wp_bind, wp_get.
  destruct (qu_epoch q) as [epoch|]; [|by apply wp_throw]. destruct (_ || _); [by apply wp_throw|].
  apply wp_bind, wp_modify. unfold begin_transmission, qc_fresh. apply wp_bind, wp_bind, wp_get, wp_bind, wp_modify, wp_ret.
  do 2 apply wp_bind, wp_modify. apply wp_bind, wp_get. set (tx := mkTransmission _ _ _ _ _). set (c1 := set qc_cancelTransmission _ _).
  change (qc_next (set qc_metrics _ c)) with (qc_next c) in *. 
  assert (K : forall c', still c1 c' -> qc_queueGeneration c' = qc_queueGeneration c ->
    qc_queueGeneration (set qc_calls (fun l => l ++ map (CallTransmit (qc_next c)) (replicate (qc_acousticRepetition c) (qu_unit q)))
      (set qc_transmitter (fun _ => Some (qc_next c)) c')) = qc_queueGeneration c
    /\ units_ok (set qc_running (fun _ => Some (qc_next c)) (set qc_calls (fun l => l ++ map (CallTransmit (qc_next c)) (replicate (qc_acousticRepetition c) (qu_unit q)))
      (set qc_transmitter (fun _ => Some (qc_next c)) c')))); [|
    destruct (qc_transmitter c1) as [old|]; cbn [when_client];
      [unfold qc_call; apply wp_bind, wp_modify|apply wp_bind, wp_ret]; do 2 apply wp_bind, wp_modify; apply wp_ret; apply K; done].
  intros c' (E & Hn & _) Hgen. split; [done|]. apply unit_view_inv in E as (E1 & E2 & E3 & E4 & E5 & E6 & E7).
  destruct Hc as [H1 [H2 H2'] H3 [H4 H4'] H5 H6 H7].
  change (qc_queue c1) with (qc_queue c) in E1. change (qc_nextUnit c1) with (qc_nextUnit c) in E3.
  change (qc_transmissions c1) with (qc_transmissions c ++ [(qc_next c, tx)]) in E4. change (qc_units c1) with (qc_units c) in E5.
  change (qc_cancelTransmission c1) with (Some (qc_next c)) in E6. change (qc_corpus c1) with (qc_corpus c) in E7.
  change (qc_next c1) with (S (qc_next c)) in Hn.
  assert (Hnew : qc_next c ∉ (qc_transmissions c).*1) by (intros Hin; apply H2' in Hin; lia).
  set (c2 := set qc_running _ _).
  assert (F : unit_view c2 = (qc_queue c, Some (qc_next c), qc_nextUnit c, qc_transmissions c ++ [(qc_next c, tx)], qc_units c,
     Some (qc_next c), qc_corpus c)).
  { transitivity (qc_queue c', Some (qc_next c), qc_nextUnit c', qc_transmissions c', qc_units c', qc_cancelTransmission c', qc_corpus c');
      [reflexivity|by rewrite E1, E3, E4, E5, E6, E7]. }
  apply unit_view_inv in F as (F1 & F2 & F3 & F4 & F5 & F6 & F7).
  assert (Hn2 : (S (qc_next c) <= qc_next c2)%nat) by exact Hn.
  split; rewrite ?F1, ?F2, ?F3, ?F4, ?F5, ?F6, ?F7; try done.
  - rewrite fmap_app. split.
    + apply NoDup_app. split; [done|]. split; [|apply NoDup_singleton]. by intros x Hx ->%list_elem_of_singleton.
    + intros t [Ht%H2'| ->%list_elem_of_singleton]%elem_of_app; cbn; lia.
  - intros t tx' [Hin|Hin%list_elem_of_singleton]%elem_of_app Ho; [|by injection Hin as -> _].
    apply H3 in Hin; [congruence|done].
  - split; [done|]. intros t [= <-]. exists q, rest, tx. split; [done|]. split; [by apply map_get_app_new|done].
  - rewrite fmap_app, omap_app. cbn [is_some]. rewrite indices_snoc by (unfold zlen; lia).
    rewrite Hrun in H5. cbn [is_some] in H5. rewrite Z.add_0_r in H5. apply sublist_app; [done|]. cbn. by rewrite Hid.
  - intros q' Hq'. apply H7 in Hq'. change (qu_queueGeneration q' <= qc_queueGeneration c'). by rewrite Hgen.
Qed.

Lemma safely_turn nowMs : safely (queue_turn nowMs).
Proof.
  intros c. apply wp_run. intros Hc. apply wp_elim with (Q := fun _ c' => units_ok c'). unfold queue_turn. apply wp_bind, wp_get.
  destruct (qc_running c) as [t|] eqn:Hrun; [by apply wp_ret|]. destruct (qc_queue c) as [|q rest] eqn:Hq; [by apply wp_ret|].
  assert (Hrej : wp (unit_settled (qu_id q) false) (fun _ c' => units_ok c') c).
  { eapply wp_mono; [by apply (wp_rejected c q rest)|]. by intros r c' [_ [H _ _ _ _]]. }
  destruct (negb _); [exact Hrej|]. apply wp_try, wp_bind. eapply wp_mono; [by apply (wp_transmit c q rest)|].
  intros [t|e] c' H; [apply wp_modify; exact (proj2 H)|]. by rewrite H.
Qed.

(** What becomes of the promises when every pending unit is rejected. *)
Definition rejected (c : QuietClient) : list (Z * bool) := qc_units c ++ map (fun q => (qu_id q, false)) (qc_queue c).

Lemma settled_rejected c c' : settled_from false c c' -> rejected c' = rejected c.
Proof. intros [_ (q & E1 & E2) _ _ _]. unfold rejected. rewrite E2, E1, <- app_assoc. done. Qed.

(** A queue all of which was made before a reset. *)
Record outdated (c0 c : QuietClient) : Prop := {
  od_ok : units_ok c;
  od_running : qc_running c = None;
  od_generations : forall q, q ∈ qc_queue c -> qu_queueGeneration q < qc_queueGeneration c;
  od_rejected : rejected c = rejected c0;
  od_keys : (qc_transmissions c).*1 = (qc_transmissions c0).*1;
  od_less : (length (qc_queue c) <= length (qc_queue c0))%nat }.

Lemma outdated_turn c0 c nowMs q rest :
  outdated c0 c -> qc_queue c = q :: rest -> outdated c0 (client_step (QueueTurn nowMs) c) /\ qc_queue (client_step (QueueTurn nowMs) c) = rest.
Proof.
  intros [H1 H2 H3 H4 H5 H6] Hq. apply (wp_elim (queue_turn nowMs) (fun _ c' => outdated c0 c' /\ qc_queue c' = rest)).
  unfold queue_turn. apply wp_bind, wp_get. rewrite H2, Hq.
  assert (Hg : qu_queueGeneration q < qc_queueGeneration c) by (apply H3; rewrite Hq; apply elem_of_cons; by left).
  rewrite (proj2 (Z.eqb_neq _ _)) by lia. cbn [negb]. eapply wp_mono; [by apply (wp_rejected c q rest)|].
  intros r c' [_ Hs]. pose proof (settled_rejected _ _ Hs) as Hrej. destruct Hs as [K1 (q' & K2 & _) K3 K4 (K5 & _ & _)].
  rewrite Hq in K2. injection K2 as <- K2. split; [|done].
  split; try congruence; [|rewrite <- K2; rewrite Hq in H6; cbn [length] in H6; lia]. intros q' Hin. rewrite K5. apply H3. rewrite Hq.
  apply elem_of_cons. right. by rewrite K2.
Qed.

Lemma outdated_drained c0 times : forall c, outdated c0 c -> (length (qc_queue c) <= length times)%nat ->
  outdated c0 (client_run (map QueueTurn times) c) /\ qc_queue (client_run (map QueueTurn times) c) = [].
Proof.
  induction times as [|nowMs times IH]; intros c Hc Hl; cbn [map client_run fold_left].
  - destruct (qc_queue c) eqn:E; [done|cbn in Hl; lia].
  - destruct (qc_queue c) as [|q rest] eqn:E.
    + apply IH.
      * replace (client_step (QueueTurn nowMs) c) with c; [done|]. unfold client_step, client_handler, queue_turn, final, mbind, mget. cbn.
        rewrite (od_running _ _ Hc). by rewrite E.
      * replace (client_step (QueueTurn nowMs) c) with c; [rewrite E; cbn; lia|]. unfold client_step, client_handler, queue_turn, final, mbind, mget. cbn.
        rewrite (od_running _ _ Hc). by rewrite E.
    + destruct (outdated_turn c0 c nowMs q rest Hc E) as [H1 H2]. apply IH; [done|]. rewrite H2. cbn in Hl. lia.
Qed.

(** ** Reset *)

Lemma outdated_still c0 c c' : still c c' -> outdated c0 c -> outdated c0 c'.
Proof.
  intros Hs [H1 H2 H3 H4 H5 H6]. pose proof (units_ok_still _ _ Hs H1) as H1'. destruct Hs as (E & Hn & Hg).
  apply unit_view_inv in E as (E1 & E2 & E3 & E4 & E5 & E6 & E7). split; unfold rejected in *; rewrite ?E1, ?E2, ?E4, ?E5; try done.
  intros q Hq. apply H3 in Hq. lia.
Qed.

Lemma wp_reset c : units_ok c -> wp reset_begin (fun _ c' => outdated c c') c.
Proof.
  intros Hc. unfold reset_begin. do 2 apply wp_bind, wp_modify. apply wp_bind, wp_get. set (c1 := set qc_queueGeneration _ _).
  assert (Hs : still c c1).
  { split; [reflexivity|]. split; [exact (Nat.le_refl (qc_next c))|]. change (qc_queueGeneration c <= 1 + qc_queueGeneration c). lia. }
  pose proof (units_ok_still _ _ Hs Hc) as Hc1.
  assert (Hold : forall q, q ∈ qc_queue c1 -> qu_queueGeneration q < qc_queueGeneration c1).
  { intros q Hq. change (q ∈ qc_queue c) in Hq. apply (uo_generations c Hc) in Hq.
    change (qu_queueGeneration q < 1 + qc_queueGeneration c). lia. }
  assert (Hrest : forall c2, outdated c c2 -> wp (
      qc_cancelTransmission <== None;;
      when_client (qc_transmitter c1) (fun t => qc_call (CallDestroy t));;
      when_client (qc_receiver c1) (fun r => qc_call (CallDestroyReceiver r));;
      qc_transmitter <== None;; qc_receiver <== None;;
      when_client (qc_track c1) (fun t => qc_call (CallStopTrack t));;
      qc_track <== None;; qc_applied <== None;; qc_contextSampleRate <== VUndefined;; qc_acousticRepetition <== 1%nat;;
      qc_acousticGuardMs <== QUIET_GUARD_MS;; qc_metrics <== zero_metrics;;
      mmodify (set qc_calls (fun l => l ++ map (fun p => CallCloseContext p.1) (List.filter (fun p => negb p.2) (qc_contexts c1)))))
      (fun _ c' => outdated c c') c2).
  { intros c2 H2. apply wp_bind, wp_modify. eapply (wp_moves still).
    - repeat first [moves_step | apply quiet_client; intros ?; apply quiet_call | aside].
    - intros r c' H. eapply outdated_still; [exact H|]. apply (outdated_still _ c2); [|done]. split.
      + pose proof (uo_running c2 (od_ok _ _ H2)) as [Hcancel _]. rewrite (od_running _ _ H2) in Hcancel.
        unfold unit_view. rewrite Hcancel. reflexivity.
      + change ((qc_next c2 <= qc_next c2)%nat /\ qc_queueGeneration c2 <= qc_queueGeneration c2). lia. }
  apply wp_bind. pose proof (uo_running c1 Hc1) as [Hcancel Hrunning]. destruct (qc_running c1) as [t|] eqn:Et; rewrite Hcancel; cbn [when_client].
  - eapply wp_mono; [by apply wp_finish_running|]. intros r c2 [-> Hset]. apply Hrest.
    pose proof (settled_rejected _ _ Hset) as Hrej. destruct Hset as [K1 (q & K2 & _) K3 K4 (K5 & _ & _)]. split; try done; [|change (qc_queue c) with (qc_queue c1); rewrite K2; cbn [length]; lia].
    intros q' Hq'. rewrite K5. apply Hold. rewrite K2. apply elem_of_cons. by right.
  - apply wp_ret, Hrest. by split.
Qed.

Lemma safely_reset : safely reset_begin.
Proof. intros c. apply wp_run. intros Hc. apply (od_ok c). apply (wp_elim _ _ _ (wp_reset c Hc)). Qed.

(** ** Every event but one *)

Definition sends_corpus (e : ClientEvent) : bool := match e with CorpusSent _ _ _ => true | _ => false end.

Ltac quiet_steps :=
  repeat first [moves_step | apply quiet_client; intros ?; apply quiet_call | apply quiet_call | apply quiet_fresh
               | apply quiet_evidence | aside].

Lemma quiet_reset_end nowMs : quietly (reset_end nowMs).
Proof. unfold reset_end. quiet_steps. Qed.

Lemma quiet_arm_end id m : quietly m -> quietly (in_arm id m).
Proof. intros H. unfold in_arm, quiet_armed. repeat first [exact H|moves_step|aside]. Qed.

Lemma safely_awaits id expected m : safely m -> safely (arm_awaits id expected m).
Proof. intros H. unfold arm_awaits. moves_step; [apply moves_get; exact _|]. repeat first [exact H|moves_step]. Qed.

(** Without a corpus its continuations find nothing to go on with. *)
Lemma no_corpus id c : units_ok c -> corpus_job id c = mkCorpusJob RoleA 0 0 [] 0 CwPayload.
Proof. intros Hc. unfold corpus_job. by rewrite (uo_corpus c Hc). Qed.

Lemma safely_no_corpus id c (m : QuietClient -> M QuietClient unit) :
  units_ok c -> m c = mskip -> wp (in_corpus id (let! c := mget in m c)) (fun _ c' => onward c c') c.
Proof. intros Hc E. unfold in_corpus. apply wp_try, wp_bind, wp_get. rewrite E. by apply wp_ret. Qed.

Lemma safely_guard t : safely (guard_elapsed t).
Proof.
  unfold guard_elapsed. moves_step; [apply moves_get; exact _|]. moves_step; [apply moves_ret; exact _|].
  moves_step; [apply safely_still; aside|]. cbv zeta. apply safely_finish.
Qed.

Lemma client_event_ok e : sends_corpus e = false -> safely (client_handler e).
Proof.
  intros He. destruct e; cbn [client_handler]; try discriminate He; try (apply safely_awaits).
  - apply safely_still. unfold configureAcousticCandidate. quiet_steps.
  - apply safely_still. quiet_steps.
  - unfold quiet_arm. repeat first [apply safely_reset | apply safely_still; apply quiet_fresh | moves_step | apply safely_still; aside].
  - apply safely_still. unfold quiet_reset, qa_set. quiet_steps. apply quiet_reset_end.
  - apply safely_still, quiet_arm_end. unfold arm_wait, qa_set. quiet_steps.
  - apply safely_still, quiet_arm_end. unfold arm_wait, qa_set. quiet_steps.
  - apply safely_still, quiet_arm_end. unfold arm_wait, qa_set. quiet_steps.
  - apply safely_still, quiet_arm_end. unfold arm_wait, qa_set. quiet_steps.
  - apply safely_still, quiet_arm_end. unfold arm_wait, qa_set. quiet_steps.
  - unfold quiet_received, in_arm, quiet_armed, arm_wait, qa_set. repeat first [apply safely_reset | moves_step | apply safely_still; aside].
  - apply safely_still. unfold quiet_incompatible, quiet_armed. quiet_steps. apply quiet_reset_end.
  - apply safely_still. quiet_steps.
  - apply safely_still. quiet_steps.
  - apply safely_still. quiet_steps.
  - apply safely_send.
  - apply safely_turn.
  - apply safely_still. unfold transmission_finished. quiet_steps.
  - apply safely_guard.
  - intros c. apply wp_run. intros Hc. revert Hc. apply (wp_elim _ (fun _ c' => units_ok c -> units_ok c')).
    apply wp_run. intros Hc. refine (wp_elim _ _ _ (safely_no_corpus id c _ Hc _) Hc). by rewrite (no_corpus id c Hc).
  - intros c. apply wp_run. intros Hc. refine (wp_elim _ _ _ (safely_no_corpus id c _ Hc _) Hc). by rewrite (no_corpus id c Hc).
  - intros c. apply wp_run. intros Hc. refine (wp_elim _ _ _ (safely_no_corpus id c _ Hc _) Hc). by rewrite (no_corpus id c Hc).
  - apply safely_still. unfold frame_heard. quiet_steps.
  - apply safely_still. unfold evidence_digested. quiet_steps.
  - apply safely_still. quiet_steps.
  - apply safely_still. quiet_steps.
  - repeat first [apply safely_reset | moves_step | apply safely_still; aside].
  - repeat first [moves_step | apply safely_still; aside]. apply safely_still, quiet_reset_end.
Qed.

Lemma client_run_ok events : forall c, units_ok c -> forallb (fun e => negb (sends_corpus e)) events = true -> units_ok (client_run events c).
Proof.
  induction events as [|e events IH]; intros c Hc He; [done|]. cbn [forallb] in He. apply andb_prop in He as [He Hes].
  cbn [client_run fold_left]. apply IH; [|done]. apply negb_true_iff in He.
  exact (wp_elim _ _ _ (client_event_ok e He c) Hc).
Qed.

Lemma new_quiet_ok gain c : new_client gain = Ok c -> units_ok c.
Proof.
  unfold new_client. intros H. result_inv. split; cbn; try done; try (by intros ? ?%elem_of_nil); try (by intros ? ? ?%elem_of_nil).
  split; [constructor|by intros ? ?%elem_of_nil].
Qed.

Lemma indices_prefix a b : 0 <= a <= b -> indices a `sublist_of` indices b.
Proof.
  intros H. unfold indices. replace (Z.to_nat b) with (Z.to_nat a + Z.to_nat (b - a))%nat by lia. rewrite seq_app, map_app.
  by apply sublist_inserts_r.
Qed.

(** C35: Units take turns. Whatever the browser and the modem answer and whenever,
    while no corpus is sent: the promises of units settle in the order they were
    made, each once, and what has not settled is in the queue in that order;
    units are handed to the modem in that order, each at most once, and at most
    one transmission is in progress; and once a reset was called, as many turns
    as units are left reject them all, and no transmission begins. *)
Theorem units_take_turns gain c0 events times :
  new_client gain = Ok c0 -> forallb (fun e => negb (sends_corpus e)) events = true ->
  let c := client_run events c0 in
  ((qc_units c).*1 ++ map qu_id (qc_queue c) = indices (qc_nextUnit c)
   /\ omap tx_unit (qc_transmissions c).*2 `sublist_of` indices (qc_nextUnit c)
   /\ (forall t t' tx tx', (t, tx) ∈ qc_transmissions c -> (t', tx') ∈ qc_transmissions c ->
        tx_settled tx = None -> tx_settled tx' = None -> t = t'))
  /\ ((length (qc_queue c) <= length times)%nat ->
      let c' := client_run (ClientReset :: map QueueTurn times) c in
      qc_queue c' = [] /\ qc_units c' = qc_units c ++ map (fun q => (qu_id q, false)) (qc_queue c)
      /\ (qc_transmissions c').*1 = (qc_transmissions c).*1
      /\ forall t tx, (t, tx) ∈ qc_transmissions c' -> tx_settled tx <> None).
Proof.
  intros H0 He. cbv zeta. pose proof (client_run_ok events c0 (new_quiet_ok gain c0 H0) He) as Hc.
  set (c := client_run events c0) in *. split.
  - split; [apply (uo_promises c Hc)|]. split.
    + etransitivity; [apply (uo_order c Hc)|]. destruct (uo_running c Hc) as [_ Hrun].
      destruct (qc_running c) as [t|] eqn:Et; cbn [is_some].
      * destruct (Hrun t eq_refl) as (q & rest & tx & Hq & _). destruct (head_id c q rest Hc Hq) as (H1 & H2 & _).
        apply indices_prefix. unfold zlen in *. lia.
      * apply indices_prefix. pose proof (f_equal length (proj1 (uo_promises c Hc))) as L. pose proof (proj2 (uo_promises c Hc)).
        unfold indices in L. rewrite length_app, length_fmap, length_map, length_map, length_seq in L. unfold zlen. lia.
    + intros t t' tx tx' H1 H2 H3 H4. apply (uo_open c Hc) in H1; [|done]. apply (uo_open c Hc) in H2; [|done]. congruence.
  - intros Hl. change (client_run (ClientReset :: map QueueTurn times) c) with (client_run (map QueueTurn times) (client_step ClientReset c)).
    pose proof (wp_elim _ _ _ (wp_reset c Hc)) as Hr.
    assert (Hs : outdated c (client_step ClientReset c)).
    { unfold client_step, client_handler, final, mbind. unfold final in Hr. destruct (reset_begin c) as [[u|e] c1]; [|exact Hr].
      apply (outdated_still c c1); [|exact Hr]. split; [reflexivity|].
      change ((qc_next c1 <= qc_next c1)%nat /\ qc_queueGeneration c1 <= qc_queueGeneration c1). lia. }
    assert (Hlen : (length (qc_queue (client_step ClientReset c)) <= length (qc_queue c))%nat).
    { apply Hs. }
    destruct (outdated_drained c times _ Hs) as [[K1 K2 K3 K4 K5 _] Hq]; [lia|]. split; [done|].
    unfold rejected in K4. rewrite Hq in K4. cbn [map] in K4. rewrite app_nil_r in K4. split; [exact K4|]. split; [exact K5|].
    intros t tx Hin Ho. apply (uo_open _ K1) in Hin; [|done]. congruence.
Qed.

(** A modem that is armed, its receiver object 2; a unit on its way as
    transmission 3. *)
Definition sample_track : TrackSettings :=
  mkTrackSettings (js "m") (vint 48000) (vint 1) (VBool false) (VBool false) (VBool false) (vstr "running") (vint 48000).

Definition armed_events : list ClientEvent :=
  [QuietArmed 1 RoleA; ArmReset 0 (d_of_Z 0); FrameLoaded 0 true true; QuietLoaded 0 (Ok tt) true; LibfecLoaded 0 (Ok tt);
   EmscriptenLoaded 0 (Ok tt); QuietReady 0 (Ok tt); TrackGiven; ContextMade (vint 48000); ReceiverCreated 0 (Ok tt) sample_track].

Definition sample_client : QuietClient :=
  match new_client (d_of_Z 1) with Ok c => c | Throw _ => mkClient None None None None None (new_receiver no_session) None [] None []
    VUndefined (d_of_Z 1) 1 0 0 None false zero_metrics 0 [] None 0 0 [] [] [] [] [] 0 [] [] [] [] [] end.

Definition turn_events : list ClientEvent :=
  armed_events ++ [UnitSent [1] None; UnitSent [2] None; QueueTurn (d_of_Z 1); UnitSent [3] None;
    TransmissionFinished 5 (d_of_Z 2); GuardElapsed 5; QueueTurn (d_of_Z 3)].

Lemma units_take_turns_witness :
  let c := client_run turn_events sample_client in
  qc_units c = [(0, true)] /\ map qu_id (qc_queue c) = [1; 2] /\ qc_running c = Some 6%nat
  /\ qc_units (client_run [ClientReset; QueueTurn (d_of_Z 4); QueueTurn (d_of_Z 4)] c) = [(0, true); (1, false); (2, false)].
Proof.
  assert (H : new_client (d_of_Z 1) = Ok sample_client) by (vm_compute; reflexivity).
  cbv zeta. split; [vm_compute; reflexivity|]. split; [vm_compute; reflexivity|]. split; [vm_compute; reflexivity|].
  destruct (units_take_turns (d_of_Z 1) sample_client turn_events [d_of_Z 4; d_of_Z 4] H) as [_ K]; [vm_compute; reflexivity|].
  destruct K as (_ & Hk & _); [vm_compute; lia|]. etransitivity; [exact Hk|]. vm_compute. reflexivity.
Defined.

(** The corpus is sent past the queue: its transmission takes the place of the
    unit's, whose promise then never settles, a reset included, nor does that of
    any unit queued behind it. *)
Definition overtaken_events : list ClientEvent :=
  armed_events ++ [UnitSent [1] None; QueueTurn (d_of_Z 1); CorpusSent RoleA 1 (Some 1); CorpusPayload 6; CorpusDigest 6 (d_of_Z 2);
    TransmissionFinished 5 (d_of_Z 3); ClientReset; UnitSent [2] None; QueueTurn (d_of_Z 4); GuardElapsed 5; GuardElapsed 7;
    QueueTurn (d_of_Z 5)].

Example corpus_overtakes_unit :
  let c := client_run overtaken_events sample_client in
  qc_units c = [] /\ map qu_id (qc_queue c) = [0; 1] /\ qc_running c = Some 5%nat
  /\ CallDestroy 5 ∈ qc_calls c.
Proof. cbv zeta. split; [vm_compute; reflexivity|]. split; [vm_compute; reflexivity|]. split; [vm_compute; reflexivity|].
  apply list_elem_of_In. vm_compute. tauto.
Qed.

(** An arm that a reset overtakes goes on: its receiver is created, and listens,
    after the reset. *)
Example overtaken_arm_listens :
  let c := client_run (take 3 armed_events ++ [ClientReset; ClientResetEnd (d_of_Z 1)] ++ drop 3 armed_events) sample_client in
  is_some (qc_receiver c) = true /\ is_some (qc_track c) = true /\ qc_epoch c = None
  /\ match qc_armed c with [(_, r)] => is_ok r = true | _ => False end.
Proof. vm_compute. done. Qed.
