(* ===== verification/RunnerConfig.v ===== *)
(** * The configuration the page takes from its runner
    ([fetchRunnerConfig], [apps/modem-ui/src/quiet-client.ts] lines 14-28 and 111-158;
    [configureAcousticSession], [apps/modem-ui/src/main.ts] lines 222-286)

    What the page admits of the answer to [/qualification-config], and the options
    of the acoustic session it makes of it.  The answer is the value its JSON
    stands for. *)

From stdpp Require Import base list numbers option strings.
From Stdlib Require Import ZArith Lia SpecFloat.
From S2P Require Import Prelude Utf8 Doubles Json Report Settings Handshake Calibration SessionState UiQualification Qualification.

(** ** What is admitted *)

(** A candidate: [profileId] is the one profile there is. *)
Record PageCandidate := mkPageCandidate {
  pg_id : jsstring; pg_payloadBytes : Z; pg_repetition : Z; pg_guardMs : Z; pg_playbackGain : Z; pg_ackTimeoutMs : Z }.

Record PageAcoustic := mkPageAcoustic {
  pa_minPayloadBytes : Z; pa_maxPayloadBytes : Z; pa_candidates : list PageCandidate;
  pa_maxCandidates : Z; pa_probesPerDirection : Z; pa_deadlineMs : Z; pa_maximumPlaybackGain : Z }.

Record FipsNetwork := mkNetwork {
  fn_localPublicKey : jsstring; fn_peerPublicKey : jsstring; fn_localIpv6 : jsstring; fn_peerIpv6 : jsstring }.

(** [evidenceMode] is [evidenceClass]; of three fields only the presence is
    looked at. *)
Record RunnerConfig := mkRunnerConfig {
  rc_machineId : value; rc_role : Role; rc_reportTarget : value; rc_tunEvidence : value; rc_evidenceClass : EvidenceClass;
  rc_fipsNetwork : option FipsNetwork; rc_acoustic : option PageAcoustic }.

Definition QUIET_PROFILE_ID : string := "quiet-audible-7k-v1".

(** [integerBetween], with the number. *)
Definition integerBetween (v : value) (minimum maximum : Z) : option Z :=
  match as_integer v with Some z => if (minimum <=? z) && (z <=? maximum) then Some z else None | None => None end.

Definition exactRecord (v : value) (keys : list string) : option fields :=
  match as_object v with Some f => if same_keys keys f then Some f else None | None => None end.

(** [/^[a-z0-9][a-z0-9-]{2,63}$/] *)
Definition is_candidate_id (s : jsstring) : bool :=
  match s with
  | c :: rest => (is_digit c || is_lower c) && string_of (fun u => is_digit u || is_lower u || (u =? 45)) 2 63 rest
  | [] => false
  end.

Definition candidate_id (v : value) : option jsstring :=
  match v with VString s => if is_candidate_id s then Some s else None | _ => None end.

Definition unless (b : bool) : option unit := if b then Some tt else None.

(** [validCandidate], with the candidate. *)
Definition validCandidate (v : value) : option PageCandidate :=
  record ← exactRecord v ["id"; "profileId"; "payloadBytes"; "repetition"; "guardMs"; "playbackGain"; "ackTimeoutMs"]%string;
  id ← candidate_id (get "id" record);
  _ ← unless (is_literal QUIET_PROFILE_ID (get "profileId" record));
  payloadBytes ← integerBetween (get "payloadBytes" record) 96 217;
  repetition ← integerBetween (get "repetition" record) 1 3;
  guardMs ← integerBetween (get "guardMs" record) 1 5000;
  playbackGain ← integerBetween (get "playbackGain" record) 1 2;
  ackTimeoutMs ← integerBetween (get "ackTimeoutMs" record) 4000 15000;
  Some (mkPageCandidate id payloadBytes repetition guardMs playbackGain ackTimeoutMs).

(** Are the identifiers all different? *)
Fixpoint all_different (l : list jsstring) : bool :=
  match l with [] => true | x :: rest => negb (bool_decide (x ∈ rest)) && all_different rest end.

(** [validAcoustic], with the projection. *)
Definition validAcoustic (v : value) : option PageAcoustic :=
  record ← exactRecord v ["profiles"; "ranges"; "candidates"; "calibration"]%string;
  ranges ← exactRecord (get "ranges" record) ["minPayloadBytes"; "maxPayloadBytes"]%string;
  calibration ← exactRecord (get "calibration" record)
    ["maxCandidates"; "probesPerDirection"; "deadlineMs"; "maximumPlaybackGain"]%string;
  items ← as_array (get "candidates" record);
  profiles ← as_array (get "profiles" record);
  _ ← unless (match profiles with [profile] => is_literal QUIET_PROFILE_ID profile | _ => false end);
  minPayloadBytes ← integerBetween (get "minPayloadBytes" ranges) 96 217;
  maxPayloadBytes ← integerBetween (get "maxPayloadBytes" ranges) minPayloadBytes 217;
  _ ← unless ((1 <=? zlen items) && (zlen items <=? 3));
  candidates ← mapM validCandidate items;
  _ ← unless (all_different (map pg_id candidates));
  maxCandidates ← integerBetween (get "maxCandidates" calibration) (zlen items) (zlen items);
  probesPerDirection ← integerBetween (get "probesPerDirection" calibration) 1 4;
  deadlineMs ← integerBetween (get "deadlineMs" calibration) 1 120000;
  maximumPlaybackGain ← integerBetween (get "maximumPlaybackGain" calibration) 2 2;
  Some (mkPageAcoustic minPayloadBytes maxPayloadBytes candidates maxCandidates probesPerDirection deadlineMs maximumPlaybackGain).

(** [/^npub1[0-9a-z]{20,100}$/] *)
Definition npub (v : value) : option jsstring :=
  match v with
  | VString s =>
      if starts_with "npub1" s && string_of (fun c => is_digit c || is_lower c) 20 100 (drop 5 s) then Some s else None
  | _ => None
  end.

Definition ipv6 (v : value) : option jsstring :=
  match v with VString s => if is_fips_ipv6 s then Some s else None | _ => None end.

Definition validFipsNetwork (v : value) : option FipsNetwork :=
  record ← exactRecord v ["localPublicKey"; "peerPublicKey"; "localIpv6"; "peerIpv6"]%string;
  localPublicKey ← npub (get "localPublicKey" record);
  peerPublicKey ← npub (get "peerPublicKey" record);
  localIpv6 ← ipv6 (get "localIpv6" record);
  peerIpv6 ← ipv6 (get "peerIpv6" record);
  Some (mkNetwork localPublicKey peerPublicKey localIpv6 peerIpv6).

Definition page_role (v : value) : option Role :=
  if is_literal "A" v then Some RoleA else if is_literal "B" v then Some RoleB else None.

Definition evidence_class (v : value) : option EvidenceClass :=
  if is_literal "Fixture" v then Some Fixture else if is_literal "Loopback" v then Some Loopback
  else if is_literal "Open air" v then Some OpenAir else None.

Definition config_invalid : string := "runner qualification configuration is invalid".

(** A part that may be missing, but not wrong. *)
Definition optional_part {A} (v : value) (part : option A) : result (option A) :=
  match part with Some a => Ok (Some a) | None => if is_undefined v then Ok None else Throw config_invalid end.

(** [fetchRunnerConfig]: whether the answer is a success, and the value of its
    body, nothing when that is no JSON. *)
Definition fetchRunnerConfig (ok : bool) (body : option value) : result RunnerConfig :=
  reject_if negb ok with "runner qualification configuration is unavailable";
  match body with
  | None => Throw "SyntaxError"
  | Some VNull => Throw "TypeError"
  | Some v =>
      let f := default [] (as_object v) in
      let missing := negb (is_truthy (get "machineId" f)) || negb (is_truthy (get "reportTarget" f))
                     || negb (is_truthy (get "tunEvidence" f))
                     || negb (strict_equal (get "evidenceMode" f) (get "evidenceClass" f)) in
      reject_if missing with config_invalid;
      match page_role (get "role" f), evidence_class (get "evidenceClass" f) with
      | Some role, Some evidenceClass =>
          let? acoustic := optional_part (get "acoustic" f) (validAcoustic (get "acoustic" f)) in
          let? fipsNetwork := optional_part (get "fipsNetwork" f) (validFipsNetwork (get "fipsNetwork" f)) in
          Ok (mkRunnerConfig (get "machineId" f) role (get "reportTarget" f) (get "tunEvidence" f) evidenceClass fipsNetwork acoustic)
      | _, _ => Throw config_invalid
      end
  end.

(** ** The session the page makes of it *)

Definition acoustic_role (r : Role) : AcousticRole := match r with RoleA => Handshake.RoleA | RoleB => Handshake.RoleB end.

Definition expected_peer (r : Role) : jsstring := js match r with RoleA => "fipwave-b" | RoleB => "fipwave-a" end.

Definition session_candidate (c : PageCandidate) : AcousticCandidate :=
  Calibration.mkCandidate (pg_id c) (mkDirection (js QUIET_PROFILE_ID) (pg_payloadBytes c) (pg_repetition c) (pg_guardMs c)
    (d_of_Z (pg_playbackGain c)) (pg_ackTimeoutMs c)).

Section Session.
(** The modem, the platform and the page's record of probes. *)
Context (nonce : nat -> bytes) (measureProbe : nat -> AcousticProbe -> result AcousticProbeObservation).
Context (send : nat -> bytes -> result Completion) (applyCandidate : nat -> AcousticCandidate -> result unit).
Context (sha256 : bytes -> bytes) (localeCompare : jsstring -> jsstring -> comparison).

(** The options [configureAcousticSession] constructs the session with; without
    the acoustic part there is no session. *)
Definition session_options (role : Role) (identity : jsstring) (a : PageAcoustic) : AcousticSessionOptions :=
  Calibration.mkOptions (acoustic_role role) identity (expected_peer role) [js QUIET_PROFILE_ID]
    (mkRange (pa_minPayloadBytes a) (pa_maxPayloadBytes a)) (map session_candidate (pa_candidates a))
    (pa_probesPerDirection a) (pa_maxCandidates a) (pa_deadlineMs a) nonce measureProbe send applyCandidate sha256 localeCompare.
End Session.

(** ** What an admitted configuration is like *)

Record candidate_ok (c : PageCandidate) : Prop := {
  co_id : is_candidate_id (pg_id c) = true;
  co_payload : 96 <= pg_payloadBytes c <= 217;
  co_repetition : 1 <= pg_repetition c <= 3;
  co_guard : 1 <= pg_guardMs c <= 5000;
  co_gain : 1 <= pg_playbackGain c <= 2;
  co_ack : 4000 <= pg_ackTimeoutMs c <= 15000 }.

Record acoustic_ok (a : PageAcoustic) : Prop := {
  ao_ranges : 96 <= pa_minPayloadBytes a <= pa_maxPayloadBytes a /\ pa_maxPayloadBytes a <= 217;
  ao_count : 1 <= zlen (pa_candidates a) <= 3;
  ao_candidates : Forall candidate_ok (pa_candidates a);
  ao_different : NoDup (map pg_id (pa_candidates a));
  ao_max : pa_maxCandidates a = zlen (pa_candidates a);
  ao_probes : 1 <= pa_probesPerDirection a <= 4;
  ao_deadline : 1 <= pa_deadlineMs a <= 120000;
  ao_gain : pa_maximumPlaybackGain a = 2 }.

Lemma integerBetween_inv v low high z : integerBetween v low high = Some z -> as_integer v = Some z /\ low <= z <= high.
Proof.
  unfold integerBetween. destruct (as_integer v) as [x|]; [|done]. destruct (_ && _) eqn:E; [|done]. intros [= <-]. bool_split. split; [done|lia].
Qed.

Lemma unless_inv b u : unless b = Some u -> b = true.
Proof. by destruct b. Qed.

Lemma candidate_id_inv v s : candidate_id v = Some s -> v = VString s /\ is_candidate_id s = true.
Proof. destruct v as [| | | |t| |]; try done. cbn. destruct (is_candidate_id t) eqn:E; [|done]. by intros [= <-]. Qed.

Ltac admitted :=
  repeat match goal with
  | H : base.mbind _ _ = Some _ |- _ => apply bind_Some in H as (? & ? & H)
  | H : Some _ = Some _ |- _ => injection H; clear H; intros; subst
  | H : unless _ = Some _ |- _ => apply unless_inv in H
  | H : integerBetween _ _ _ = Some _ |- _ => apply integerBetween_inv in H as [_ H]
  end.

Lemma validCandidate_ok v c : validCandidate v = Some c -> candidate_ok c.
Proof.
  unfold validCandidate. intros H. admitted. split; cbn [pg_id pg_payloadBytes pg_repetition pg_guardMs pg_playbackGain pg_ackTimeoutMs]; try lia.
  by eapply candidate_id_inv.
Qed.

Lemma all_different_spec l : all_different l = true -> NoDup l.
Proof.
  induction l as [|x l IH]; cbn; [constructor|]. intros [H%negb_true_iff%bool_decide_eq_false_1 Hl]%andb_prop.
  constructor; [done|by apply IH].
Qed.

Lemma validAcoustic_ok v a : validAcoustic v = Some a -> acoustic_ok a.
Proof.
  unfold validAcoustic. intros H. admitted.
  match goal with H : mapM _ _ = Some _ |- _ => rename H into Hm end.
  apply mapM_Some in Hm. pose proof (Forall2_length _ _ _ Hm) as Hn.
  assert (Hc : Forall candidate_ok x8).
  { clear - Hm. induction Hm as [|v c l k Hv _ IH]; constructor; [by eapply validCandidate_ok|done]. }
  unfold zlen in *. bool_split.
  split; cbn; unfold zlen; try lia; try done. by apply all_different_spec.
Qed.
