(* ===== verification/Runner.v ===== *)
(** * The runner's start ([packages/bridge/src/runner.ts])

    The checks [startProductionRunner] makes before it opens anything, the
    configuration it publishes to the page and the one it renders for the FIPS
    daemon, and the command line.  And that the page takes what is published: the
    acoustic session it then makes is one the session's constructor accepts. *)

From stdpp Require Import base list numbers option strings.
From Stdlib Require Import ZArith Lia SpecFloat.
From S2P Require Import Prelude Utf8 Doubles Json Regex Texts Corpus Settings Handshake Calibration SessionState UiQualification Qualification QuietProtocol Report CyrinxWorker BridgeState BridgeReport DemoConfig RunnerConfig.

Definition runner_error (message : string) : string := ("runner " +:+ message)%string.

(** [/^[A-Za-z0-9._/-]+$/] *)
Definition is_target_text (s : jsstring) : bool :=
  (1 <=? zlen s)
  && forallb (fun c => is_upper c || is_lower c || is_digit c || (c =? 46) || (c =? 95) || (c =? 47) || (c =? 45)) s.

(** [value.includes('..')] *)
Fixpoint has_dots (s : jsstring) : bool :=
  match s with
  | a :: (b :: _) as rest => ((a =? 46) && (b =? 46)) || has_dots rest
  | _ => false
  end.

Definition assertText (s : jsstring) (label : string) : result unit :=
  require_not (negb (is_target_text s) || has_dots s) (runner_error (label +:+ " is invalid")%string).

Record BuildIdentity := mkBuild { bi_commit : jsstring; bi_os : jsstring; bi_architecture : jsstring; bi_dirty : bool }.

(** [evidenceMode] is Fixture or Loopback; a port and a guard are numbers that
    nobody has looked at. *)
Record RunnerOptions := mkRunnerOptions {
  ro_machineId : jsstring; ro_role : option Role; ro_port : option double; ro_report : jsstring; ro_tunEvidence : jsstring;
  ro_fastGuardMs : option double; ro_demoConfig : option DemoConfig; ro_evidenceMode : option EvidenceClass;
  ro_physicalOpenAir : bool; ro_fipsConfigOutput : option jsstring; ro_host : option jsstring }.

(** ** The FIPS configuration *)

Definition sound_peer (input : DemoRoleInput) : string := match input with InputA => "sound-b" | InputB => "sound-a" end.

Definition is_udp (t : TransportPolicy) : bool := match t with TransportUdp _ _ _ => true | TransportSound => false end.

Definition quoted (s : jsstring) : jsstring := [34] ++ s ++ [34].

Definition config_lines (config : DemoConfig) : list jsstring :=
  let peer := js (sound_peer (dc_inputRole config)) in
  let mtu := fp_linkMtu (dc_fips config) in
  [js "node:";
   js "  identity:";
   js "    nsec: " ++ quoted (js (id_nsec (dc_identity config)));
   js "  heartbeat_interval_secs: 60";
   js "  link_dead_timeout_secs: 600";
   js "  rekey:";
   js "    enabled: true";
   js "    after_secs: 3600";
   js "    after_messages: 65536";
   js "  rate_limit:";
   js "    handshake_timeout_secs: 300";
   js "    handshake_resend_interval_ms: 15000";
   js "    handshake_resend_backoff: 2.0";
   js "    handshake_max_resends: 8";
   js "  mmp:";
   js "    mode: minimal";
   js "  session_mmp:";
   js "    mode: minimal";
   js "  control:";
   js "    enabled: true";
   js "    socket_path: " ++ quoted (js (fp_controlSocketPath (dc_fips config)));
   js "  log_level: info";
   js "tun:";
   js "  enabled: true";
   js "  name: fips0";
   js "  mtu: 1280";
   js "dns:";
   js "  enabled: false";
   js "transports:";
   js "  sound:";
   js "    bridge_url: " ++ quoted (bg_fipsUrl (dc_bridge config));
   js "    peer_addr: " ++ quoted peer;
   js "    mtu: " ++ number_text mtu;
   js "    queue_items: 32";
   js "    queue_bytes: " ++ number_text (mtu * 32)]
  ++ (if existsb is_udp (fp_transports (dc_fips config))
      then [js "  udp:"; js "    outbound_only: true"; js "    accept_connections: false"; js "    advertise_on_nostr: false"]
      else [])
  ++ [js "peers:";
      js "  - npub: " ++ quoted (js (id_publicKey (dc_peer config)));
      js "    alias: " ++ quoted peer;
      js "    addresses:";
      js "      - transport: sound";
      js "        addr: " ++ quoted peer;
      js "    connect_policy: " ++ js match dc_role config with RoleA => "auto_connect" | RoleB => "manual" end;
      js "    auto_reconnect: " ++ js match dc_role config with RoleA => "true" | RoleB => "false" end;
      js "    via_nostr: false";
      []].

(** [lines.join('\n')] *)
Fixpoint joined_lines (lines : list jsstring) : jsstring :=
  match lines with [] => [] | [l] => l | l :: rest => l ++ [10] ++ joined_lines rest end.

Definition renderFipsConfig (config : DemoConfig) : jsstring := joined_lines (config_lines config).

(** ** What is published *)

Definition candidate_value (c : CalibrationCandidate) : value :=
  obj [("id", vstr (cc_id c)); ("profileId", vstr (cc_profileId c)); ("payloadBytes", vint (cc_payloadBytes c));
       ("repetition", vint (cc_repetition c)); ("guardMs", vint (cc_guardMs c)); ("playbackGain", vint (cc_playbackGain c));
       ("ackTimeoutMs", vint (cc_ackTimeoutMs c))]%string.

(** [Math.min] and [Math.max] of the payload sizes, as JSON carries them: of no
    candidates they are infinite. *)
Definition extreme (f : Z -> Z -> Z) (sizes : list Z) : value :=
  match sizes with [] => VNull | x :: rest => vint (foldl f x rest) end.

Definition acoustic_value (config : DemoConfig) : value :=
  let sizes := map cc_payloadBytes (dc_calibrationCandidates config) in
  let a := dc_acoustic config in
  obj [("profiles", VArray [vstr QUIET_PROFILE_ID]);
       ("ranges", obj [("minPayloadBytes", extreme Z.min sizes); ("maxPayloadBytes", extreme Z.max sizes)]);
       ("candidates", VArray (map candidate_value (dc_calibrationCandidates config)));
       ("calibration", obj [("maxCandidates", vint (al_maxCandidates a)); ("probesPerDirection", vint (al_probesPerDirection a));
                            ("deadlineMs", vint (al_deadlineMs a)); ("maximumPlaybackGain", vint (al_maximumPlaybackGain a))])]%string.

Definition network_value (config : DemoConfig) (peerIpv6 : string) : value :=
  obj [("localPublicKey", vstr (id_publicKey (dc_identity config))); ("peerPublicKey", vstr (id_publicKey (dc_peer config)));
       ("localIpv6", vstr (fp_ipv6Address (dc_fips config))); ("peerIpv6", vstr peerIpv6)]%string.

(** [qualification], before anything happened. *)
Definition idle_qualification (config : DemoConfig) (mode : EvidenceClass) : value :=
  obj [("deadLinkTimeoutMs", vint (hb_deadLinkTimeoutMs (dc_heartbeat config))); ("cyrinxDeadlineMs", vint Report.CYRINX_DEADLINE_MS);
       ("deadline", obj [("startedAtMs", VNull); ("deadlineAtMs", VNull); ("elapsedMs", VNull)]);
       ("physicalGate", vstr match mode with OpenAir => "pending" | _ => "not_physical" end);
       ("fallback", obj [("codecId", vstr "quiet"); ("state", vstr "available"); ("reasonCode", VNull)]);
       ("cyrinx", obj [("stage", vstr "idle"); ("coldReceivePassed", VBool false)])]%string.

(** The configuration the bridge serves to the page. *)
Definition published (o : RunnerOptions) (config : DemoConfig) (peerIpv6 : string) (mode : EvidenceClass) (tunSource : value)
    (commit : jsstring) : value :=
  obj [("machineId", VString (ro_machineId o)); ("role", vstr (role_text (dc_role config))); ("reportTarget", VString (ro_report o));
       ("tunEvidence", VString (ro_tunEvidence o)); ("tunEvidenceSource", tunSource); ("evidenceMode", vstr (class_text mode));
       ("evidenceClass", vstr (class_text mode)); ("buildCommit", VString commit); ("codec", codec_value QUIET_CODEC);
       ("qualification", idle_qualification config mode); ("fipsNetwork", network_value config peerIpv6);
       ("acoustic", acoustic_value config)]%string.

(** What the bridge itself reads of it. *)
Definition bridge_config (o : RunnerOptions) (config : DemoConfig) (mode : EvidenceClass) : RunnerQualificationConfig :=
  BridgeState.mkConfig (ro_machineId o) (dc_role config) (ro_report o) mode QUIET_CODEC
    (mkQualification None None None match mode with OpenAir => "pending" | _ => "not_physical" end Available None StIdle false).

(** ** The command line *)

Definition cli_keys : list string :=
  ["--machine-id"; "--role"; "--port"; "--report"; "--tun-evidence"; "--evidence-mode"; "--fips-config"; "--bind-host";
   "--fast-guard-ms"]%string.

(** The loop over the arguments: the values by key, and whether the run is
    physical. *)
Fixpoint cli_values (argv : list jsstring) (values : list (jsstring * jsstring)) (physical : bool) :
    result (list (jsstring * jsstring) * bool) :=
  match argv with
  | [] => Ok (values, physical)
  | key :: rest =>
      if bool_decide (key = js "--physical-open-air") then cli_values rest values true
      else match rest with
      | (_ :: _) as value :: rest' =>
          if key_in cli_keys key then cli_values rest' (map_set key value values) physical else Throw (runner_error "usage")
      | _ => Throw (runner_error "usage")
      end
  end.

Section Cli.
(** [Number(text)] *)
Context (Number : jsstring -> double).

(** [parseCli]; a role that is neither is no role. *)
Definition parseCli (argv : list jsstring) : result RunnerOptions :=
  let? '(values, physicalOpenAir) := cli_values argv [] false in
  let value (key : string) := map_get (js key) values in
  let? evidenceMode := (match value "--evidence-mode"%string with
                        | None => Ok None
                        | Some s => if bool_decide (s = js "Fixture") then Ok (Some Fixture)
                                    else if bool_decide (s = js "Loopback") then Ok (Some Loopback)
                                    else Throw (runner_error "deterministic evidence mode must be Fixture or Loopback")
                        end) in
  let host := value "--bind-host"%string in
  reject_if match host with
            | Some h => negb (bool_decide (h = js DemoConfig.LOOPBACK_HOST)) && negb (bool_decide (h = js "0.0.0.0"))
            | None => false
            end with runner_error "bind host is invalid";
  let role := match value "--role"%string with Some s => page_role (VString s) | None => None end in
  let port := match value "--port"%string with Some s => Number s | None => S754_nan end in
  Ok (mkRunnerOptions (default [] (value "--machine-id"%string)) role (Some port) (default [] (value "--report"%string))
        (default [] (value "--tun-evidence"%string)) (Number <$> value "--fast-guard-ms"%string) None evidenceMode physicalOpenAir
        (value "--fips-config"%string) host).
End Cli.

(** [text.trim()] *)
Fixpoint trim_start (s : jsstring) : jsstring :=
  match s with c :: rest => if is_space c then trim_start rest else s | [] => [] end.

Definition trim (s : jsstring) : jsstring := rev (trim_start (rev (trim_start s))).

Definition from_git (git : option (jsstring * jsstring)) (os architecture : jsstring) : BuildIdentity :=
  match git with
  | Some (commit, status) => mkBuild (trim commit) os architecture (negb (bool_decide (trim status = [])))
  | None => mkBuild (js "unresolved") os architecture true
  end.

(** [/^[a-f0-9]{40}$/i] of the environment's commit; otherwise what git says,
    nothing when it cannot be asked.  The platform and its architecture come
    from the process. *)
Definition resolveBuildIdentity (injected : option BuildIdentity) (runtimeCommit : option jsstring)
    (git : option (jsstring * jsstring)) (os architecture : jsstring) : BuildIdentity :=
  match injected with
  | Some b => b
  | None =>
      match runtimeCommit with
      | Some commit =>
          if string_of is_hex 40 40 commit then mkBuild (map lower_unit commit) os architecture false
          else from_git git os architecture
      | None => from_git git os architecture
      end
  end.

(** ** The start *)

Definition tun_image : string := "alpine:3.21.3@sha256:a8560b36e8b8210634f77d9f7f9efd7ffa463e380b75e2e74aff4511df3ef88c".

Definition unavailableTunEvidence : value :=
  obj [("schemaVersion", vint 1); ("source", vstr "static"); ("status", vstr "failed"); ("image", vstr tun_image);
       ("interfaceName", vstr "fips-preflight0"); ("ipv6Address", vstr "fd42:6677:6677::1/64");
       ("authorities", obj [("devices", VArray [vstr "/dev/net/tun"]); ("capabilities", VArray [vstr "NET_ADMIN"]);
          ("securityOptions", VArray [vstr "no-new-privileges:true"]); ("privileged", VBool false); ("networkMode", vstr "none");
          ("publishedPorts", VArray [])]);
       ("checks", obj (map (fun check => (check, vstr "not_run")) TUN_EVIDENCE_CHECKS));
       ("errors", VArray [vstr "exact-host TUN evidence was not supplied for deterministic runner mode"])]%string.

(** [evidence.checks[check] !== 'passed'] for none of them. *)
Definition all_passed (checks : value) : bool :=
  forallb (fun check => is_literal "passed" (opt_member checks check)) TUN_EVIDENCE_CHECKS.

(** The evidence and its class; [file] is the parsed record at [tunEvidence],
    nothing when it cannot be read or is no JSON. *)
Definition run_evidence (o : RunnerOptions) (file : option value) : result (EvidenceClass * value) :=
  if ro_physicalOpenAir o then
    match file with
    | None => Throw (runner_error "physical open-air requires a readable exact_host TUN evidence record")
    | Some raw =>
        let? evidence := validateTunEvidence raw in
        reject_if negb (is_literal "exact_host" (opt_member evidence "source")) || negb (is_literal "passed" (opt_member evidence "status"))
                  || negb (all_passed (opt_member evidence "checks"))
          with runner_error "physical open-air requires every passed source: exact_host TUN evidence field";
        Ok (OpenAir, evidence)
    end
  else Ok (default Loopback (ro_evidenceMode o), unavailableTunEvidence).

Definition is_commit (s : jsstring) : bool := string_of is_hex_lower 40 40 s.

Definition truthy_number (x : double) : bool := match x with S754_zero _ | S754_nan => false | _ => true end.

Record RunnerPlan := mkPlan {
  rp_demo : DemoConfig; rp_port : Z; rp_fips : option jsstring; rp_mode : EvidenceClass; rp_tun : value;
  rp_published : value; rp_bridge : RunnerQualificationConfig }.

Section Start.
Context (new_URL : jsstring -> option ParsedUrl).
(** The text of a number that is no integer. *)
Context (other_number : double -> jsstring).

Definition double_text (x : double) : jsstring := match d_integer x with Some z => number_text z | None => other_number x end.

Definition url_of (port : double) : jsstring :=
  js ("ws://" +:+ DemoConfig.LOOPBACK_HOST +:+ ":")%string ++ double_text port ++ js "/bridge/fips".

(** [demoOverride]; without a key there is no override. *)
Definition demoOverride (o : RunnerOptions) : value :=
  let bridge : list (string * value) := match ro_fipsConfigOutput o, ro_port o with
                | Some (_ :: _), Some port =>
                    if truthy_number port
                    then [("bridge"%string, obj [("browserPort", VNumber port); ("fipsPort", VNumber port);
                             ("fipsUrl", VString (url_of port))]%string)]
                    else []
                | _, _ => []
                end in
  let acoustic := match ro_fastGuardMs o with Some guard => [("acoustic", obj [("fastGuardMs", VNumber guard)])]%string | None => [] end in
  match bridge ++ acoustic with [] => VUndefined | l => obj l end.

Definition role_input (r : Role) : jsstring := js match r with RoleA => "a" | RoleB => "b" end.

Definition fast_guard_ok (x : double) : bool :=
  match d_safe_integer x with Some z => (50 <=? z) && (z <=? 1500) | None => false end.

(** The port the bridge listens on: whole, and one there is. *)
Definition runtime_port (v : value) : result Z :=
  match integerBetween v 0 65535 with Some port => Ok port | None => Throw (runner_error "port is invalid") end.

(** [startProductionRunner], up to the first resource it opens. *)
Definition start_plan (o : RunnerOptions) (file : option value) (build : BuildIdentity) : result RunnerPlan :=
  let? _ := assertText (ro_machineId o) "machine ID" in
  let? _ := assertText (ro_report o) "report target" in
  reject_if match ro_fastGuardMs o with Some guard => negb (fast_guard_ok guard) | None => false end
    with runner_error "fast guard must be an integer from 50 through 1500 milliseconds";
  let? demo := (match ro_demoConfig o, ro_role o with
                | Some demo, _ => Ok demo
                | None, Some role => resolveDemoConfig new_URL (Some (role_input role)) (demoOverride o)
                | None, None => Throw (runner_error "role must be literal A or B")
                end) in
  reject_if match ro_role o with Some role => negb (bool_decide (role = dc_role demo)) | None => false end
    with runner_error "role does not match resolved config";
  let fips := match ro_fipsConfigOutput o with Some (_ :: _) => Some (renderFipsConfig demo) | _ => None end in
  let? port := runtime_port match ro_demoConfig o, ro_port o with
                            | Some _, _ => vint (bg_browserPort (dc_bridge demo))
                            | None, Some port => VNumber port
                            | None, None => VUndefined
                            end in
  let? '(mode, tun) := run_evidence o file in
  reject_if ro_physicalOpenAir o && (bi_dirty build || negb (is_commit (bi_commit build)))
    with runner_error "physical open-air requires a clean resolved git HEAD build identity";
  let? peer := resolveDemoConfig new_URL (Some (role_input match dc_role demo with RoleA => RoleB | RoleB => RoleA end)) VUndefined in
  Ok (mkPlan demo port fips mode tun
        (published o demo (fp_ipv6Address (dc_fips peer)) mode (opt_member tun "source") (bi_commit build))
        (bridge_config o demo mode)).
End Start.

(** ** The page takes it *)

Definition number_kept (z : Z) : bool := bool_decide (as_integer (vint z) = Some z).

Lemma numbers_kept : forallb number_kept (map Z.of_nat (seq 0 (Z.to_nat 5001))) = true.
Proof. vm_compute. reflexivity. Qed.

Lemma number_between z low high : 0 <= z <= 5000 -> low <= z <= high -> integerBetween (vint z) low high = Some z.
Proof.
  intros Hz Hb. assert (number_kept z = true) as Hk%bool_decide_eq_true_1.
  { apply (proj1 (forallb_forall _ _) numbers_kept). apply in_map_iff. exists (Z.to_nat z). rewrite in_seq. lia. }
  unfold integerBetween. rewrite Hk, (proj2 (Z.leb_le low z)), (proj2 (Z.leb_le z high)) by lia. done.
Qed.

(** The candidate the page makes of one of the configuration. *)
Definition page_candidate (c : CalibrationCandidate) : PageCandidate :=
  mkPageCandidate (js (cc_id c)) (cc_payloadBytes c) (cc_repetition c) (cc_guardMs c) (cc_playbackGain c) (cc_ackTimeoutMs c).

(** A candidate the page admits. *)
Record publishable (c : CalibrationCandidate) : Prop := {
  pc_profile : cc_profileId c = QUIET_PROFILE_ID;
  pc_page : candidate_ok (page_candidate c);
  pc_ack : cc_ackTimeoutMs c <= 5000 }.

(** The checks of a candidate's fields. *)
Lemma candidate_fields (a b c d e f g : value) :
  validCandidate (obj [("id", a); ("profileId", b); ("payloadBytes", c); ("repetition", d); ("guardMs", e); ("playbackGain", f);
                       ("ackTimeoutMs", g)]%string)
  = (id ← candidate_id a; _ ← unless (is_literal QUIET_PROFILE_ID b);
     payloadBytes ← integerBetween c 96 217; repetition ← integerBetween d 1 3; guardMs ← integerBetween e 1 5000;
     playbackGain ← integerBetween f 1 2; ackTimeoutMs ← integerBetween g 4000 15000;
     Some (mkPageCandidate id payloadBytes repetition guardMs playbackGain ackTimeoutMs)).
Proof. reflexivity. Qed.

Lemma candidate_admitted c : publishable c -> validCandidate (candidate_value c) = Some (page_candidate c).
Proof.
  intros [Hp [H1 H2 H3 H4 H5 H6] H7]. cbn [pg_id pg_payloadBytes pg_repetition pg_guardMs pg_playbackGain pg_ackTimeoutMs page_candidate] in *.
  unfold candidate_value. rewrite candidate_fields. unfold candidate_id, vstr. rewrite H1, Hp. cbn [base.mbind option_bind is_literal].
  rewrite bool_decide_eq_true_2 by done. cbn [unless base.mbind option_bind].
  rewrite !number_between by lia. done.
Qed.

Lemma candidates_admitted l : Forall publishable l -> mapM validCandidate (map candidate_value l) = Some (map page_candidate l).
Proof.
  induction 1 as [|c l Hc _ IH]; [done|]. cbn [map mapM]. rewrite (candidate_admitted c Hc). cbn [base.mbind option_bind]. by rewrite IH.
Qed.

Lemma acoustic_fields (lo hi a b c d : value) (items : list value) :
  validAcoustic (obj [("profiles", VArray [vstr QUIET_PROFILE_ID]); ("ranges", obj [("minPayloadBytes", lo); ("maxPayloadBytes", hi)]);
    ("candidates", VArray items);
    ("calibration", obj [("maxCandidates", a); ("probesPerDirection", b); ("deadlineMs", c); ("maximumPlaybackGain", d)])]%string)
  = (minPayloadBytes ← integerBetween lo 96 217; maxPayloadBytes ← integerBetween hi minPayloadBytes 217;
     _ ← unless ((1 <=? zlen items) && (zlen items <=? 3));
     candidates ← mapM validCandidate items;
     _ ← unless (all_different (map pg_id candidates));
     maxCandidates ← integerBetween a (zlen items) (zlen items); probesPerDirection ← integerBetween b 1 4;
     deadlineMs ← integerBetween c 1 120000; maximumPlaybackGain ← integerBetween d 2 2;
     Some (mkPageAcoustic minPayloadBytes maxPayloadBytes candidates maxCandidates probesPerDirection deadlineMs maximumPlaybackGain)).
Proof. reflexivity. Qed.

(** What a resolved configuration has of the fixed one. *)
Record resolved_from (input : DemoRoleInput) (c : DemoConfig) : Prop := {
  rf_role : dc_role c = role_of input;
  rf_identity : dc_identity c = IDENTITIES input;
  rf_peer : dc_peer c = IDENTITIES (other input);
  rf_ipv6 : fp_ipv6Address (dc_fips c) = FIPS_IPV6 input;
  rf_acoustic : dc_acoustic c = default_acoustic;
  rf_candidates : exists fast, match fast with Some g => within 50 1500 g | None => True end
                    /\ dc_calibrationCandidates c = map (candidate_with fast) default_candidates }.

Lemma resolved_shape new_URL role overrides c :
  resolveDemoConfig new_URL (Some (role_input role)) overrides = Ok c ->
  resolved_from (match role with RoleA => InputA | RoleB => InputB end) c.
Proof.
  unfold resolveDemoConfig.
  replace (parse_input _) with (Some match role with RoleA => InputA | RoleB => InputB end) by (by destruct role).
  intros H. ok_inv. match goal with E : patched "acoustic" _ _ _ = Ok _ |- _ => apply patched_fast in E; rename E into Hf end.
  split; try done. eexists. split; [exact Hf|done].
Qed.

Lemma default_publishable fast :
  match fast with Some g => within 50 1500 g | None => True end -> Forall publishable (map (candidate_with fast) default_candidates).
Proof.
  intros H. destruct fast as [g|]; cbn; repeat (constructor; [split; [done| |cbn; lia]; split; [by vm_compute|cbn; unfold within in *; lia..]|]); constructor.
Qed.

Definition demo_acoustic (candidates : list PageCandidate) : PageAcoustic := mkPageAcoustic 96 217 candidates 3 1 120000 2.

Lemma acoustic_admitted input c :
  resolved_from input c ->
  validAcoustic (acoustic_value c) = Some (demo_acoustic (map page_candidate (dc_calibrationCandidates c))).
Proof.
  intros [_ _ _ _ Ha (fast & Hf & Hc)]. unfold acoustic_value. rewrite acoustic_fields, Ha.
  pose proof (default_publishable fast Hf) as Hp. rewrite <- Hc in Hp. rewrite (candidates_admitted _ Hp), Hc.
  assert (E : map cc_payloadBytes (map (candidate_with fast) default_candidates) = [96; 217; 96]) by (by destruct fast).
  assert (E' : map pg_id (map page_candidate (map (candidate_with fast) default_candidates))
               = map (fun k => js (cc_id k)) default_candidates) by (by destruct fast).
  rewrite E. replace (zlen (map candidate_value (map (candidate_with fast) default_candidates))) with 3 by (by destruct fast).
  cbn [base.mbind option_bind]. rewrite E'. vm_compute. destruct fast; reflexivity.
Qed.

Lemma published_fields (m r t e s mode class commit codec q n a : value) :
  fetchRunnerConfig true (Some (obj [("machineId", m); ("role", r); ("reportTarget", t); ("tunEvidence", e); ("tunEvidenceSource", s);
    ("evidenceMode", mode); ("evidenceClass", class); ("buildCommit", commit); ("codec", codec); ("qualification", q);
    ("fipsNetwork", n); ("acoustic", a)]%string))
  = (reject_if negb (is_truthy m) || negb (is_truthy t) || negb (is_truthy e) || negb (strict_equal mode class) with config_invalid;
     match page_role r, evidence_class class with
     | Some role, Some evidenceClass =>
         let? acoustic := optional_part a (validAcoustic a) in
         let? fipsNetwork := optional_part n (validFipsNetwork n) in
         Ok (mkRunnerConfig m role t e evidenceClass fipsNetwork acoustic)
     | _, _ => Throw config_invalid
     end).
Proof. reflexivity. Qed.

Definition demo_network (input : DemoRoleInput) : FipsNetwork :=
  mkNetwork (js (id_publicKey (IDENTITIES input))) (js (id_publicKey (IDENTITIES (other input)))) (js (FIPS_IPV6 input))
    (js (FIPS_IPV6 (other input))).

Lemma network_admitted input c peer :
  resolved_from input c -> resolved_from (other input) peer ->
  validFipsNetwork (network_value c (fp_ipv6Address (dc_fips peer))) = Some (demo_network input).
Proof.
  intros [_ Hi Hp H6 _ _] [_ _ _ H6' _ _]. unfold network_value. rewrite Hi, Hp, H6, H6'. destruct input; vm_compute; reflexivity.
Qed.

Lemma text_truthy s : s <> [] -> is_truthy (VString s) = true.
Proof. intros H. cbn. by rewrite bool_decide_eq_false_2. Qed.

Lemma target_nonempty s label u : assertText s label = Ok u -> s <> [].
Proof. intros H ->. discriminate H. Qed.

(** What the page admits of a configuration that was resolved. *)
Lemma published_admitted o input c peer mode tun commit :
  resolved_from input c -> resolved_from (other input) peer ->
  ro_machineId o <> [] -> ro_report o <> [] -> ro_tunEvidence o <> [] ->
  fetchRunnerConfig true (Some (published o c (fp_ipv6Address (dc_fips peer)) mode tun commit))
  = Ok (mkRunnerConfig (VString (ro_machineId o)) (role_of input) (VString (ro_report o)) (VString (ro_tunEvidence o)) mode
          (Some (demo_network input)) (Some (demo_acoustic (map page_candidate (dc_calibrationCandidates c))))).
Proof.
  intros Hc Hp Hm Ht He. unfold published. rewrite published_fields, !text_truthy by done.
  replace (strict_equal _ _) with true by (by destruct mode). cbn [negb orb require_not rbind].
  replace (page_role _) with (Some (role_of input)) by (rewrite (rf_role _ _ Hc); by destruct input).
  replace (evidence_class _) with (Some mode) by (by destruct mode).
  rewrite (acoustic_admitted _ _ Hc), (network_admitted _ _ _ Hc Hp). done.
Qed.

(** ** The session's constructor takes it *)

(** The candidates are within the range the session is told. *)
Definition in_ranges (a : PageAcoustic) : Prop :=
  Forall (fun c => pa_minPayloadBytes a <= pg_payloadBytes c <= pa_maxPayloadBytes a) (pa_candidates a).

Lemma valid_between z low high : - MAX_SAFE_INTEGER <= low -> high <= MAX_SAFE_INTEGER -> low <= z <= high -> validInteger z low high = true.
Proof.
  intros. unfold validInteger, is_safe_integer. by rewrite !(proj2 (Z.leb_le _ _)) by lia.
Qed.

Section Constructor.
Context (nonce : nat -> bytes) (measureProbe : nat -> AcousticProbe -> result AcousticProbeObservation).
Context (send : nat -> bytes -> result Completion) (applyCandidate : nat -> AcousticCandidate -> result unit).
Context (sha256 : bytes -> bytes) (localeCompare : jsstring -> jsstring -> comparison).
Context (role : Role) (identity : jsstring) (a : PageAcoustic).

Let options := session_options nonce measureProbe send applyCandidate sha256 localeCompare role identity a.

Lemma gain_admitted z : 1 <= z <= 2 -> d_ltb (d_of_Z z) (d_of_Z 1) = false /\ d_ltb (d_of_Z 2) (d_of_Z z) = false.
Proof. intros H. assert (z = 1 \/ z = 2) as [-> | ->] by lia; done. Qed.

Lemma candidates_checked l :
  Forall candidate_ok l -> Forall (fun c => pa_minPayloadBytes a <= pg_payloadBytes c <= pa_maxPayloadBytes a) l ->
  96 <= pa_minPayloadBytes a -> pa_maxPayloadBytes a <= 217 ->
  check_candidates options (map session_candidate l) = Ok tt.
Proof.
  intros Hl Hr Hlo Hhi. induction Hl as [|c l [H1 H2 H3 H4 H5 H6] _ IH]; [done|]. inversion_clear Hr.
  cbn [map check_candidates]. unfold valid_candidate. cbn [session_candidate cand_id cand_settings playbackGain payloadBytes repetition guardMs ackTimeoutMs].
  destruct (gain_admitted _ H5) as [-> ->]. replace (is_empty (pg_id c)) with false by (by destruct (pg_id c)).
  rewrite !valid_between by (cbn; unfold MAX_SAFE_INTEGER; lia). cbn [negb andb require_not rbind].
  replace (resolveAcousticProfile _) with (resolveAcousticProfile (js QUIET_PROFILE_ID)) by done.
  destruct (resolveAcousticProfile (js QUIET_PROFILE_ID)) eqn:E; [|discriminate E]. cbn [rbind]. by apply IH.
Qed.

Lemma session_starts clock :
  acoustic_ok a -> in_ranges a -> identity <> [] -> identity <> expected_peer role ->
  create options clock = Ok (initial options clock).
Proof.
  intros [[H1 H1'] H2 H3 _ H4 H5 H6 _] Hr Hn Hp. unfold create.
  cbn [options session_options o_identity o_expectedPeer o_ranges o_profiles o_probesPerDirection o_deadlineMs o_candidates o_maxCandidates].
  replace (is_empty identity) with false by (by destruct identity). rewrite (bool_decide_eq_false_2 (identity = _)) by done.
  replace (is_empty (expected_peer _)) with false by (by destruct role).
  unfold validRange. cbn [minPayloadBytes maxPayloadBytes].
  rewrite !valid_between by (unfold MAX_SAFE_INTEGER; lia).
  replace (candidate_count options) with (zlen (pa_candidates a)) by (unfold candidate_count, zlen; cbn; by rewrite length_map).
  rewrite (proj2 (Z.ltb_ge (zlen (pa_candidates a)) 1)), (proj2 (Z.ltb_ge (pa_maxCandidates a) _)) by lia.
  change (zlen [js QUIET_PROFILE_ID]) with 1. cbn [orb negb andb require_not rbind Z.ltb Z.compare MAX_PROFILES Pos.compare Pos.compare_cont].
  rewrite (candidates_checked _ H3 Hr) by lia.
  destruct (check_profiles [js QUIET_PROFILE_ID]) eqn:E; [done|discriminate E].
Qed.
End Constructor.

Lemma page_acoustic_ok input c :
  resolved_from input c ->
  acoustic_ok (demo_acoustic (map page_candidate (dc_calibrationCandidates c)))
  /\ in_ranges (demo_acoustic (map page_candidate (dc_calibrationCandidates c))).
Proof.
  intros Hc. split; [by eapply validAcoustic_ok, acoustic_admitted|]. destruct Hc as [_ _ _ _ _ (fast & _ & ->)].
  unfold in_ranges. destruct fast; cbn; repeat (constructor; [cbn; lia|]); constructor.
Qed.

(** The plan's configuration is a resolved one. *)
Lemma plan_resolved new_URL other_number o file build plan :
  start_plan new_URL other_number o file build = Ok plan -> ro_demoConfig o = None ->
  exists input peer, resolved_from input (rp_demo plan) /\ resolved_from (other input) peer
    /\ ro_role o = Some (role_of input) /\ ro_machineId o <> [] /\ ro_report o <> []
    /\ (exists commit source, rp_published plan = published o (rp_demo plan) (fp_ipv6Address (dc_fips peer)) (rp_mode plan) source commit)
    /\ rp_bridge plan = bridge_config o (rp_demo plan) (rp_mode plan).
Proof.
  unfold start_plan. intros H Hd. ok_inv. rewrite Hd in *.
  destruct (ro_role o) as [role|] eqn:Er; [|discriminate].
  match goal with E : resolveDemoConfig _ (Some (role_input role)) _ = Ok ?c |- _ => rename c into demo; pose proof (resolved_shape _ _ _ _ E) as Hr end.
  destruct (run_evidence o file) as [[mode tun]|] eqn:Ev; [|discriminate]. cbn [rbind] in *. ok_inv.
  match goal with E : resolveDemoConfig _ (Some (role_input _)) VUndefined = Ok ?c |- _ => rename c into peer; pose proof (resolved_shape _ _ _ _ E) as Hp end.
  exists (match role with RoleA => InputA | RoleB => InputB end), peer. cbn [rp_demo rp_published rp_bridge rp_mode].
  split; [done|]. split.
  { rewrite (rf_role _ _ Hr) in Hp. by destruct role. }
  split; [by destruct role|]. split; [by eapply target_nonempty|]. split; [by eapply target_nonempty|]. split; [by eexists _, _|done].
Qed.

(** C36: The page takes what its runner publishes. Whatever the command line says,
    when the runner's checks pass and a path of tunnel evidence is given, the
    page admits the configuration it serves, whole: the machine, role and class of
    evidence the bridge reports under, the two machines' keys and addresses, and
    the calibration candidates of the resolved configuration in their order.  And
    unless the machine is named like its peer, the acoustic session's constructor
    accepts the options the page makes of it.  (The configuration is the resolved
    one; a ready-made [demoConfig] is what tests give.) *)
Theorem published_config_starts_session new_URL other_number o file build plan :
  start_plan new_URL other_number o file build = Ok plan -> ro_demoConfig o = None -> ro_tunEvidence o <> [] ->
  exists pc acoustic network,
    fetchRunnerConfig true (Some (rp_published plan)) = Ok pc
    /\ rc_machineId pc = VString (cf_machineId (rp_bridge plan)) /\ rc_role pc = cf_role (rp_bridge plan)
    /\ ro_role o = Some (rc_role pc) /\ rc_evidenceClass pc = cf_evidenceClass (rp_bridge plan)
    /\ rc_fipsNetwork pc = Some network
    /\ fn_localPublicKey network = js (id_publicKey (dc_identity (rp_demo plan)))
    /\ fn_peerPublicKey network = js (id_publicKey (dc_peer (rp_demo plan)))
    /\ fn_localIpv6 network = js (fp_ipv6Address (dc_fips (rp_demo plan))) /\ fn_peerIpv6 network <> fn_localIpv6 network
    /\ rc_acoustic pc = Some acoustic
    /\ pa_candidates acoustic = map page_candidate (dc_calibrationCandidates (rp_demo plan))
    /\ (ro_machineId o <> expected_peer (rc_role pc) ->
        forall nonce measureProbe send applyCandidate sha256 localeCompare clock,
          let options := session_options nonce measureProbe send applyCandidate sha256 localeCompare (rc_role pc) (ro_machineId o) acoustic in
          create options clock = Ok (initial options clock)).
Proof.
  intros H Hd Ht. destruct (plan_resolved _ _ _ _ _ _ H Hd) as (input & peer & Hc & Hp & Hr & Hm & Hrep & (commit & source & ->) & ->).
  eexists _, _, _. split; [by apply (published_admitted o input _ peer)|].
  destruct (page_acoustic_ok _ _ Hc) as [Ha Hrange].
  split; [done|]. split; [symmetry; apply Hc|]. split; [done|]. split; [done|]. split; [done|]. cbn [demo_network fn_localPublicKey fn_peerPublicKey fn_localIpv6 fn_peerIpv6].
  split; [by rewrite (rf_identity _ _ Hc)|]. split; [by rewrite (rf_peer _ _ Hc)|]. split; [by rewrite (rf_ipv6 _ _ Hc)|].
  split; [by destruct input|]. split; [done|]. split; [done|]. intros Hn **. by apply session_starts.
Qed.

(** A runner of machine A, as the command line starts it. *)
Definition sample_argv : list jsstring :=
  map js ["--machine-id"; "fipwave-a"; "--role"; "A"; "--port"; "4310"; "--report"; ".artifacts/a.json"; "--fips-config"; "fips.yaml";
          "--fast-guard-ms"; "60"]%string.

Definition sample_build : BuildIdentity := mkBuild (js "unresolved") (js "linux") (js "x64") true.

Definition sample_start (argv : list jsstring) : result RunnerPlan :=
  let? o := parseCli decimal_number argv in start_plan sample_URL (fun _ => []) o None sample_build.

Definition sample_options : RunnerOptions :=
  Eval vm_compute in
    match parseCli decimal_number (sample_argv ++ map js ["--tun-evidence"; "tun.json"]%string) with
    | Ok o => o
    | Throw _ => mkRunnerOptions [] None None [] [] None None None false None None
    end.

Lemma published_config_starts_session_witness :
  exists plan pc, start_plan sample_URL (fun _ => []) sample_options None sample_build = Ok plan
    /\ fetchRunnerConfig true (Some (rp_published plan)) = Ok pc /\ rc_machineId pc = vstr "fipwave-a"
    /\ ro_machineId sample_options <> expected_peer (rc_role pc).
Proof.
  destruct (start_plan sample_URL (fun _ => []) sample_options None sample_build) as [plan|] eqn:E; [|vm_compute in E; discriminate E].
  destruct (published_config_starts_session sample_URL (fun _ => []) sample_options None sample_build plan E) as (pc & _ & _ & H & Hm & _ & Hr & _);
    [reflexivity|discriminate|].
  exists plan, pc. split; [done|]. split; [exact H|]. injection Hr as <-. split; [|vm_compute; discriminate].
  rewrite Hm. revert E. vm_compute. intros [= <-]. reflexivity.
Defined.

(** Without [--tun-evidence] the runner starts, and its page refuses the
    configuration. *)
Example no_tun_evidence_refused :
  match sample_start sample_argv with
  | Ok plan => fetchRunnerConfig true (Some (rp_published plan)) = Throw config_invalid
  | Throw _ => False
  end.
Proof. vm_compute. reflexivity. Qed.

(** The page admits a candidate outside the range it is served with; the
    session's constructor refuses it. *)
Definition outside_range : value :=
  obj [("profiles", VArray [vstr QUIET_PROFILE_ID]); ("ranges", obj [("minPayloadBytes", vint 96); ("maxPayloadBytes", vint 100)]);
       ("candidates", VArray [candidate_value (DemoConfig.mkCandidate "quiet-fast" QUIET_PROFILE_ID "quiet" "audible-7k-channel-0" 217 1 100 1 4000)]);
       ("calibration", obj [("maxCandidates", vint 1); ("probesPerDirection", vint 1); ("deadlineMs", vint 1); ("maximumPlaybackGain", vint 2)])]%string.

Example admitted_and_refused :
  match validAcoustic outside_range with
  | Some a => create (session_options (fun _ => []) (fun _ _ => Throw "none"%string) (fun _ _ => Throw "none"%string)
                        (fun _ _ => Throw "none"%string) (fun _ => []) (fun _ _ => Eq) RoleA (js "fipwave-a") a) 0
              = Throw (session_error "candidate is invalid")
  | None => False
  end.
Proof. vm_compute. reflexivity. Qed.
