(* ===== verification/PageFrames.v ===== *)
(** * The frames of the page ([apps/modem-ui/src/main.ts] lines 147-202 and 468-471)

    How the page writes and reads the frames it exchanges with the bridge that
    [QuietProtocol] does not: FIPS packets and their admission, the readiness of
    the acoustic session, and what the microphone captured.  And that the two
    ends, written apart, read each other's frames. *)

From stdpp Require Import base list numbers option strings.
From Stdlib Require Import ZArith Lia SpecFloat.
From S2P Require Import Prelude Utf8 Doubles Fwav Corpus Qualification CyrinxWorker Audio QuietProtocol Bridge.

Definition FIPS_PACKET_TYPE : Z := 9.
Definition FIPS_PACKET_ADMISSION_TYPE : Z := 14.

(** A header with the four fixed bytes, the version, the type and two more. *)
Definition page_header (type low high size epoch sequence rate channels encoding : Z) : bytes :=
  FWAV_MAGIC ++ [1; type; low; high] ++ le_bytes 4 size ++ le_bytes 4 epoch ++ le_bytes 8 sequence ++ le_bytes 4 rate
  ++ le_bytes 2 channels ++ le_bytes 2 encoding.

#[local] Arguments page_header : simpl never.

(** With the page's [browserPacketReady], [epoch] and [bridgeSequence]. *)
Definition encodeFipsPacket (ready : bool) (epoch sequence : Z) (payload : bytes) (trafficClass : Z) : result bytes :=
  reject_if negb ready || (zlen payload =? 0) || (256 * 1024 - FWAV_HEADER_BYTES <? zlen payload)
    with "FIPS packet adapter is not ready for this packet";
  reject_if negb (isFipsTrafficClass trafficClass) with "FIPS packet frame traffic class is invalid";
  Ok (page_header FIPS_PACKET_TYPE trafficClass 0 (zlen payload) epoch sequence 0 0 0 ++ payload).

(** The packet, its class and its sequence. *)
Definition decodeFipsPacket (epoch : Z) (input : bytes) : result (bytes * Z * Z) :=
  reject_if (zlen input <=? FWAV_HEADER_BYTES) || (256 * 1024 <? zlen input) with "FIPS packet frame size is invalid";
  reject_if negb (bool_decide (slice input 0 4 = FWAV_MAGIC)) || negb (read_le 1 4 input =? 1)
            || negb (read_le 1 5 input =? FIPS_PACKET_TYPE)
    with "FIPS packet frame identity is invalid";
  let trafficClass := read_le 1 6 input in
  reject_if negb (read_le 4 8 input =? zlen input - FWAV_HEADER_BYTES) || negb (read_le 1 7 input =? 0)
            || negb (isFipsTrafficClass trafficClass) || negb (read_le 4 24 input =? 0) || negb (read_le 2 28 input =? 0)
            || negb (read_le 2 30 input =? 0)
    with "FIPS packet frame header is invalid";
  reject_if negb (read_le 4 12 input =? epoch) with "FIPS packet frame is stale";
  Ok (drop 32 input, trafficClass, read_le 8 16 input).

(** [sendFipsPacketAdmission], the frame. *)
Definition admission_frame (packetEpoch sequence : Z) (accepted : bool) : result bytes :=
  encodeControlFrame FIPS_PACKET_ADMISSION_TYPE packetEpoch sequence
    [if accepted then FIPS_PACKET_ADMISSION_ACCEPTED else FIPS_PACKET_ADMISSION_QUEUE_FULL].

(** What the page reads of the session's snapshot. *)
Record SessionFacts := mkFacts {
  sf_ready : bool; sf_epoch : Z; sf_sessionId : option Z; sf_settingsDigest : option bytes; sf_lastHeartbeatAtMs : option Z }.

Definition readinessPayload (facts : option SessionFacts) (capability : option (Z * bytes)) (controlEpoch : Z) : option bytes :=
  match facts, capability with
  | Some s, Some (capabilityEpoch, capabilityBytes) =>
      match sf_sessionId s, sf_settingsDigest s, sf_lastHeartbeatAtMs s with
      | Some sessionId, Some digest, Some heartbeatAtMs =>
          if negb (sf_ready s) || negb (sf_epoch s =? controlEpoch) || (sessionId =? 0) || negb (zlen digest =? 32)
             || negb (capabilityEpoch =? controlEpoch) || negb (zlen capabilityBytes =? 16) || (heartbeatAtMs <? 0)
          then None
          else Some (le_bytes 8 sessionId ++ digest ++ le_bytes 8 heartbeatAtMs ++ capabilityBytes)
      | _, _, _ => None
      end
  | _, _ => None
  end.

(** The samples are the bytes of a [Float32Array], which are little-endian. *)
Definition pcmCaptureFrame (epoch sequence firstSampleIndex : Z) (samples : bytes) : bytes :=
  page_header 3 0 0 (8 + zlen samples) epoch sequence 48000 1 1 ++ le_bytes 8 firstSampleIndex ++ samples.

(** ** What the bridge reads *)

Lemma page_header_fwav (t : MessageType) (low high epoch sequence rate channels encoding : Z) (payload : bytes) f :
  f_type f = t -> class_or_flags f = [low; high] -> f_epoch f = epoch -> f_sequence f = sequence -> f_sampleRate f = Some rate ->
  f_channels f = Some channels -> f_encoding f = Some encoding -> f_payload f = payload ->
  page_header (message_type_code t) low high (zlen payload) epoch sequence rate channels encoding = fwav_header f.
Proof. intros <- Hc <- <- Hr Hch He <-. unfold page_header, fwav_header. rewrite Hc, Hr, Hch, He. done. Qed.

(** The frame of a packet, as the bridge has it. *)
Definition packet_frame (epoch sequence : Z) (payload : bytes) (trafficClass : Z) : FwavFrame :=
  mkFrame FIPS_PACKET (Some 0) (Some trafficClass) epoch sequence (Some 0) (Some 0) (Some 0) payload.

(** Numbers that fit a header's fields. *)
Definition stamped (epoch sequence : Z) : Prop := 0 <= epoch <= UINT32_MAX /\ 0 <= sequence <= UINT64_MAX.

Lemma packet_frame_normal epoch sequence payload trafficClass :
  stamped epoch sequence -> isFipsTrafficClass trafficClass = true -> zlen payload <= MAX_PAYLOAD_BYTES ->
  normal_frame (packet_frame epoch sequence payload trafficClass)
  /\ validateFrame (packet_frame epoch sequence payload trafficClass) = Ok (packet_frame epoch sequence payload trafficClass).
Proof.
  intros [He Hs] Hc Hp. pose proof (isFipsTrafficClass_range _ Hc) as Hr. split.
  - split; cbn; try done; try (exists 0; split; [done|]; try split; unfold UINT16_MAX, UINT32_MAX; lia || done). by exists trafficClass.
  - unfold validateFrame, validate_class, validate_controls, validate_pcm, is_message, class_of. cbn [packet_frame f_type f_flags f_trafficClass
      f_epoch f_sequence f_sampleRate f_channels f_encoding f_payload default from_option id].
    rewrite !validateInteger_intro by (unfold UINT16_MAX, UINT32_MAX in *; lia). cbn [rbind].
    rewrite (proj2 (Z.ltb_ge sequence 0)), (proj2 (Z.ltb_ge UINT64_MAX sequence)), (proj2 (Z.ltb_ge MAX_PAYLOAD_BYTES _)) by lia.
    rewrite Hc. done.
Qed.

(** A packet the page encodes is a frame of the bridge's. *)
Lemma packet_encoded ready epoch sequence payload trafficClass raw :
  encodeFipsPacket ready epoch sequence payload trafficClass = Ok raw -> stamped epoch sequence ->
  payload <> [] /\ normal_frame (packet_frame epoch sequence payload trafficClass)
  /\ validateFrame (packet_frame epoch sequence payload trafficClass) = Ok (packet_frame epoch sequence payload trafficClass)
  /\ raw = fwav_header (packet_frame epoch sequence payload trafficClass) ++ payload.
Proof.
  intros H Hs. unfold encodeFipsPacket in H.
  destruct (_ || _ || _) eqn:E1 in H; [discriminate H|]. destruct (isFipsTrafficClass trafficClass) eqn:Hc; [|discriminate H].
  cbn [negb require_not rbind] in H.
  assert (raw = page_header FIPS_PACKET_TYPE trafficClass 0 (zlen payload) epoch sequence 0 0 0 ++ payload) as -> by congruence. bool_split.
  destruct (packet_frame_normal epoch sequence payload trafficClass) as [Hn Hv];
    [done|done|unfold MAX_PAYLOAD_BYTES, MAX_MESSAGE_BYTES, FWAV_HEADER_BYTES in *; lia|].
  split; [by intros ->|]. split; [done|]. split; [done|].
  assert (E : page_header FIPS_PACKET_TYPE trafficClass 0 (zlen payload) epoch sequence 0 0 0
              = fwav_header (packet_frame epoch sequence payload trafficClass)); [|by rewrite E].
  apply (page_header_fwav FIPS_PACKET); try done. apply isFipsTrafficClass_range in Hc.
  assert (trafficClass = 1 \/ trafficClass = 2 \/ trafficClass = 3) as [-> | [-> | ->]] by lia; done.
Qed.

Lemma packet_decodes ready epoch sequence payload trafficClass raw :
  encodeFipsPacket ready epoch sequence payload trafficClass = Ok raw -> stamped epoch sequence ->
  decodeFrame raw = Ok (packet_frame epoch sequence payload trafficClass).
Proof.
  intros H Hs. destruct (packet_encoded _ _ _ _ _ _ H Hs) as (_ & Hn & Hv & ->). rewrite <- Hv. exact (decode_header _ Hn).
Qed.

(** ** What the page reads *)

Lemma validateFrame_inv f v : validateFrame f = Ok v -> v = with_defaults f.
Proof. unfold validateFrame. intros H. result_inv. done. Qed.

(** The bytes of a frame the bridge encodes, its fields read back. *)
Record frame_bytes (f : FwavFrame) (raw : bytes) : Prop := {
  fb_length : zlen raw = 32 + zlen (f_payload f);
  fb_size : zlen raw <= MAX_MESSAGE_BYTES;
  fb_magic : slice raw 0 4 = FWAV_MAGIC;
  fb_version : read_le 1 4 raw = 1;
  fb_type : read_le 1 5 raw = message_type_code (f_type f);
  fb_pair : slice raw 6 8 = class_or_flags (with_defaults f);
  fb_payloadLength : read_le 4 8 raw = zlen (f_payload f);
  fb_epoch : read_le 4 12 raw = f_epoch f;
  fb_sequence : read_le 8 16 raw = f_sequence f;
  fb_rate : read_le 4 24 raw = default 0 (f_sampleRate f);
  fb_channels : read_le 2 28 raw = default 0 (f_channels f);
  fb_encoding : read_le 2 30 raw = default 0 (f_encoding f);
  fb_payload : drop 32 raw = f_payload f }.

Lemma encoded_bytes f raw : encodeFrame f = Ok raw -> frame_bytes f raw.
Proof.
  unfold encodeFrame. destruct (validateFrame f) as [v|] eqn:R; [|done]. cbn [rbind]. intros H.
  assert (raw = fwav_header v ++ f_payload v) as -> by congruence. clear H.
  pose proof (validateFrame_normal _ _ R) as Hn. apply validateFrame_inv in R as ->.
  destruct (fwav_header_fields _ (f_payload (with_defaults f)) Hn) as (F0 & F4 & F5 & F6 & F8 & F12 & F16 & F24 & F28 & F30).
  assert (Hl : zlen (fwav_header (with_defaults f) ++ f_payload (with_defaults f)) = 32 + zlen (f_payload f)).
  { unfold zlen. rewrite length_app, length_fwav_header. cbn [with_defaults f_payload]. lia. }
  pose proof (nf_payload _ Hn) as Hp. cbn [with_defaults f_payload] in Hp.
  injection F24 as F24. injection F28 as F28. injection F30 as F30.
  split; try done.
  - rewrite Hl. unfold MAX_PAYLOAD_BYTES, FWAV_HEADER_BYTES in Hp. lia.
  - apply drop_app_length'. by rewrite length_fwav_header.
Qed.

(** What validation lets through as a packet. *)
Lemma packet_valid f v :
  validateFrame f = Ok v -> f_type f = FIPS_PACKET ->
  isFipsTrafficClass (class_of f) = true /\ default 0 (f_sampleRate f) = 0 /\ default 0 (f_channels f) = 0
  /\ default 0 (f_encoding f) = 0.
Proof.
  unfold validateFrame, validate_class, validate_pcm, is_message. intros H Ht. rewrite Ht in H.
  rewrite (bool_decide_eq_true_2 (FIPS_PACKET = FIPS_PACKET)) in H by done.
  rewrite !(bool_decide_eq_false_2 (FIPS_PACKET = _)) in H by done. cbn [orb] in H. result_inv.
  unfold require_not in *. repeat match goal with E : (if ?b then Throw _ else Ok _) = Ok _ |- _ => destruct b eqn:?; [discriminate E|clear E] end.
  unfold PCM_NONE in *. bool_split. done.
Qed.

Lemma packet_read epoch f raw :
  encodeFrame f = Ok raw -> f_type f = FIPS_PACKET -> f_payload f <> [] -> f_epoch f = epoch ->
  decodeFipsPacket epoch raw = Ok (f_payload f, class_of f, f_sequence f).
Proof.
  intros H Ht Hp <-. destruct (encoded_bytes _ _ H) as [B1 B2 B3 B4 B5 B6 B7 B8 B9 B10 B11 B12 B13].
  unfold encodeFrame in H. destruct (validateFrame f) as [v|] eqn:R; [|discriminate H].
  destruct (packet_valid _ _ R Ht) as (Hc & Hr & Hch & He).
  assert (E6 : read_le 1 6 raw = class_of f /\ read_le 1 7 raw = 0).
  { unfold class_or_flags, is_message in B6. cbn [with_defaults f_type f_trafficClass] in B6. unfold is_message in B6. rewrite Ht in B6.
    rewrite (bool_decide_eq_true_2 (FIPS_PACKET = FIPS_PACKET)) in B6 by done. cbn [default from_option id] in B6.
    apply isFipsTrafficClass_range in Hc. change (le_bytes 1 (class_of f)) with [class_of f mod 256] in B6.
    rewrite Z.mod_small in B6 by lia. apply (slice_pair _ 6) in B6 as (E1 & E2 & _). done. }
  destruct E6 as [E6 E7].
  assert (0 < zlen (f_payload f)) by (unfold zlen; destruct (f_payload f); [done|cbn; lia]).
  unfold decodeFipsPacket. rewrite B3, B4, B5, B7, B8, B9, B10, B11, B12, B13, E6, E7, Hc, Hr, Hch, He, B1, Ht.
  unfold FWAV_HEADER_BYTES, MAX_MESSAGE_BYTES in *. rewrite (proj2 (Z.leb_gt _ _)), (proj2 (Z.ltb_ge _ _)) by lia.
  rewrite Z.add_simpl_l, !Z.eqb_refl. rewrite bool_decide_eq_true_2 by done. done.
Qed.

(** What the page encodes it reads itself. *)
Lemma page_reads_itself ready epoch sequence payload trafficClass raw :
  encodeFipsPacket ready epoch sequence payload trafficClass = Ok raw -> stamped epoch sequence ->
  decodeFipsPacket epoch raw = Ok (payload, trafficClass, sequence).
Proof.
  intros H Hs. destruct (packet_encoded _ _ _ _ _ _ H Hs) as (Hp & _ & Hv & ->).
  apply (packet_read epoch (packet_frame epoch sequence payload trafficClass)); try done. unfold encodeFrame. by rewrite Hv.
Qed.

(** ** Control messages *)

(** A message that carries no samples and no packet. *)
Definition plain (t : MessageType) : bool :=
  match t with PCM_CAPTURE | PCM_PLAYBACK | FIPS_PACKET => false | _ => true end.

Lemma plain_decodes t epoch sequence payload raw :
  encodeControlFrame (message_type_code t) epoch sequence payload = Ok raw -> plain t = true ->
  validate_controls (control_frame t epoch sequence payload) = Ok tt ->
  decodeFrame raw = Ok (with_defaults (control_frame t epoch sequence payload)).
Proof.
  intros H Hp Hc. assert (Ht : t <> FIPS_PACKET) by (by intros ->). rewrite (control_decodes _ _ _ _ _ H Ht).
  unfold encodeControlFrame in H. result_inv. bool_split.
  assert (Hm : is_message FIPS_PACKET (control_frame t epoch sequence payload) = false
               /\ is_message PCM_CAPTURE (control_frame t epoch sequence payload) = false
               /\ is_message PCM_PLAYBACK (control_frame t epoch sequence payload) = false) by (by destruct t).
  destruct Hm as (M1 & M2 & M3).
  unfold validateFrame, validate_class, validate_pcm. rewrite M1, M2, M3, Hc.
  cbn [control_frame f_flags f_epoch f_sequence f_payload f_sampleRate f_channels f_encoding f_trafficClass default from_option id is_some].
  rewrite !validateInteger_intro by (unfold UINT16_MAX, UINT32_MAX; lia). cbn [rbind].
  unfold UINT64_MAX, MAX_PAYLOAD_BYTES, MAX_MESSAGE_BYTES in *.
  rewrite (proj2 (Z.ltb_ge sequence 0)), (proj2 (Z.ltb_ge _ sequence)), (proj2 (Z.ltb_ge _ (zlen payload))) by lia. done.
Qed.

Lemma admission_decodes epoch sequence accepted raw :
  admission_frame epoch sequence accepted = Ok raw ->
  exists f, decodeFrame raw = Ok f /\ f_type f = FIPS_PACKET_ADMISSION /\ f_epoch f = epoch /\ f_sequence f = sequence
    /\ decodeFipsPacketAdmission (f_payload f)
       = Ok (if accepted then FIPS_PACKET_ADMISSION_ACCEPTED else FIPS_PACKET_ADMISSION_QUEUE_FULL).
Proof.
  unfold admission_frame. intros H. eexists. split; [apply (plain_decodes FIPS_PACKET_ADMISSION); [exact H|done|by destruct accepted]|].
  split; [done|]. split; [done|]. split; [done|]. by destruct accepted.
Qed.

Lemma readiness_decodes s capability epoch payload raw :
  readinessPayload (Some s) (Some (epoch, capability)) epoch = Some payload -> encodeControlFrame 12 epoch 0 payload = Ok raw ->
  exists sessionId digest heartbeatAtMs,
    sf_sessionId s = Some sessionId /\ sf_settingsDigest s = Some digest /\ sf_lastHeartbeatAtMs s = Some heartbeatAtMs
    /\ (0 <= sessionId <= UINT64_MAX -> heartbeatAtMs <= UINT64_MAX -> all_zero digest = false -> all_zero capability = false ->
        exists f, decodeFrame raw = Ok f /\ f_type f = ACOUSTIC_READY /\ f_epoch f = epoch
          /\ decodeAcousticReadinessProof (f_payload f) = Ok (mkReadiness sessionId digest heartbeatAtMs capability)).
Proof.
  unfold readinessPayload. intros H Henc. destruct (sf_sessionId s) as [sessionId|]; [|done].
  destruct (sf_settingsDigest s) as [digest|]; [|done]. destruct (sf_lastHeartbeatAtMs s) as [heartbeat|]; [|done].
  destruct (_ || _) eqn:E in H; [done|]. bool_split. exists sessionId, digest, heartbeat.
  split; [done|]. split; [done|]. split; [done|]. intros Hs Hh Hd Hc.
  assert (payload = le_bytes 8 sessionId ++ digest ++ le_bytes 8 heartbeat ++ capability) as -> by congruence.
  assert (Hp : decodeAcousticReadinessProof (le_bytes 8 sessionId ++ digest ++ le_bytes 8 heartbeat ++ capability)
               = Ok (mkReadiness sessionId digest heartbeat capability)).
  { unfold UINT64_MAX, zlen in *. assert (Ld : length digest = 32%nat) by lia. assert (Lc : length capability = 16%nat) by lia.
    unfold decodeAcousticReadinessProof.
    rewrite (slice_skip 8 40), (slice_skip 48 64), length_le_bytes by (rewrite length_le_bytes; lia).
    rewrite slice_here by done. rewrite (slice_skip (48 - 8)), Ld by lia.
    rewrite (slice_skip (48 - 8 - 32)), length_le_bytes by (rewrite length_le_bytes; lia).
    rewrite read_le_here by (cbn; lia). rewrite (read_le_skip 8 40), length_le_bytes by (rewrite length_le_bytes; lia).
    rewrite (read_le_skip 8 (40 - 8)), Ld by lia. rewrite read_le_here by (cbn; lia).
    rewrite <- (app_nil_r capability), slice_here, app_nil_r by done.
    unfold ACOUSTIC_READINESS_PROOF_BYTES, zlen. rewrite !length_app, !length_le_bytes, Ld, Lc, Hd, Hc.
    rewrite (proj2 (Z.eqb_neq sessionId 0)) by lia. done. }
  eexists. split; [apply (plain_decodes ACOUSTIC_READY); [exact Henc|done|]|done].
  unfold validate_controls, is_message. cbn [control_frame f_type f_flags f_sequence f_payload]. rewrite Hp. done.
Qed.

(** ** Samples *)

(** Whole samples, some of them, that a frame has room for. *)
Definition sampled (samples : bytes) : Prop := zlen samples mod 4 = 0 /\ 0 < zlen samples <= MAX_PAYLOAD_BYTES - 8.

Definition capture_frame (epoch sequence firstSampleIndex : Z) (samples : bytes) : FwavFrame :=
  mkFrame PCM_CAPTURE (Some 0) None epoch sequence (Some 48000) (Some 1) (Some 1) (le_bytes 8 firstSampleIndex ++ samples).

Lemma pcm_payload firstSampleIndex samples :
  0 <= firstSampleIndex <= UINT64_MAX -> sampled samples ->
  decodePcmPayload (le_bytes 8 firstSampleIndex ++ samples) 1 = Ok (firstSampleIndex, samples)
  /\ zlen (le_bytes 8 firstSampleIndex ++ samples) = 8 + zlen samples.
Proof.
  intros Hf [Hm Hl]. assert (L : zlen (le_bytes 8 firstSampleIndex ++ samples) = 8 + zlen samples).
  { unfold zlen. rewrite length_app, length_le_bytes. lia. }
  split; [|exact L]. unfold decodePcmPayload. rewrite L. unfold PCM_SAMPLE_INDEX_BYTES, UINT64_MAX in *.
  rewrite (proj2 (Z.leb_gt (8 + zlen samples) 8)) by lia. replace (8 + zlen samples - 8) with (zlen samples) by lia.
  change (4 * 1) with 4. rewrite Hm. change (1 <=? 0) with false. change (65535 <? 1) with false. cbn [negb orb require_not rbind Z.eqb].
  rewrite read_le_here by (cbn; lia). by rewrite drop_app_length' by (by rewrite length_le_bytes).
Qed.

Lemma capture_decodes epoch sequence firstSampleIndex samples :
  stamped epoch sequence -> 0 <= firstSampleIndex <= UINT64_MAX -> sampled samples ->
  decodeFrame (pcmCaptureFrame epoch sequence firstSampleIndex samples)
  = Ok (capture_frame epoch sequence firstSampleIndex samples).
Proof.
  intros [He Hs] Hf Hp. destruct (pcm_payload _ _ Hf Hp) as [Hd HL]. pose proof (proj2 Hp) as Hl.
  set (f := capture_frame epoch sequence firstSampleIndex samples). set (payload := le_bytes 8 firstSampleIndex ++ samples) in *.
  assert (Hn : normal_frame f).
  { unfold f. split; cbn [capture_frame f_type f_flags f_trafficClass f_epoch f_sequence f_sampleRate f_channels f_encoding f_payload];
      try done; try lia; try (eexists; split; [done|]; unfold UINT16_MAX, UINT32_MAX; lia).
    fold payload. rewrite HL. lia. }
  unfold pcmCaptureFrame. fold payload. rewrite <- HL.
  change (page_header 3) with (page_header (message_type_code PCM_CAPTURE)).
  rewrite (page_header_fwav PCM_CAPTURE 0 0 epoch sequence 48000 1 1 payload f) by done.
  transitivity (validateFrame f); [exact (decode_header f Hn)|].
  unfold validateFrame, validate_class, validate_controls, validate_pcm, is_message, class_of.
  cbn [f capture_frame f_type f_flags f_trafficClass f_epoch f_sequence f_sampleRate f_channels f_encoding f_payload default from_option id is_some].
  fold payload. rewrite Hd, HL, !validateInteger_intro by (unfold UINT16_MAX, UINT32_MAX in *; lia). cbn [rbind].
  rewrite (proj2 (Z.ltb_ge sequence 0)), (proj2 (Z.ltb_ge UINT64_MAX sequence)), (proj2 (Z.ltb_ge MAX_PAYLOAD_BYTES _)) by lia.
  done.
Qed.

(** The fields of a playback frame, as the page reads them. *)
Lemma playback_read epoch sequence firstSampleIndex samples raw :
  playback_frame epoch sequence firstSampleIndex samples = Ok raw -> zlen samples = PCM_BYTES ->
  exists chunk, validatePcmPlaybackFrame raw epoch = Ok chunk /\ ch_epoch chunk = epoch /\ ch_sequence chunk = sequence
    /\ ch_firstSampleIndex chunk = firstSampleIndex /\ ch_samples chunk = samples
    /\ ch_guardSamples chunk = Some CYRINX_GUARD_SAMPLES.
Proof.
  unfold playback_frame. intros H Hl. destruct (encodePcmPayload firstSampleIndex samples) as [payload|] eqn:Ep; [|discriminate H].
  cbn [rbind] in H. unfold encodePcmPayload, require_not in Ep. destruct (_ || _) eqn:Eb in Ep; [discriminate Ep|].
  assert (payload = le_bytes 8 firstSampleIndex ++ samples) as -> by (cbn [rbind] in Ep; congruence). clear Ep. bool_split.
  destruct (encoded_bytes _ _ H) as [B1 B2 B3 B4 B5 B6 B7 B8 B9 B10 B11 B12 B13]. clear H.
  cbn [f_type f_epoch f_sequence f_sampleRate f_channels f_encoding f_payload default from_option id message_type_code] in *.
  change (class_or_flags _) with [1; 0] in B6. apply (slice_pair _ 6) in B6 as (_ & _ & B6).
  assert (L : zlen (le_bytes 8 firstSampleIndex ++ samples) = 8 + PCM_BYTES).
  { rewrite <- Hl. unfold zlen. rewrite length_app, length_le_bytes. lia. }
  rewrite L in B1, B7. assert (B32 : read_le 8 32 raw = firstSampleIndex).
  { unfold read_le, slice. rewrite B13. change (32 + 8 - 32)%nat with 8%nat. rewrite take_app_length' by (by rewrite length_le_bytes).
    rewrite le_value_le_bytes. apply Z.mod_small. unfold UINT64_MAX in *. cbn. lia. }
  assert (B40 : drop 40 raw = samples).
  { change 40%nat with (32 + 8)%nat. rewrite <- drop_drop, B13. apply drop_app_length'. by rewrite length_le_bytes. }
  unfold validatePcmPlaybackFrame. rewrite B1, B3, B4, B5, B6, B7, B8, B9, B10, B11, B12, B32, B40, (Z.eqb_refl epoch).
  rewrite (bool_decide_eq_true_2 (FWAV_MAGIC = FWAV_MAGIC)) by done. unfold sample_count. rewrite Hl.
  eexists. split; [reflexivity|]. done.
Qed.

Lemma reset_read acknowledge epoch raw :
  encodeFrame (reset_frame acknowledge epoch) = Ok raw -> decodeResetFrame raw (epoch - 1) = Ok epoch.
Proof.
  intros H. destruct (encoded_bytes _ _ H) as [B1 B2 B3 B4 B5 B6 B7 B8 B9 B10 B11 B12 B13]. clear H.
  cbn [reset_frame f_type f_epoch f_sequence f_sampleRate f_channels f_encoding f_payload default from_option id message_type_code] in *.
  change (zlen []) with 0 in *. unfold decodeResetFrame, readFwavMessageType.
  change [0x46; 0x57; 0x41; 0x56] with FWAV_MAGIC. unfold FWAV_HEADER_BYTES.
  rewrite B1, B3, B4, B5, B7, B8, B9, B10, B11, B12. rewrite (bool_decide_eq_true_2 (FWAV_MAGIC = FWAV_MAGIC)) by done.
  cbn [negb orb Z.ltb Z.eqb Z.add Z.sub Z.compare Pos.compare Pos.compare_cont Pos.eqb require_not rbind]. unfold FWAV_RESET_TYPE.
  replace (epoch - 1 + 1) with epoch by lia. by rewrite (Z.eqb_refl epoch).
Qed.

(** ** The two ends *)

(** C40: The page and the bridge read each other's frames, though each end has a
    codec of its own.  What the page encodes - a FIPS packet, its admission, the
    readiness of the session, captured samples - the bridge decodes to what was
    meant; and what the bridge encodes - a packet of the daemon's that is not
    empty, the worker's playback, a RESET - the page decodes to what was meant. *)
Theorem ends_read_each_other epoch sequence :
  stamped epoch sequence ->
  (forall ready payload trafficClass raw,
     encodeFipsPacket ready epoch sequence payload trafficClass = Ok raw ->
     decodeFrame raw = Ok (packet_frame epoch sequence payload trafficClass) /\ decodeFipsPacket epoch raw = Ok (payload, trafficClass, sequence))
  /\ (forall f raw, encodeFrame f = Ok raw -> f_type f = FIPS_PACKET -> f_payload f <> [] ->
        decodeFipsPacket (f_epoch f) raw = Ok (f_payload f, class_of f, f_sequence f))
  /\ (forall accepted raw, admission_frame epoch sequence accepted = Ok raw ->
        exists f, decodeFrame raw = Ok f /\ f_type f = FIPS_PACKET_ADMISSION /\ f_epoch f = epoch /\ f_sequence f = sequence
          /\ decodeFipsPacketAdmission (f_payload f)
             = Ok (if accepted then FIPS_PACKET_ADMISSION_ACCEPTED else FIPS_PACKET_ADMISSION_QUEUE_FULL))
  /\ (forall s capability payload raw,
        readinessPayload (Some s) (Some (epoch, capability)) epoch = Some payload -> encodeControlFrame 12 epoch 0 payload = Ok raw ->
        exists sessionId digest heartbeatAtMs,
          sf_sessionId s = Some sessionId /\ sf_settingsDigest s = Some digest /\ sf_lastHeartbeatAtMs s = Some heartbeatAtMs
          /\ (0 <= sessionId <= UINT64_MAX -> heartbeatAtMs <= UINT64_MAX -> all_zero digest = false -> all_zero capability = false ->
              exists f, decodeFrame raw = Ok f /\ f_type f = ACOUSTIC_READY /\ f_epoch f = epoch
                /\ decodeAcousticReadinessProof (f_payload f) = Ok (mkReadiness sessionId digest heartbeatAtMs capability)))
  /\ (forall firstSampleIndex samples, 0 <= firstSampleIndex <= UINT64_MAX -> sampled samples ->
        exists f, decodeFrame (pcmCaptureFrame epoch sequence firstSampleIndex samples) = Ok f /\ f_type f = PCM_CAPTURE
          /\ f_epoch f = epoch /\ f_sequence f = sequence /\ decodePcmPayload (f_payload f) 1 = Ok (firstSampleIndex, samples))
  /\ (forall firstSampleIndex samples raw,
        playback_frame epoch sequence firstSampleIndex samples = Ok raw -> zlen samples = PCM_BYTES ->
        exists chunk, validatePcmPlaybackFrame raw epoch = Ok chunk /\ ch_sequence chunk = sequence
          /\ ch_firstSampleIndex chunk = firstSampleIndex /\ ch_samples chunk = samples)
  /\ (forall acknowledge raw, encodeFrame (reset_frame acknowledge epoch) = Ok raw -> decodeResetFrame raw (epoch - 1) = Ok epoch).
Proof.
  intros Hst. split; [|split; [|split; [|split; [|split; [|split]]]]].
  - intros ready payload trafficClass raw H. split; [by eapply packet_decodes|]. by apply (page_reads_itself ready).
  - intros f raw H Ht Hp. by eapply packet_read.
  - intros accepted raw. apply admission_decodes.
  - intros s capability payload raw. apply readiness_decodes.
  - intros i samples Hi Hs. exists (capture_frame epoch sequence i samples). split; [by apply capture_decodes|].
    split; [done|]. split; [done|]. split; [done|]. by apply pcm_payload.
  - intros i samples raw H Hl. destruct (playback_read _ _ _ _ _ H Hl) as (chunk & K1 & _ & K2 & K3 & K4 & _). by exists chunk.
  - intros acknowledge raw. apply reset_read.
Qed.

Definition sample_capability : bytes := repeat 9 16.

Definition sample_facts : SessionFacts := mkFacts true 3 (Some 77) (Some (repeat 5 32)) (Some 1000).

Definition sample_pcm : bytes := repeat 0 (Z.to_nat PCM_BYTES).

Lemma sample_playback : is_ok (playback_frame 3 7 0 sample_pcm) = true.
Proof. vm_compute. reflexivity. Qed.

Lemma sample_pcm_length : zlen sample_pcm = PCM_BYTES.
Proof. vm_compute. reflexivity. Qed.

Lemma ends_read_each_other_witness :
  (exists raw, encodeFipsPacket true 3 7 [1; 2; 3] 3 = Ok raw /\ decodeFrame raw = Ok (packet_frame 3 7 [1; 2; 3] 3)
     /\ decodeFipsPacket 3 raw = Ok ([1; 2; 3], 3, 7))
  /\ (exists raw, playback_frame 3 7 0 sample_pcm = Ok raw
        /\ exists chunk, validatePcmPlaybackFrame raw 3 = Ok chunk /\ ch_samples chunk = sample_pcm)
  /\ (exists payload raw, readinessPayload (Some sample_facts) (Some (3, sample_capability)) 3 = Some payload
        /\ encodeControlFrame 12 3 0 payload = Ok raw
        /\ exists f, decodeFrame raw = Ok f /\ decodeAcousticReadinessProof (f_payload f) = Ok (mkReadiness 77 (repeat 5 32) 1000 sample_capability)).
Proof.
  destruct (ends_read_each_other 3 7) as (H1 & _ & _ & H4 & _ & H6 & _); [unfold stamped, UINT32_MAX, UINT64_MAX; lia|]. split; [|split].
  - destruct (encodeFipsPacket true 3 7 [1; 2; 3] 3) as [raw|] eqn:E; [|discriminate E]. exists raw. split; [reflexivity|]. exact (H1 _ _ _ _ E).
  - destruct (playback_frame 3 7 0 sample_pcm) as [raw|] eqn:E; [|exfalso; pose proof sample_playback as K; rewrite E in K; discriminate K].
    exists raw. split; [reflexivity|]. destruct (H6 _ _ _ E) as (chunk & K1 & _ & _ & K2); [exact sample_pcm_length|]. exists chunk. split; [exact K1|exact K2].
  - destruct (readinessPayload (Some sample_facts) (Some (3, sample_capability)) 3) as [payload|] eqn:Ep; [|discriminate Ep].
    destruct (encodeControlFrame 12 3 0 payload) as [raw|] eqn:E; [|injection Ep as <-; discriminate E].
    exists payload, raw. split; [reflexivity|]. split; [exact E|]. destruct (H4 _ _ _ _ Ep E) as (i & d & h & [= <-] & [= <-] & [= <-] & K).
    destruct K as (f & K1 & _ & _ & K2); [unfold UINT64_MAX; lia|unfold UINT64_MAX; lia|reflexivity|reflexivity|]. exists f. split; [exact K1|exact K2].
Defined.

(** The bridge passes an empty packet of the daemon's on; the page refuses it. *)
Example empty_packet_refused :
  exists raw, encodeFrame (packet_frame 3 7 [] 3) = Ok raw /\ is_ok (decodeFrame raw) = true
    /\ decodeFipsPacket 3 raw = Throw "FIPS packet frame size is invalid".
Proof. eexists. split; [vm_compute; reflexivity|]. split; vm_compute; reflexivity. Qed.
